(* ===== verification/_CoqProject ===== *)
-Q . S2P
Prelude.v
Bytes.v
Arith64.v
DList.v
DListSort.v
Bitmap.v
Hash.v
HeapSort.v
CString.v
Vaddr.v
PageAlloc.v
Palloc.v
Malloc.v
MallocThms.v
FixedPoint.v
Thread.v
Synch.v
Sched.v
SchedInv.v
SchedOps.v
SchedCalls.v
SchedTimer.v
Donation.v
SchedThms.v
RwLock.v
Block.v
Cache.v
CacheThms.v
Inode.v
InodeIO.v
FileThms.v
Directory.v
DirThms.v
Pagedir.v
Swap.v
Vm.v
VmVictim.v
VmOps.v
VmThms.v
Elf.v
ElfThms.v
Args.v
Process.v
ProcessThms.v
Syscall.v
SyscallThms.v
Stdio.v
Ustar.v
Random.v
IntQ.v
