(* ===== verification/Prelude.v ===== *)
(** * Kernel-Sanders (a Pintos kernel): verification library

    The program is a small operating system kernel for the 80x86: threads with priorities,
    priority donation and a feedback-queue scheduler (src/src/threads), drivers
    (src/src/devices), a C library for the kernel (src/src/lib, src/src/lib/kernel), user
    processes (src/src/userprog), demand paging (src/src/vm) and a file system behind a
    buffer cache (src/src/filesys).  This library translates the functions of its core into
    definitions that run, and proves what they promise.  Definitions carry the names of the
    C functions; paths below are relative to src/src.

    ** How the code is translated

    - Integers are [Z].  [u32], [i32], [u64], [i64] (below) cut a value to its C type
      wherever the source may overflow; masks and shifts are [Z.land], [Z.lor], [Z.shiftr].
    - A routine that may stop the kernel returns [result]; the faults are those of
      [fault].  Routines with state are in the monad [ST], with the state of the
      component as a record.  [ASSERT] is kept in every definition, and so are early returns.
    - A pointer is its address, and an object a binding of a finite map, wherever identity or
      aliasing matters: list elements ([DList]), threads and locks ([Thread]), bytes
      ([CString], [Palloc]), inodes and files ([Inode]), page tables ([Pagedir]).
    - Queues of threads, buckets and free lists are sequences; [DList] proves that the list
      library acts on memory as those sequences do, so the clients are stated over them.
    - A loop without a structural argument has fuel, and [OutOfFuel] is a fault of its own.
      The theorems show the fuel is enough: the number of elements in memory for loops over
      lists, the number of mapped bytes for scans of strings, the byte count for the
      loops of reads and writes, the number of locks for the donation chain.  Where a loop
      of the source does not end, the theorem says so for every fuel.
    - Code that waits.  In the scheduler a thread that blocks leaves the rest of its calls as
      frames on its stack, and [Synch.step] interleaves the threads and the timer
      interrupt wherever interrupts are enabled.  In the reader/writer lock every
      operation on a lock or counter is a step.  In the process table and the interrupt queues a step is the part
      of a function between two places where its thread goes to sleep, which is where other
      threads run.  The cache and everything above it run one
      thread at a time; to wait there for a thread that does not run is the fault [Blocked].
    - Code outside the sources is a parameter with its laws: the block driver
      ([Block.BlockDriver]), the page allocator below malloc ([PageAlloc]), the element comparisons and hash functions
      of clients, the file store below paging ([Vm.FileStoreLaws]).

    ** Files

    - [Prelude]: results, the state monad, machine integers, shared lemmas and tactics.
    - [Arith64]: lib/arithmetic.c.  [FixedPoint]: threads/fixed_point.c.
    - [DList], [DListSort]: lib/kernel/list.c, with its merge sort.  [Bitmap]:
      lib/kernel/bitmap.c.  [Hash]: lib/kernel/hash.c.  [HeapSort]: lib/stdlib.c.
      [CString]: lib/string.c.
    - [Vaddr]: threads/vaddr.h.  [PageAlloc]: the interface between page and block allocator.
      [Palloc]: threads/palloc.c.  [Malloc], [MallocThms]: threads/malloc.c.
    - [Thread], [Synch]: threads/thread.c, threads/synch.c, and the parts of
      threads/interrupt.c and devices/timer.c they use.  [Sched], [SchedInv], [SchedOps],
      [SchedCalls], [SchedTimer]: the invariant of the kernel and its preservation.
      [Donation]: the chain of priority donations.  [SchedThms]: the theorems.
    - [Block]: devices/block.c and devices/partition.c, with the class of block drivers.
      [RwLock]: the reader/writer lock of filesys/cache.c.  [Cache], [CacheThms]:
      filesys/cache.c, over any block driver.
    - [Inode], [InodeIO], [FileThms]: filesys/inode.c, filesys/free-map.c, filesys/file.c.
    - [Directory], [DirThms]: filesys/directory.c and filesys/filesys.c, over [Inode].
    - [Pagedir]: userprog/pagedir.c and threads/pte.h.  [Swap]: vm/swap.c.  [Vm], [VmVictim],
      [VmOps], [VmThms]: vm/frame.c, vm/page.c, and the page fault handler of
      userprog/exception.c, over page directories, swap and files.
    - userprog/process.c: [Elf], [ElfThms] the loader, on [Vm]; [Args] the command line on the stack;
      [Process], [ProcessThms] the process table, on the lists of [DList].
    - [Syscall], [SyscallThms]: userprog/syscall.c, on [Directory] and [Inode].
    - [Bytes]: fields of structures in memory and on disk.  [Stdio]: lib/stdio.c.  [Ustar]:
      lib/ustar.c.  [Random]: lib/random.c.  [IntQ]: devices/intq.c.

    ** What is shown

    - Library: sorting sorts (stably for lists), division is exact, searches find, strings are
      bounded, a hash table is a finite map, a bitmap an array of bits.
    - Memory: [palloc] and [malloc] return fresh memory that overlaps nothing in use, and keep
      their invariants.  Sizes near 2^32 wrap around.
    - Scheduler: under every interleaving exactly one thread runs, each other thread is in one
      queue that agrees with its status, and a lock has one holder; the highest priority
      runs; semaphores and the timer wake the right threads.  The donation chain can be a
      cycle, and then the kernel hangs.
    - Devices and file system: a partition reaches only its own sectors; the cache is transparent
      and evicts the least recently used block; a file is a sequence of bytes.  Readers and
      writers of a block exclude each other, but upgrade and downgrade can deadlock;
      the read-ahead thread leaks its lock; stale cached sectors break the creation of files.
    - Directories: a directory is a finite map from names to inodes.  Paths that begin with a dot
      do not resolve, and failed operations leak sectors.
    - Virtual memory: a page directory is a finite map from user pages to frames; the swap device is a
      store of pages; second-chance eviction ends; demand paging is transparent, down to
      the bytes of a page that was evicted.  A page keeps a swap slot after it was
      freed, and a new frame is open to eviction before it has its page.
    - Processes: a segment that the loader accepts becomes pages with the bytes of the file, and
      what the loader lets through stops the kernel; the command line is laid out by the
      calling convention; a parent gets the exit code of its child in either order, and the
      table loses entries after failed loads and orphans.  Descriptors are a finite map, and the read
      call equals one read of the file.
    - Formats: what printf prints atoi reads back, vsnprintf stays in its buffer, a tar
      header is parsed back to the file it was made for.
    - Interrupt queues are first in first out under every interleaving; two readers of the
      keyboard can stop the kernel.  The random generator keeps a permutation and loses no state.

    ** Bounds

    The free map is kept in a file, and growing a file allocates from the free map: [Inode]
    ties this knot with a depth of 2, since the free map file of a formatted disk does not
    grow.  The cache has 64 blocks, an inode 60 direct, 40 indirect and one doubly
    indirect sector, as in the source.  Machine integers have their C widths.
    Directory loops have fuel for the entries that fit the length of the file, a scan of a user
    string the size of the address space, the digits of a number 64 (a 64-bit number in
    binary), the loop over the pages of a segment 2^20, and a chain of processes the 512 entries
    of the table; the theorems that use them show that they end before.

    ** Not modelled

    Memory mappings ([mmap], [munmap] of userprog/syscall.c), and the copying of files from and to
    a scratch device at boot (filesys/fsutil.c).  Hardware drivers (IDE, keyboard, serial, VGA, PIT, RTC), descriptor
    tables and the start-up code program devices whose behaviour is not in the sources.
    Output (console, printf to the screen, statistics) changes no state that other code reads.
    The system call stubs of the user library are a trap each.  The shell and the boot-sector
    game are programs of their own; examples, tests and host tools are around the kernel and
    not part of it. *)

From stdpp Require Export base list numbers gmap.
From stdpp Require Import strings.
From Stdlib Require Export ZArith Lia.

Open Scope Z_scope.

(** ** Outcomes of kernel code

    A kernel routine returns, or stops the machine: [ASSERT] and [PANIC] halt the
    kernel (lib/debug.h, lib/kernel/debug.c), a bad [divl] raises #DE, and a
    dereference of a pointer to no object is a memory fault.  [Blocked] is the
    value of an operation that waits for another thread, in a model where no other
    thread runs.  [OutOfFuel] is the
    value of a bounded run of a loop that did not reach its exit. *)

Inductive fault : Type :=
  | AssertFailed
  | Panicked
  | DivideError
  | MemoryFault
  | Blocked
  | OutOfFuel.

Inductive result (A : Type) : Type :=
  | Ok (a : A)
  | Err (f : fault).

Arguments Ok {A} _.
Arguments Err {A} _.

#[export] Instance fault_eq_dec : EqDecision fault.
Proof. solve_decision. Defined.

#[export] Instance result_eq_dec `{EqDecision A} : EqDecision (result A).
Proof. solve_decision. Defined.

#[export] Instance result_ret : MRet result := λ A a, Ok a.
#[export] Instance result_bind : MBind result := λ A B f r,
  match r with Ok a => f a | Err e => Err e end.
#[export] Instance result_fmap : FMap result := λ A B f r,
  match r with Ok a => Ok (f a) | Err e => Err e end.

(** [ASSERT (b)]. *)
Definition ASSERT (b : bool) : result unit :=
  if b then Ok tt else Err AssertFailed.

(** A pointer read through a partial lookup. *)
Definition deref {A} (o : option A) : result A :=
  match o with Some a => Ok a | None => Err MemoryFault end.

(** ** State passing with errors *)

Definition ST (S A : Type) : Type := S → result (A * S).

#[export] Instance st_ret {S} : MRet (ST S) := λ A a s, Ok (a, s).
#[export] Instance st_bind {S} : MBind (ST S) := λ A B f m s,
  match m s with Ok (a, s') => f a s' | Err e => Err e end.

Definition lift {S A} (r : result A) : ST S A := λ s,
  match r with Ok a => Ok (a, s) | Err e => Err e end.
Definition gets {S A} (f : S → A) : ST S A := λ s, Ok (f s, s).
Definition modify {S} (f : S → S) : ST S unit := λ s, Ok (tt, f s).
Definition fail {S A} (e : fault) : ST S A := λ _, Err e.
Definition assert {S} (b : bool) : ST S unit := lift (ASSERT b).

(** ** Machine integers

    A w-bit unsigned value is an integer in [0, 2^w); a w-bit signed value one in
    [-2^(w-1), 2^(w-1)).  [uN] and [iN] are the C conversions to those types, and
    the value of an expression whose mathematical result leaves the range. *)

Definition u8 (x : Z) : Z := x mod 2 ^ 8.
Definition u32 (x : Z) : Z := x mod 2 ^ 32.
Definition u64 (x : Z) : Z := x mod 2 ^ 64.
Definition i8 (x : Z) : Z := (x + 2 ^ 7) mod 2 ^ 8 - 2 ^ 7.
Definition i32 (x : Z) : Z := (x + 2 ^ 31) mod 2 ^ 32 - 2 ^ 31.
Definition i64 (x : Z) : Z := (x + 2 ^ 63) mod 2 ^ 64 - 2 ^ 63.

Definition is_u8 (x : Z) : Prop := 0 ≤ x < 2 ^ 8.
Definition is_u32 (x : Z) : Prop := 0 ≤ x < 2 ^ 32.
Definition is_u64 (x : Z) : Prop := 0 ≤ x < 2 ^ 64.
Definition is_i32 (x : Z) : Prop := - 2 ^ 31 ≤ x < 2 ^ 31.
Definition is_i64 (x : Z) : Prop := - 2 ^ 63 ≤ x < 2 ^ 63.

Ltac unfold_ints :=
  unfold is_u8, is_u32, is_u64, is_i32, is_i64 in *.

Lemma u8_small x : is_u8 x → u8 x = x.
Proof. apply Z.mod_small. Qed.

Lemma u32_small x : is_u32 x → u32 x = x.
Proof. apply Z.mod_small. Qed.

Lemma u64_small x : is_u64 x → u64 x = x.
Proof. apply Z.mod_small. Qed.

Lemma i8_small x : - 2 ^ 7 ≤ x < 2 ^ 7 → i8 x = x.
Proof. intros. unfold i8. rewrite Z.mod_small; lia. Qed.

Lemma i32_small x : is_i32 x → i32 x = x.
Proof. unfold_ints. intros. unfold i32. rewrite Z.mod_small; lia. Qed.

Lemma i64_small x : is_i64 x → i64 x = x.
Proof. unfold_ints. intros. unfold i64. rewrite Z.mod_small; lia. Qed.

Lemma u8_range x : is_u8 (u8 x).
Proof. apply Z.mod_pos_bound. lia. Qed.

Lemma u32_range x : is_u32 (u32 x).
Proof. apply Z.mod_pos_bound. lia. Qed.

Lemma u64_range x : is_u64 (u64 x).
Proof. apply Z.mod_pos_bound. lia. Qed.

Lemma i32_range x : is_i32 (i32 x).
Proof. unfold is_i32, i32. pose proof (Z.mod_pos_bound (x + 2 ^ 31) (2 ^ 32)). lia. Qed.

(** Conversions compose with subtraction of a multiple of the modulus. *)
Lemma u64_shift x k : u64 (x + k * 2 ^ 64) = u64 x.
Proof. apply Z_mod_plus_full. Qed.

(** ** Automation

    [ints]: the conversions of values already in range are the identity. *)

Create HintDb ints.
#[export] Hint Resolve u8_range u32_range u64_range i32_range : ints.
#[export] Hint Rewrite u8_small u32_small u64_small i8_small i32_small i64_small
  using (unfold_ints; lia) : ints.

Ltac ints := autorewrite with ints in *.

(** Split a [result] or [ST] computation that is known to return. *)
Lemma bind_Ok {A B} (r : result A) (f : A → result B) b :
  (r ≫= f) = Ok b ↔ ∃ a, r = Ok a ∧ f a = Ok b.
Proof. destruct r; simpl; naive_solver. Qed.

Lemma st_bind_Ok {S A B} (m : ST S A) (f : A → ST S B) s b s' :
  (m ≫= f) s = Ok (b, s') ↔ ∃ a s1, m s = Ok (a, s1) ∧ f a s1 = Ok (b, s').
Proof.
  unfold mbind, st_bind. destruct (m s) as [[a s1]|]; naive_solver.
Qed.

Lemma ASSERT_Ok b u : ASSERT b = Ok u ↔ b = true.
Proof. destruct b, u; naive_solver. Qed.

(** Boolean tests of the code as propositions. *)
Ltac bools :=
  repeat match goal with
  | H : (_ && _)%bool = true |- _ => apply andb_true_iff in H as [? ?]
  | H : (_ || _)%bool = false |- _ => apply orb_false_iff in H as [? ?]
  | H : negb _ = true |- _ => apply negb_true_iff in H
  | H : negb _ = false |- _ => apply negb_false_iff in H
  | H : (_ <? _) = true |- _ => apply Z.ltb_lt in H
  | H : (_ <? _) = false |- _ => apply Z.ltb_ge in H
  | H : (_ <=? _) = true |- _ => apply Z.leb_le in H
  | H : (_ <=? _) = false |- _ => apply Z.leb_gt in H
  | H : (_ =? _) = true |- _ => apply Z.eqb_eq in H
  | H : (_ =? _) = false |- _ => apply Z.eqb_neq in H
  end.

(** Case on an integer comparison of the goal, with its meaning. *)
Ltac zcase :=
  match goal with
  | |- context [?a <? ?b] => destruct (Z.ltb_spec a b)
  | |- context [?a <=? ?b] => destruct (Z.leb_spec a b)
  | |- context [?a =? ?b] => destruct (Z.eqb_spec a b)
  end.
