(* ===== verification/Bytes.v ===== *)
(** * Bytes of structures

    Memory and disk contents as sequences of bytes: little-endian fields, fields that are
    replaced, and C strings. *)

From S2P Require Import Prelude.

(** ** Little-endian fields *)

Definition word_bytes (w : Z) : list Z :=
  [w mod 256; w / 256 mod 256; w / 65536 mod 256; w / 16777216 mod 256].

Definition words_bytes (ws : list Z) : list Z := ws ≫= word_bytes.

Definition byte_at (b : list Z) (i : nat) : Z := nth i b 0.
Definition get16 (b : list Z) (i : nat) : Z := byte_at b i + 2 ^ 8 * byte_at b (i + 1).
Definition get32 (b : list Z) (i : nat) : Z := get16 b i + 2 ^ 16 * get16 b (i + 2).

(** Bytes [bs] written over [b] from offset [ofs] on. *)
Definition put_bytes (b : list Z) (ofs : nat) (bs : list Z) : list Z :=
  take ofs b ++ bs ++ drop (ofs + length bs) b.

Definition put32 (b : list Z) (ofs : nat) (x : Z) : list Z := put_bytes b ofs (word_bytes x).

(** The C string at the start of [b]. *)
Fixpoint c_string (b : list Z) : result (list Z) :=
  match b with
  | [] => Err MemoryFault
  | c :: b => if c =? 0 then Ok [] else r ← c_string b; Ok (c :: r)
  end.

(** The bytes of a C string without its null. *)
Definition is_name (name : list Z) : Prop := Forall (λ c, is_u8 c ∧ c ≠ 0) name.

(** ** Fields that are replaced *)

Lemma byte_at_put b o bs j :
  (o + length bs ≤ length b)%nat →
  byte_at (put_bytes b o bs) j = if decide (o ≤ j < o + length bs)%nat then byte_at bs (j - o) else byte_at b j.
Proof.
  intros Hl. unfold byte_at, put_bytes. assert (length (take o b) = o) as Ht by (rewrite length_take; lia).
  case_decide as Hd.
  - rewrite app_nth2 by lia. rewrite Ht, app_nth1 by lia. done.
  - destruct (decide (j < o)%nat) as [Hj|Hj].
    + rewrite app_nth1 by lia. rewrite !nth_lookup, lookup_take_lt by lia. done.
    + rewrite !app_nth2 by lia. rewrite Ht, !nth_lookup, lookup_drop.
      replace (o + length bs + (j - o - length bs))%nat with j by lia. done.
Qed.

Lemma get32_put b o bs i :
  (o + length bs ≤ length b)%nat → (i + 4 ≤ o ∨ o + length bs ≤ i)%nat → get32 (put_bytes b o bs) i = get32 b i.
Proof.
  intros Hl Hi. unfold get32, get16. rewrite !byte_at_put by done.
  repeat (case_decide; [lia|]). done.
Qed.

Lemma word_bytes_u8 x : Forall is_u8 (word_bytes x).
Proof. unfold word_bytes. repeat constructor; apply Z.mod_pos_bound; lia. Qed.

Lemma get32_put32 b o x : (o + 4 ≤ length b)%nat → is_u32 x → get32 (put32 b o x) o = x.
Proof.
  intros Hl Hx. unfold get32, get16, put32. rewrite !byte_at_put by done.
  change (length (word_bytes x)) with 4%nat. repeat (case_decide; [|lia]).
  replace (o - o)%nat with 0%nat by lia. replace (o + 1 - o)%nat with 1%nat by lia.
  replace (o + 2 - o)%nat with 2%nat by lia. replace (o + 2 + 1 - o)%nat with 3%nat by lia.
  unfold byte_at, word_bytes. cbn [nth]. unfold_ints.
  pose proof (Z_div_mod_eq_full x 256). pose proof (Z_div_mod_eq_full (x / 256) 256).
  pose proof (Z_div_mod_eq_full (x / 65536) 256).
  rewrite (Z.mod_small (x / 16777216) 256)
    by (split; [apply Z.div_pos; lia|apply Z.div_lt_upper_bound; lia]).
  assert (E1 : x / 65536 = x / 256 / 256) by (rewrite Z.div_div by lia; done).
  assert (E2 : x / 16777216 = x / 65536 / 256) by (rewrite Z.div_div by lia; done). lia.
Qed.

Lemma length_put_bytes b o bs : (o ≤ length b)%nat → length (put_bytes b o bs) = max (length b) (o + length bs).
Proof. intros Ho. unfold put_bytes. rewrite !length_app, length_take, length_drop. lia. Qed.

Lemma length_put_inside (c d : list Z) o : (o + length d ≤ length c)%nat → length (put_bytes c o d) = length c.
Proof. intros H. unfold put_bytes. rewrite !length_app, length_take, length_drop. lia. Qed.

Lemma put_bytes_r a b o bs : (length a ≤ o)%nat → put_bytes (a ++ b) o bs = a ++ put_bytes b (o - length a) bs.
Proof.
  intros Ho. unfold put_bytes. rewrite take_app_ge, drop_app_ge, <- app_assoc by lia. do 4 f_equal. lia.
Qed.

Lemma put_bytes_l a b o bs : (o + length bs ≤ length a)%nat → put_bytes (a ++ b) o bs = put_bytes a o bs ++ b.
Proof. intros Ho. unfold put_bytes. rewrite take_app_le, drop_app_le, <- !app_assoc by lia. done. Qed.

Lemma put_bytes_all a bs : length a = length bs → put_bytes a 0 bs = bs.
Proof. intros Ha. unfold put_bytes. rewrite take_0, drop_ge by lia. by rewrite app_nil_r. Qed.

(** A field [b] of a structure, between the fields before and after it. *)
Lemma put_bytes_mid a b c o bs :
  o = length a → (length bs ≤ length b)%nat → put_bytes (a ++ b ++ c) o bs = a ++ put_bytes b 0 bs ++ c.
Proof. intros -> Hb. by rewrite put_bytes_r, Nat.sub_diag, put_bytes_l by lia. Qed.

Lemma byte_at_app_r a b j : (length a ≤ j)%nat → byte_at (a ++ b) j = byte_at b (j - length a).
Proof. intros Hj. unfold byte_at. by rewrite app_nth2. Qed.

Lemma get32_word x rest : is_u32 x → get32 (word_bytes x ++ rest) 0 = x.
Proof.
  intros Hx. rewrite <- (get32_put32 (replicate 4 0 ++ rest) 0 x) at 2; [|rewrite length_app; simpl; lia|done].
  unfold put32. by rewrite put_bytes_l.
Qed.

(** Two adjacent fields. *)
Lemma put_bytes_join b o b1 b2 :
  (o + length b1 + length b2 ≤ length b)%nat →
  put_bytes (put_bytes b (o + length b1) b2) o b1 = put_bytes b o (b1 ++ b2).
Proof.
  intros Hl. unfold put_bytes. rewrite take_app_le by (rewrite length_take; lia). rewrite take_take.
  replace (o `min` (o + length b1))%nat with o by lia. f_equal. rewrite <- app_assoc. f_equal.
  rewrite drop_app_length' by (rewrite length_take; lia). rewrite length_app, Nat.add_assoc. done.
Qed.

Lemma put_bytes_append b o b1 b2 :
  (o + length b1 + length b2 ≤ length b)%nat →
  put_bytes (put_bytes b o b1) (o + length b1) b2 = put_bytes b o (b1 ++ b2).
Proof.
  intros Hl. unfold put_bytes. rewrite !app_assoc, (take_app_length' (take o b ++ b1)) by (rewrite length_app, length_take; lia).
  rewrite drop_app_ge by (rewrite length_app, length_take; lia). rewrite !length_app, length_take, drop_drop, <- !app_assoc.
  do 4 f_equal. lia.
Qed.

(** What follows a field, and the field itself with what follows. *)
Lemma drop_put_above b o bs k :
  (o + length bs ≤ k ≤ length b)%nat → drop k (put_bytes b o bs) = drop k b.
Proof.
  intros Hk. unfold put_bytes. rewrite drop_app_ge, drop_app_ge by (rewrite length_take; lia).
  rewrite length_take, drop_drop. f_equal. lia.
Qed.

Lemma drop_put_in b o bs k :
  (k ≤ length bs)%nat → (o ≤ length b)%nat → drop (o + k) (put_bytes b o bs) = drop k bs ++ drop (o + length bs) b.
Proof.
  intros Hk Ho. unfold put_bytes. rewrite drop_app_ge by (rewrite length_take; lia).
  rewrite length_take. replace (o + k - o `min` length b)%nat with k by lia. by rewrite drop_app_le.
Qed.

Lemma get32_put_in b o bs i :
  (o + length bs ≤ length b)%nat → (i + 4 ≤ length bs)%nat → get32 (put_bytes b o bs) (o + i) = get32 bs i.
Proof.
  intros Hl Hi. unfold get32, get16. rewrite !byte_at_put by done. repeat (case_decide; [|lia]).
  repeat f_equal; lia.
Qed.

Lemma length_words_bytes ws : length (words_bytes ws) = (4 * length ws)%nat.
Proof. induction ws as [|w ws IH]; [done|]. unfold words_bytes in *. rewrite bind_cons, length_app, IH. simpl. lia. Qed.

Lemma get32_words_bytes ws i w : Forall is_u32 ws → ws !! i = Some w → get32 (words_bytes ws) (4 * i) = w.
Proof.
  revert i. induction ws as [|w' ws IH]; intros i Hws Hi; [done|]. apply Forall_cons in Hws as [Hw Hws].
  unfold words_bytes. rewrite bind_cons. fold (words_bytes ws). destruct i as [|i].
  - injection Hi as ->. by apply get32_word.
  - rewrite <- (IH i Hws Hi). unfold get32, get16. rewrite !byte_at_app_r by (simpl; lia). simpl length.
    repeat f_equal; lia.
Qed.

(** ** C strings *)

Lemma c_string_app name rest : is_name name → c_string (name ++ 0 :: rest) = Ok name.
Proof.
  induction 1 as [|c name [_ Hc] _ IH]; [done|]. cbn [c_string app]. destruct (Z.eqb_spec c 0); [done|]. by rewrite IH.
Qed.
