(* ===== verification/Arith64.v ===== *)
(** * lib/arithmetic.c: 64-bit division out of 32-bit division

    The routines GCC calls for [/] and [%] on 64-bit operands, built on the
    x86 DIVL instruction (a 64-bit dividend, 32-bit divisor and quotient, #DE when the
    divisor is zero or the quotient does not fit).  The theorems show that
    [udiv64] is exact division and never traps for a nonzero divisor, that the
    signed quotient truncates toward zero, and what the remainder routines
    return, given that their result type is 32 bits wide. *)

From S2P Require Import Prelude.

(** ** The code *)

(** [divl]: the DIVL instruction on EDX:EAX = [n], divisor [d]. *)
Definition divl (n d : Z) : result Z :=
  let n1 := u32 (Z.shiftr n 32) in
  let n0 := u32 n in
  if d =? 0 then Err DivideError
  else
    let q := (n1 * 2 ^ 32 + n0) / d in
    if q <? 2 ^ 32 then Ok q else Err DivideError.

(** [nlz]: number of leading zero bits of a nonzero 32-bit value. *)
Definition nlz (x : Z) : Z :=
  let n := 0 in
  let '(n, x) := if x <=? 0x0000FFFF then (n + 16, u32 (Z.shiftl x 16)) else (n, x) in
  let '(n, x) := if x <=? 0x00FFFFFF then (n + 8, u32 (Z.shiftl x 8)) else (n, x) in
  let '(n, x) := if x <=? 0x0FFFFFFF then (n + 4, u32 (Z.shiftl x 4)) else (n, x) in
  let '(n, x) := if x <=? 0x3FFFFFFF then (n + 2, u32 (Z.shiftl x 2)) else (n, x) in
  if x <=? 0x7FFFFFFF then n + 1 else n.

(** [udiv64].  The 32-bit [n1 % d0] and [n1 / d0] also raise #DE on zero. *)
Definition udiv64 (n d : Z) : result Z :=
  if Z.shiftr d 32 =? 0 then
    let b := 2 ^ 32 in
    let n1 := u32 (Z.shiftr n 32) in
    let n0 := u32 n in
    let d0 := u32 d in
    if d0 =? 0 then Err DivideError
    else
      q ← divl (u64 (b * (n1 mod d0) + n0)) d0;
      mret (u64 (q + u64 (b * (n1 / d0))))
  else if n <? d then mret 0
  else
    let d1 := u32 (Z.shiftr d 32) in
    let s := nlz d1 in
    q32 ← divl (Z.shiftr n 1) (u32 (Z.shiftr (u64 (Z.shiftl d s)) 32));
    let q := Z.shiftr q32 (31 - s) in
    mret (if u64 (n - u64 (u64 (q - 1) * d)) <? d then u64 (q - 1) else q).

(** [umod64] returns a [uint32_t]. *)
Definition umod64 (n d : Z) : result Z :=
  q ← udiv64 n d;
  mret (u32 (u64 (n - u64 (d * q)))).

Definition sdiv64 (n d : Z) : result Z :=
  let n_abs := if 0 <=? n then u64 n else u64 (- u64 n) in
  let d_abs := if 0 <=? d then u64 d else u64 (- u64 d) in
  q_abs ← udiv64 n_abs d_abs;
  mret (if Bool.eqb (n <? 0) (d <? 0) then i64 q_abs else i64 (- i64 q_abs)).

(** [smod64] returns an [int32_t]. *)
Definition smod64 (n d : Z) : result Z :=
  q ← sdiv64 n d;
  mret (i32 (i64 (n - i64 (d * q)))).

(** The entry points, [__divdi3], [__moddi3], [__udivdi3] and [__umoddi3]. *)
Definition divdi3 (n d : Z) : result Z := sdiv64 n d.
Definition moddi3 (n d : Z) : result Z := smod64 n d.
Definition udivdi3 (n d : Z) : result Z := udiv64 n d.
Definition umoddi3 (n d : Z) : result Z := umod64 n d.

(** ** Leading zeros *)

Lemma u32_shl x k m :
  0 ≤ k → 0 ≤ m → k + m = 32 → 0 ≤ x < 2 ^ m →
  u32 (Z.shiftl x k) = x * 2 ^ k.
Proof.
  intros Hk Hm Hkm Hx. rewrite Z.shiftl_mul_pow2 by lia. apply u32_small.
  unfold is_u32. rewrite <- Hkm, Z.pow_add_r by lia. nia.
Qed.

(** One halving step of [nlz] keeps the normalised value and the count in step. *)
Lemma nlz_step x0 n x k t :
  0 < k ≤ 16 → t = 2 ^ (32 - k) - 1 → 0 ≤ n →
  x = x0 * 2 ^ n → 0 < x < 2 ^ 32 →
  let '(n', x') := if x <=? t then (n + k, u32 (Z.shiftl x k)) else (n, x) in
  n ≤ n' ≤ n + k ∧ x' = x0 * 2 ^ n' ∧ 0 < x' < 2 ^ 32 ∧
  (2 ^ (32 - 2 * k) ≤ x → 2 ^ (32 - k) ≤ x').
Proof.
  intros Hk -> Hn Hx0 Hx.
  assert (H32 : 2 ^ 32 = 2 ^ (32 - k) * 2 ^ k) by (rewrite <- Z.pow_add_r by lia; f_equal; lia).
  assert (Hpk : 0 < 2 ^ k) by (apply Z.pow_pos_nonneg; lia).
  zcase; [|split_and!; lia].
  rewrite (u32_shl x k (32 - k)) by lia.
  split_and!; try lia.
  - rewrite Z.pow_add_r by lia. subst x. ring.
  - rewrite H32. nia.
  - intros Hlow. replace (32 - k) with ((32 - 2 * k) + k) at 1 by lia.
    rewrite Z.pow_add_r by lia. nia.
Qed.

Lemma nlz_spec x :
  0 < x < 2 ^ 32 → 0 ≤ nlz x ≤ 31 ∧ 2 ^ 31 ≤ x * 2 ^ nlz x < 2 ^ 32.
Proof.
  intros Hx. unfold nlz.
  pose proof (nlz_step x 0 x 16 0x0000FFFF) as S1.
  destruct (if x <=? 0x0000FFFF then _ else _) as [n1 x1].
  destruct S1 as (N1 & E1 & R1 & L1); try (reflexivity || lia).
  pose proof (nlz_step x n1 x1 8 0x00FFFFFF) as S2.
  destruct (if x1 <=? 0x00FFFFFF then _ else _) as [n2 x2].
  destruct S2 as (N2 & E2 & R2 & L2); try (reflexivity || lia).
  pose proof (nlz_step x n2 x2 4 0x0FFFFFFF) as S3.
  destruct (if x2 <=? 0x0FFFFFFF then _ else _) as [n3 x3].
  destruct S3 as (N3 & E3 & R3 & L3); try (reflexivity || lia).
  pose proof (nlz_step x n3 x3 2 0x3FFFFFFF) as S4.
  destruct (if x3 <=? 0x3FFFFFFF then _ else _) as [n4 x4].
  destruct S4 as (N4 & E4 & R4 & L4); try (reflexivity || lia).
  change (32 - 2 * 16) with 0 in L1. change (32 - 2 * 8) with 16 in L2.
  change (32 - 2 * 4) with 24 in L3. change (32 - 2 * 2) with 28 in L4.
  change (32 - 16) with 16 in L1. change (32 - 8) with 24 in L2.
  change (32 - 4) with 28 in L3. change (32 - 2) with 30 in L4.
  specialize (L1 ltac:(lia)). specialize (L2 L1). specialize (L3 L2). specialize (L4 L3).
  zcase; [rewrite (Z.pow_add_r 2 n4 1) by lia|]; lia.
Qed.

(** ** Unsigned division *)

(** DIVL is exact whenever the quotient fits. *)
Lemma divl_exact n d :
  is_u64 n → 0 < d → n / d < 2 ^ 32 → divl n d = Ok (n / d).
Proof.
  unfold_ints. intros Hn Hd Hq. unfold divl.
  rewrite Z.shiftr_div_pow2 by lia. unfold u32.
  rewrite (Z.mod_small (n / 2 ^ 32)) by (split; [apply Z.div_pos | apply Z.div_lt_upper_bound]; lia).
  rewrite (Z.mul_comm (n / _)), <- Z.div_mod by lia.
  rewrite (proj2 (Z.eqb_neq d 0)), (proj2 (Z.ltb_lt _ _)) by lia. done.
Qed.

(** The comment's proof in [udiv64], as arithmetic: splitting off the high word. *)
Lemma div_high_word n1 n0 d :
  0 ≤ n1 → 0 ≤ n0 < 2 ^ 32 → 0 < d →
  (2 ^ 32 * n1 + n0) / d = (2 ^ 32 * (n1 mod d) + n0) / d + 2 ^ 32 * (n1 / d).
Proof.
  intros. rewrite <- Z.div_add by lia. f_equal.
  rewrite (Z.div_mod n1 d) at 1 by lia. ring.
Qed.

Lemma udiv64_small_divisor n d :
  is_u64 n → 0 < d < 2 ^ 32 → udiv64 n d = Ok (n / d).
Proof.
  unfold_ints. intros Hn Hd. unfold udiv64. cbv zeta.
  rewrite (Z.shiftr_div_pow2 d), Z.div_small by lia. cbn [Z.eqb].
  rewrite (u32_small d) by (unfold_ints; lia). rewrite (proj2 (Z.eqb_neq d 0)) by lia.
  rewrite Z.shiftr_div_pow2 by lia.
  assert (Hn1 : 0 ≤ n / 2 ^ 32 < 2 ^ 32)
    by (split; [apply Z.div_pos | apply Z.div_lt_upper_bound]; lia).
  rewrite (u32_small (n / _)) by (unfold_ints; lia).
  pose proof (u32_range n) as Hn0. unfold is_u32 in Hn0.
  pose proof (Z.mod_pos_bound (n / 2 ^ 32) d ltac:(lia)) as Hm.
  rewrite (u64_small (2 ^ 32 * _ + _)) by (unfold_ints; nia).
  assert (Hq : (2 ^ 32 * ((n / 2 ^ 32) mod d) + u32 n) / d < 2 ^ 32)
    by (apply Z.div_lt_upper_bound; nia).
  assert (Hsplit : n / d = (2 ^ 32 * ((n / 2 ^ 32) mod d) + u32 n) / d + 2 ^ 32 * (n / 2 ^ 32 / d)).
  { rewrite <- div_high_word by lia. f_equal. apply Z.div_mod. lia. }
  rewrite divl_exact by (unfold_ints; nia || lia).
  assert (Hd0 : 0 ≤ n / 2 ^ 32 / d < 2 ^ 32)
    by (split; [apply Z.div_pos | apply Z.div_lt_upper_bound]; nia).
  assert (Hnd : 0 ≤ n / d < 2 ^ 64)
    by (split; [apply Z.div_pos | apply Z.div_lt_upper_bound]; nia).
  cbn [mbind result_bind mret result_ret].
  rewrite (u64_small (2 ^ 32 * _)) by (unfold_ints; lia).
  rewrite u64_small by (unfold_ints; lia). by rewrite <- Hsplit.
Qed.

(** The trial quotient by the divisor with its low bits dropped is at most one
    too large. *)
Lemma trial_quotient n d D e :
  0 < D ≤ d → d - D ≤ e → 0 ≤ n < 2 ^ 64 → (2 ^ 64 - D) * e ≤ D * D →
  n / d ≤ n / D ≤ n / d + 1.
Proof.
  intros HD He Hn Hbig. split.
  { apply Z.div_le_compat_l; lia. }
  destruct (Z.le_gt_cases (n / D) (n / d + 1)) as [|Hgt]; [done|exfalso].
  pose proof (Z.mul_div_le n D ltac:(lia)).
  pose proof (Z.mul_succ_div_gt n d ltac:(lia)).
  set (q := n / d) in *. set (q0 := n / D) in *.
  assert (0 ≤ q) by (apply Z.div_pos; lia).
  assert ((q + 2) * D ≤ n) by nia.
  assert ((q + 2) * D < 2 ^ 64) by lia.
  assert (D < (q + 1) * (d - D)) by lia.
  assert (D < (q + 1) * e) by nia.
  nia.
Qed.

(** The final correction step picks the exact quotient. *)
Lemma quotient_correct n d q :
  0 ≤ n < 2 ^ 64 → 0 < d ≤ n → n / d ≤ q ≤ n / d + 1 → q ≤ n →
  (if u64 (n - u64 (u64 (q - 1) * d)) <? d then u64 (q - 1) else q) = n / d.
Proof.
  intros Hn Hd Hq Hqn.
  assert (H1 : 1 ≤ n / d) by (apply Z.div_le_lower_bound; lia).
  pose proof (Z.mod_pos_bound n d ltac:(lia)).
  pose proof (Z.div_mod n d ltac:(lia)) as Hdm.
  rewrite (u64_small (q - 1)) by (unfold_ints; lia).
  rewrite (u64_small ((q - 1) * d)) by (unfold_ints; nia).
  rewrite u64_small by (unfold_ints; nia).
  zcase; nia.
Qed.

Lemma udiv64_large_divisor n d :
  is_u64 n → 2 ^ 32 ≤ d < 2 ^ 64 → udiv64 n d = Ok (n / d).
Proof.
  unfold_ints. intros Hn Hd. unfold udiv64. cbv zeta.
  rewrite (Z.shiftr_div_pow2 d) by lia.
  assert (Hd1 : 0 < d / 2 ^ 32 < 2 ^ 32)
    by (split; [apply Z.div_str_pos | apply Z.div_lt_upper_bound]; lia).
  rewrite (proj2 (Z.eqb_neq _ 0)) by lia.
  zcase; [by rewrite Z.div_small by lia|].
  rewrite (u32_small (d / _)) by (unfold_ints; lia).
  destruct (nlz_spec (d / 2 ^ 32) Hd1) as [Hs Hnorm].
  set (s := nlz (d / 2 ^ 32)) in *.
  (* P = 2^(32-s) is the weight of the dropped low bits of d. *)
  assert (HP : 2 ^ 32 = 2 ^ (32 - s) * 2 ^ s) by (rewrite <- Z.pow_add_r by lia; f_equal; lia).
  assert (HP2 : 2 ^ (32 - s) = 2 * 2 ^ (31 - s))
    by (rewrite <- Z.pow_succ_r by lia; f_equal; lia).
  assert (Hps : 0 < 2 ^ s) by (apply Z.pow_pos_nonneg; lia).
  assert (Hp31 : 0 < 2 ^ (31 - s)) by (apply Z.pow_pos_nonneg; lia).
  set (P := 2 ^ (32 - s)) in *.
  assert (Hmul : d * 2 ^ s < 2 ^ 64).
  { pose proof (Z.mul_succ_div_gt d (2 ^ 32) ltac:(lia)) as Hlt.
    assert (d / 2 ^ 32 < P) by (apply (Z.mul_lt_mono_pos_r (2 ^ s)); lia).
    apply Z.lt_le_trans with (2 ^ 32 * (P * 2 ^ s)); [|lia].
    rewrite Z.mul_assoc. apply Z.mul_lt_mono_pos_r; lia. }
  rewrite (Z.shiftl_mul_pow2 d s) by lia.
  rewrite (u64_small (d * _)) by (unfold_ints; nia).
  rewrite (Z.shiftr_div_pow2 (d * _)) by lia.
  assert (Hdiv : d * 2 ^ s / 2 ^ 32 = d / P).
  { rewrite HP, (Z.mul_comm P), (Z.mul_comm d). apply Z.div_mul_cancel_l; lia. }
  rewrite Hdiv.
  assert (Hlow : 2 ^ 31 ≤ d / P).
  { rewrite <- Hdiv. apply Z.div_le_lower_bound; [lia|].
    pose proof (Z.mul_div_le d (2 ^ 32) ltac:(lia)). nia. }
  assert (Hhigh : d / P < 2 ^ 32) by (rewrite <- Hdiv; apply Z.div_lt_upper_bound; lia).
  rewrite (u32_small (d / P)) by (unfold_ints; lia).
  rewrite (Z.shiftr_div_pow2 n) by lia. change (2 ^ 1) with 2.
  rewrite divl_exact; [|unfold_ints; split; [apply Z.div_pos | apply Z.div_lt_upper_bound]; lia
                       |lia|].
  2:{ apply Z.div_lt_upper_bound; [lia|]. apply Z.div_lt_upper_bound; nia. }
  cbn [mbind result_bind mret result_ret]. f_equal.
  rewrite Z.shiftr_div_pow2 by lia.
  rewrite !Z.div_div by lia.
  replace (2 * (d / P) * 2 ^ (31 - s)) with (P * (d / P)) by (rewrite HP2; ring).
  set (D := P * (d / P)).
  assert (HD : D ≤ d < D + P).
  { pose proof (Z.mul_div_le d P ltac:(lia)). pose proof (Z.mul_succ_div_gt d P ltac:(lia)).
    unfold D. lia. }
  assert (HDl : P * 2 ^ 31 ≤ D) by (unfold D; nia).
  apply quotient_correct; [lia|lia| |].
  - apply trial_quotient with (e := P - 1); [nia|lia|lia|].
    (* D >= 2^31 P and 2^32 = P 2^s with s <= 31, so D >= 2^32 as well. *)
    assert (HsP : 2 ^ s ≤ 2 ^ 31) by (apply Z.pow_le_mono_r; lia).
    assert (2 ≤ P) by nia.
    assert (P * P * 2 ^ 62 ≤ D * D).
    { replace (P * P * 2 ^ 62) with ((P * 2 ^ 31) * (P * 2 ^ 31)) by ring.
      apply Z.mul_le_mono_nonneg; lia. }
    assert (P = 2 ∨ 4 ≤ P) as [-> | HP4].
    { destruct (decide (s = 31)) as [->|]; [left; reflexivity|right].
      unfold P. change 4 with (2 ^ 2). apply Z.pow_le_mono_r; lia. }
    + lia.
    + assert (0 ≤ D * (P - 1)) by (apply Z.mul_nonneg_nonneg; lia).
      apply Z.le_trans with (2 ^ 64 * P); [lia|].
      apply Z.le_trans with (P * P * 2 ^ 62); [|lia].
      assert (4 * P ≤ P * P) by (apply Z.mul_le_mono_nonneg_r; lia). lia.
  - apply Z.div_le_upper_bound; [nia|]. nia.
Qed.

Lemma udiv64_exact n d :
  is_u64 n → 0 < d < 2 ^ 64 → udiv64 n d = Ok (n / d).
Proof.
  intros. destruct (Z.lt_ge_cases d (2 ^ 32)).
  - apply udiv64_small_divisor; [done|lia].
  - apply udiv64_large_divisor; [done|lia].
Qed.

Lemma udiv64_zero n : udiv64 n 0 = Err DivideError.
Proof. reflexivity. Qed.

(** ** Signed division *)

(** The magnitude of a signed 64-bit value, as the code computes it. *)
Lemma abs_u64 n :
  is_i64 n → (if 0 <=? n then u64 n else u64 (- u64 n)) = Z.abs n.
Proof.
  unfold_ints. intros. zcase.
  - rewrite u64_small by (unfold_ints; lia). lia.
  - replace (u64 n) with (n + 2 ^ 64).
    + replace (- (n + 2 ^ 64)) with (- n + (-1) * 2 ^ 64) by lia.
      rewrite u64_shift, u64_small by (unfold_ints; lia). lia.
    + rewrite <- (u64_shift n 1), u64_small by (unfold_ints; lia). lia.
Qed.

Lemma i64_neg x : i64 (- i64 x) = i64 (- x).
Proof.
  unfold i64. set (a := (x + 2 ^ 63) mod 2 ^ 64).
  rewrite <- (Z_mod_plus_full (- x + 2 ^ 63) ((x + 2 ^ 63) / 2 ^ 64 - 0) (2 ^ 64)).
  pose proof (Z.div_mod (x + 2 ^ 63) (2 ^ 64) ltac:(lia)) as Hdm. fold a in Hdm.
  f_equal. f_equal. lia.
Qed.

Lemma quot_abs n d :
  d ≠ 0 →
  Z.quot n d = if Bool.eqb (n <? 0) (d <? 0) then Z.abs n / Z.abs d else - (Z.abs n / Z.abs d).
Proof.
  intros Hd. rewrite Z.quot_div by done.
  destruct (Z.ltb_spec n 0), (Z.ltb_spec d 0); simpl;
    rewrite ?(Z.sgn_neg n), ?(Z.sgn_neg d), ?(Z.sgn_pos d) by lia; try lia;
    destruct (decide (n = 0)) as [->|]; rewrite ?Z.div_0_l by lia;
    rewrite ?(Z.sgn_pos n) by lia; lia.
Qed.

Lemma sdiv64_exact n d :
  is_i64 n → is_i64 d → d ≠ 0 → sdiv64 n d = Ok (i64 (Z.quot n d)).
Proof.
  intros Hn Hd Hd0. unfold sdiv64. rewrite !abs_u64 by done.
  rewrite udiv64_exact by (unfold_ints; lia).
  cbn [mbind result_bind mret result_ret]. rewrite quot_abs by done.
  destruct (Bool.eqb _ _); [done|by rewrite i64_neg].
Qed.

(** Only [INT64_MIN / -1] leaves the signed range. *)
Lemma quot_in_i64 n d :
  is_i64 n → d ≠ 0 → ¬ (n = - 2 ^ 63 ∧ d = -1) → is_i64 (Z.quot n d).
Proof.
  unfold_ints. intros Hn Hd Hne.
  destruct (decide (d = 1)) as [->|]; [rewrite Z.quot_1_r; lia|].
  destruct (decide (d = -1)) as [->|].
  { pose proof (Z.quot_opp_r n 1 ltac:(lia)) as E. rewrite Z.quot_1_r in E.
    change (- (1)) with (-1) in E. lia. }
  assert (Z.abs (Z.quot n d) ≤ 2 ^ 62); [|lia].
  rewrite <- Z.quot_abs, Z.quot_div_nonneg by lia.
  apply Z.div_le_upper_bound; lia.
Qed.

Lemma smod64_exact n d :
  is_i64 n → is_i64 d → d ≠ 0 → smod64 n d = Ok (i32 (Z.rem n d)).
Proof.
  intros Hn Hd Hd0. unfold smod64. rewrite sdiv64_exact by done.
  cbn [mbind result_bind mret result_ret]. f_equal. f_equal.
  destruct (decide (n = - 2 ^ 63 ∧ d = -1)) as [[-> ->]|Hne]; [reflexivity|].
  rewrite (i64_small (Z.quot n d)) by (by apply quot_in_i64).
  pose proof (Z.quot_rem n d Hd0) as Hqr.
  pose proof (Z.rem_bound_abs n d Hd0) as Hb.
  assert (Z.abs (d * Z.quot n d) ≤ Z.abs n).
  { rewrite Z.abs_mul, <- Z.quot_abs, Z.quot_div_nonneg by lia. apply Z.mul_div_le. lia. }
  assert (is_i64 (Z.rem n d)) by (unfold_ints; lia).
  destruct (decide (d * Z.quot n d = 2 ^ 63)) as [E|].
  - rewrite E in *. assert (n = - 2 ^ 63 ∨ n = 2 ^ 63) as [->|] by (unfold_ints; lia).
    + exfalso. pose proof (Z.rem_sign_mul (- 2 ^ 63) d Hd0). unfold_ints. lia.
    + unfold_ints; lia.
  - rewrite (i64_small (d * _)) by (unfold_ints; lia).
    replace (n - d * Z.quot n d) with (Z.rem n d) by lia. by apply i64_small.
Qed.

(** ** Results *)

(** Unsigned 64-bit division: for all 64-bit operands [__udivdi3] returns the
    exact quotient, its DIVL instructions never trap, and a zero divisor (and only
    that) raises the divide error. *)
Theorem udivdi3_exact n d :
  is_u64 n → is_u64 d →
  udivdi3 n d = if d =? 0 then Err DivideError else Ok (n / d).
Proof.
  intros Hn Hd. unfold udivdi3. zcase; [by subst|].
  apply udiv64_exact; [done|unfold_ints; lia].
Qed.

Lemma udivdi3_exact_witness : udivdi3 (2 ^ 64 - 1) (2 ^ 33 + 1) = Ok 2147483647.
Proof. rewrite (udivdi3_exact (2 ^ 64 - 1) (2 ^ 33 + 1)); [reflexivity | split; lia | split; lia]. Defined.

(** Signed 64-bit division: [__divdi3] truncates toward zero for all operands;
    the one quotient that is not an [int64_t], [INT64_MIN / -1], wraps to
    [INT64_MIN]. *)
Theorem divdi3_truncates n d :
  is_i64 n → is_i64 d → d ≠ 0 →
  divdi3 n d = Ok (if (n =? - 2 ^ 63) && (d =? -1) then - 2 ^ 63 else Z.quot n d).
Proof.
  intros Hn Hd Hd0. unfold divdi3. rewrite sdiv64_exact by done. f_equal.
  destruct (_ && _) eqn:E; [bools; by subst|].
  apply i64_small, quot_in_i64; [done..|]. intros [-> ->]. discriminate.
Qed.

Lemma divdi3_truncates_witness : divdi3 (-7) 2 = Ok (-3).
Proof. rewrite (divdi3_truncates (-7) 2); [reflexivity | split; lia | split; lia | lia]. Defined.

(** The remainder routines return the remainder reduced to their 32-bit result
    type: [__umoddi3] the low word of [n mod d], [__moddi3] the low word of the
    truncated remainder read as signed.  They are exact exactly when the remainder
    fits in 32 bits. *)
Theorem mod64_low_word n d :
  d ≠ 0 →
  (is_u64 n → is_u64 d →
     umoddi3 n d = Ok (u32 (n mod d)) ∧
     (umoddi3 n d = Ok (n mod d) ↔ n mod d < 2 ^ 32)) ∧
  (is_i64 n → is_i64 d →
     moddi3 n d = Ok (i32 (Z.rem n d)) ∧
     (moddi3 n d = Ok (Z.rem n d) ↔ is_i32 (Z.rem n d))).
Proof.
  intros Hd0. split; intros Hn Hd.
  - assert (E : umoddi3 n d = Ok (u32 (n mod d))).
    { unfold umoddi3, umod64. rewrite udiv64_exact by (unfold_ints; lia).
      cbn [mbind result_bind mret result_ret]. f_equal. f_equal.
      unfold_ints. pose proof (Z.mod_pos_bound n d ltac:(lia)).
      pose proof (Z.mul_div_le n d ltac:(lia)).
      assert (0 ≤ n / d) by (apply Z.div_pos; lia).
      rewrite (u64_small (d * (n / d))) by (unfold_ints; nia).
      rewrite u64_small by (unfold_ints; nia).
      symmetry. by apply Z.mod_eq. }
    split; [done|]. rewrite E. split.
    + intros [= Hw]. rewrite <- Hw. apply u32_range.
    + intros. rewrite u32_small; [done|].
      split; [apply Z.mod_pos_bound; unfold_ints; lia|done].
  - assert (E : moddi3 n d = Ok (i32 (Z.rem n d))) by (by apply smod64_exact).
    split; [done|]. rewrite E. split.
    + intros [= Hw]. rewrite <- Hw. apply i32_range.
    + intros. by rewrite i32_small.
Qed.

Lemma mod64_low_word_witness :
  umoddi3 (2 ^ 33) (2 ^ 34) = Ok 0 ∧ 2 ^ 33 mod 2 ^ 34 = 2 ^ 33.
Proof.
  split; [|reflexivity].
  destruct (mod64_low_word (2 ^ 33) (2 ^ 34)) as [H _]; [lia|].
  destruct H as [H _]; [split; lia | split; lia |]. rewrite H. reflexivity.
Defined.
