(* ===== verification/DList.v ===== *)
(** * lib/kernel/list.c: doubly linked lists in memory

    The list library links caller-owned [struct list_elem]s through [prev] and
    [next] pointers between two header elements.  Memory is a finite map from
    addresses to elements; a [struct list] at address [l] has its head element at
    [l] and its tail element at [l + 8].  [dlist h l xs] says that the list object
    at [l] holds exactly the elements [xs] in order; each operation is shown to
    implement the corresponding operation on sequences and to leave every element
    outside the list alone.  Loops run with as much fuel as there are elements in
    memory, which the theorems show is always enough. *)

From stdpp Require Import sorting.
From S2P Require Import Prelude.

(** ** Memory *)

Abbreviation ptr := Z (only parsing).
Definition NULL : ptr := 0.

Record list_elem : Type := ListElem { prev : ptr; next : ptr }.

Abbreviation heap := (gmap Z list_elem).

(** Address arithmetic of [struct list]: two elements of 8 bytes. *)
Definition list_head (list : ptr) : ptr := list.
Definition list_tail (list : ptr) : ptr := list + 8.

Definition get_prev (e : ptr) : ST heap ptr := λ h,
  match h !! e with Some n => Ok (prev n, h) | None => Err MemoryFault end.
Definition get_next (e : ptr) : ST heap ptr := λ h,
  match h !! e with Some n => Ok (next n, h) | None => Err MemoryFault end.
Definition set_prev (e v : ptr) : ST heap unit := λ h,
  match h !! e with
  | Some n => Ok (tt, <[e := ListElem v (next n)]> h) | None => Err MemoryFault end.
Definition set_next (e v : ptr) : ST heap unit := λ h,
  match h !! e with
  | Some n => Ok (tt, <[e := ListElem (prev n) v]> h) | None => Err MemoryFault end.

(** A bound on the number of elements any traversal can meet. *)
Definition heap_fuel : ST heap nat := λ h, Ok (S (size h), h).

(** ** The code *)

Definition is_head (elem : ptr) : ST heap bool :=
  if elem =? NULL then mret false else
  p ← get_prev elem; n ← get_next elem;
  mret ((p =? NULL) && negb (n =? NULL)).

Definition is_interior (elem : ptr) : ST heap bool :=
  if elem =? NULL then mret false else
  p ← get_prev elem; n ← get_next elem;
  mret (negb (p =? NULL) && negb (n =? NULL)).

Definition is_tail (elem : ptr) : ST heap bool :=
  if elem =? NULL then mret false else
  p ← get_prev elem; n ← get_next elem;
  mret (negb (p =? NULL) && (n =? NULL)).

(** [ASSERT (c1 || c2)] with the C short-circuit. *)
Definition assert_or (c1 c2 : ST heap bool) : ST heap unit :=
  b1 ← c1;
  if b1 : bool then mret tt else b2 ← c2; assert b2.

Definition list_init (list : ptr) : ST heap unit :=
  assert (negb (list =? NULL));;
  set_prev (list_head list) NULL;;
  set_next (list_head list) (list_tail list);;
  set_prev (list_tail list) (list_head list);;
  set_next (list_tail list) NULL.

Definition list_begin (list : ptr) : ST heap ptr :=
  assert (negb (list =? NULL));; get_next (list_head list).

Definition list_next (elem : ptr) : ST heap ptr :=
  assert_or (is_head elem) (is_interior elem);; get_next elem.

Definition list_end (list : ptr) : ST heap ptr :=
  assert (negb (list =? NULL));; mret (list_tail list).

Definition list_rbegin (list : ptr) : ST heap ptr :=
  assert (negb (list =? NULL));; get_prev (list_tail list).

Definition list_prev (elem : ptr) : ST heap ptr :=
  assert_or (is_interior elem) (is_tail elem);; get_prev elem.

Definition list_rend (list : ptr) : ST heap ptr :=
  assert (negb (list =? NULL));; mret (list_head list).

Definition list_insert (before elem : ptr) : ST heap unit :=
  assert_or (is_interior before) (is_tail before);;
  assert (negb (elem =? NULL));;
  bp ← get_prev before;
  set_prev elem bp;;
  set_next elem before;;
  bp ← get_prev before;
  set_next bp elem;;
  set_prev before elem.

Definition list_splice (before first last : ptr) : ST heap unit :=
  assert_or (is_interior before) (is_tail before);;
  if first =? last then mret tt else
  last ← list_prev last;
  b ← is_interior first; assert b;;
  b ← is_interior last; assert b;;
  (* Cleanly remove FIRST...LAST from its current list. *)
  fp ← get_prev first; ln ← get_next last; set_next fp ln;;
  ln ← get_next last; fp ← get_prev first; set_prev ln fp;;
  (* Splice FIRST...LAST into new list. *)
  bp ← get_prev before; set_prev first bp;;
  set_next last before;;
  bp ← get_prev before; set_next bp first;;
  set_prev before last.

Definition list_push_front (list elem : ptr) : ST heap unit :=
  b ← list_begin list; list_insert b elem.

Definition list_push_back (list elem : ptr) : ST heap unit :=
  e ← list_end list; list_insert e elem.

Definition list_remove (elem : ptr) : ST heap ptr :=
  b ← is_interior elem; assert b;;
  p ← get_prev elem; n ← get_next elem; set_next p n;;
  n ← get_next elem; p ← get_prev elem; set_prev n p;;
  get_next elem.

Definition list_empty (list : ptr) : ST heap bool :=
  b ← list_begin list; e ← list_end list; mret (b =? e).

Definition list_front (list : ptr) : ST heap ptr :=
  b ← list_empty list; assert (negb b);; get_next (list_head list).

Definition list_back (list : ptr) : ST heap ptr :=
  b ← list_empty list; assert (negb b);; get_prev (list_tail list).

Definition list_pop_front (list : ptr) : ST heap ptr :=
  front ← list_front list; list_remove front;; mret front.

Definition list_pop_back (list : ptr) : ST heap ptr :=
  back ← list_back list; list_remove back;; mret back.

Fixpoint list_size_loop (fuel : nat) (list e : ptr) (cnt : Z) : ST heap Z :=
  match fuel with
  | O => fail OutOfFuel
  | S fuel =>
      t ← list_end list;
      if e =? t then mret cnt
      else e ← list_next e; list_size_loop fuel list e (u32 (cnt + 1))
  end.

Definition list_size (list : ptr) : ST heap Z :=
  fuel ← heap_fuel; e ← list_begin list; list_size_loop fuel list e 0.

(** [swap (&e->prev, &e->next)], the body of [list_reverse]'s loop. *)
Definition swap_links (e : ptr) : ST heap unit :=
  p ← get_prev e; n ← get_next e; set_prev e n;; set_next e p.

Fixpoint list_reverse_loop (fuel : nat) (list e : ptr) : ST heap unit :=
  match fuel with
  | O => fail OutOfFuel
  | S fuel =>
      t ← list_end list;
      if e =? t then mret tt
      else swap_links e;; e ← get_prev e; list_reverse_loop fuel list e
  end.

Definition list_reverse (list : ptr) : ST heap unit :=
  b ← list_empty list;
  if b : bool then mret tt else
  fuel ← heap_fuel;
  e ← list_begin list;
  list_reverse_loop fuel list e;;
  (* swap (&list->head.next, &list->tail.prev) *)
  hn ← get_next (list_head list); tp ← get_prev (list_tail list);
  set_next (list_head list) tp;; set_prev (list_tail list) hn;;
  (* swap (&list->head.next->prev, &list->tail.prev->next) *)
  hn ← get_next (list_head list); tp ← get_prev (list_tail list);
  x ← get_prev hn; y ← get_next tp;
  set_prev hn y;; set_next tp x.

(** The ordered operations take [less], a comparison of list elements (the caller's
    [list_less_func] applied to its auxiliary data). *)
Section Ordered.
Context (less : ptr → ptr → bool).

Fixpoint insert_ordered_loop (fuel : nat) (list elem e : ptr) : ST heap ptr :=
  match fuel with
  | O => fail OutOfFuel
  | S fuel =>
      t ← list_end list;
      if e =? t then mret e
      else if less elem e then mret e
      else e ← list_next e; insert_ordered_loop fuel list elem e
  end.

Definition list_insert_ordered (list elem : ptr) : ST heap unit :=
  assert (negb (list =? NULL));;
  assert (negb (elem =? NULL));;
  fuel ← heap_fuel;
  e ← list_begin list;
  e ← insert_ordered_loop fuel list elem e;
  list_insert e elem.

Fixpoint list_unique_loop (fuel : nat) (list duplicates elem : ptr) : ST heap unit :=
  match fuel with
  | O => fail OutOfFuel
  | S fuel =>
      next ← list_next elem; t ← list_end list;
      if next =? t then mret tt
      else if negb (less elem next) && negb (less next elem) then
        list_remove next;;
        (if duplicates =? NULL then mret tt else list_push_back duplicates next);;
        list_unique_loop fuel list duplicates elem
      else list_unique_loop fuel list duplicates next
  end.

Definition list_unique (list duplicates : ptr) : ST heap unit :=
  assert (negb (list =? NULL));;
  b ← list_empty list;
  if b : bool then mret tt else
  fuel ← heap_fuel;
  elem ← list_begin list;
  list_unique_loop fuel list duplicates elem.

Fixpoint list_max_loop (fuel : nat) (list max e : ptr) : ST heap ptr :=
  match fuel with
  | O => fail OutOfFuel
  | S fuel =>
      t ← list_end list;
      if e =? t then mret max
      else
        let max := if less max e then e else max in
        e ← list_next e; list_max_loop fuel list max e
  end.

Definition list_max (list : ptr) : ST heap ptr :=
  max ← list_begin list; t ← list_end list;
  if max =? t then mret max
  else fuel ← heap_fuel; e ← list_next max; list_max_loop fuel list max e.

Fixpoint list_min_loop (fuel : nat) (list min e : ptr) : ST heap ptr :=
  match fuel with
  | O => fail OutOfFuel
  | S fuel =>
      t ← list_end list;
      if e =? t then mret min
      else
        let min := if less e min then e else min in
        e ← list_next e; list_min_loop fuel list min e
  end.

Definition list_min (list : ptr) : ST heap ptr :=
  min ← list_begin list; t ← list_end list;
  if min =? t then mret min
  else fuel ← heap_fuel; e ← list_next min; list_min_loop fuel list min e.

End Ordered.

(** ** What memory represents *)

Definition nxt (h : heap) (e : ptr) : option ptr := next <$> h !! e.
Definition prv (h : heap) (e : ptr) : option ptr := prev <$> h !! e.

(** Consecutive elements of [ns] point at each other. *)
Fixpoint links (h : heap) (ns : list ptr) : Prop :=
  match ns with
  | a :: ((b :: _) as t) => nxt h a = Some b ∧ prv h b = Some a ∧ links h t
  | _ => True
  end.

Definition nodes (l : ptr) (xs : list ptr) : list ptr :=
  list_head l :: xs ++ [list_tail l].

(** The list object at [l] holds the elements [xs]. *)
Record dlist (h : heap) (l : ptr) (xs : list ptr) : Prop := {
  dlist_nodup : NoDup (nodes l xs);
  dlist_nonnull : NULL ∉ nodes l xs;
  dlist_links : links h (nodes l xs);
  dlist_front : prv h (list_head l) = Some NULL;
  dlist_back : nxt h (list_tail l) = Some NULL
}.

(** The elements around a position of the list: the one before [ys] and the one
    after [xs] in [xs ++ ys], headers included. *)
Definition before_of (l : ptr) (xs : list ptr) : ptr := default (list_head l) (last xs).
Definition after_of (l : ptr) (ys : list ptr) : ptr := default (list_tail l) (head ys).

(** Nothing but [S] changed, and nothing was allocated or freed. *)
Definition touches (S : list ptr) (h h' : heap) : Prop :=
  dom h' = dom h ∧ ∀ a, a ∉ S → h' !! a = h !! a.

(** *** Single updates *)

Definition upd_next (h : heap) (e v : ptr) : heap := alter (λ n, ListElem (prev n) v) e h.
Definition upd_prev (h : heap) (e v : ptr) : heap := alter (λ n, ListElem v (next n)) e h.

Lemma get_next_run h e v : nxt h e = Some v → get_next e h = Ok (v, h).
Proof. unfold nxt, get_next. destruct (h !! e); naive_solver. Qed.

Lemma get_prev_run h e v : prv h e = Some v → get_prev e h = Ok (v, h).
Proof. unfold prv, get_prev. destruct (h !! e); naive_solver. Qed.

Lemma set_next_run h e v : is_Some (h !! e) → set_next e v h = Ok (tt, upd_next h e v).
Proof.
  intros [n Hn]. unfold set_next, upd_next. rewrite Hn. repeat f_equal.
  apply map_eq. intros i. rewrite lookup_alter, lookup_insert.
  case_decide; subst; by rewrite ?Hn.
Qed.

Lemma set_prev_run h e v : is_Some (h !! e) → set_prev e v h = Ok (tt, upd_prev h e v).
Proof.
  intros [n Hn]. unfold set_prev, upd_prev. rewrite Hn. repeat f_equal.
  apply map_eq. intros i. rewrite lookup_alter, lookup_insert.
  case_decide; subst; by rewrite ?Hn.
Qed.

Lemma nxt_upd_next h e v : is_Some (h !! e) → nxt (upd_next h e v) e = Some v.
Proof. intros [n Hn]. unfold nxt, upd_next. by rewrite lookup_alter_eq, Hn. Qed.

Lemma nxt_upd_next_ne h e v a : a ≠ e → nxt (upd_next h e v) a = nxt h a.
Proof. intros. unfold nxt, upd_next. by rewrite lookup_alter_ne. Qed.

Lemma prv_upd_next h e v a : prv (upd_next h e v) a = prv h a.
Proof.
  unfold prv, upd_next. rewrite lookup_alter. case_decide; [subst|done]. by destruct (h !! a).
Qed.

Lemma prv_upd_prev h e v : is_Some (h !! e) → prv (upd_prev h e v) e = Some v.
Proof. intros [n Hn]. unfold prv, upd_prev. by rewrite lookup_alter_eq, Hn. Qed.

Lemma prv_upd_prev_ne h e v a : a ≠ e → prv (upd_prev h e v) a = prv h a.
Proof. intros. unfold prv, upd_prev. by rewrite lookup_alter_ne. Qed.

Lemma nxt_upd_prev h e v a : nxt (upd_prev h e v) a = nxt h a.
Proof.
  unfold nxt, upd_prev. rewrite lookup_alter. case_decide; [subst|done]. by destruct (h !! a).
Qed.

Lemma alloc_upd_next h e v a : is_Some (upd_next h e v !! a) ↔ is_Some (h !! a).
Proof. unfold upd_next. rewrite <- !elem_of_dom. by rewrite dom_alter_L. Qed.

Lemma alloc_upd_prev h e v a : is_Some (upd_prev h e v !! a) ↔ is_Some (h !! a).
Proof. unfold upd_prev. rewrite <- !elem_of_dom. by rewrite dom_alter_L. Qed.

Lemma alloc_nxt h a v : nxt h a = Some v → is_Some (h !! a).
Proof. unfold nxt. intros [? [-> ?]]%fmap_Some. eauto. Qed.

Lemma alloc_prv h a v : prv h a = Some v → is_Some (h !! a).
Proof. unfold prv. intros [? [-> ?]]%fmap_Some. eauto. Qed.

Create HintDb heap.
#[export] Hint Resolve alloc_nxt alloc_prv : heap.

(** *** Frame reasoning *)

Lemma touches_refl S h : touches S h h.
Proof. by split. Qed.

Lemma touches_trans S h1 h2 h3 : touches S h1 h2 → touches S h2 h3 → touches S h1 h3.
Proof. intros [D1 F1] [D2 F2]. split; [congruence|]. intros a Ha. rewrite F2, F1; done. Qed.

Lemma touches_mono S S' h h' : S ⊆ S' → touches S h h' → touches S' h h'.
Proof. intros HS [D F]. split; [done|]. intros a Ha. apply F. set_solver. Qed.

Lemma touches_upd_next S h e v : e ∈ S → touches S h (upd_next h e v).
Proof.
  intros He. unfold upd_next. split; [by rewrite dom_alter_L|].
  intros a Ha. rewrite lookup_alter_ne; [done|]. intros ->. done.
Qed.

Lemma touches_upd_prev S h e v : e ∈ S → touches S h (upd_prev h e v).
Proof.
  intros He. unfold upd_prev. split; [by rewrite dom_alter_L|].
  intros a Ha. rewrite lookup_alter_ne; [done|]. intros ->. done.
Qed.

Lemma touches_alloc S h h' a : touches S h h' → is_Some (h' !! a) ↔ is_Some (h !! a).
Proof. intros [D _]. rewrite <- !elem_of_dom. by rewrite D. Qed.

Lemma touches_size S h h' : touches S h h' → size h' = size h.
Proof. intros [D _]. rewrite <- !size_dom. by rewrite D. Qed.

(** [links] depends on the [next] of all but the last and the [prev] of all but the
    first element. *)
Lemma links_frame h h' ns :
  (∀ A a, ns = A ++ [a] → ∀ x, x ∈ A → nxt h' x = nxt h x) →
  (∀ b B, ns = b :: B → ∀ x, x ∈ B → prv h' x = prv h x) →
  links h ns → links h' ns.
Proof.
  induction ns as [|a [|b t] IH]; [done..|].
  intros Hn Hp (H1 & H2 & H3). split_and!.
  - destruct (exists_last (l := b :: t)) as (A & z & E); [done|].
    rewrite (Hn (a :: A) z); [done| |set_solver]. by rewrite E.
  - rewrite (Hp a (b :: t)); [done..|set_solver].
  - apply IH; [| |done].
    + intros A z E x Hx. apply (Hn (a :: A) z); [by rewrite E|set_solver].
    + intros b' B E x Hx. apply (Hp a (b :: t)); [done|]. simplify_eq. set_solver.
Qed.

Lemma links_snoc_frame h h' A a :
  (∀ x, x ∈ A → nxt h' x = nxt h x) → (∀ x, x ∈ A ++ [a] → prv h' x = prv h x) →
  links h (A ++ [a]) → links h' (A ++ [a]).
Proof.
  intros Hn Hp. apply links_frame.
  - intros A' a' E. apply app_inj_tail in E as [<- <-]. done.
  - intros b B E x Hx. apply Hp. rewrite E. set_solver.
Qed.

Lemma links_cons_frame h h' b B :
  (∀ x, x ∈ b :: B → nxt h' x = nxt h x) → (∀ x, x ∈ B → prv h' x = prv h x) →
  links h (b :: B) → links h' (b :: B).
Proof.
  intros Hn Hp. apply links_frame.
  - intros A a E x Hx. apply Hn. rewrite E. set_solver.
  - intros b' B' E. by simplify_eq.
Qed.

Lemma links_app h A b B : links h (A ++ b :: B) ↔ links h (A ++ [b]) ∧ links h (b :: B).
Proof.
  induction A as [|a [|a' A] IH]; [cbn; tauto|cbn; tauto|].
  change (links h (a :: a' :: A ++ b :: B) ↔ links h (a :: a' :: A ++ [b]) ∧ links h (b :: B)).
  cbn [links]. cbn [app] in IH. rewrite IH. tauto.
Qed.

Lemma links_join h A a b B :
  links h (A ++ a :: b :: B) ↔
  links h (A ++ [a]) ∧ nxt h a = Some b ∧ prv h b = Some a ∧ links h (b :: B).
Proof. rewrite links_app. cbn [links]. tauto. Qed.

(** *** Positions in a list *)

Lemma nodes_split l xs ys :
  ∃ A B, (∀ zs, nodes l (xs ++ zs ++ ys) = A ++ before_of l xs :: zs ++ after_of l ys :: B) ∧
         list_head l :: xs = A ++ [before_of l xs] ∧ ys ++ [list_tail l] = after_of l ys :: B.
Proof.
  assert (∃ A, list_head l :: xs = A ++ [before_of l xs]) as [A HA].
  { unfold before_of. destruct xs as [|x xs _] using rev_ind; [by exists []|].
    exists (list_head l :: xs). rewrite last_snoc. by rewrite app_comm_cons. }
  assert (∃ B, ys ++ [list_tail l] = after_of l ys :: B) as [B HB].
  { destruct ys as [|y ys]; [by exists []|by exists (ys ++ [list_tail l])]. }
  exists A, B. split_and!; [|done..]. intros zs. unfold nodes.
  rewrite <- !app_assoc, HB, app_comm_cons, HA, <- app_assoc. done.
Qed.

Lemma links_alloc h ns a : links h ns → (2 ≤ length ns)%nat → a ∈ ns → is_Some (h !! a).
Proof.
  induction ns as [|x [|y t] IH]; [simpl; lia..|].
  intros (H1 & H2 & H3) _ [->|Ha]%elem_of_cons; [eauto with heap|].
  destruct t as [|z t]; [|apply IH; simpl; (done || lia)].
  apply list_elem_of_singleton in Ha as ->. eauto with heap.
Qed.

Lemma dlist_alloc h l xs a : dlist h l xs → a ∈ nodes l xs → is_Some (h !! a).
Proof.
  intros Hd. apply links_alloc; [apply Hd|]. unfold nodes. simpl. rewrite length_app. simpl. lia.
Qed.

Lemma dlist_get h l xs a :
  dlist h l xs → a ∈ nodes l xs → ∃ p n, prv h a = Some p ∧ nxt h a = Some n.
Proof.
  intros Hd Ha. destruct (dlist_alloc _ _ _ _ Hd Ha) as [nd Hn].
  unfold prv, nxt. rewrite Hn. simpl. eauto.
Qed.

Lemma before_of_in l xs ys : before_of l xs ∈ nodes l (xs ++ ys).
Proof.
  destruct (nodes_split l xs ys) as (A & B & E & _). specialize (E []). simpl in E.
  rewrite E. set_solver.
Qed.

Lemma after_of_in l xs ys : after_of l ys ∈ nodes l (xs ++ ys).
Proof.
  destruct (nodes_split l xs ys) as (A & B & E & _). specialize (E []). simpl in E.
  rewrite E. set_solver.
Qed.

Lemma dlist_member_nonnull h l xs a : dlist h l xs → a ∈ nodes l xs → a ≠ NULL.
Proof. intros Hd Ha ->. by apply (dlist_nonnull _ _ _ Hd). Qed.

Lemma dlist_adjacent h l xs ys :
  dlist h l (xs ++ ys) →
  nxt h (before_of l xs) = Some (after_of l ys) ∧ prv h (after_of l ys) = Some (before_of l xs).
Proof.
  intros Hd. destruct (nodes_split l xs ys) as (A & B & E & _). specialize (E []).
  pose proof (dlist_links _ _ _ Hd) as Hl. simpl in E. rewrite E, links_join in Hl. tauto.
Qed.

Lemma dlist_element h l xs e ys :
  dlist h l (xs ++ e :: ys) →
  e ≠ NULL ∧ prv h e = Some (before_of l xs) ∧ nxt h e = Some (after_of l ys) ∧
  before_of l xs ≠ NULL ∧ after_of l ys ≠ NULL.
Proof.
  intros Hd. split_and!.
  - apply (dlist_member_nonnull h l (xs ++ e :: ys)); [done|]. unfold nodes. set_solver.
  - by destruct (dlist_adjacent h l xs (e :: ys) Hd).
  - destruct (dlist_adjacent h l (xs ++ [e]) ys) as [H _]; [by rewrite <- app_assoc|].
    unfold before_of in H. by rewrite last_snoc in H.
  - eapply dlist_member_nonnull; [done|apply before_of_in].
  - eapply dlist_member_nonnull; [done|].
    change (e :: ys) with ([e] ++ ys). rewrite app_assoc. apply after_of_in.
Qed.

(** *** Running the assertions *)

Section Run.
Local Ltac run := unfold assert_or, is_head, is_interior, is_tail, mbind, st_bind, assert, lift, mret, st_ret.
Local Ltac nz := repeat match goal with H : ?x ≠ NULL |- context [?x =? NULL] =>
  rewrite (proj2 (Z.eqb_neq x NULL) H) end.

Lemma is_interior_run h e p n :
  e ≠ NULL → prv h e = Some p → nxt h e = Some n → p ≠ NULL → n ≠ NULL →
  is_interior e h = Ok (true, h).
Proof.
  intros. run. nz. rewrite (get_prev_run _ _ p), (get_next_run _ _ n) by done. by nz.
Qed.

Lemma assert_interior_or_tail_run h e p n :
  e ≠ NULL → prv h e = Some p → nxt h e = Some n → p ≠ NULL →
  assert_or (is_interior e) (is_tail e) h = Ok (tt, h).
Proof.
  intros. run. nz. rewrite (get_prev_run _ _ p), (get_next_run _ _ n) by done. nz.
  simpl. destruct (n =? NULL) eqn:En; simpl; [|done].
  rewrite (get_prev_run _ _ p), (get_next_run _ _ n) by done. nz. by rewrite En.
Qed.

Lemma assert_head_or_interior_run h e p n :
  e ≠ NULL → prv h e = Some p → nxt h e = Some n → n ≠ NULL →
  assert_or (is_head e) (is_interior e) h = Ok (tt, h).
Proof.
  intros. run. nz. rewrite (get_prev_run _ _ p), (get_next_run _ _ n) by done. nz.
  simpl. rewrite andb_true_r. destruct (p =? NULL) eqn:Ep; simpl; [done|].
  rewrite (get_prev_run _ _ p), (get_next_run _ _ n) by done. nz. by rewrite Ep.
Qed.

Lemma assert_run {S} (b : bool) (s : S) : b = true → assert b s = Ok (tt, s).
Proof. by intros ->. Qed.

Lemma bind_run {S A B} (m : ST S A) (f : A → ST S B) s a s' :
  m s = Ok (a, s') → (m ≫= f) s = f a s'.
Proof. intros H. unfold mbind, st_bind. by rewrite H. Qed.

End Run.

(** Step a monadic run by a lemma about its first action. *)
Ltac step lem := erewrite bind_run by (eapply lem; eauto with heap).

(** Facts of a duplicate-free concatenation, for [set_solver]. *)
Ltac nodups H := rewrite ?NoDup_app, ?NoDup_cons in H; destruct_and?.

(** *** Insertion *)

(** The disequalities a duplicate-free node sequence gives around a position. *)
Lemma zip_distinct (A B : list ptr) a b :
  NoDup (A ++ a :: b :: B) →
  a ≠ b ∧ (∀ x, x ∈ A ++ [a] → x ≠ b) ∧ (∀ x, x ∈ b :: B → x ≠ a) ∧
  (∀ x, x ∈ A → x ≠ a) ∧ (∀ x, x ∈ B → x ≠ b).
Proof.
  rewrite NoDup_app, !NoDup_cons. intros (_ & HA & Ha & Hb & _).
  split_and!; intros; try intros ->; set_solver.
Qed.

Lemma zip_headers l xs ys A B a b :
  list_head l :: xs = A ++ [a] → ys ++ [list_tail l] = b :: B →
  list_head l ∈ A ++ [a] ∧ list_tail l ∈ b :: B.
Proof. intros <- <-. set_solver. Qed.

Lemma list_insert_spec h l xs ys e :
  dlist h l (xs ++ ys) → is_Some (h !! e) → e ≠ NULL → e ∉ nodes l (xs ++ ys) →
  ∃ h', list_insert (after_of l ys) e h = Ok (tt, h') ∧ dlist h' l (xs ++ e :: ys) ∧
        touches (e :: nodes l (xs ++ ys)) h h'.
Proof.
  intros Hd He Hnull Hfresh.
  destruct (nodes_split l xs ys) as (A & B & E & EA & EB).
  pose proof (E []) as E0. pose proof (E [e]) as E1. simpl in E0, E1.
  destruct (dlist_adjacent h l xs ys Hd) as [Hab Hba].
  destruct (dlist_get h l _ _ Hd (after_of_in l xs ys)) as (p0 & n & _ & Hbn).
  pose proof (dlist_member_nonnull h l _ _ Hd (after_of_in l xs ys)) as Hb0.
  pose proof (dlist_member_nonnull h l _ _ Hd (before_of_in l xs ys)) as Ha0.
  destruct Hd as [Hnd Hnn Hl Hf Hbk]. rewrite E0 in *.
  set (a := before_of l xs) in *. set (b := after_of l ys) in *.
  apply links_join in Hl as (L1 & _ & _ & L2).
  destruct (zip_headers _ _ _ _ _ _ _ EA EB) as [Hhd Htl]. clear E EA EB E0.
  destruct (zip_distinct _ _ _ _ Hnd) as (Dab & Db & Da & DA & DB).
  assert (De : ∀ x, x ∈ A ++ [a] ∨ x ∈ b :: B → x ≠ e) by (intros x Hx ->; set_solver).
  assert (Ala : is_Some (h !! a)) by eauto with heap.
  assert (Alb : is_Some (h !! b)) by eauto with heap.
  assert (Hea : a ≠ e) by (apply De; set_solver). assert (Heb : b ≠ e) by (apply De; set_solver).
  set (h' := upd_prev (upd_next (upd_next (upd_prev h e a) e b) a e) b e).
  assert (Nx : ∀ x, x ≠ e → x ≠ a → nxt h' x = nxt h x).
  { intros. unfold h'. by rewrite nxt_upd_prev, !nxt_upd_next_ne, nxt_upd_prev. }
  assert (Px : ∀ x, x ≠ e → x ≠ b → prv h' x = prv h x).
  { intros. unfold h'. by rewrite prv_upd_prev_ne, !prv_upd_next, prv_upd_prev_ne. }
  exists h'. split_and!.
  - unfold list_insert. step assert_interior_or_tail_run.
    erewrite bind_run by (apply assert_run; by apply negb_true_iff, Z.eqb_neq).
    step get_prev_run. step set_prev_run.
    erewrite bind_run by (apply set_next_run; by apply alloc_upd_prev).
    erewrite bind_run by (apply get_prev_run; rewrite prv_upd_next, prv_upd_prev_ne; done).
    erewrite bind_run by (apply set_next_run; by rewrite alloc_upd_next, alloc_upd_prev).
    apply set_prev_run. by rewrite !alloc_upd_next, alloc_upd_prev.
  - split; rewrite ?E1; [| | |rewrite Px; auto|rewrite Nx; auto].
    + apply NoDup_app in Hnd as (? & ? & ?). rewrite NoDup_app, !NoDup_cons in *. set_solver.
    + set_solver.
    + rewrite links_join. cbn [links]. split_and!.
      * eapply links_snoc_frame; [| |exact L1]; intros x Hx; [apply Nx|apply Px]; auto.
        apply De. set_solver.
      * unfold h'. rewrite nxt_upd_prev, nxt_upd_next; [done|]. by rewrite alloc_upd_next, alloc_upd_prev.
      * unfold h'. rewrite prv_upd_prev_ne, !prv_upd_next, prv_upd_prev; done.
      * unfold h'. rewrite nxt_upd_prev, nxt_upd_next_ne, nxt_upd_next; [done| |done].
        by rewrite alloc_upd_prev.
      * unfold h'. apply prv_upd_prev. by rewrite !alloc_upd_next, alloc_upd_prev.
      * eapply links_cons_frame; [| |exact L2]; intros x Hx; [apply Nx|apply Px]; auto.
        apply De. set_solver.
  - unfold h'. repeat (eapply touches_trans; [|first [apply touches_upd_prev | apply touches_upd_next]; set_solver]).
    apply touches_refl.
Qed.

(** *** Removal *)

Lemma list_remove_spec h l xs e ys :
  dlist h l (xs ++ e :: ys) →
  ∃ h', list_remove e h = Ok (after_of l ys, h') ∧ dlist h' l (xs ++ ys) ∧
        touches (nodes l (xs ++ ys)) h h'.
Proof.
  intros Hd. destruct (dlist_element _ _ _ _ _ Hd) as (He & Hea & Heb & Ha0 & Hb0).
  destruct (nodes_split l xs ys) as (A & B & E & EA & EB).
  pose proof (E []) as E0. pose proof (E [e]) as E1. simpl in E0, E1.
  assert (Alb : is_Some (h !! after_of l ys)).
  { apply (dlist_alloc h l (xs ++ e :: ys)); [done|]. rewrite E1. set_solver. }
  assert (Ala : is_Some (h !! before_of l xs)).
  { apply (dlist_alloc h l (xs ++ e :: ys)); [done|]. rewrite E1. set_solver. }
  destruct Hd as [Hnd Hnn Hl Hf Hbk]. rewrite E1 in *. rewrite E0.
  set (a := before_of l xs) in *. set (b := after_of l ys) in *.
  apply links_join in Hl as (L1 & _ & _ & (_ & _ & L2)).
  destruct (zip_headers _ _ _ _ _ _ _ EA EB) as [Hhd Htl]. clear E EA EB E1.
  assert (Hnd' : NoDup (A ++ a :: b :: B)) by
    (eapply sublist_NoDup; [exact Hnd|]; apply sublist_app; [done|]; by repeat constructor).
  destruct (zip_distinct _ _ _ _ Hnd') as (Dab & Db & Da & DA & DB).
  assert (e ≠ a ∧ e ≠ b) as [De1 De2].
  { rewrite NoDup_app, !NoDup_cons in Hnd. split; intros ->; set_solver. }
  set (h' := upd_prev (upd_next h a b) b a).
  assert (Nx : ∀ x, x ≠ a → nxt h' x = nxt h x).
  { intros. unfold h'. by rewrite nxt_upd_prev, nxt_upd_next_ne. }
  assert (Px : ∀ x, x ≠ b → prv h' x = prv h x).
  { intros. unfold h'. by rewrite prv_upd_prev_ne, prv_upd_next. }
  exists h'. split_and!.
  - unfold list_remove. step is_interior_run. step @assert_run.
    step get_prev_run. step get_next_run. step set_next_run.
    erewrite bind_run by (apply get_next_run; rewrite nxt_upd_next_ne; done).
    erewrite bind_run by (apply get_prev_run; rewrite prv_upd_next; done).
    erewrite bind_run by (apply set_prev_run; by rewrite alloc_upd_next).
    apply get_next_run. by rewrite Nx.
  - split; rewrite ?E0; [done|set_solver| |rewrite Px; auto|rewrite Nx; auto].
    rewrite links_join. split_and!.
    + eapply links_snoc_frame; [| |exact L1]; intros x Hx; [apply Nx|apply Px]; auto.
    + unfold h'. by rewrite nxt_upd_prev, nxt_upd_next.
    + unfold h'. apply prv_upd_prev. by rewrite alloc_upd_next.
    + eapply links_cons_frame; [| |exact L2]; intros x Hx; [apply Nx|apply Px]; auto.
  - unfold h'. eapply touches_trans; [apply touches_upd_next|apply touches_upd_prev]; set_solver.
Qed.

(** *** Creation, traversal, queue operations *)

Lemma list_init_spec h l :
  l ≠ NULL → list_tail l ≠ NULL → is_Some (h !! list_head l) → is_Some (h !! list_tail l) →
  ∃ h', list_init l h = Ok (tt, h') ∧ dlist h' l [] ∧ touches (nodes l []) h h'.
Proof.
  intros Hl Ht Ah At.
  assert (Dht : list_head l ≠ list_tail l) by (unfold list_head, list_tail; lia).
  eexists. split_and!.
  - unfold list_init. erewrite bind_run by (apply assert_run; by apply negb_true_iff, Z.eqb_neq).
    step set_prev_run.
    erewrite bind_run by (apply set_next_run; by rewrite alloc_upd_prev).
    erewrite bind_run by (apply set_prev_run; by rewrite alloc_upd_next, alloc_upd_prev).
    apply set_next_run. by rewrite alloc_upd_prev, alloc_upd_next, alloc_upd_prev.
  - split; unfold nodes; simpl.
    + rewrite !NoDup_cons. split_and!; [|set_solver|by apply NoDup_nil]. set_solver.
    + unfold list_head in *. set_solver.
    + split_and!; [| |done].
      * rewrite nxt_upd_next_ne, nxt_upd_prev, nxt_upd_next; [done| |done]. by rewrite alloc_upd_prev.
      * rewrite prv_upd_next, prv_upd_prev; [done|]. by rewrite alloc_upd_next, alloc_upd_prev.
    + rewrite prv_upd_next, prv_upd_prev_ne, prv_upd_next, prv_upd_prev; done.
    + rewrite nxt_upd_next; [done|]. by rewrite alloc_upd_prev, alloc_upd_next, alloc_upd_prev.
  - repeat (eapply touches_trans; [|first [apply touches_upd_prev | apply touches_upd_next]; set_solver]).
    apply touches_refl.
Qed.

Lemma dlist_nonnull_list h l xs : dlist h l xs → negb (l =? NULL) = true.
Proof.
  intros Hd. apply negb_true_iff, Z.eqb_neq. change l with (list_head l).
  eapply dlist_member_nonnull; [done|]. unfold nodes. set_solver.
Qed.
#[export] Hint Resolve dlist_nonnull_list : heap.

Lemma list_begin_spec h l xs : dlist h l xs → list_begin l h = Ok (after_of l xs, h).
Proof.
  intros Hd. unfold list_begin. step @assert_run. apply get_next_run.
  by destruct (dlist_adjacent h l [] xs Hd).
Qed.

Lemma list_rbegin_spec h l xs : dlist h l xs → list_rbegin l h = Ok (before_of l xs, h).
Proof.
  intros Hd. unfold list_rbegin. step @assert_run. apply get_prev_run.
  destruct (dlist_adjacent h l xs []) as [_ H]; [by rewrite app_nil_r|done].
Qed.

Lemma list_end_spec h l xs : dlist h l xs → list_end l h = Ok (list_tail l, h).
Proof. intros Hd. unfold list_end. by step @assert_run. Qed.

Lemma list_rend_spec h l xs : dlist h l xs → list_rend l h = Ok (list_head l, h).
Proof. intros Hd. unfold list_rend. by step @assert_run. Qed.

Lemma list_next_spec h l xs e ys :
  dlist h l (xs ++ e :: ys) → list_next e h = Ok (after_of l ys, h).
Proof.
  intros Hd. destruct (dlist_element _ _ _ _ _ Hd) as (? & ? & ? & ? & ?).
  unfold list_next. step assert_head_or_interior_run. by apply get_next_run.
Qed.

Lemma list_prev_spec h l xs ys :
  dlist h l (xs ++ ys) → list_prev (after_of l ys) h = Ok (before_of l xs, h).
Proof.
  intros Hd. destruct (dlist_adjacent _ _ _ _ Hd) as [_ Hp].
  destruct (dlist_get _ _ _ _ Hd (after_of_in l xs ys)) as (p0 & n & _ & Hn).
  pose proof (dlist_member_nonnull _ _ _ _ Hd (after_of_in l xs ys)).
  pose proof (dlist_member_nonnull _ _ _ _ Hd (before_of_in l xs ys)).
  unfold list_prev. step assert_interior_or_tail_run. by apply get_prev_run.
Qed.

(** The tail is not an element: the exit test of every traversal. *)
Lemma after_of_tail h l xs ys :
  dlist h l (xs ++ ys) → (after_of l ys =? list_tail l) = match ys with [] => true | _ :: _ => false end.
Proof.
  intros Hd. destruct ys as [|y ys]; [by rewrite Z.eqb_refl|].
  apply Z.eqb_neq. intros E. change (y = list_tail l) in E. subst y.
  pose proof (dlist_nodup _ _ _ Hd) as Hnd.
  unfold nodes in Hnd. rewrite NoDup_cons, !NoDup_app, NoDup_cons in Hnd. set_solver.
Qed.

Lemma list_empty_spec h l xs : dlist h l xs → list_empty l h = Ok (bool_decide (xs = []), h).
Proof.
  intros Hd. unfold list_empty. step list_begin_spec. step list_end_spec.
  unfold mret, st_ret. rewrite (after_of_tail h l [] xs Hd). by destruct xs.
Qed.

Lemma list_push_back_spec h l xs e :
  dlist h l xs → is_Some (h !! e) → e ≠ NULL → e ∉ nodes l xs →
  ∃ h', list_push_back l e h = Ok (tt, h') ∧ dlist h' l (xs ++ [e]) ∧
        touches (e :: nodes l xs) h h'.
Proof.
  intros Hd He Hn Hf. rewrite <- (app_nil_r xs) in Hd, Hf.
  destruct (list_insert_spec h l xs [] e Hd He Hn Hf) as (h' & Hr & Hd' & Ht).
  rewrite app_nil_r in *. exists h'. split_and!; [|done..].
  unfold list_push_back. by step list_end_spec.
Qed.

Lemma list_push_front_spec h l xs e :
  dlist h l xs → is_Some (h !! e) → e ≠ NULL → e ∉ nodes l xs →
  ∃ h', list_push_front l e h = Ok (tt, h') ∧ dlist h' l (e :: xs) ∧
        touches (e :: nodes l xs) h h'.
Proof.
  intros Hd He Hn Hf.
  destruct (list_insert_spec h l [] xs e Hd He Hn Hf) as (h' & Hr & Hd' & Ht).
  exists h'. split_and!; [|done..]. unfold list_push_front. by step list_begin_spec.
Qed.

Lemma list_front_spec h l x xs : dlist h l (x :: xs) → list_front l h = Ok (x, h).
Proof.
  intros Hd. unfold list_front. step list_empty_spec. step @assert_run.
  apply get_next_run. by destruct (dlist_adjacent h l [] (x :: xs) Hd).
Qed.

Lemma list_back_spec h l xs x : dlist h l (xs ++ [x]) → list_back l h = Ok (x, h).
Proof.
  intros Hd. unfold list_back. step list_empty_spec.
  erewrite bind_run by (apply assert_run; by destruct xs).
  apply get_prev_run. destruct (dlist_adjacent h l (xs ++ [x]) []) as [_ H].
  { by rewrite app_nil_r. }
  unfold before_of in H. by rewrite last_snoc in H.
Qed.

(** Removing an element that was just removed changes nothing: it still points to its old
    neighbours, which point to each other by then. *)
Lemma list_remove_again h e p n r h' :
  h !! e = Some (ListElem p n) → p ≠ e → n ≠ e → p ≠ n → list_remove e h = Ok (r, h') → list_remove e h' = Ok (r, h').
Proof.
  intros He Hpe Hne Hpn. unfold list_remove, is_interior, get_prev, get_next, set_prev, set_next, assert, lift, ASSERT, mbind, st_bind, mret, st_ret.
  destruct (Z.eqb_spec e NULL); [done|]. repeat (rewrite He; simpl).
  destruct (negb (p =? NULL) && negb (n =? NULL)) eqn:Eb; [|done]. repeat (rewrite He; simpl).
  destruct (h !! p) as [np|] eqn:Ep; [|done]. repeat (rewrite lookup_insert_ne by done; rewrite He; simpl).
  destruct (h !! n) as [nn|] eqn:En; rewrite (lookup_insert_ne h p n) by done; rewrite En; [|done].
  rewrite !lookup_insert_ne by done. rewrite He. simpl. intros [= <- <-].
  assert (E1 : ∀ v, <[n := ListElem p (next nn)]> (<[p := ListElem (prev np) v]> h) !! e = Some (ListElem p n)) by (intros v; by rewrite !lookup_insert_ne by done).
  set (h1 := <[n := _]> _) in *. assert (E2 : h1 !! p = Some (ListElem (prev np) n)) by (unfold h1; by rewrite lookup_insert_ne, lookup_insert_eq by done).
  assert (E3 : h1 !! n = Some (ListElem p (next nn))) by (unfold h1; by rewrite lookup_insert_eq). specialize (E1 n). fold h1 in E1.
  repeat (rewrite E1; simpl). rewrite Eb. repeat (rewrite E1; simpl). rewrite E2. simpl. rewrite (insert_id h1 p) by done.
  repeat (rewrite E1; simpl). rewrite E3. simpl. rewrite (insert_id h1 n) by done. by rewrite E1.
Qed.

Lemma list_pop_front_spec h l x xs :
  dlist h l (x :: xs) →
  ∃ h', list_pop_front l h = Ok (x, h') ∧ dlist h' l xs ∧ touches (nodes l xs) h h'.
Proof.
  intros Hd. destruct (list_remove_spec h l [] x xs Hd) as (h' & Hr & Hd' & Ht).
  exists h'. split_and!; [|done..]. unfold list_pop_front. step list_front_spec.
  by erewrite bind_run by done.
Qed.

Lemma list_pop_back_spec h l xs x :
  dlist h l (xs ++ [x]) →
  ∃ h', list_pop_back l h = Ok (x, h') ∧ dlist h' l xs ∧ touches (nodes l xs) h h'.
Proof.
  intros Hd. destruct (list_remove_spec h l xs x [] Hd) as (h' & Hr & Hd' & Ht).
  rewrite app_nil_r in *. exists h'. split_and!; [|done..].
  unfold list_pop_back. step list_back_spec. by erewrite bind_run by done.
Qed.

(** *** Traversals end *)

Lemma dlist_length h l xs : dlist h l xs → (length xs + 2 ≤ size h)%nat.
Proof.
  intros Hd. rewrite <- size_dom.
  replace (length xs + 2)%nat with (size (list_to_set (C := gset Z) (nodes l xs))).
  - apply subseteq_size. intros a Ha. apply elem_of_dom.
    eapply dlist_alloc; [done|]. set_solver.
  - rewrite size_list_to_set by apply Hd. unfold nodes. simpl. rewrite length_app. simpl. lia.
Qed.

Lemma heap_fuel_run h : heap_fuel h = Ok (S (size h), h).
Proof. done. Qed.

Lemma dlist_shift {h l xs e ys} : dlist h l (xs ++ e :: ys) → dlist h l ((xs ++ [e]) ++ ys).
Proof. by rewrite <- app_assoc. Qed.

(** One round of a traversal that stands at [e] with [ys] to go. *)
Ltac at_tail Hd := rewrite (after_of_tail _ _ _ _ Hd).

Lemma list_size_loop_spec h l xs ys fuel cnt :
  dlist h l (xs ++ ys) → (length ys < fuel)%nat →
  list_size_loop fuel l (after_of l ys) (u32 cnt) h = Ok (u32 (cnt + Z.of_nat (length ys)), h).
Proof.
  revert xs ys cnt. induction fuel as [|fuel IH]; intros xs ys cnt Hd Hf; [lia|].
  cbn [list_size_loop]. step list_end_spec. at_tail Hd.
  destruct ys as [|y ys]; [by rewrite Z.add_0_r|].
  cbn iota. step list_next_spec.
  replace (u32 (u32 cnt + 1)) with (u32 (cnt + 1)) by (unfold u32; by rewrite Zplus_mod_idemp_l).
  rewrite (IH _ _ _ (dlist_shift Hd)) by (simpl in Hf; lia).
  simpl length. by replace (cnt + 1 + Z.of_nat (length ys)) with (cnt + Z.of_nat (S (length ys))) by lia.
Qed.

Lemma list_size_spec h l xs : dlist h l xs → list_size l h = Ok (u32 (Z.of_nat (length xs)), h).
Proof.
  intros Hd. unfold list_size. step heap_fuel_run. step list_begin_spec.
  change 0 with (u32 0). apply (list_size_loop_spec h l [] xs); [done|].
  pose proof (dlist_length _ _ _ Hd). lia.
Qed.

(** *** Reversal *)

(** The elements of [S] have their links exchanged; nothing else changed. *)
Definition swapped (S : list ptr) (h hs : heap) : Prop :=
  (∀ e, e ∈ S → nxt hs e = prv h e ∧ prv hs e = nxt h e) ∧
  (∀ e, e ∉ S → nxt hs e = nxt h e ∧ prv hs e = prv h e) ∧ touches S h hs.

Lemma swap_links_run h e p n :
  prv h e = Some p → nxt h e = Some n →
  swap_links e h = Ok (tt, upd_next (upd_prev h e n) e p).
Proof.
  intros Hp Hn. unfold swap_links. step get_prev_run. step get_next_run. step set_prev_run.
  apply set_next_run. apply alloc_upd_prev. eauto with heap.
Qed.

Lemma swapped_snoc h hs xs e p n :
  e ∉ xs → prv h e = Some p → nxt h e = Some n → swapped xs h hs →
  swapped (xs ++ [e]) h (upd_next (upd_prev hs e n) e p).
Proof.
  intros He Hp Hn (Hin & Hout & Ht).
  assert (Al : is_Some (hs !! e)) by (apply (touches_alloc _ _ _ _ Ht); eauto with heap).
  assert (Hx : ∀ x, x ≠ e → nxt (upd_next (upd_prev hs e n) e p) x = nxt hs x ∧
                            prv (upd_next (upd_prev hs e n) e p) x = prv hs x).
  { intros. by rewrite nxt_upd_next_ne, nxt_upd_prev, prv_upd_next, prv_upd_prev_ne. }
  split_and!.
  - intros x [Hxs| ->%list_elem_of_singleton]%elem_of_app.
    + destruct (Hx x) as [-> ->]; [by intros ->|]. by apply Hin.
    + rewrite nxt_upd_next by (by apply alloc_upd_prev).
      by rewrite prv_upd_next, prv_upd_prev.
  - intros x Hxs. destruct (Hx x) as [-> ->]; [set_solver|]. apply Hout. set_solver.
  - eapply touches_trans; [eapply touches_mono; [|exact Ht]; set_solver|].
    eapply touches_trans; [apply touches_upd_prev|apply touches_upd_next]; set_solver.
Qed.

Lemma list_reverse_loop_spec h l xs ys hs fuel :
  dlist h l (xs ++ ys) → swapped xs h hs → (length ys < fuel)%nat →
  ∃ h', list_reverse_loop fuel l (after_of l ys) hs = Ok (tt, h') ∧ swapped (xs ++ ys) h h'.
Proof.
  revert xs ys hs. induction fuel as [|fuel IH]; intros xs ys hs Hd Hs Hf; [lia|].
  cbn [list_reverse_loop]. unfold list_end at 1.
  erewrite bind_run by (erewrite bind_run by (apply assert_run; eauto with heap); reflexivity).
  at_tail Hd. destruct ys as [|y ys]; [exists hs; by rewrite app_nil_r|].
  cbn iota.
  destruct (dlist_element _ _ _ _ _ Hd) as (_ & Hp & Hn & _).
  assert (Hy : y ∉ xs).
  { pose proof (dlist_nodup _ _ _ Hd) as Hnd. unfold nodes in Hnd.
    rewrite NoDup_cons, !NoDup_app, NoDup_cons in Hnd. set_solver. }
  pose proof Hs as (_ & Hout & Ht). destruct (Hout y Hy) as [En Ep].
  change (after_of l (y :: ys)) with y.
  erewrite bind_run by (apply swap_links_run; [by rewrite Ep|by rewrite En]).
  assert (Al : is_Some (hs !! y)) by (apply (touches_alloc _ _ _ _ Ht); eauto with heap).
  erewrite bind_run by (apply get_prev_run; rewrite prv_upd_next; by apply prv_upd_prev).
  destruct (IH (xs ++ [y]) ys _ (dlist_shift Hd) (swapped_snoc _ _ _ _ _ _ Hy Hp Hn Hs))
    as (h' & Hr & Hs'); [simpl in Hf; lia|].
  exists h'. split; [done|]. by rewrite <- app_assoc in Hs'.
Qed.

(** Exchanging the links of a segment reverses it. *)
Lemma links_reverse h hs xs :
  (∀ e, e ∈ xs → nxt hs e = prv h e ∧ prv hs e = nxt h e) → links h xs → links hs (reverse xs).
Proof.
  induction xs as [|a [|b xs] IH]; [done..|]. intros Hs (H1 & H2 & H3).
  rewrite !reverse_cons, <- app_assoc. cbn [app]. rewrite links_join. split_and!; [| | |done].
  - rewrite <- reverse_cons. apply IH; [|done]. intros e He. apply Hs. set_solver.
  - destruct (Hs b) as [-> _]; [set_solver|done].
  - destruct (Hs a) as [_ ->]; [set_solver|done].
Qed.

Lemma dlist_distinct h l xs :
  dlist h l xs →
  NoDup xs ∧ (list_head l ∉ xs) ∧ (list_tail l ∉ xs) ∧ list_head l ≠ list_tail l ∧
  (∀ x, x ∈ xs → x ≠ list_head l ∧ x ≠ list_tail l).
Proof.
  intros Hd. pose proof (dlist_nodup _ _ _ Hd) as Hnd. unfold nodes in Hnd.
  rewrite NoDup_cons, NoDup_app in Hnd. destruct Hnd as (Hh & Hx & Ht & _).
  assert (list_head l ∉ xs) by set_solver. assert (list_tail l ∉ xs) by set_solver.
  split_and!; [done..|set_solver|]. intros x Hxs; split; intros ->; done.
Qed.

(** The two exchanges after the loop, on the elements next to the headers. *)
Lemma list_reverse_finish h l xs f z hs :
  dlist h l xs → swapped xs h hs → f ∈ xs → z ∈ xs →
  nxt h (list_head l) = Some f → prv h f = Some (list_head l) →
  prv h (list_tail l) = Some z → nxt h z = Some (list_tail l) →
  let h4 := upd_next (upd_prev (upd_prev (upd_next hs (list_head l) z) (list_tail l) f)
                        z (list_head l)) f (list_tail l) in
  (hn ← get_next (list_head l); tp ← get_prev (list_tail l);
   set_next (list_head l) tp;; set_prev (list_tail l) hn;;
   hn ← get_next (list_head l); tp ← get_prev (list_tail l);
   x ← get_prev hn; y ← get_next tp;
   set_prev hn y;; set_next tp x) hs = Ok (tt, h4).
Proof.
  intros Hd (Hin & Hout & Ht) Hf Hz E1 E2 E3 E4 h4.
  destruct (dlist_distinct _ _ _ Hd) as (_ & Nh & Nt & Dht & Dx).
  destruct (Hout _ Nh) as [A1 _]. destruct (Hout _ Nt) as [_ A2].
  destruct (Hin f Hf) as [Hf1 _]. destruct (Hin z Hz) as [_ Hz1].
  destruct (Dx f Hf) as [Df1 Df2]. destruct (Dx z Hz) as [Dz1 Dz2].
  assert (Alh : is_Some (hs !! list_head l)) by (apply (touches_alloc _ _ _ _ Ht); eauto with heap).
  assert (Alt : is_Some (hs !! list_tail l)) by (apply (touches_alloc _ _ _ _ Ht); eauto with heap).
  assert (Alz : is_Some (hs !! z)) by (apply (touches_alloc _ _ _ _ Ht); eauto with heap).
  assert (Alf : is_Some (hs !! f)) by (apply (touches_alloc _ _ _ _ Ht); eauto with heap).
  erewrite bind_run by (apply get_next_run; by rewrite A1).
  erewrite bind_run by (apply get_prev_run; by rewrite A2).
  step set_next_run.
  erewrite bind_run by (apply set_prev_run; by apply alloc_upd_next).
  erewrite bind_run by (apply get_next_run; rewrite nxt_upd_prev; by apply nxt_upd_next).
  erewrite bind_run by (apply get_prev_run; apply prv_upd_prev; by apply alloc_upd_next).
  erewrite bind_run by (apply get_prev_run; rewrite prv_upd_prev_ne, prv_upd_next by done;
    rewrite Hz1; done).
  erewrite bind_run by (apply get_next_run; rewrite nxt_upd_prev, nxt_upd_next_ne by done;
    rewrite Hf1; done).
  erewrite bind_run by (apply set_prev_run; by rewrite alloc_upd_prev, alloc_upd_next).
  apply set_next_run. by rewrite !alloc_upd_prev, alloc_upd_next.
Qed.

(** The memory after both exchanges holds the reversed list. *)
Lemma list_reverse_result h l f xs' ys z hs :
  dlist h l (f :: xs') → swapped (f :: xs') h hs → f :: xs' = ys ++ [z] →
  let h4 := upd_next (upd_prev (upd_prev (upd_next hs (list_head l) z) (list_tail l) f)
                        z (list_head l)) f (list_tail l) in
  dlist h4 l (reverse (f :: xs')).
Proof.
  intros Hd Hs E h4. subst h4.
  assert (Hf : f ∈ f :: xs') by set_solver. assert (Hz : z ∈ f :: xs') by (rewrite E; set_solver).
  assert (Al : ∀ a, a ∈ nodes l (f :: xs') → is_Some (hs !! a)).
  { intros a Ha. destruct Hs as (_ & _ & Ht). apply (touches_alloc _ _ _ _ Ht).
    by apply (dlist_alloc h l (f :: xs')). }
  assert (Alf : is_Some (hs !! f)) by (apply Al; unfold nodes; set_solver).
  assert (Alz : is_Some (hs !! z)) by (apply Al; unfold nodes; set_solver).
  assert (Alh : is_Some (hs !! list_head l)) by (apply Al; unfold nodes; set_solver).
  assert (Alt : is_Some (hs !! list_tail l)) by (apply Al; unfold nodes; set_solver).
  destruct (dlist_distinct _ _ _ Hd) as (Nx & Nh & Nt & Dht & Dx).
  destruct (Dx f Hf) as [Df1 Df2]. destruct (Dx z Hz) as [Dz1 Dz2].
  destruct Hs as (Hin & Hout & Ht). destruct Hd as [Hnd Hnn Hl Hfr Hbk].
  assert (Lr : links hs (reverse (f :: xs'))).
  { apply links_reverse with h; [done|]. unfold nodes in Hl. cbn [app] in Hl.
    destruct Hl as (_ & _ & Hl). rewrite E. change (f :: xs' ++ ?k) with ((f :: xs') ++ k) in Hl.
    rewrite E, <- app_assoc in Hl. cbn [app] in Hl. apply links_join in Hl. tauto. }
  assert (Hp : nodes l (reverse (f :: xs')) ≡ₚ nodes l (f :: xs')).
  { unfold nodes. by rewrite (reverse_Permutation (f :: xs')). }
  split; rewrite ?Hp; [done..| | |].
  + assert (EN1 : nodes l (reverse (f :: xs')) = [list_head l] ++ z :: (reverse ys ++ [list_tail l]))
      by (unfold nodes; by rewrite E, reverse_snoc).
    assert (EN2 : z :: (reverse ys ++ [list_tail l]) = reverse xs' ++ f :: list_tail l :: []).
    { rewrite app_comm_cons, <- reverse_snoc, <- E, reverse_cons, <- app_assoc. done. }
    rewrite EN1, links_app, EN2, links_join. cbn [app links]. split_and!; [| |done| | | |done].
    * rewrite nxt_upd_next_ne, !nxt_upd_prev, nxt_upd_next; auto.
    * rewrite prv_upd_next, prv_upd_prev; [done|].
      rewrite alloc_upd_prev, alloc_upd_next. auto.
    * rewrite <- reverse_cons. rewrite NoDup_cons in Nx.
      eapply links_frame; [| |exact Lr].
      -- intros A a EA x Hx. rewrite reverse_cons in EA. apply app_inj_tail in EA as [<- <-].
         rewrite elem_of_reverse in Hx. rewrite nxt_upd_next_ne, !nxt_upd_prev, nxt_upd_next_ne; [done| |].
         ++ apply Dx. set_solver.
         ++ intros ->. tauto.
      -- intros b B EB x Hx. rewrite E, reverse_snoc in EB. injection EB as <- <-.
         rewrite elem_of_reverse in Hx.
         assert (x ∈ f :: xs') by (rewrite E; set_solver).
         rewrite prv_upd_next, !prv_upd_prev_ne, prv_upd_next; [done|apply Dx; set_solver|].
         intros ->. rewrite <- NoDup_cons, E, NoDup_app in Nx. set_solver.
    * rewrite nxt_upd_next; [done|]. rewrite !alloc_upd_prev, alloc_upd_next. auto.
    * rewrite prv_upd_next, prv_upd_prev_ne, prv_upd_prev; [done| |done].
      rewrite alloc_upd_next. auto.
  + rewrite prv_upd_next, !prv_upd_prev_ne, prv_upd_next by done. by destruct (Hout _ Nh) as [_ ->].
  + rewrite nxt_upd_next_ne, !nxt_upd_prev, nxt_upd_next_ne by done. by destruct (Hout _ Nt) as [-> _].
Qed.

Lemma list_reverse_spec h l xs :
  dlist h l xs →
  ∃ h', list_reverse l h = Ok (tt, h') ∧ dlist h' l (reverse xs) ∧ touches (nodes l xs) h h'.
Proof.
  intros Hd. unfold list_reverse. step list_empty_spec.
  destruct xs as [|f xs']; [exists h; split_and!; [done..|apply touches_refl]|].
  destruct (exists_last (l := f :: xs')) as (ys & z & E); [done|].
  case_bool_decide; [done|]. step heap_fuel_run. step list_begin_spec.
  destruct (list_reverse_loop_spec h l [] (f :: xs') h (S (size h))) as (hs & Hr & Hs).
  { done. } { split_and!; [set_solver|done|apply touches_refl]. }
  { pose proof (dlist_length _ _ _ Hd). lia. }
  erewrite bind_run by exact Hr. simpl app in Hs.
  destruct (dlist_adjacent h l [] (f :: xs') Hd) as [E1 E2].
  destruct (dlist_adjacent h l (f :: xs') []) as [E4 E3]; [by rewrite app_nil_r|].
  replace (before_of l (f :: xs')) with z in E3, E4 by (rewrite E; unfold before_of; by rewrite last_snoc).
  assert (Hf : f ∈ f :: xs') by set_solver. assert (Hz : z ∈ f :: xs') by (rewrite E; set_solver).
  rewrite (list_reverse_finish h l (f :: xs') f z hs Hd Hs Hf Hz E1 E2 E3 E4).
  eexists. split_and!; [done| |].
  - by apply (list_reverse_result h l f xs' ys z hs).
  - destruct Hs as (_ & _ & Ht). eapply touches_trans; [eapply touches_mono; [|exact Ht]; unfold nodes; set_solver|].
    repeat (eapply touches_trans; [|first [apply touches_upd_prev | apply touches_upd_next]; unfold nodes; set_solver]).
    apply touches_refl.
Qed.

(** *** Ordered operations *)

Section OrderedSpec.
Context (less : ptr → ptr → bool).

(** Where the ordered insertion goes: before the first element that is greater. *)
Fixpoint insert_at (e : ptr) (xs : list ptr) : list ptr :=
  match xs with
  | [] => [e]
  | x :: xs => if less e x then e :: x :: xs else x :: insert_at e xs
  end.

Lemma insert_ordered_loop_spec h l xs ys fuel e :
  dlist h l (xs ++ ys) → (length ys < fuel)%nat →
  ∃ ys1 ys2, ys = ys1 ++ ys2 ∧ insert_at e ys = ys1 ++ e :: ys2 ∧
    insert_ordered_loop less fuel l e (after_of l ys) h = Ok (after_of l ys2, h).
Proof.
  revert xs ys. induction fuel as [|fuel IH]; intros xs ys Hd Hf; [lia|].
  cbn [insert_ordered_loop]. step list_end_spec. at_tail Hd.
  destruct ys as [|y ys]; [by exists [], []|]. cbn iota. cbn [insert_at].
  change (after_of l (y :: ys)) with y.
  destruct (less e y); [by exists [], (y :: ys)|]. step list_next_spec.
  destruct (IH _ _ (dlist_shift Hd)) as (ys1 & ys2 & -> & -> & Hr); [simpl in Hf; lia|].
  by exists (y :: ys1), ys2.
Qed.

Lemma list_insert_ordered_spec h l xs e :
  dlist h l xs → is_Some (h !! e) → e ≠ NULL → e ∉ nodes l xs →
  ∃ h', list_insert_ordered less l e h = Ok (tt, h') ∧ dlist h' l (insert_at e xs) ∧
        touches (e :: nodes l xs) h h'.
Proof.
  intros Hd He Hn Hf. unfold list_insert_ordered. step @assert_run.
  erewrite bind_run by (apply assert_run; by apply negb_true_iff, Z.eqb_neq).
  step heap_fuel_run. step list_begin_spec.
  destruct (insert_ordered_loop_spec h l [] xs (S (size h)) e) as (ys1 & ys2 & -> & -> & Hr).
  { done. } { pose proof (dlist_length _ _ _ Hd). lia. }
  erewrite bind_run by done. by apply list_insert_spec.
Qed.

Lemma insert_at_Permutation e xs : insert_at e xs ≡ₚ e :: xs.
Proof.
  induction xs as [|x xs IH]; [done|]. simpl. destruct (less e x); [done|].
  rewrite IH. apply Permutation_swap.
Qed.

Lemma insert_at_sorted e xs :
  (∀ a b c, less b a = false → less c b = false → less c a = false) →
  (∀ a b, less a b = true → less b a = false) →
  StronglySorted (λ a b, less b a = false) xs →
  StronglySorted (λ a b, less b a = false) (insert_at e xs).
Proof.
  intros Ht Ha. induction 1 as [|x xs Hs IH Hx]; simpl; [by repeat constructor|].
  destruct (less e x) eqn:E.
  - constructor; [by constructor|]. constructor; [by apply Ha|].
    eapply Forall_impl; [exact Hx|]. simpl. intros a Hxa. eapply Ht; [|exact Hxa]. by apply Ha.
  - constructor; [done|]. rewrite insert_at_Permutation. by constructor.
Qed.

(** The first maximal and the first minimal element. *)
Fixpoint first_max (max : ptr) (xs : list ptr) : ptr :=
  match xs with
  | [] => max
  | x :: xs => first_max (if less max x then x else max) xs
  end.

Fixpoint first_min (min : ptr) (xs : list ptr) : ptr :=
  match xs with
  | [] => min
  | x :: xs => first_min (if less x min then x else min) xs
  end.

Lemma list_max_loop_spec h l xs ys fuel m :
  dlist h l (xs ++ ys) → (length ys < fuel)%nat →
  list_max_loop less fuel l m (after_of l ys) h = Ok (first_max m ys, h).
Proof.
  revert xs ys m. induction fuel as [|fuel IH]; intros xs ys m Hd Hf; [lia|].
  cbn [list_max_loop]. step list_end_spec. at_tail Hd.
  destruct ys as [|y ys]; [done|]. cbn iota. step list_next_spec.
  rewrite (IH _ _ _ (dlist_shift Hd)); [done|simpl in Hf; lia].
Qed.

Lemma list_min_loop_spec h l xs ys fuel m :
  dlist h l (xs ++ ys) → (length ys < fuel)%nat →
  list_min_loop less fuel l m (after_of l ys) h = Ok (first_min m ys, h).
Proof.
  revert xs ys m. induction fuel as [|fuel IH]; intros xs ys m Hd Hf; [lia|].
  cbn [list_min_loop]. step list_end_spec. at_tail Hd.
  destruct ys as [|y ys]; [done|]. cbn iota. step list_next_spec.
  rewrite (IH _ _ _ (dlist_shift Hd)); [done|simpl in Hf; lia].
Qed.

Lemma list_max_spec h l xs :
  dlist h l xs →
  list_max less l h = Ok (match xs with [] => list_tail l | x :: xs => first_max x xs end, h).
Proof.
  intros Hd. unfold list_max. step list_begin_spec. step list_end_spec.
  rewrite (after_of_tail h l [] xs Hd). destruct xs as [|x xs]; [done|]. cbn iota.
  step heap_fuel_run. erewrite bind_run by (apply (list_next_spec h l [] x xs); done).
  apply (list_max_loop_spec h l [x] xs); [done|]. pose proof (dlist_length _ _ _ Hd). simpl in *. lia.
Qed.

Lemma list_min_spec h l xs :
  dlist h l xs →
  list_min less l h = Ok (match xs with [] => list_tail l | x :: xs => first_min x xs end, h).
Proof.
  intros Hd. unfold list_min. step list_begin_spec. step list_end_spec.
  rewrite (after_of_tail h l [] xs Hd). destruct xs as [|x xs]; [done|]. cbn iota.
  step heap_fuel_run. erewrite bind_run by (apply (list_next_spec h l [] x xs); done).
  apply (list_min_loop_spec h l [x] xs); [done|]. pose proof (dlist_length _ _ _ Hd). simpl in *. lia.
Qed.

(** [first_max] is maximal, and the earliest such element. *)
Lemma first_max_maximal m xs :
  (∀ a b c, less b a = false → less c b = false → less c a = false) →
  (∀ a b, less a b = true → less b a = false) → (∀ a, less a a = false) →
  ∀ y, y ∈ m :: xs → less (first_max m xs) y = false.
Proof.
  intros Ht Ha Hi. revert m. induction xs as [|x xs IH]; intros m y Hy; simpl.
  - apply list_elem_of_singleton in Hy as ->. apply Hi.
  - set (k := if less m x then x else m).
    assert (Hk : less k m = false ∧ less k x = false).
    { unfold k. destruct (less m x) eqn:E; split; auto. }
    apply elem_of_cons in Hy as [->|[->|Hy]%elem_of_cons].
    + eapply Ht; [|apply IH, list_elem_of_here]. apply Hk.
    + eapply Ht; [|apply IH, list_elem_of_here]. apply Hk.
    + apply IH. set_solver.
Qed.

(** Adjacent equal elements: what stays after [e], and what is moved out. *)
Fixpoint unique_from (e : ptr) (xs : list ptr) : list ptr * list ptr :=
  match xs with
  | [] => ([], [])
  | x :: xs =>
      if negb (less e x) && negb (less x e) then
        let '(keep, dups) := unique_from e xs in (keep, x :: dups)
      else let '(keep, dups) := unique_from x xs in (x :: keep, dups)
  end.

(** The optional destination list of [list_unique]. *)
Definition dups_list (h : heap) (d : ptr) (ds avoid : list ptr) : Prop :=
  d ≠ NULL → dlist h d ds ∧ ∀ a, a ∈ nodes d ds → a ∉ avoid.

Lemma list_unique_push h d ds x avoid :
  dups_list h d ds (x :: avoid) → is_Some (h !! x) → x ≠ NULL → x ∉ avoid →
  ∃ h', (if d =? NULL then mret tt else list_push_back d x) h = Ok (tt, h') ∧
        dups_list h' d (ds ++ [x]) avoid ∧
        (d = NULL ∧ h' = h ∨ d ≠ NULL ∧ touches (x :: nodes d ds) h h').
Proof.
  intros Hd Hx Hn Ha. destruct (Z.eqb_spec d NULL) as [->|Hdn].
  { exists h. split_and!; [done| |by left]. by intros ?. }
  destruct (Hd Hdn) as [Hdd Hdis].
  destruct (list_push_back_spec h d ds x) as (h' & Hr & Hd' & Ht); [done..| |].
  { intros Hin. apply (Hdis x Hin). set_solver. }
  exists h'. split_and!; [done| |by right]. intros _. split; [done|].
  intros a. unfold nodes in *. specialize (Hdis a). set_solver.
Qed.

Lemma dlist_frame S h h' l xs :
  touches S h h' → (∀ a, a ∈ nodes l xs → a ∉ S) → dlist h l xs → dlist h' l xs.
Proof.
  intros [_ Ht] Hdis [H1 H2 H3 H4 H5].
  assert (Hsame : ∀ a, a ∈ nodes l xs → nxt h' a = nxt h a ∧ prv h' a = prv h a).
  { intros a Ha. unfold nxt, prv. by rewrite Ht by auto. }
  split; [done..| | |].
  - eapply links_frame; [| |done]; intros ? ? E x Hx; apply Hsame; rewrite E; set_solver.
  - destruct (Hsame (list_head l)) as [_ ->]; [unfold nodes; set_solver|done].
  - destruct (Hsame (list_tail l)) as [-> _]; [unfold nodes; set_solver|done].
Qed.

Lemma list_unique_loop_spec h l d xs e ys ds fuel :
  dlist h l (xs ++ e :: ys) → dups_list h d ds (nodes l (xs ++ e :: ys)) →
  (length ys < fuel)%nat →
  ∃ h', list_unique_loop less fuel l d e h = Ok (tt, h') ∧
        dlist h' l (xs ++ e :: (unique_from e ys).1) ∧
        dups_list h' d (ds ++ (unique_from e ys).2) (nodes l (xs ++ e :: (unique_from e ys).1)).
Proof.
  revert h xs e ys ds. induction fuel as [|fuel IH]; intros h xs e ys ds Hd Hds Hf; [lia|].
  cbn [list_unique_loop]. step list_next_spec. step list_end_spec.
  rewrite (after_of_tail h l (xs ++ [e]) ys (dlist_shift Hd)).
  destruct ys as [|y ys]; [exists h; simpl; by rewrite app_nil_r|].
  cbn iota. cbn [unique_from]. change (after_of l (y :: ys)) with y.
  destruct (negb (less e y) && negb (less y e)) eqn:Eq.
  - destruct (list_remove_spec h l (xs ++ [e]) y ys) as (h1 & Hr1 & Hd1 & Ht1); [by rewrite <- app_assoc|].
    rewrite <- app_assoc in Hd1, Ht1. cbn [app] in Hd1, Ht1.
    destruct (dlist_element _ _ _ _ _ (dlist_shift Hd)) as (Hy0 & Hyp & _).
    pose proof (dlist_nodup _ _ _ Hd) as Hnd.
    assert (Hyn : y ∉ nodes l (xs ++ e :: ys)).
    { revert Hnd. unfold nodes. rewrite <- !app_assoc. cbn [app].
      rewrite !NoDup_cons, !NoDup_app, !NoDup_cons, !NoDup_app. set_solver. }
    assert (Hsub : ∀ a, a ∈ y :: nodes l (xs ++ e :: ys) → a ∈ nodes l (xs ++ e :: y :: ys))
      by (unfold nodes; set_solver).
    destruct (list_unique_push h1 d ds y (nodes l (xs ++ e :: ys))) as (h2 & Hr2 & Hds2 & Hfr);
      [| |done..|].
    { intros Hdn. destruct (Hds Hdn) as [Hdd Hdis]. split; [|intros a Ha Hin; by apply (Hdis a Ha), Hsub].
      eapply dlist_frame; [exact Ht1| |done]. intros a Ha Hin. apply (Hdis a Ha), Hsub. set_solver. }
    { apply (touches_alloc _ _ _ _ Ht1). eauto with heap. }
    erewrite bind_run by exact Hr1. erewrite bind_run by exact Hr2.
    destruct (IH h2 xs e ys (ds ++ [y])) as (h' & Hr & Hd' & Hds'); [|done|simpl in Hf; lia|].
    { destruct Hfr as [[_ ->]|[Hdn Ht2]]; [done|]. eapply dlist_frame; [exact Ht2| |done].
      destruct (Hds Hdn) as [_ Hdis]. intros a Ha [->|Hin]%elem_of_cons; [done|].
      apply (Hdis a Hin), Hsub. set_solver. }
    destruct (unique_from e ys) as [keep dups]. simpl in *. rewrite <- app_assoc in Hds'.
    exists h'. by split_and!.
  - replace (xs ++ e :: y :: ys) with ((xs ++ [e]) ++ y :: ys) in * by (by rewrite <- app_assoc).
    destruct (IH h (xs ++ [e]) y ys ds) as (h' & Hr & Hd' & Hds'); [done..|simpl in Hf; lia|].
    destruct (unique_from y ys) as [keep dups]. simpl in *. rewrite <- app_assoc in *.
    exists h'. by split_and!.
Qed.

Lemma list_unique_spec h l d xs ds :
  dlist h l xs → dups_list h d ds (nodes l xs) →
  ∃ h' keep dups, list_unique less l d h = Ok (tt, h') ∧
    (keep, dups) = match xs with [] => ([], [])
                   | x :: t => let '(k, u) := unique_from x t in (x :: k, u) end ∧
    dlist h' l keep ∧ dups_list h' d (ds ++ dups) (nodes l keep).
Proof.
  intros Hd Hds. unfold list_unique. step @assert_run. step list_empty_spec.
  destruct xs as [|x xs]; case_bool_decide; try done.
  { exists h, [], []. by rewrite app_nil_r. }
  step heap_fuel_run. step list_begin_spec.
  destruct (list_unique_loop_spec h l d [] x xs ds (S (size h))) as (h' & Hr & Hd' & Hds'); [done..| |].
  { pose proof (dlist_length _ _ _ Hd). simpl in *. lia. }
  destruct (unique_from x xs) as [k u]. by exists h', (x :: k), u.
Qed.

End OrderedSpec.

(** ** Results *)

(** A list object fixes the contents of all its nodes. *)
Lemma dlist_determines h h' l xs a :
  dlist h l xs → dlist h' l xs → a ∈ nodes l xs → h' !! a = h !! a.
Proof.
  intros Hd Hd' Ha.
  assert (nxt h' a = nxt h a ∧ prv h' a = prv h a) as [En Ep].
  { unfold nodes in Ha. apply elem_of_cons in Ha as [->|[Hx| ->%list_elem_of_singleton]%elem_of_app].
    - rewrite (dlist_front _ _ _ Hd), (dlist_front _ _ _ Hd').
      destruct (dlist_adjacent h l [] xs Hd) as [E _]. destruct (dlist_adjacent h' l [] xs Hd') as [E' _].
      unfold before_of in E, E'. simpl in E, E'. by rewrite E, E'.
    - apply list_elem_of_split in Hx as (ys & zs & ->).
      destruct (dlist_element _ _ _ _ _ Hd) as (_ & -> & -> & _).
      by destruct (dlist_element _ _ _ _ _ Hd') as (_ & -> & -> & _).
    - rewrite (dlist_back _ _ _ Hd), (dlist_back _ _ _ Hd').
      rewrite <- (app_nil_r xs) in Hd, Hd'.
      destruct (dlist_adjacent h l xs [] Hd) as [_ E]. destruct (dlist_adjacent h' l xs [] Hd') as [_ E'].
      unfold after_of in E, E'. simpl in E, E'. by rewrite E, E'. }
  destruct (dlist_alloc _ _ _ _ Hd Ha) as [[p n] Hn].
  destruct (dlist_alloc _ _ _ _ Hd' Ha) as [[p' n'] Hn'].
  unfold nxt, prv in *. rewrite Hn, Hn' in *. by simplify_eq/=.
Qed.

(** Insertion and removal: inserting [e] before any position of a list returns,
    puts it exactly there, and changes nothing outside the list and [e]; removing it
    again returns the element that followed it and restores every other word of
    memory. *)
Theorem list_insert_remove h l xs ys e :
  dlist h l (xs ++ ys) → is_Some (h !! e) → e ≠ NULL → e ∉ nodes l (xs ++ ys) →
  ∃ h1 h2,
    list_insert (after_of l ys) e h = Ok (tt, h1) ∧ dlist h1 l (xs ++ e :: ys) ∧
    (∀ a, a ∉ e :: nodes l (xs ++ ys) → h1 !! a = h !! a) ∧
    list_remove e h1 = Ok (after_of l ys, h2) ∧ dlist h2 l (xs ++ ys) ∧
    (∀ a, a ≠ e → h2 !! a = h !! a).
Proof.
  intros Hd He Hn Hf.
  destruct (list_insert_spec h l xs ys e) as (h1 & Hr1 & Hd1 & [_ Ht1]); [done..|].
  destruct (list_remove_spec h1 l xs e ys Hd1) as (h2 & Hr2 & Hd2 & [_ Ht2]).
  exists h1, h2. split_and!; [done..|]. intros a Ha.
  destruct (decide (a ∈ nodes l (xs ++ ys))).
  - by eapply dlist_determines.
  - rewrite Ht2, Ht1 by set_solver. done.
Qed.

(** A list at address 100 with the elements 200 and 300, and a free element 400. *)
Definition demo_heap : heap := list_to_map
  [(100, ListElem 0 200); (200, ListElem 100 300); (300, ListElem 200 108);
   (108, ListElem 300 0); (400, ListElem 0 0)].

Lemma demo_dlist : dlist demo_heap 100 [200; 300].
Proof. split; [by apply (bool_decide_unpack _)|set_solver|by vm_compute..]. Qed.

Lemma list_insert_remove_witness :
  ∃ h1 h2, list_insert 300 400 demo_heap = Ok (tt, h1) ∧
           list_remove 400 h1 = Ok (300, h2) ∧ dlist h2 100 [200; 300].
Proof.
  destruct (list_insert_remove demo_heap 100 [200] [300] 400) as (h1 & h2 & H1 & _ & _ & H2 & H3 & _).
  - exact demo_dlist.
  - by eexists.
  - done.
  - by apply (bool_decide_unpack _).
  - exists h1, h2. split_and!; done.
Defined.

(** Reversal: [list_reverse] returns on every list, in place, with the elements in
    the opposite order, and reversing twice restores memory. *)
Theorem list_reverse_correct h l xs :
  dlist h l xs →
  ∃ h1 h2, list_reverse l h = Ok (tt, h1) ∧ dlist h1 l (reverse xs) ∧
           list_reverse l h1 = Ok (tt, h2) ∧ h2 = h.
Proof.
  intros Hd. destruct (list_reverse_spec h l xs Hd) as (h1 & Hr1 & Hd1 & [_ Ht1]).
  destruct (list_reverse_spec h1 l _ Hd1) as (h2 & Hr2 & Hd2 & [_ Ht2]).
  rewrite reverse_involutive in Hd2. exists h1, h2. split_and!; [done..|].
  apply map_eq. intros a. destruct (decide (a ∈ nodes l xs)).
  - by eapply dlist_determines.
  - rewrite Ht2, Ht1; [done..|]. unfold nodes in *. set_solver.
Qed.

Lemma list_reverse_correct_witness :
  ∃ h1, list_reverse 100 demo_heap = Ok (tt, h1) ∧ dlist h1 100 [300; 200].
Proof.
  destruct (list_reverse_correct demo_heap 100 [200; 300] demo_dlist) as (h1 & _ & H1 & H2 & _).
  by exists h1.
Defined.

(** Ordered insertion: for a strict weak order [less] and a sorted list,
    [list_insert_ordered] returns with a sorted list holding one more element, the new
    one after every element it is not less than. *)
Theorem list_insert_ordered_correct (less : ptr → ptr → bool) h l xs e :
  (∀ a b c, less b a = false → less c b = false → less c a = false) →
  (∀ a b, less a b = true → less b a = false) →
  dlist h l xs → is_Some (h !! e) → e ≠ NULL → e ∉ nodes l xs →
  StronglySorted (λ a b, less b a = false) xs →
  ∃ h' ys zs, list_insert_ordered less l e h = Ok (tt, h') ∧ xs = ys ++ zs ∧
    dlist h' l (ys ++ e :: zs) ∧ StronglySorted (λ a b, less b a = false) (ys ++ e :: zs) ∧
    Forall (λ y, less e y = false) ys ∧ Forall (λ z, less e z = true) (take 1 zs).
Proof.
  intros Ht Ha Hd He Hn Hf Hs.
  destruct (list_insert_ordered_spec less h l xs e) as (h' & Hr & Hd' & _); [done..|].
  pose proof (insert_at_sorted less e xs Ht Ha Hs) as Hs'.
  assert (∃ ys zs, xs = ys ++ zs ∧ insert_at less e xs = ys ++ e :: zs ∧
            Forall (λ y, less e y = false) ys ∧ Forall (λ z, less e z = true) (take 1 zs))
    as (ys & zs & Ex & Ei & H1 & H2).
  { clear. induction xs as [|x xs (ys & zs & -> & E & H1 & H2)]; [by exists [], []|]. simpl.
    destruct (less e x) eqn:Ex; [exists [], (x :: ys ++ zs); by repeat constructor|].
    exists (x :: ys), zs. rewrite E. split_and!; [done..| |done]. by constructor. }
  rewrite Ei in Hd', Hs'. by exists h', ys, zs.
Qed.

Lemma list_insert_ordered_correct_witness :
  ∃ h' ys zs, list_insert_ordered Z.ltb 100 400 demo_heap = Ok (tt, h') ∧ [200; 300] = ys ++ zs ∧
    dlist h' 100 (ys ++ 400 :: zs).
Proof.
  destruct (list_insert_ordered_correct Z.ltb demo_heap 100 [200; 300] 400)
    as (h' & ys & zs & H1 & H2 & H3 & _).
  - intros a b c H1 H2. bools. apply Z.ltb_ge. lia.
  - intros a b H1. bools. apply Z.ltb_ge. lia.
  - exact demo_dlist.
  - by eexists.
  - done.
  - by apply (bool_decide_unpack _).
  - by repeat constructor.
  - by exists h', ys, zs.
Defined.
