(* ===== verification/DListSort.v ===== *)
(** * lib/kernel/list.c: the in-place natural merge sort

    [list_sort] and its helpers on the memory model of [DList].  The loops are related
    to a merge sort on sequences (runs, stable merge, passes); the theorem is that the
    sort terminates, all its assertions hold, and it leaves a sorted, stable
    rearrangement of the elements in the same list object. *)

From stdpp Require Import sorting.
From S2P Require Import Prelude DList.

(** ** The code *)

Section Code.
Context (less : ptr → ptr → bool).

Fixpoint is_sorted_loop (fuel : nat) (a b : ptr) : ST heap bool :=
  match fuel with
  | O => fail OutOfFuel
  | S fuel =>
      a ← list_next a;
      if a =? b then mret true
      else
        p ← list_prev a;
        if less a p then mret false else is_sorted_loop fuel a b
  end.

Definition is_sorted (a b : ptr) : ST heap bool :=
  if a =? b then mret true else fuel ← heap_fuel; is_sorted_loop fuel a b.

Fixpoint find_end_of_run_loop (fuel : nat) (a b : ptr) : ST heap ptr :=
  match fuel with
  | O => fail OutOfFuel
  | S fuel =>
      a ← list_next a;
      if a =? b then mret a
      else
        p ← list_prev a;
        if less a p then mret a else find_end_of_run_loop fuel a b
  end.

Definition find_end_of_run (a b : ptr) : ST heap ptr :=
  assert (negb (a =? NULL));;
  assert (negb (b =? NULL));;
  assert (negb (a =? b));;
  fuel ← heap_fuel; find_end_of_run_loop fuel a b.

Fixpoint inplace_merge_loop (fuel : nat) (a0 a1b0 b1 : ptr) : ST heap unit :=
  match fuel with
  | O => fail OutOfFuel
  | S fuel =>
      if negb (a0 =? a1b0) && negb (a1b0 =? b1) then
        if negb (less a1b0 a0) then
          a0 ← list_next a0; inplace_merge_loop fuel a0 a1b0 b1
        else
          a1b0 ← list_next a1b0;
          p ← list_prev a1b0;
          list_splice a0 p a1b0;;
          inplace_merge_loop fuel a0 a1b0 b1
      else mret tt
  end.

Definition inplace_merge (a0 a1b0 b1 : ptr) : ST heap unit :=
  assert (negb (a0 =? NULL));;
  assert (negb (a1b0 =? NULL));;
  assert (negb (b1 =? NULL));;
  s ← is_sorted a0 a1b0; assert s;;
  s ← is_sorted a1b0 b1; assert s;;
  fuel ← heap_fuel; inplace_merge_loop fuel a0 a1b0 b1.

(** One pass over the list: the [for] loop, with the number of runs it output. *)
Fixpoint sort_pass (fuel : nat) (list a0 : ptr) (output_run_cnt : Z) : ST heap Z :=
  match fuel with
  | O => fail OutOfFuel
  | S fuel =>
      e ← list_end list;
      if a0 =? e then mret output_run_cnt
      else
        let output_run_cnt := u32 (output_run_cnt + 1) in
        e ← list_end list;
        a1b0 ← find_end_of_run a0 e;
        e ← list_end list;
        if a1b0 =? e then mret output_run_cnt
        else
          e ← list_end list;
          b1 ← find_end_of_run a1b0 e;
          inplace_merge a0 a1b0 b1;;
          sort_pass fuel list b1 output_run_cnt
  end.

(** The [do ... while (output_run_cnt > 1)] loop. *)
Fixpoint sort_passes (fuel : nat) (list : ptr) : ST heap unit :=
  match fuel with
  | O => fail OutOfFuel
  | S fuel' =>
      pf ← heap_fuel;
      a0 ← list_begin list;
      output_run_cnt ← sort_pass pf list a0 0;
      if 1 <? output_run_cnt then sort_passes fuel' list else mret tt
  end.

Definition list_sort (list : ptr) : ST heap unit :=
  assert (negb (list =? NULL));;
  fuel ← heap_fuel;
  sort_passes fuel list;;
  b ← list_begin list; e ← list_end list;
  s ← is_sorted b e; assert s.

End Code.

(** ** Splicing inside one list *)

Lemma links_cat h X x y Y :
  links h ((X ++ [x]) ++ y :: Y) ↔
  links h (X ++ [x]) ∧ nxt h x = Some y ∧ prv h y = Some x ∧ links h (y :: Y).
Proof. rewrite <- app_assoc. apply links_join. Qed.

(** Four segments of a list of nodes, in their old order. *)
Lemma links_four h U p a A' a' f F' f' r V A F :
  a :: A' = A ++ [a'] → f :: F' = F ++ [f'] →
  links h (U ++ p :: (a :: A') ++ (f :: F') ++ r :: V) ↔
  links h (U ++ [p]) ∧ (nxt h p = Some a ∧ prv h a = Some p) ∧ links h (a :: A') ∧
  (nxt h a' = Some f ∧ prv h f = Some a') ∧ links h (f :: F') ∧
  (nxt h f' = Some r ∧ prv h r = Some f') ∧ links h (r :: V).
Proof.
  intros EA EF. cbn [app]. rewrite links_join, (app_comm_cons A' (f :: F' ++ r :: V) a).
  rewrite EA, links_cat, (app_comm_cons F' (r :: V) f), EF, links_cat. tauto.
Qed.

(** The writes of [list_splice], and which links they leave alone. *)
Definition spliced (h : heap) (p a a' f f' r : ptr) : heap :=
  upd_prev (upd_next (upd_next (upd_prev (upd_prev (upd_next h a' r) r a') f p) f' a) p f) a f'.

Lemma spliced_nxt h p a a' f f' r x :
  x ≠ a' → x ≠ f' → x ≠ p → nxt (spliced h p a a' f f' r) x = nxt h x.
Proof.
  intros. unfold spliced.
  by rewrite nxt_upd_prev, !nxt_upd_next_ne, !nxt_upd_prev, nxt_upd_next_ne.
Qed.

Lemma spliced_prv h p a a' f f' r x :
  x ≠ r → x ≠ f → x ≠ a → prv (spliced h p a a' f f' r) x = prv h x.
Proof.
  intros. unfold spliced.
  by rewrite prv_upd_prev_ne, !prv_upd_next, !prv_upd_prev_ne, prv_upd_next.
Qed.

Lemma spliced_new h p a a' f f' r :
  (∀ x, x ∈ [p; a; a'; f; f'; r] → is_Some (h !! x)) →
  p ≠ a' → p ≠ f' → a' ≠ f' → a ≠ f → a ≠ r → f ≠ r →
  let h' := spliced h p a a' f f' r in
  nxt h' p = Some f ∧ prv h' f = Some p ∧ nxt h' f' = Some a ∧ prv h' a = Some f' ∧
  nxt h' a' = Some r ∧ prv h' r = Some a'.
Proof.
  intros Al **. unfold h', spliced.
  assert (is_Some (h !! p)) by (apply Al; set_solver).
  assert (is_Some (h !! a)) by (apply Al; set_solver).
  assert (is_Some (h !! a')) by (apply Al; set_solver).
  assert (is_Some (h !! f)) by (apply Al; set_solver).
  assert (is_Some (h !! f')) by (apply Al; set_solver).
  assert (is_Some (h !! r)) by (apply Al; set_solver).
  split_and!.
  - rewrite nxt_upd_prev, nxt_upd_next; [done|]. by rewrite alloc_upd_next, !alloc_upd_prev, alloc_upd_next.
  - rewrite prv_upd_prev_ne, !prv_upd_next, prv_upd_prev; [done| |done]. by rewrite alloc_upd_prev, alloc_upd_next.
  - rewrite nxt_upd_prev, nxt_upd_next_ne, nxt_upd_next; [done| |done]. by rewrite !alloc_upd_prev, alloc_upd_next.
  - apply prv_upd_prev. by rewrite !alloc_upd_next, !alloc_upd_prev, alloc_upd_next.
  - rewrite nxt_upd_prev, !nxt_upd_next_ne, !nxt_upd_prev by done. by apply nxt_upd_next.
  - rewrite prv_upd_prev_ne, !prv_upd_next, prv_upd_prev_ne by done. apply prv_upd_prev. by rewrite alloc_upd_next.
Qed.

Lemma touches_spliced S h p a a' f f' r :
  (∀ x, x ∈ [p; a; a'; f; f'; r] → x ∈ S) → touches S h (spliced h p a a' f f' r).
Proof.
  intros HS. unfold spliced.
  repeat (eapply touches_trans; [|first [apply touches_upd_prev | apply touches_upd_next];
    apply HS; set_solver]).
  apply touches_refl.
Qed.

Lemma NoDup_disjoint (X Y : list ptr) x y : NoDup (X ++ Y) → x ∈ X → y ∈ Y → x ≠ y.
Proof. intros (_ & H & _)%NoDup_app Hx Hy ->. by apply (H y). Qed.

(** Membership in explicit concatenations. *)
Ltac mem := first [assumption |
  repeat first [rewrite elem_of_app in * | rewrite elem_of_cons in *]; tauto].

Section Spliced.
Context (h : heap) (U V A F A' F' : list ptr) (p a a' f f' r : ptr).
Hypothesis EA : a :: A' = A ++ [a'].
Hypothesis EF : f :: F' = F ++ [f'].
Hypothesis Hnd : NoDup (U ++ p :: (a :: A') ++ (f :: F') ++ r :: V).

Lemma apart_prefix x y : x ∈ U ++ [p] → y ∈ (a :: A') ++ (f :: F') ++ r :: V → x ≠ y.
Proof. apply NoDup_disjoint. revert Hnd. by rewrite <- !app_assoc. Qed.

Lemma apart_A x y : x ∈ a :: A' → y ∈ (f :: F') ++ r :: V → x ≠ y.
Proof.
  apply NoDup_disjoint. revert Hnd. rewrite NoDup_app, NoDup_cons. tauto.
Qed.

Lemma apart_F x y : x ∈ f :: F' → y ∈ r :: V → x ≠ y.
Proof.
  apply NoDup_disjoint. revert Hnd. rewrite NoDup_app, NoDup_cons, (NoDup_app (a :: A')). tauto.
Qed.

Lemma apart_U x : x ∈ U → x ≠ p.
Proof.
  intros Hx. apply (NoDup_disjoint U (p :: (a :: A') ++ (f :: F') ++ r :: V)); [done..|mem].
Qed.

Lemma nodup_segments : NoDup (a :: A') ∧ NoDup (f :: F') ∧ NoDup (r :: V).
Proof.
  revert Hnd. rewrite NoDup_app, NoDup_cons, (NoDup_app (a :: A')), (NoDup_app (f :: F')). tauto.
Qed.

Lemma apart_A_last x : x ∈ A → x ≠ a'.
Proof.
  destruct nodup_segments as (H & _). rewrite EA in H. intros Hx.
  apply (NoDup_disjoint A [a']); [done..|mem].
Qed.

Lemma apart_F_last x : x ∈ F → x ≠ f'.
Proof.
  destruct nodup_segments as (_ & H & _). rewrite EF in H. intros Hx.
  apply (NoDup_disjoint F [f']); [done..|mem].
Qed.

Lemma apart_firsts x : (x ∈ A' → x ≠ a) ∧ (x ∈ F' → x ≠ f) ∧ (x ∈ V → x ≠ r).
Proof.
  destruct nodup_segments as (H1 & H2 & H3). rewrite NoDup_cons in H1, H2, H3.
  split_and!; intros ? ->; tauto.
Qed.

Lemma last_in : a' ∈ a :: A' ∧ f' ∈ f :: F'.
Proof. rewrite EA, EF. split; mem. Qed.

Hypothesis Al : ∀ x, x ∈ [p; a; a'; f; f'; r] → is_Some (h !! x).

(** The node sequence of the spliced list, from the four segments of the old one. *)
Lemma links_spliced :
  links h (U ++ p :: (a :: A') ++ (f :: F') ++ r :: V) →
  links (spliced h p a a' f f' r) (U ++ p :: (f :: F') ++ (a :: A') ++ r :: V).
Proof.
  intros Hl. apply (links_four _ _ _ _ _ _ _ _ _ _ _ _ _ EA EF) in Hl
    as (L1 & _ & L2 & _ & L3 & _ & L4).
  destruct last_in as [Ha' Hf'].
  assert (Q : ∀ x y, x ∈ f :: F' → y ∈ a :: A' → x ≠ y).
  { intros x y Hx Hy. apply not_eq_sym, apart_A; [done|mem]. }
  assert (Hp : ∀ y, y ∈ (a :: A') ++ (f :: F') ++ r :: V → y ≠ p).
  { intros y Hy. apply not_eq_sym, apart_prefix; [mem|done]. }
  destruct (spliced_new h p a a' f f' r) as (M1 & M2 & M3 & M4 & M5 & M6).
  { done. } { apply apart_prefix; mem. } { apply apart_prefix; mem. }
  { apply apart_A; mem. } { apply apart_A; mem. } { apply apart_A; mem. } { apply apart_F; mem. }
  apply (links_four _ _ _ _ _ _ _ _ _ _ _ _ _ EF EA). split_and!; try done.
  - eapply links_snoc_frame; [| |exact L1]; intros x Hx; [apply spliced_nxt|apply spliced_prv];
      try (apply apart_prefix; mem). by apply apart_U.
  - rewrite EF. rewrite EF in L3. eapply links_frame; [| |exact L3].
    + intros F0 z Ez x Hx. apply app_inj_tail in Ez as [<- <-].
      assert (x ∈ f :: F') by (rewrite EF; mem).
      apply spliced_nxt; [by apply Q|by apply apart_F_last|apply Hp; mem].
    + intros b B Eb x Hx. rewrite <- EF in Eb. injection Eb as <- <-.
      apply spliced_prv; [apply apart_F; mem|by apply apart_firsts|apply Q; mem].
  - rewrite EA. rewrite EA in L2. eapply links_frame; [| |exact L2].
    + intros A0 z Ez x Hx. apply app_inj_tail in Ez as [<- <-].
      assert (x ∈ a :: A') by (rewrite EA; mem).
      apply spliced_nxt; [by apply apart_A_last|apply apart_A; mem|apply Hp; mem].
    + intros b B Eb x Hx. rewrite <- EA in Eb. injection Eb as <- <-.
      apply spliced_prv; [apply apart_A; mem|apply apart_A; mem|by apply apart_firsts].
  - eapply links_cons_frame; [| |exact L4]; intros x Hx; [apply spliced_nxt|apply spliced_prv].
    + apply not_eq_sym, apart_A; [done|mem].
    + by apply not_eq_sym, apart_F.
    + apply Hp; mem.
    + by apply apart_firsts.
    + apply not_eq_sym, apart_F; mem.
    + apply not_eq_sym, apart_A; mem.
Qed.

End Spliced.

(** The run of [list_splice] on a well-formed list performs exactly those writes. *)
Lemma list_splice_run h p a a' f f' r :
  (∀ x, x ∈ [p; a; a'; f; f'; r] → is_Some (h !! x) ∧ x ≠ NULL) →
  a ≠ r → a ≠ f → f ≠ r → f' ≠ a' →
  prv h a = Some p → prv h f = Some a' → nxt h f' = Some r → prv h r = Some f' →
  is_interior f h = Ok (true, h) → is_interior f' h = Ok (true, h) →
  list_splice a f r h = Ok (tt, spliced h p a a' f f' r).
Proof.
  intros Hin Dar Daf Dfr Df'a' Pa Pf Nf' Pr If If'.
  assert (Al : ∀ x, x ∈ [p; a; a'; f; f'; r] → is_Some (h !! x)) by (intros; by apply Hin).
  assert (∀ x, x ∈ [p; a; a'; f; f'; r] → x ≠ NULL) as Nn by (intros; by apply Hin).
  assert (∃ n, nxt h a = Some n) as [na Na] by (destruct (Al a ltac:(mem)) as [n En]; exists (next n); unfold nxt; by rewrite En).
  assert (∃ n, nxt h r = Some n) as [nr Nr] by (destruct (Al r ltac:(mem)) as [n En]; exists (next n); unfold nxt; by rewrite En).
  unfold list_splice.
  erewrite bind_run by (eapply assert_interior_or_tail_run; [apply Nn; mem|done..|apply Nn; mem]).
  rewrite (proj2 (Z.eqb_neq f r)) by done.
  erewrite (bind_run (list_prev r)).
  2:{ unfold list_prev. erewrite bind_run; [by apply get_prev_run|].
      eapply assert_interior_or_tail_run; [apply Nn; mem|done..|apply Nn; mem]. }
  erewrite bind_run by exact If. step @assert_run.
  erewrite bind_run by exact If'. step @assert_run.
  erewrite bind_run by (by apply get_prev_run). erewrite bind_run by (by apply get_next_run).
  erewrite bind_run by (apply set_next_run, Al; mem).
  erewrite bind_run by (apply get_next_run; by rewrite nxt_upd_next_ne).
  erewrite bind_run by (apply get_prev_run; by rewrite prv_upd_next).
  erewrite bind_run by (apply set_prev_run; rewrite alloc_upd_next; apply Al; mem).
  erewrite bind_run by (apply get_prev_run; by rewrite prv_upd_prev_ne, prv_upd_next).
  erewrite bind_run by (apply set_prev_run; rewrite alloc_upd_prev, alloc_upd_next; apply Al; mem).
  erewrite bind_run by (apply set_next_run; rewrite !alloc_upd_prev, alloc_upd_next; apply Al; mem).
  erewrite bind_run by (apply get_prev_run; by rewrite prv_upd_next, !prv_upd_prev_ne, prv_upd_next).
  erewrite bind_run by (apply set_next_run; rewrite alloc_upd_next, !alloc_upd_prev, alloc_upd_next; apply Al; mem).
  apply set_prev_run. rewrite !alloc_upd_next, !alloc_upd_prev, alloc_upd_next. apply Al; mem.
Qed.

Lemma list_splice_spec h l P A F R :
  dlist h l (P ++ A ++ F ++ R) → A ≠ [] → F ≠ [] →
  ∃ h', list_splice (after_of l (A ++ F ++ R)) (after_of l (F ++ R)) (after_of l R) h = Ok (tt, h') ∧
        dlist h' l (P ++ F ++ A ++ R) ∧ touches (nodes l (P ++ A ++ F ++ R)) h h'.
Proof.
  intros Hd HA HF.
  destruct A as [|a A']; [done|]. destruct F as [|f F']; [done|]. clear HA HF.
  destruct (exists_last (l := a :: A')) as (A & a' & EA); [done|].
  destruct (exists_last (l := f :: F')) as (F & f' & EF); [done|].
  destruct (nodes_split l P R) as (U & V & E & EU & EV).
  set (p := before_of l P) in *. set (r := after_of l R) in *.
  pose proof (E ((a :: A') ++ f :: F')) as E1. pose proof (E ((f :: F') ++ a :: A')) as E2.
  rewrite <- !app_assoc in E1, E2.
  change (after_of l ((a :: A') ++ (f :: F') ++ R)) with a.
  change (after_of l ((f :: F') ++ R)) with f.
  clearbody p r.
  assert (Hin : ∀ x, x ∈ U ++ p :: (a :: A') ++ (f :: F') ++ r :: V → is_Some (h !! x) ∧ x ≠ NULL).
  { intros x Hx. rewrite <- E1 in Hx. split; [by eapply dlist_alloc|by eapply dlist_member_nonnull]. }
  assert (If : is_interior f h = Ok (true, h)).
  { rewrite app_assoc in Hd. destruct (dlist_element _ _ _ f (F' ++ R) Hd) as (?&?&?&?&?).
    by eapply is_interior_run. }
  assert (If' : is_interior f' h = Ok (true, h)).
  { rewrite EF, <- (app_assoc F [f'] R), !app_assoc, <- (app_assoc _ [f'] R) in Hd.
    destruct (dlist_element _ _ _ f' R Hd) as (?&?&?&?&?).
    by eapply is_interior_run. }
  destruct Hd as [Hnd Hnn Hl Hf Hb]. rewrite E1 in *. clear E E1.
  pose proof (last_in A F A' F' a a' f f' EA EF) as [Ha' Hf'].
  assert (Al6 : ∀ x, x ∈ [p; a; a'; f; f'; r] → x ∈ U ++ p :: (a :: A') ++ (f :: F') ++ r :: V).
  { intros x. rewrite !elem_of_cons. intros [->|[->|[->|[->|[->|[->|[]%elem_of_nil]]]]]]; mem. }
  pose proof (links_spliced h U V A F A' F' p a a' f f' r EA EF Hnd
                (λ x Hx, proj1 (Hin x (Al6 x Hx))) Hl) as Hl'.
  pose proof Hl as H4. apply (links_four _ _ _ _ _ _ _ _ _ _ _ _ _ EA EF) in H4
    as (_ & [N1 P1] & _ & [N2 P2] & _ & [N3 P3] & _).
  destruct (zip_headers _ _ _ _ _ _ _ EU EV) as [Hhd Htl].
  exists (spliced h p a a' f f' r). split_and!.
  - apply list_splice_run; [by auto| | | | |done..].
    + apply (apart_A U V A' F' p a f r Hnd); mem.
    + apply (apart_A U V A' F' p a f r Hnd); mem.
    + apply (apart_F U V A' F' p a f r Hnd); mem.
    + apply not_eq_sym, (apart_A U V A' F' p a f r Hnd); mem.
  - split; rewrite ?E2; [| |done| |].
    + eapply NoDup_Permutation_proper; [|exact Hnd]. solve_Permutation.
    + intros Hx. apply Hnn. mem.
    + rewrite spliced_prv; [done|apply (apart_prefix U V A' F' p a f r Hnd); mem..].
    + rewrite spliced_nxt; [done|..].
      * apply not_eq_sym, (apart_A U V A' F' p a f r Hnd); mem.
      * apply not_eq_sym, (apart_F U V A' F' p a f r Hnd); mem.
      * apply not_eq_sym, (apart_prefix U V A' F' p a f r Hnd); mem.
  - apply touches_spliced. apply Al6.
Qed.

(** ** The sort on sequences *)

Section Sequences.
Context (less : ptr → ptr → bool).

(** Split [xs] after the run that continues from [x]. *)
Fixpoint end_run (x : ptr) (xs : list ptr) : list ptr * list ptr :=
  match xs with
  | [] => ([], [])
  | y :: ys => if less y x then ([], y :: ys) else let '(r, rest) := end_run y ys in (y :: r, rest)
  end.

Fixpoint sorted_from (x : ptr) (xs : list ptr) : bool :=
  match xs with
  | [] => true
  | y :: ys => if less y x then false else sorted_from y ys
  end.

(** Number of descents of [x :: xs]: one less than its number of runs. *)
Fixpoint descents (x : ptr) (xs : list ptr) : nat :=
  match xs with
  | [] => 0
  | y :: ys => (if less y x then 1 else 0) + descents y ys
  end.

Definition ndesc (xs : list ptr) : nat :=
  match xs with [] => 0%nat | x :: xs => descents x xs end.

Fixpoint pmerge (A : list ptr) : list ptr → list ptr :=
  fix go (B : list ptr) : list ptr :=
    match A, B with
    | [], _ => B
    | _, [] => A
    | a :: A', b :: B' => if less b a then b :: go B' else a :: pmerge A' B
    end.

Fixpoint pass (fuel : nat) (xs : list ptr) : list ptr * nat :=
  match fuel, xs with
  | O, _ | _, [] => ([], 0%nat)
  | S fuel, x :: t =>
      let '(r, rest) := end_run x t in
      match rest with
      | [] => (x :: r, 1%nat)
      | y :: t' =>
          let '(r2, rest2) := end_run y t' in
          let '(out, n) := pass fuel rest2 in
          (pmerge (x :: r) (y :: r2) ++ out, S n)
      end
  end.

Lemma end_run_app x xs : xs = (end_run x xs).1 ++ (end_run x xs).2.
Proof.
  revert x. induction xs as [|y ys IH]; intros x; simpl; [done|].
  destruct (less y x); [done|]. specialize (IH y). destruct (end_run y ys). simpl in *. by f_equal.
Qed.

Lemma end_run_sorted x xs : sorted_from x (end_run x xs).1 = true.
Proof.
  revert x. induction xs as [|y ys IH]; intros x; simpl; [done|].
  destruct (less y x) eqn:E; [done|]. specialize (IH y). destruct (end_run y ys). simpl in *.
  by rewrite E.
Qed.

Lemma sorted_from_descents x xs : sorted_from x xs = true ↔ descents x xs = 0%nat.
Proof.
  revert x. induction xs as [|y ys IH]; intros x; simpl; [done|].
  destruct (less y x); [split; [done|lia]|]. apply IH.
Qed.

Lemma end_run_descents x xs :
  descents x xs = match (end_run x xs).2 with [] => 0%nat | y :: t => S (descents y t) end.
Proof.
  revert x. induction xs as [|y ys IH]; intros x; simpl; [done|].
  destruct (less y x); [done|]. rewrite IH. by destruct (end_run y ys) as [? [|]].
Qed.

Lemma ndesc_app xs ys : (ndesc (xs ++ ys) ≤ ndesc xs + S (ndesc ys))%nat.
Proof.
  destruct xs as [|x xs]; [simpl; lia|]. simpl. revert x.
  induction xs as [|y xs IH]; intros x; simpl.
  - destruct ys; simpl; [lia|]. destruct (less _ x); lia.
  - specialize (IH y). lia.
Qed.

Lemma pmerge_nil_r A : pmerge A [] = A.
Proof. by destruct A. Qed.

Lemma pmerge_Permutation A B : pmerge A B ≡ₚ A ++ B.
Proof.
  revert B. induction A as [|a A IHA]; [by intros []|].
  induction B as [|b B IHB]; [simpl; by rewrite app_nil_r|].
  simpl. destruct (less b a).
  - rewrite IHB. simpl. rewrite <- Permutation_middle. apply Permutation_swap.
  - by rewrite IHA.
Qed.

(** Merging two sorted runs of which [x] is a lower bound gives a sorted run. *)
Lemma pmerge_sorted x A B :
  (∀ a b, less a b = true → less b a = false) →
  sorted_from x A = true → sorted_from x B = true → sorted_from x (pmerge A B) = true.
Proof.
  intros Ha. revert x B. induction A as [|a A IHA]; intros x B; [by destruct B|].
  revert x. induction B as [|b B IHB]; intros x HA HB; [done|].
  simpl in HA, HB. simpl. destruct (less a x) eqn:Ax; [done|]. destruct (less b x) eqn:Bx; [done|].
  destruct (less b a) eqn:E; simpl; rewrite ?Ax, ?Bx.
  - apply IHB; [|done]. simpl. by rewrite Ha.
  - apply IHA; [done|]. simpl. by rewrite E.
Qed.

Lemma ndesc_pmerge x A y B :
  (∀ a b, less a b = true → less b a = false) →
  sorted_from x A = true → sorted_from y B = true → ndesc (pmerge (x :: A) (y :: B)) = 0%nat.
Proof.
  intros Ha HA HB. simpl. destruct (less y x) eqn:E; simpl; apply sorted_from_descents.
  - apply (pmerge_sorted y (x :: A) B); [done| |done]. simpl. by rewrite Ha.
  - apply (pmerge_sorted x A (y :: B)); [done..|]. simpl. by rewrite E.
Qed.

#[local] Arguments pmerge : simpl never.

Lemma pass_Permutation fuel xs : (length xs ≤ fuel)%nat → (pass fuel xs).1 ≡ₚ xs.
Proof.
  revert xs. induction fuel as [|fuel IH]; intros [|x t] Hf; simpl in *; [done|lia|done|].
  pose proof (end_run_app x t) as E1. destruct (end_run x t) as [r [|y t']]; simpl in *.
  { rewrite app_nil_r in E1. by subst. }
  pose proof (end_run_app y t') as E2. destruct (end_run y t') as [r2 rest2]; simpl in *.
  assert (Hl : (length rest2 ≤ fuel)%nat).
  { subst t t'. rewrite length_app in Hf. simpl in Hf. rewrite length_app in Hf. lia. }
  specialize (IH rest2 Hl). destruct (pass fuel rest2) as [out n]. simpl in *.
  rewrite (pmerge_Permutation (x :: r) (y :: r2)), IH. subst t t'. simpl.
  by rewrite <- !app_assoc.
Qed.

(** A pass merges the runs in pairs, and what it outputs has at most one run for each
    merge it counted. *)
Lemma pass_count fuel xs :
  (∀ a b, less a b = true → less b a = false) → (length xs ≤ fuel)%nat → xs ≠ [] →
  (pass fuel xs).2 = S (Nat.div2 (ndesc xs)) ∧ (ndesc (pass fuel xs).1 ≤ Nat.div2 (ndesc xs))%nat.
Proof.
  intros Ha. revert xs. induction fuel as [|fuel IH]; intros [|x t] Hf Hne; simpl in Hf; [done|lia|done|].
  cbn [pass ndesc]. rewrite end_run_descents.
  pose proof (end_run_sorted x t) as S1. pose proof (end_run_app x t) as E1.
  destruct (end_run x t) as [r [|y t']]; simpl in *.
  { apply sorted_from_descents in S1. rewrite S1. done. }
  rewrite end_run_descents.
  pose proof (end_run_sorted y t') as S2. pose proof (end_run_app y t') as E2.
  destruct (end_run y t') as [r2 rest2]; simpl in *.
  assert (Hl : (length rest2 ≤ fuel)%nat).
  { subst t t'. rewrite length_app in Hf. simpl in Hf. rewrite length_app in Hf. lia. }
  pose proof (ndesc_pmerge x r y r2 Ha S1 S2) as Hm.
  destruct rest2 as [|z rest2].
  { replace (pass fuel []) with (@nil ptr, 0%nat) by (by destruct fuel). simpl fst; simpl snd.
    rewrite app_nil_r. rewrite Hm. done. }
  destruct (IH (z :: rest2) Hl ltac:(done)) as [H1 H2].
  destruct (pass fuel (z :: rest2)) as [out n]. cbn [fst snd ndesc] in *.
  pose proof (ndesc_app (pmerge (x :: r) (y :: r2)) out).
  split; lia.
Qed.

(** Stability: merging keeps the order of equivalent elements. *)
Section Stable.
Hypothesis leq_trans : ∀ a b c, less b a = false → less c b = false → less c a = false.
Hypothesis less_asym : ∀ a b, less a b = true → less b a = false.

Definition equiv_to (c x : ptr) : Prop := less c x = false ∧ less x c = false.

#[export] Instance equiv_to_dec c x : Decision (equiv_to c x).
Proof. unfold equiv_to. apply _. Defined.

Lemma sorted_from_all x xs y : sorted_from x xs = true → y ∈ xs → less y x = false.
Proof.
  revert x. induction xs as [|z zs IH]; intros x Hs Hy; [by apply elem_of_nil in Hy|].
  simpl in Hs. destruct (less z x) eqn:E; [done|].
  apply elem_of_cons in Hy as [->|Hy]; [done|]. eapply leq_trans; [exact E|]. by apply IH.
Qed.

Lemma filter_none (P : ptr → Prop) `{∀ x, Decision (P x)} xs :
  (∀ x, x ∈ xs → ¬ P x) → filter P xs = [].
Proof.
  induction xs as [|x xs IH]; intros Hx; [done|]. rewrite filter_cons_False by (apply Hx; set_solver).
  apply IH. intros. apply Hx. set_solver.
Qed.

Lemma pmerge_filter c A B :
  ndesc A = 0%nat → ndesc B = 0%nat →
  filter (equiv_to c) (pmerge A B) = filter (equiv_to c) A ++ filter (equiv_to c) B.
Proof.
  revert B. induction A as [|a A IHA]; [by intros []|].
  induction B as [|b B IHB]; intros HA HB; [simpl pmerge; by rewrite filter_nil, app_nil_r|].
  cbn [ndesc] in HA, HB. rewrite <- sorted_from_descents in HA, HB.
  assert (HA' : ndesc A = 0%nat).
  { destruct A as [|a2 A]; [done|]. simpl in HA. destruct (less a2 a); [done|]. by apply sorted_from_descents. }
  assert (HB' : ndesc B = 0%nat).
  { destruct B as [|b2 B]; [done|]. simpl in HB. destruct (less b2 b); [done|]. by apply sorted_from_descents. }
  unfold pmerge; fold pmerge. simpl. destruct (less b a) eqn:E.
  - change (filter (equiv_to c) (b :: pmerge (a :: A) B) =
            filter (equiv_to c) (a :: A) ++ filter (equiv_to c) (b :: B)).
    rewrite filter_cons, (filter_cons _ b). rewrite IHB; [|by apply sorted_from_descents|done].
    case_decide as Hc; [|done].
    assert (Hno : filter (equiv_to c) (a :: A) = []).
    { apply filter_none. intros x Hx [H1 H2]. destruct Hc as [H3 H4].
      assert (less b x = false) as Hbx by (eapply leq_trans; [exact H1|exact H4]).
      assert (less x a = false ∨ x = a) as [Hxa| ->].
      { apply elem_of_cons in Hx as [->|Hx]; [by right|left]. by eapply sorted_from_all. }
      - rewrite (leq_trans a x b Hxa Hbx) in E. done.
      - congruence. }
    by rewrite Hno.
  - rewrite !filter_cons. rewrite IHA; [|done|by apply sorted_from_descents]. by case_decide.
Qed.

Lemma pass_filter c fuel xs :
  (length xs ≤ fuel)%nat → filter (equiv_to c) (pass fuel xs).1 = filter (equiv_to c) xs.
Proof.
  revert xs. induction fuel as [|fuel IH]; intros [|x t] Hf; simpl in Hf; [done|lia|done|].
  cbn [pass]. pose proof (end_run_sorted x t) as S1. pose proof (end_run_app x t) as E1.
  destruct (end_run x t) as [r [|y t']]; simpl in *.
  { rewrite app_nil_r in E1. by subst. }
  pose proof (end_run_sorted y t') as S2. pose proof (end_run_app y t') as E2.
  destruct (end_run y t') as [r2 rest2]; simpl in *.
  assert (Hl : (length rest2 ≤ fuel)%nat).
  { subst t t'. rewrite length_app in Hf. simpl in Hf. rewrite length_app in Hf. lia. }
  specialize (IH rest2 Hl). destruct (pass fuel rest2) as [out n]. cbn [fst] in *.
  rewrite filter_app, pmerge_filter, IH by (by apply sorted_from_descents).
  rewrite <- !filter_app. f_equal. subst t t'. simpl. by rewrite <- !app_assoc.
Qed.

Lemma ndesc_StronglySorted xs :
  ndesc xs = 0%nat → StronglySorted (λ a b, less b a = false) xs.
Proof.
  induction xs as [|x xs IH]; [by constructor|]. simpl. intros Hs. constructor.
  - apply IH. destruct xs as [|y xs]; [done|]. simpl in *. destruct (less y x); lia.
  - apply Forall_forall. intros y Hy. apply sorted_from_descents in Hs. by eapply sorted_from_all.
Qed.

End Stable.
End Sequences.

(** ** The memory routines implement the sequence routines *)

Section Simulation.
Context (less : ptr → ptr → bool).

(** Positions of a list are told apart by their addresses. *)
Lemma after_of_eq h l X Y Z :
  dlist h l (X ++ Y ++ Z) →
  (after_of l (Y ++ Z) =? after_of l Z) = match Y with [] => true | _ :: _ => false end.
Proof.
  intros Hd. destruct Y as [|y Y]; [apply Z.eqb_refl|]. apply Z.eqb_neq.
  intros E. change (y = after_of l Z) in E.
  pose proof (dlist_nodup _ _ _ Hd) as Hnd. unfold nodes in Hnd.
  apply NoDup_cons in Hnd as [_ Hnd]. rewrite <- !app_assoc in Hnd. cbn [app] in Hnd.
  apply NoDup_app in Hnd as (_ & _ & Hnd). apply NoDup_cons in Hnd as [Hy _].
  apply Hy. destruct (nodes_split l [] Z) as (A & B & _ & _ & EB). rewrite EB, <- E. mem.
Qed.

Lemma list_prev_at h l X y Y : dlist h l (X ++ y :: Y) → list_prev (after_of l Y) h = Ok (y, h).
Proof.
  intros Hd. rewrite (list_prev_spec h l (X ++ [y]) Y) by (by apply dlist_shift).
  unfold before_of. by rewrite last_snoc.
Qed.

Lemma is_sorted_loop_spec h l X y Y Z fuel :
  dlist h l (X ++ y :: Y ++ Z) → (length Y < fuel)%nat →
  is_sorted_loop less fuel y (after_of l Z) h = Ok (sorted_from less y Y, h).
Proof.
  revert X y Y. induction fuel as [|fuel IH]; intros X y Y Hd Hf; [lia|].
  cbn [is_sorted_loop]. step list_next_spec.
  rewrite (after_of_eq h l (X ++ [y]) Y Z) by (by apply dlist_shift).
  destruct Y as [|y' Y]; [done|]. cbn iota. step list_prev_at. cbn [sorted_from].
  change (after_of l ((y' :: Y) ++ Z)) with y'.
  destruct (less y' y); [done|]. apply (IH (X ++ [y])); [by apply dlist_shift|simpl in Hf; lia].
Qed.

Lemma is_sorted_spec h l X Y Z :
  dlist h l (X ++ Y ++ Z) →
  is_sorted less (after_of l (Y ++ Z)) (after_of l Z) h =
  Ok (match Y with [] => true | y :: Y => sorted_from less y Y end, h).
Proof.
  intros Hd. unfold is_sorted. rewrite (after_of_eq h l X Y Z Hd).
  destruct Y as [|y Y]; [done|]. step heap_fuel_run.
  apply (is_sorted_loop_spec h l X); [done|].
  pose proof (dlist_length _ _ _ Hd) as Hl. rewrite !length_app in Hl. simpl in Hl. lia.
Qed.

Lemma find_end_of_run_loop_spec h l X y Y fuel :
  dlist h l (X ++ y :: Y) → (length Y < fuel)%nat →
  find_end_of_run_loop less fuel y (list_tail l) h = Ok (after_of l (end_run less y Y).2, h).
Proof.
  revert X y Y. induction fuel as [|fuel IH]; intros X y Y Hd Hf; [lia|].
  cbn [find_end_of_run_loop]. step list_next_spec.
  rewrite (after_of_tail h l (X ++ [y]) Y) by (by apply dlist_shift).
  destruct Y as [|y' Y]; [done|]. cbn iota. step list_prev_at. cbn [end_run].
  change (after_of l (y' :: Y)) with y'.
  destruct (less y' y); [done|].
  rewrite (IH (X ++ [y]) y' Y) by (by apply dlist_shift || (simpl in Hf; lia)).
  by destruct (end_run less y' Y).
Qed.

Lemma find_end_of_run_spec h l X y Y :
  dlist h l (X ++ y :: Y) →
  find_end_of_run less y (list_tail l) h = Ok (after_of l (end_run less y Y).2, h).
Proof.
  intros Hd. unfold find_end_of_run.
  assert (y ≠ NULL ∧ list_tail l ≠ NULL) as [Hy Ht].
  { split; (eapply dlist_member_nonnull; [exact Hd|]; unfold nodes; mem). }
  erewrite bind_run by (apply assert_run; by apply negb_true_iff, Z.eqb_neq).
  erewrite bind_run by (apply assert_run; by apply negb_true_iff, Z.eqb_neq).
  erewrite bind_run by (apply assert_run; apply negb_true_iff; apply (after_of_tail h l X (y :: Y) Hd)).
  step heap_fuel_run. apply (find_end_of_run_loop_spec h l X); [done|].
  pose proof (dlist_length _ _ _ Hd) as Hl. rewrite !length_app in Hl. simpl in Hl. lia.
Qed.

Lemma nodes_Permutation l xs ys : xs ≡ₚ ys → nodes l xs ≡ₚ nodes l ys.
Proof. intros H. unfold nodes. by rewrite H. Qed.

Lemma touches_perm S S' h h' : S ≡ₚ S' → touches S h h' → touches S' h h'.
Proof. intros HS. apply touches_mono. intros x. by rewrite HS. Qed.

Lemma inplace_merge_loop_spec h l P A B R fuel :
  dlist h l (P ++ A ++ B ++ R) → (length A + length B < fuel)%nat →
  ∃ h', inplace_merge_loop less fuel (after_of l (A ++ B ++ R)) (after_of l (B ++ R)) (after_of l R) h = Ok (tt, h') ∧
        dlist h' l (P ++ pmerge less A B ++ R) ∧ touches (nodes l (P ++ A ++ B ++ R)) h h'.
Proof.
  revert h P A B. induction fuel as [|fuel IH]; intros h P A B Hd Hf; [lia|].
  cbn [inplace_merge_loop]. rewrite (after_of_eq h l P A (B ++ R) Hd).
  rewrite (after_of_eq h l (P ++ A) B R) by (by rewrite <- app_assoc).
  destruct A as [|a A]; [exists h; split_and!; [done| |apply touches_refl]; by destruct B|].
  destruct B as [|b B]; [exists h; split_and!; [done| |apply touches_refl]; done|].
  cbn [negb andb]. change (after_of l ((a :: A) ++ (b :: B) ++ R)) with a.
  change (after_of l ((b :: B) ++ R)) with b.
  replace (pmerge less (a :: A) (b :: B))
    with (if less b a then b :: pmerge less (a :: A) B else a :: pmerge less A (b :: B)) by done.
  destruct (less b a) eqn:E; cbn [negb].
  - assert (Hd1 : dlist h l (P ++ (a :: A) ++ [b] ++ (B ++ R))) by exact Hd.
    erewrite bind_run by (apply (list_next_spec h l (P ++ a :: A) b (B ++ R)); by rewrite <- app_assoc).
    erewrite bind_run by (apply (list_prev_at h l (P ++ a :: A) b (B ++ R)); by rewrite <- app_assoc).
    destruct (list_splice_spec h l P (a :: A) [b] (B ++ R) Hd1) as (h1 & Hr & Hd' & Ht); [done..|].
    erewrite bind_run by exact Hr.
    assert (Hd2 : dlist h1 l ((P ++ [b]) ++ (a :: A) ++ B ++ R)) by (by rewrite <- app_assoc).
    destruct (IH h1 (P ++ [b]) (a :: A) B Hd2) as (h' & Hr' & Hd'' & Ht'); [simpl in *; lia|].
    exists h'. split_and!; [done|by rewrite <- app_assoc in Hd''|].
    eapply touches_trans; [exact Ht|]. eapply touches_perm; [|exact Ht'].
    apply nodes_Permutation. solve_Permutation.
  - erewrite bind_run by (apply (list_next_spec h l P a (A ++ (b :: B) ++ R)); exact Hd).
    assert (Hd2 : dlist h l ((P ++ [a]) ++ A ++ (b :: B) ++ R)) by (by rewrite <- app_assoc).
    destruct (IH h (P ++ [a]) A (b :: B) Hd2) as (h' & Hr' & Hd'' & Ht'); [simpl in *; lia|].
    exists h'. split_and!; [done|by rewrite <- app_assoc in Hd''|]. by rewrite <- app_assoc in Ht'.
Qed.

Lemma inplace_merge_spec h l P a A b B R :
  dlist h l (P ++ (a :: A) ++ (b :: B) ++ R) →
  sorted_from less a A = true → sorted_from less b B = true →
  ∃ h', inplace_merge less a b (after_of l R) h = Ok (tt, h') ∧
        dlist h' l (P ++ pmerge less (a :: A) (b :: B) ++ R) ∧
        touches (nodes l (P ++ (a :: A) ++ (b :: B) ++ R)) h h'.
Proof.
  intros Hd HA HB. unfold inplace_merge.
  assert (a ≠ NULL ∧ b ≠ NULL) as [Ha0 Hb0].
  { split; (eapply dlist_member_nonnull; [exact Hd|]; unfold nodes; mem). }
  assert (after_of l R ≠ NULL).
  { eapply dlist_member_nonnull; [exact Hd|]. rewrite !app_assoc. apply after_of_in. }
  do 3 (erewrite bind_run by (apply assert_run; by apply negb_true_iff, Z.eqb_neq)).
  erewrite bind_run by (apply (is_sorted_spec h l P (a :: A) ((b :: B) ++ R)); exact Hd). step @assert_run.
  erewrite bind_run by (apply (is_sorted_spec h l (P ++ a :: A) (b :: B) R); by rewrite <- app_assoc). step @assert_run.
  step heap_fuel_run. apply (inplace_merge_loop_spec h l P (a :: A) (b :: B) R); [done|].
  pose proof (dlist_length _ _ _ Hd) as Hl. rewrite !length_app in Hl. simpl in *. lia.
Qed.

Lemma sort_pass_spec h l P xs fuel cnt :
  dlist h l (P ++ xs) → (length xs < fuel)%nat →
  ∃ h', sort_pass less fuel l (after_of l xs) (u32 cnt) h =
          Ok (u32 (cnt + Z.of_nat (pass less fuel xs).2), h') ∧
        dlist h' l (P ++ (pass less fuel xs).1) ∧ touches (nodes l (P ++ xs)) h h'.
Proof.
  revert h P xs cnt. induction fuel as [|fuel IH]; intros h P xs cnt Hd Hf; [lia|].
  cbn [sort_pass]. step list_end_spec. rewrite (after_of_tail h l P xs Hd).
  destruct xs as [|x t].
  { exists h. split_and!; [|done|apply touches_refl]. simpl. by rewrite Z.add_0_r. }
  step list_end_spec. erewrite bind_run by (apply (find_end_of_run_spec h l P x t Hd)).
  step list_end_spec. cbn [pass].
  pose proof (end_run_app less x t) as E1. pose proof (end_run_sorted less x t) as S1.
  destruct (end_run less x t) as [r rest]. cbn [fst snd] in E1, S1 |- *.
  replace (u32 (u32 cnt + 1)) with (u32 (cnt + 1)) by (unfold u32; by rewrite Zplus_mod_idemp_l).
  subst t. rewrite (after_of_tail h l (P ++ x :: r) rest) by (by rewrite <- app_assoc).
  destruct rest as [|y t'].
  { exists h. rewrite app_nil_r. split_and!; [done|by rewrite app_nil_r in Hd|apply touches_refl]. }
  step list_end_spec.
  erewrite bind_run by (apply (find_end_of_run_spec h l (P ++ x :: r) y t'); by rewrite <- app_assoc).
  pose proof (end_run_app less y t') as E2. pose proof (end_run_sorted less y t') as S2.
  destruct (end_run less y t') as [r2 rest2]. cbn [fst snd] in E2, S2 |- *. subst t'.
  change (after_of l (x :: ?k)) with x. change (after_of l (y :: ?k)) with y.
  destruct (inplace_merge_spec h l P x r y r2 rest2) as (h1 & Hr1 & Hd1 & Ht1); [done..|].
  erewrite bind_run by exact Hr1. rewrite app_assoc in Hd1.
  destruct (IH h1 _ rest2 (cnt + 1) Hd1) as (h' & Hr' & Hd' & Ht').
  { rewrite length_cons, length_app, length_cons, length_app in Hf. lia. }
  rewrite Hr'. destruct (pass less fuel rest2) as [out n]. cbn [fst snd] in *.
  exists h'. split_and!.
  - by replace (cnt + 1 + Z.of_nat n) with (cnt + Z.of_nat (S n)) by lia.
  - by rewrite <- app_assoc in Hd'.
  - eapply touches_trans; [exact Ht1|]. eapply touches_perm; [|exact Ht'].
    apply nodes_Permutation. rewrite <- app_assoc, (pmerge_Permutation less (x :: r) (y :: r2)), <- app_assoc. done.
Qed.

Lemma descents_length x xs : (descents less x xs ≤ length xs)%nat.
Proof. revert x. induction xs as [|y ys IH]; intros x; simpl; [lia|]. specialize (IH y). destruct (less y x); lia. Qed.

Hypothesis leq_trans : ∀ a b c, less b a = false → less c b = false → less c a = false.
Hypothesis less_asym : ∀ a b, less a b = true → less b a = false.

(** What the sort promises of its result [ys] for the input [xs]. *)
Definition sort_result (xs ys : list ptr) : Prop :=
  ys ≡ₚ xs ∧
  ∀ c, base.filter (equiv_to less c) ys = base.filter (equiv_to less c) xs.

Lemma sort_passes_spec h l xs fuel :
  dlist h l xs → Z.of_nat (length xs) < 2 ^ 32 → (ndesc less xs < fuel)%nat →
  ∃ h' ys, sort_passes less fuel l h = Ok (tt, h') ∧ dlist h' l ys ∧ ndesc less ys = 0%nat ∧
           sort_result xs ys ∧ touches (nodes l xs) h h'.
Proof.
  revert h xs. induction fuel as [|fuel IH]; intros h xs Hd Hlen Hf; [lia|].
  cbn [sort_passes]. step heap_fuel_run. step list_begin_spec.
  pose proof (dlist_length _ _ _ Hd) as Hsz.
  destruct (sort_pass_spec h l [] xs (S (size h)) 0 Hd) as (h1 & Hr1 & Hd1 & Ht1); [lia|].
  change (u32 0) with 0 in Hr1. erewrite bind_run by exact Hr1. cbn [app] in *.
  assert (Hp : (length xs ≤ S (size h))%nat) by lia.
  pose proof (pass_Permutation less _ _ Hp) as Pm.
  pose proof (λ c, pass_filter less leq_trans less_asym c _ _ Hp) as Pf.
  destruct (decide (xs = [])) as [->|Hne].
  { exists h1, []. split_and!; [done..| |done]. by split. }
  destruct (pass_count less _ _ less_asym Hp Hne) as [Hc Hn].
  destruct (pass less (S (size h)) xs) as [out n]. cbn [fst snd] in *. subst n.
  assert (Hd2 : (ndesc less xs < length xs)%nat).
  { destruct xs as [|x xs]; [done|]. simpl. pose proof (descents_length x xs). lia. }
  pose proof (Nat.le_div2_diag_l (ndesc less xs)) as Hdiv.
  rewrite Z.add_0_l, u32_small by (unfold_ints; lia).
  zcase.
  - destruct (IH h1 out) as (h' & ys & Hr & Hd' & Hs & [Hp1 Hp2] & Ht'); [done| | |].
    { by rewrite Pm. }
    { pose proof (Nat.lt_div2 (ndesc less xs)) as Hlt. destruct (ndesc less xs); simpl in *; lia. }
    exists h', ys. split_and!; [done..| |].
    + split; [by rewrite Hp1|]. intros c. by rewrite Hp2.
    + eapply touches_trans; [exact Ht1|]. eapply touches_perm; [|exact Ht']. by apply nodes_Permutation.
  - exists h1, out. split_and!; [done..|lia| |done]. by split.
Qed.

End Simulation.

(** ** Result *)

(** C20. [list_sort]: for a strict weak order on the elements of a list of fewer than
    2^32 elements the sort terminates, every assertion inside it holds, and the list
    object then holds a sorted rearrangement in which equivalent elements keep their
    order; memory outside the list is unchanged. *)
Theorem list_sort_correct (less : ptr → ptr → bool) h l xs :
  (∀ a b c, less b a = false → less c b = false → less c a = false) →
  (∀ a b, less a b = true → less b a = false) →
  dlist h l xs → Z.of_nat (length xs) < 2 ^ 32 →
  ∃ h' ys, list_sort less l h = Ok (tt, h') ∧ dlist h' l ys ∧
    StronglySorted (λ a b, less b a = false) ys ∧ ys ≡ₚ xs ∧
    (∀ c, base.filter (equiv_to less c) ys = base.filter (equiv_to less c) xs) ∧
    (∀ a, a ∉ nodes l xs → h' !! a = h !! a).
Proof.
  intros Ht Ha Hd Hlen. unfold list_sort. step @assert_run. step heap_fuel_run.
  destruct (sort_passes_spec less Ht Ha h l xs (S (size h))) as (h' & ys & Hr & Hd' & Hs & [Hp1 Hp2] & [_ Hfr]);
    [done..| |].
  { pose proof (dlist_length _ _ _ Hd). destruct xs as [|x xs]; simpl; [lia|].
    pose proof (descents_length less x xs). simpl in *. lia. }
  exists h', ys. split_and!; [|done|by apply ndesc_StronglySorted|done..].
  erewrite bind_run by exact Hr. step list_begin_spec. step list_end_spec.
  rewrite <- (app_nil_r ys) in Hd' |- *.
  erewrite bind_run by (apply (is_sorted_spec less h' l [] ys []); exact Hd').
  destruct ys as [|y ys]; [done|]. simpl in Hs. apply sorted_from_descents in Hs. by rewrite Hs.
Qed.

Lemma list_sort_correct_witness :
  ∃ h' ys, list_sort (λ a b, b <? a) 100 demo_heap = Ok (tt, h') ∧ dlist h' 100 ys ∧
           ys ≡ₚ [200; 300] ∧ StronglySorted (λ a b, (a <? b) = false) ys.
Proof.
  destruct (list_sort_correct (λ a b, b <? a) demo_heap 100 [200; 300])
    as (h' & ys & H1 & H2 & H3 & H4 & _).
  - intros a b c H1 H2. bools. apply Z.ltb_ge. lia.
  - intros a b H1. bools. apply Z.ltb_ge. lia.
  - exact demo_dlist.
  - reflexivity.
  - by exists h', ys.
Defined.
