(* ===== verification/Bitmap.v ===== *)
(** * lib/kernel/bitmap.c: bitmaps

    A bitmap is an array of 32-bit elements that simulates an array of [bit_cnt] bits;
    the free map, the page pools and their allocators are built on it.  [bit b i] is
    the bit numbered [i]; the operations are shown to act on that view exactly as
    their comments promise, and to keep the representation well formed.  Assertions
    are those of the source; [size_t] arithmetic is 32 bits wide. *)

From S2P Require Import Prelude Bytes.

(** ** The code *)

Record bitmap : Type := Bitmap { bit_cnt : Z; bits : list Z }.

Definition ELEM_BITS : Z := 32.
Definition BITMAP_ERROR : Z := 2 ^ 32 - 1.

Definition DIV_ROUND_UP (x step : Z) : Z := u32 (x + step - 1) / step.

Definition elem_idx (bit_idx : Z) : Z := bit_idx / ELEM_BITS.
Definition bit_mask (bit_idx : Z) : Z := u32 (Z.shiftl 1 (bit_idx mod ELEM_BITS)).
Definition elem_cnt (bit_cnt : Z) : Z := DIV_ROUND_UP bit_cnt ELEM_BITS.
Definition byte_cnt (bit_cnt : Z) : Z := u32 (4 * elem_cnt bit_cnt).

Definition last_mask (b : bitmap) : Z :=
  let last_bits := bit_cnt b mod ELEM_BITS in
  if negb (last_bits =? 0) then u32 (Z.shiftl 1 last_bits - 1) else 2 ^ 32 - 1.

Definition bitmap_size (b : bitmap) : Z := bit_cnt b.

(** [b->bits[idx]], a memory access. *)
Definition get_elem (b : bitmap) (idx : Z) : result Z := deref (bits b !! Z.to_nat idx).
Definition put_elem (b : bitmap) (idx v : Z) : result bitmap :=
  _ ← get_elem b idx; mret (Bitmap (bit_cnt b) (<[Z.to_nat idx := v]> (bits b))).

Definition bitmap_mark (b : bitmap) (bit_idx : Z) : result bitmap :=
  let idx := elem_idx bit_idx in
  let mask := bit_mask bit_idx in
  e ← get_elem b idx; put_elem b idx (Z.lor e mask).

Definition bitmap_reset (b : bitmap) (bit_idx : Z) : result bitmap :=
  let idx := elem_idx bit_idx in
  let mask := bit_mask bit_idx in
  e ← get_elem b idx; put_elem b idx (Z.land e (Z.lxor (2 ^ 32 - 1) mask)).

Definition bitmap_flip (b : bitmap) (bit_idx : Z) : result bitmap :=
  let idx := elem_idx bit_idx in
  let mask := bit_mask bit_idx in
  e ← get_elem b idx; put_elem b idx (Z.lxor e mask).

Definition bitmap_set (b : bitmap) (idx : Z) (value : bool) : result bitmap :=
  ASSERT (idx <? bit_cnt b);;
  if value then bitmap_mark b idx else bitmap_reset b idx.

Definition bitmap_test (b : bitmap) (idx : Z) : result bool :=
  ASSERT (idx <? bit_cnt b);;
  e ← get_elem b (elem_idx idx);
  mret (negb (Z.land e (bit_mask idx) =? 0)).

(** The range assertions shared by the operations on several bits. *)
Definition range_asserts (b : bitmap) (start cnt : Z) : result unit :=
  ASSERT (start <=? bit_cnt b);; ASSERT (u32 (start + cnt) <=? bit_cnt b).

(** [for (i = 0; i < cnt; i++)] from iteration [i] with [n] iterations left. *)
Fixpoint set_loop (n : nat) (b : bitmap) (start i : Z) (value : bool) : result bitmap :=
  match n with
  | O => mret b
  | S n => b ← bitmap_set b (u32 (start + i)) value; set_loop n b start (i + 1) value
  end.

Definition bitmap_set_multiple (b : bitmap) (start cnt : Z) (value : bool) : result bitmap :=
  range_asserts b start cnt;; set_loop (Z.to_nat cnt) b start 0 value.

Definition bitmap_set_all (b : bitmap) (value : bool) : result bitmap :=
  bitmap_set_multiple b 0 (bitmap_size b) value.

Fixpoint count_loop (n : nat) (b : bitmap) (start i : Z) (value : bool) (value_cnt : Z) : result Z :=
  match n with
  | O => mret value_cnt
  | S n =>
      t ← bitmap_test b (u32 (start + i));
      count_loop n b start (i + 1) value (if eqb t value then value_cnt + 1 else value_cnt)
  end.

Definition bitmap_count (b : bitmap) (start cnt : Z) (value : bool) : result Z :=
  range_asserts b start cnt;; count_loop (Z.to_nat cnt) b start 0 value 0.

Fixpoint contains_loop (n : nat) (b : bitmap) (start i : Z) (value : bool) : result bool :=
  match n with
  | O => mret false
  | S n =>
      t ← bitmap_test b (u32 (start + i));
      if eqb t value then mret true else contains_loop n b start (i + 1) value
  end.

Definition bitmap_contains (b : bitmap) (start cnt : Z) (value : bool) : result bool :=
  range_asserts b start cnt;; contains_loop (Z.to_nat cnt) b start 0 value.

Definition bitmap_any (b : bitmap) (start cnt : Z) : result bool :=
  bitmap_contains b start cnt true.
Definition bitmap_none (b : bitmap) (start cnt : Z) : result bool :=
  negb <$> bitmap_contains b start cnt true.
Definition bitmap_all (b : bitmap) (start cnt : Z) : result bool :=
  negb <$> bitmap_contains b start cnt false.

(** [for (i = start; i <= last; i++)], with [n] candidates left. *)
Fixpoint scan_loop (n : nat) (b : bitmap) (i cnt : Z) (value : bool) : result Z :=
  match n with
  | O => mret BITMAP_ERROR
  | S n =>
      c ← bitmap_contains b i cnt (negb value);
      if negb c then mret i else scan_loop n b (i + 1) cnt value
  end.

Definition bitmap_scan (b : bitmap) (start cnt : Z) (value : bool) : result Z :=
  ASSERT (start <=? bit_cnt b);;
  if cnt <=? bit_cnt b then
    let last := bit_cnt b - cnt in
    scan_loop (Z.to_nat (last - start + 1)) b start cnt value
  else mret BITMAP_ERROR.

Definition bitmap_scan_and_flip (b : bitmap) (start cnt : Z) (value : bool) : result (Z * bitmap) :=
  idx ← bitmap_scan b start cnt value;
  if idx =? BITMAP_ERROR then mret (idx, b)
  else b ← bitmap_set_multiple b idx cnt (negb value); mret (idx, b).

(** Creation.  The two [malloc] calls either fail or provide memory with arbitrary
    contents. *)
Definition bitmap_create (cnt : Z) (header : bool) (storage : option (list Z)) : result (option bitmap) :=
  if header then
    match storage with
    | Some junk => b ← bitmap_set_all (Bitmap cnt junk) false; mret (Some b)
    | None => if cnt =? 0 then b ← bitmap_set_all (Bitmap cnt []) false; mret (Some b) else mret None
    end
  else mret None.

Definition bitmap_buf_size (cnt : Z) : Z := u32 (8 + byte_cnt cnt).

Definition bitmap_create_in_buf (cnt : Z) (storage : list Z) (block_size : Z) : result bitmap :=
  ASSERT (bitmap_buf_size cnt <=? block_size);;
  bitmap_set_all (Bitmap cnt storage) false.

(** ** File input and output

    The elements are stored in memory, and so in the file, least significant byte
    first.  [file_read_at] returns the bytes read; [file_write_at] the number of bytes
    written. *)

Fixpoint bytes_words (bs : list Z) : list Z :=
  match bs with
  | b0 :: b1 :: b2 :: b3 :: bs => (b0 + 256 * b1 + 65536 * b2 + 16777216 * b3) :: bytes_words bs
  | _ => []
  end.

Definition bitmap_file_size (b : bitmap) : Z := byte_cnt (bit_cnt b).

Section FileIO.
Context {F : Type}.
Context (file_read_at : F → Z → Z → result (list Z * F)).
Context (file_write_at : F → list Z → Z → Z → result (Z * F)).

(** Overwrite the front of the element array with the bytes that were read. *)
Definition load_bytes (ws : list Z) (bs : list Z) : list Z :=
  bytes_words (bs ++ drop (length bs) (words_bytes ws)).

Definition bitmap_read (b : bitmap) (file : F) : result (bool * bitmap * F) :=
  if 0 <? bit_cnt b then
    let size := i32 (byte_cnt (bit_cnt b)) in
    '(bs, file) ← file_read_at file size 0;
    let success := Z.of_nat (length bs) =? size in
    let b := Bitmap (bit_cnt b) (load_bytes (bits b) bs) in
    let idx := elem_cnt (bit_cnt b) - 1 in
    e ← get_elem b idx;
    b ← put_elem b idx (Z.land e (last_mask b));
    mret (success, b, file)
  else mret (true, b, file).

Definition bitmap_write (b : bitmap) (file : F) : result (bool * F) :=
  let size := i32 (byte_cnt (bit_cnt b)) in
  '(n, file) ← file_write_at file (words_bytes (bits b)) size 0;
  mret (n =? size, file).

End FileIO.

(** ** The representation invariant and the view as an array of bits *)

(** [DIV_ROUND_UP] does not overflow, there is one element for every 32 bits, and
    each element is a 32-bit word. *)
Record wf (b : bitmap) : Prop := {
  wf_cnt : 0 ≤ bit_cnt b ≤ 2 ^ 32 - 32;
  wf_len : Z.of_nat (length (bits b)) = elem_cnt (bit_cnt b);
  wf_word : Forall is_u32 (bits b);
}.

Definition bit (b : bitmap) (i : Z) : bool :=
  Z.testbit (default 0 (bits b !! Z.to_nat (elem_idx i))) (i mod ELEM_BITS).

(** All bits of the group of [cnt] bits at [i] equal [v]. *)
Definition group (b : bitmap) (i cnt : Z) (v : bool) : Prop :=
  ∀ k, i ≤ k < i + cnt → bit b k = v.

Lemma elem_cnt_eq n : 0 ≤ n ≤ 2 ^ 32 - 32 → elem_cnt n = (n + 31) / 32.
Proof.
  intros. unfold elem_cnt, DIV_ROUND_UP, ELEM_BITS.
  rewrite u32_small by (unfold_ints; lia). f_equal. lia.
Qed.

Lemma mod32 i : 0 ≤ i mod ELEM_BITS < 32.
Proof. unfold ELEM_BITS. apply Z.mod_pos_bound. lia. Qed.

Lemma idx_eq i j :
  0 ≤ i → 0 ≤ j →
  (Z.to_nat (elem_idx i) = Z.to_nat (elem_idx j) ∧ i mod ELEM_BITS = j mod ELEM_BITS) ↔ i = j.
Proof.
  unfold elem_idx, ELEM_BITS. intros. split; [|naive_solver].
  intros [H1 H2]. pose proof (Z.div_mod i 32). pose proof (Z.div_mod j 32).
  pose proof (Z.div_pos i 32). pose proof (Z.div_pos j 32). lia.
Qed.

Lemma bit_mask_testbit i k : 0 ≤ k → Z.testbit (bit_mask i) k = (k =? i mod ELEM_BITS).
Proof.
  intros. pose proof (mod32 i). unfold bit_mask, u32.
  rewrite Z.shiftl_1_l, Z.mod_small.
  - destruct (Z.eqb_spec k (i mod ELEM_BITS)) as [->|]; [apply Z.pow2_bits_true; lia|].
    apply Z.pow2_bits_false. lia.
  - split; [apply Z.pow_nonneg; lia|]. apply Z.pow_lt_mono_r; lia.
Qed.

Lemma bit_mask_u32 i : is_u32 (bit_mask i).
Proof. apply u32_range. Qed.

(** A word is 32 bits wide when its higher bits are clear. *)
Lemma u32_bits x : 0 ≤ x → (∀ k, 32 ≤ k → Z.testbit x k = false) → is_u32 x.
Proof.
  intros Hx H. split; [done|]. destruct (Z.eq_dec x 0) as [->|]; [lia|].
  apply Z.log2_lt_pow2; [lia|]. destruct (Z.lt_ge_cases (Z.log2 x) 32) as [|Hl]; [done|].
  exfalso. assert (Z.testbit x (Z.log2 x) = true) as Ht by (apply Z.bit_log2; lia).
  rewrite H in Ht by lia. done.
Qed.

Lemma u32_high x k : is_u32 x → 32 ≤ k → Z.testbit x k = false.
Proof.
  intros [H0 H1] Hk. destruct (Z.eq_dec x 0) as [->|]; [apply Z.bits_0|].
  apply Z.bits_above_log2; [done|].
  assert (Z.log2 x < 32) by (apply Z.log2_lt_pow2; lia). lia.
Qed.

Lemma ones32_testbit k : 0 ≤ k → Z.testbit (2 ^ 32 - 1) k = (k <? 32).
Proof.
  intros. replace (2 ^ 32 - 1) with (Z.ones 32) by reflexivity.
  apply Z.testbit_ones_nonneg; lia.
Qed.

(** Element access in range. *)
Lemma get_elem_ok b i :
  wf b → 0 ≤ i < bit_cnt b →
  ∃ e, bits b !! Z.to_nat (elem_idx i) = Some e ∧ get_elem b (elem_idx i) = Ok e ∧ is_u32 e.
Proof.
  intros [Hc Hl Hw] Hi.
  destruct (lookup_lt_is_Some_2 (bits b) (Z.to_nat (elem_idx i))) as [e He].
  { rewrite elem_cnt_eq in Hl by done. unfold elem_idx, ELEM_BITS in *.
    pose proof (Z.div_pos i 32). pose proof (Z.div_mod i 32). pose proof (Z.mod_pos_bound i 32).
    pose proof (Z.div_mod (bit_cnt b + 31) 32). pose proof (Z.mod_pos_bound (bit_cnt b + 31) 32).
    lia. }
  exists e. unfold get_elem. rewrite He. repeat split; try done;
    eapply Forall_lookup_1 in Hw; eauto; apply Hw.
Qed.

(** The effect of replacing one element by a word that differs in bit [i] only. *)
Lemma put_elem_ok b i e e' v :
  wf b → 0 ≤ i < bit_cnt b → bits b !! Z.to_nat (elem_idx i) = Some e → is_u32 e' →
  (∀ k, 0 ≤ k < 32 → Z.testbit e' k = if k =? i mod ELEM_BITS then v else Z.testbit e k) →
  ∃ b', put_elem b (elem_idx i) e' = Ok b' ∧ wf b' ∧ bit_cnt b' = bit_cnt b ∧
        ∀ j, 0 ≤ j → bit b' j = if j =? i then v else bit b j.
Proof.
  intros Hwf Hi He Hu Hb. destruct Hwf as [Hc Hl Hw].
  unfold put_elem, get_elem. rewrite He. simpl. eexists. split; [done|]. split; [|split].
  - split; simpl; [done|by rewrite length_insert|by apply Forall_insert].
  - done.
  - intros j Hj. unfold bit. simpl.
    pose proof (idx_eq j i Hj ltac:(lia)) as Hij. pose proof (mod32 j).
    destruct (decide (Z.to_nat (elem_idx j) = Z.to_nat (elem_idx i))) as [E|E].
    + rewrite E, list_lookup_insert_eq by (by eapply lookup_lt_Some). simpl.
      rewrite Hb by done. rewrite He. simpl.
      do 2 zcase; try done; tauto.
    + rewrite list_lookup_insert_ne by done. zcase; [|done]. subst. done.
Qed.

(** ** Single bits *)

Ltac single_bit b i :=
  intros Hwf Hi; destruct (get_elem_ok b i Hwf Hi) as (e & He & Hg & Hu);
  pose proof (bit_mask_u32 i) as Hm.

Lemma bitmap_mark_spec b i :
  wf b → 0 ≤ i < bit_cnt b →
  ∃ b', bitmap_mark b i = Ok b' ∧ wf b' ∧ bit_cnt b' = bit_cnt b ∧
        ∀ j, 0 ≤ j → bit b' j = if j =? i then true else bit b j.
Proof.
  single_bit b i. unfold bitmap_mark. rewrite Hg. simpl. eapply put_elem_ok; eauto.
  - apply u32_bits; [apply Z.lor_nonneg; split; [apply Hu|apply Hm]|].
    intros. rewrite Z.lor_spec, !u32_high by done. done.
  - intros. rewrite Z.lor_spec, bit_mask_testbit by lia. zcase; [apply orb_true_r|apply orb_false_r].
Qed.

Lemma bitmap_reset_spec b i :
  wf b → 0 ≤ i < bit_cnt b →
  ∃ b', bitmap_reset b i = Ok b' ∧ wf b' ∧ bit_cnt b' = bit_cnt b ∧
        ∀ j, 0 ≤ j → bit b' j = if j =? i then false else bit b j.
Proof.
  single_bit b i. unfold bitmap_reset. rewrite Hg. cbn [mbind result_bind].
  eapply put_elem_ok; eauto.
  - apply u32_bits; [apply Z.land_nonneg; left; apply Hu|].
    intros. rewrite Z.land_spec, (u32_high e) by done. done.
  - intros. rewrite Z.land_spec, Z.lxor_spec, ones32_testbit, bit_mask_testbit by lia.
    destruct (Z.ltb_spec k 32); [|lia]. zcase; [apply andb_false_r|apply andb_true_r].
Qed.

(** [bitmap_flip] negates the bit and no other. *)
Lemma bitmap_flip_spec b i :
  wf b → 0 ≤ i < bit_cnt b →
  ∃ b', bitmap_flip b i = Ok b' ∧ wf b' ∧ bit_cnt b' = bit_cnt b ∧
        ∀ j, 0 ≤ j → bit b' j = if j =? i then negb (bit b i) else bit b j.
Proof.
  single_bit b i. unfold bitmap_flip. rewrite Hg. simpl. eapply put_elem_ok; eauto.
  - apply u32_bits; [apply Z.lxor_nonneg; split; intros; [apply Hm|apply Hu]|].
    intros. rewrite Z.lxor_spec, !u32_high by done. done.
  - intros. rewrite Z.lxor_spec, bit_mask_testbit by lia. unfold bit. rewrite He. simpl.
    destruct (Z.eqb_spec k (i mod ELEM_BITS)) as [->|]; [apply xorb_true_r|apply xorb_false_r].
Qed.

Lemma bitmap_set_spec b i v :
  wf b → 0 ≤ i < bit_cnt b →
  ∃ b', bitmap_set b i v = Ok b' ∧ wf b' ∧ bit_cnt b' = bit_cnt b ∧
        ∀ j, 0 ≤ j → bit b' j = if j =? i then v else bit b j.
Proof.
  intros Hwf Hi. unfold bitmap_set. zcase; [|lia]. simpl.
  destruct v; [by apply bitmap_mark_spec|by apply bitmap_reset_spec].
Qed.

Lemma bitmap_test_spec b i : wf b → 0 ≤ i < bit_cnt b → bitmap_test b i = Ok (bit b i).
Proof.
  single_bit b i. unfold bitmap_test. zcase; [|lia]. simpl. rewrite Hg. simpl.
  unfold mret, result_ret. f_equal. unfold bit. rewrite He. simpl.
  pose proof (mod32 i). destruct (Z.testbit e (i mod ELEM_BITS)) eqn:Ht.
  - zcase; [|done]. assert (Z.testbit (Z.land e (bit_mask i)) (i mod ELEM_BITS) = true) as Hx.
    { rewrite Z.land_spec, Ht, bit_mask_testbit by lia. by rewrite Z.eqb_refl. }
    rewrite e0, Z.bits_0 in Hx. done.
  - rewrite negb_false_iff, Z.eqb_eq. apply Z.bits_inj'. intros k Hk.
    rewrite Z.land_spec, bit_mask_testbit, Z.bits_0 by lia.
    zcase; [subst; by rewrite Ht|apply andb_false_r].
Qed.

(** ** Groups of bits *)

Lemma range_asserts_ok b start cnt :
  wf b → 0 ≤ start → 0 ≤ cnt → start + cnt ≤ bit_cnt b → range_asserts b start cnt = Ok tt.
Proof.
  intros [Hc _ _] ???. unfold range_asserts. rewrite u32_small by (unfold_ints; lia).
  repeat (zcase; [|lia]). done.
Qed.

Lemma set_loop_spec n b start i v :
  wf b → 0 ≤ start → 0 ≤ i → start + i + Z.of_nat n ≤ bit_cnt b →
  ∃ b', set_loop n b start i v = Ok b' ∧ wf b' ∧ bit_cnt b' = bit_cnt b ∧
        ∀ j, 0 ≤ j → bit b' j =
          if (start + i <=? j) && (j <? start + i + Z.of_nat n) then v else bit b j.
Proof.
  revert b i. induction n as [|n IH]; intros b i Hwf Hs Hi Hb; simpl.
  - eexists. split; [done|]. split; [done|]. split; [done|]. intros.
    do 2 (zcase; simpl; try done). lia.
  - rewrite u32_small by (pose proof (wf_cnt b Hwf); unfold_ints; lia).
    destruct (bitmap_set_spec b (start + i) v Hwf ltac:(lia)) as (b1 & -> & Hwf1 & Hc1 & Hb1).
    destruct (IH b1 (i + 1) Hwf1 ltac:(lia) ltac:(lia) ltac:(lia)) as (b2 & Hr & Hwf2 & Hc2 & Hb2).
    exists b2. simpl. split; [done|]. split; [done|]. split; [lia|]. intros j Hj.
    rewrite Hb2, Hb1 by done.
    repeat (zcase; simpl; try done; try lia).
Qed.

Lemma bitmap_set_multiple_spec b start cnt v :
  wf b → 0 ≤ start → 0 ≤ cnt → start + cnt ≤ bit_cnt b →
  ∃ b', bitmap_set_multiple b start cnt v = Ok b' ∧ wf b' ∧ bit_cnt b' = bit_cnt b ∧
        ∀ j, 0 ≤ j → bit b' j = if (start <=? j) && (j <? start + cnt) then v else bit b j.
Proof.
  intros Hwf ???. unfold bitmap_set_multiple. rewrite range_asserts_ok by done. simpl.
  destruct (set_loop_spec (Z.to_nat cnt) b start 0 v) as (b' & ? & ? & ? & Hb); [done|lia..|].
  exists b'. repeat (split; [done|]). intros j Hj. rewrite Hb by done.
  replace (start + 0) with start by lia. by rewrite Z2Nat.id by lia.
Qed.

Lemma bitmap_set_all_spec b v :
  wf b →
  ∃ b', bitmap_set_all b v = Ok b' ∧ wf b' ∧ bit_cnt b' = bit_cnt b ∧
        group b' 0 (bit_cnt b) v.
Proof.
  intros Hwf. pose proof (wf_cnt b Hwf).
  destruct (bitmap_set_multiple_spec b 0 (bit_cnt b) v) as (b' & ? & ? & ? & Hb); [done|lia..|].
  exists b'. repeat (split; [done|]). intros k Hk. rewrite Hb by lia.
  repeat (zcase; simpl; try done; try lia).
Qed.

Lemma eqb_bool_decide (x y : bool) : eqb x y = bool_decide (x = y).
Proof. by destruct x, y. Qed.

(** The number of positions of the range whose bit is [v]. *)
Definition count_bits (b : bitmap) (start : Z) (n : nat) (v : bool) : Z :=
  Z.of_nat (length (filter (λ k, bit b k = v) (seqZ start (Z.of_nat n)))).

Lemma count_loop_spec n b start i v c :
  wf b → 0 ≤ start → 0 ≤ i → start + i + Z.of_nat n ≤ bit_cnt b →
  count_loop n b start i v c = Ok (c + count_bits b (start + i) n v).
Proof.
  revert i c. induction n as [|n IH]; intros i c Hwf Hs Hi Hb; cbn [count_loop].
  - unfold count_bits. simpl. unfold mret, result_ret. f_equal. lia.
  - rewrite u32_small by (pose proof (wf_cnt b Hwf); unfold_ints; lia).
    rewrite bitmap_test_spec by (done || lia). simpl. rewrite IH by (done || lia). f_equal.
    unfold count_bits. rewrite (seqZ_cons (start + i)) by lia.
    replace (Z.pred (Z.of_nat (S n))) with (Z.of_nat n) by lia.
    replace (Z.succ (start + i)) with (start + (i + 1)) by lia.
    rewrite eqb_bool_decide, filter_cons.
    case_decide; [rewrite bool_decide_true by done|rewrite bool_decide_false by done];
      cbn [length]; lia.
Qed.

Lemma bitmap_count_spec b start cnt v :
  wf b → 0 ≤ start → 0 ≤ cnt → start + cnt ≤ bit_cnt b →
  bitmap_count b start cnt v = Ok (count_bits b start (Z.to_nat cnt) v).
Proof.
  intros. unfold bitmap_count. rewrite range_asserts_ok by done. simpl.
  rewrite count_loop_spec by (done || lia). f_equal. by rewrite Z.add_0_r.
Qed.

Lemma contains_loop_spec n b start i v :
  wf b → 0 ≤ start → 0 ≤ i → start + i + Z.of_nat n ≤ bit_cnt b →
  ∃ r, contains_loop n b start i v = Ok r ∧
       (r = true ↔ ∃ k, start + i ≤ k < start + i + Z.of_nat n ∧ bit b k = v).
Proof.
  revert i. induction n as [|n IH]; intros i Hwf Hs Hi Hb; cbn [contains_loop].
  - eexists. split; [done|]. split; [done|]. intros (k & ? & _). lia.
  - rewrite u32_small by (pose proof (wf_cnt b Hwf); unfold_ints; lia).
    rewrite bitmap_test_spec by (done || lia). simpl. rewrite eqb_bool_decide.
    case_bool_decide as E.
    + eexists. split; [done|]. split; [|done]. intros _. exists (start + i). split; [lia|done].
    + destruct (IH (i + 1)) as (r & -> & Hr); [done|lia..|]. exists r. split; [done|].
      rewrite Hr. split; intros (k & Hk & Hv).
      * exists k. split; [lia|done].
      * exists k. split; [|done]. assert (k ≠ start + i) by (intros ->; done). lia.
Qed.

Lemma bitmap_contains_spec b start cnt v :
  wf b → 0 ≤ start → 0 ≤ cnt → start + cnt ≤ bit_cnt b →
  ∃ r, bitmap_contains b start cnt v = Ok r ∧
       (r = true ↔ ∃ k, start ≤ k < start + cnt ∧ bit b k = v).
Proof.
  intros. unfold bitmap_contains. rewrite range_asserts_ok by done. simpl.
  destruct (contains_loop_spec (Z.to_nat cnt) b start 0 v) as (r & Hr & Hs); [done|lia..|].
  exists r. split; [done|]. rewrite Hs. by rewrite Z.add_0_r, Z2Nat.id by lia.
Qed.

(** A group free of the opposite value has the value throughout. *)
Lemma contains_group b i cnt v :
  wf b → 0 ≤ i → 0 ≤ cnt → i + cnt ≤ bit_cnt b →
  ∃ r, bitmap_contains b i cnt (negb v) = Ok r ∧ (r = false ↔ group b i cnt v).
Proof.
  intros. destruct (bitmap_contains_spec b i cnt (negb v)) as (r & Hr & Hs); [done..|].
  exists r. split; [done|]. destruct r.
  - split; [done|]. intros Hg. destruct (proj1 Hs eq_refl) as (k & Hk & Hv).
    rewrite Hg in Hv by done. by destruct v.
  - split; [|done]. intros _ k Hk. destruct (bit b k) eqn:E, v; try done.
    all: exfalso; assert (false = true) by (apply Hs; eauto); done.
Qed.

Lemma scan_loop_spec n b i cnt v :
  wf b → 0 ≤ i → 0 ≤ cnt → i + Z.of_nat n + cnt ≤ bit_cnt b + 1 →
  (scan_loop n b i cnt v = Ok BITMAP_ERROR ∧
   ∀ k, i ≤ k < i + Z.of_nat n → ¬ group b k cnt v) ∨
  (∃ r, scan_loop n b i cnt v = Ok r ∧ i ≤ r < i + Z.of_nat n ∧ group b r cnt v ∧
        ∀ k, i ≤ k < r → ¬ group b k cnt v).
Proof.
  revert i. induction n as [|n IH]; intros i Hwf Hi Hc Hb; cbn [scan_loop].
  - left. split; [done|]. intros k ?. lia.
  - destruct (contains_group b i cnt v) as (r & -> & Hr); [done|lia..|]. simpl.
    destruct r; simpl.
    + assert (¬ group b i cnt v) by (intros Hg; by apply Hr in Hg).
      destruct (IH (i + 1)) as [[E Hn]|(r & E & Hrg & Hg & Hn)]; [done|lia..| |].
      * left. split; [done|]. intros k Hk. destruct (Z.eq_dec k i) as [->|]; [done|].
        apply Hn. lia.
      * right. exists r. split; [done|]. split; [lia|]. split; [done|]. intros k Hk.
        destruct (Z.eq_dec k i) as [->|]; [done|]. apply Hn. lia.
    + right. exists i. split; [done|]. split; [lia|]. split; [by apply Hr|]. intros k ?. lia.
Qed.

(** What a scan promises: the first group, or none. *)
Definition first_group (b : bitmap) (start cnt : Z) (v : bool) (r : Z) : Prop :=
  (r = BITMAP_ERROR ∧ ∀ k, start ≤ k → k + cnt ≤ bit_cnt b → ¬ group b k cnt v) ∨
  (start ≤ r ∧ r + cnt ≤ bit_cnt b ∧ group b r cnt v ∧
   ∀ k, start ≤ k < r → ¬ group b k cnt v).

Lemma bitmap_scan_spec b start cnt v :
  wf b → 0 ≤ start ≤ bit_cnt b → 0 ≤ cnt →
  ∃ r, bitmap_scan b start cnt v = Ok r ∧ first_group b start cnt v r.
Proof.
  intros Hwf Hs Hc. unfold bitmap_scan.
  destruct (Z.leb_spec start (bit_cnt b)); [|lia]. simpl. zcase.
  - destruct (Z.le_gt_cases start (bit_cnt b - cnt)) as [Hl|Hl].
    + destruct (scan_loop_spec (Z.to_nat (bit_cnt b - cnt - start + 1)) b start cnt v)
        as [[-> Hn]|(r & -> & Hr & Hg & Hn)]; [done|lia..| |].
      * eexists. split; [done|]. left. split; [done|]. intros k Hk1 Hk2. apply Hn. lia.
      * eexists. split; [done|]. right. split; [lia|]. split; [lia|]. done.
    + replace (Z.to_nat _) with O by lia. eexists. split; [done|]. left. split; [done|].
      intros k ??. lia.
  - eexists. split; [done|]. left. split; [done|]. intros k ??. lia.
Qed.

(** ** Claims *)

Lemma bitmap_scan_and_flip_spec b start cnt value :
  wf b → 0 ≤ start ≤ bit_cnt b → 0 ≤ cnt →
  ∃ r b', bitmap_scan_and_flip b start cnt value = Ok (r, b') ∧
    wf b' ∧ bit_cnt b' = bit_cnt b ∧ first_group b start cnt value r ∧
    (r = BITMAP_ERROR → b' = b) ∧
    (r ≠ BITMAP_ERROR → ∀ j, 0 ≤ j →
       bit b' j = if (r <=? j) && (j <? r + cnt) then negb value else bit b j).
Proof.
  intros Hwf Hs Hc. unfold bitmap_scan_and_flip.
  destruct (bitmap_scan_spec b start cnt value) as (r & -> & Hr); [done..|]. simpl.
  zcase; [exists r, b; naive_solver|].
  destruct Hr as [[? _]|Hr]; [done|]. destruct Hr as (? & ? & ?).
  destruct (bitmap_set_multiple_spec b r cnt (negb value)) as (b' & -> & ? & ? & Hb); [done|lia..|].
  exists r, b'. repeat (split; [done|]). split; [right; tauto|]. split; [done|]. auto.
Qed.

(** Allocation of a group of bits.  For every well-formed bitmap and every start
    position in it, [bitmap_scan_and_flip] returns without an assertion failure.  It
    returns the first position at or after [start] of a group of [cnt] bits that all
    have [value], and then exactly those bits are negated and no other bit changes; or
    it returns [BITMAP_ERROR], no such group exists, and the bitmap is unchanged.  The
    result is well formed and keeps its size. *)
Theorem bitmap_scan_and_flip_correct b start cnt value :
  wf b → 0 ≤ start ≤ bit_cnt b → 0 ≤ cnt →
  ∃ r b', bitmap_scan_and_flip b start cnt value = Ok (r, b') ∧
    wf b' ∧ bit_cnt b' = bit_cnt b ∧ first_group b start cnt value r ∧
    (r = BITMAP_ERROR → b' = b) ∧
    (r ≠ BITMAP_ERROR → ∀ j, 0 ≤ j →
       bit b' j = if (r <=? j) && (j <? r + cnt) then negb value else bit b j).
Proof. apply bitmap_scan_and_flip_spec. Qed.

Definition demo_bitmap : bitmap := Bitmap 40 [4294967295; 225].

Lemma demo_bitmap_wf : wf demo_bitmap.
Proof. split; [simpl; lia|reflexivity|repeat constructor; unfold_ints; lia]. Qed.

Lemma bitmap_scan_and_flip_correct_witness :
  bitmap_scan_and_flip demo_bitmap 3 2 false = Ok (33, Bitmap 40 [4294967295; 231]) ∧
  first_group demo_bitmap 3 2 false 33.
Proof.
  split; [vm_compute; reflexivity|].
  destruct (bitmap_scan_and_flip_correct demo_bitmap 3 2 false) as (r & b' & Hr & _ & _ & Hg & _).
  - apply demo_bitmap_wf.
  - simpl. lia.
  - lia.
  - vm_compute in Hr. injection Hr as <- _. exact Hg.
Defined.

(** The operations on one bit and on a range act on the array of bits as their
    comments say: a set bit reads back, other bits are untouched, [bitmap_flip] is an
    involution on its bit, [bitmap_set_multiple] sets exactly the range,
    [bitmap_count] is the number of bits of the range that have the value, and
    [bitmap_contains] tells whether there is one. *)
Theorem bitmap_array_view b i start cnt v :
  wf b → 0 ≤ i < bit_cnt b → 0 ≤ start → 0 ≤ cnt → start + cnt ≤ bit_cnt b →
  bitmap_test b i = Ok (bit b i) ∧
  (∃ b', bitmap_set b i v = Ok b' ∧ wf b' ∧ bit_cnt b' = bit_cnt b ∧
         ∀ j, 0 ≤ j → bit b' j = if j =? i then v else bit b j) ∧
  (∃ b', bitmap_flip b i = Ok b' ∧ wf b' ∧ bit_cnt b' = bit_cnt b ∧
         ∀ j, 0 ≤ j → bit b' j = if j =? i then negb (bit b i) else bit b j) ∧
  (∃ b', bitmap_set_multiple b start cnt v = Ok b' ∧ wf b' ∧ bit_cnt b' = bit_cnt b ∧
         ∀ j, 0 ≤ j → bit b' j = if (start <=? j) && (j <? start + cnt) then v else bit b j) ∧
  bitmap_count b start cnt v = Ok (count_bits b start (Z.to_nat cnt) v) ∧
  (∃ r, bitmap_contains b start cnt v = Ok r ∧
        (r = true ↔ ∃ k, start ≤ k < start + cnt ∧ bit b k = v)).
Proof.
  intros. split; [by apply bitmap_test_spec|].
  split; [by apply bitmap_set_spec|]. split; [by apply bitmap_flip_spec|].
  split; [by apply bitmap_set_multiple_spec|]. split; [by apply bitmap_count_spec|].
  by apply bitmap_contains_spec.
Qed.

Lemma bitmap_array_view_witness :
  bitmap_count demo_bitmap 30 8 true = Ok (count_bits demo_bitmap 30 8 true) ∧
  count_bits demo_bitmap 30 8 true = 4.
Proof.
  destruct (bitmap_array_view demo_bitmap 33 30 8 true) as (_ & _ & _ & _ & Hc & _);
    [apply demo_bitmap_wf|simpl; lia|lia|lia|simpl; lia|].
  split; [exact Hc|vm_compute; reflexivity].
Defined.

(** ** Storing a bitmap in a file *)

Lemma word_bytes_val w rest : is_u32 w → bytes_words (word_bytes w ++ rest) = w :: bytes_words rest.
Proof.
  unfold_ints. intros. simpl. f_equal.
  replace (w / 65536) with (w / 256 / 256) by (rewrite Z.div_div by lia; done).
  replace (w / 16777216) with (w / 256 / 256 / 256) by (rewrite !Z.div_div by lia; done).
  pose proof (Z.div_mod w 256). pose proof (Z.div_mod (w / 256) 256).
  pose proof (Z.div_mod (w / 256 / 256) 256).
  rewrite (Z.mod_small (w / 256 / 256 / 256)).
  - lia.
  - split; [repeat apply Z.div_pos; lia|].
    repeat (apply Z.div_lt_upper_bound; [lia|]). lia.
Qed.

Lemma words_bytes_words ws : Forall is_u32 ws → bytes_words (words_bytes ws) = ws.
Proof.
  induction 1 as [|w ws Hw Hws IH]; [done|]. unfold words_bytes in *.
  rewrite bind_cons, word_bytes_val by done. by rewrite IH.
Qed.

(** Every element after the last word lies past the bitmap; the last word is masked. *)
Lemma last_mask_testbit b k :
  0 ≤ k < 32 →
  Z.testbit (last_mask b) k =
  ((bit_cnt b mod ELEM_BITS =? 0) || (k <? bit_cnt b mod ELEM_BITS)).
Proof.
  intros Hk. unfold last_mask. pose proof (mod32 (bit_cnt b)) as Hm.
  destruct (Z.eqb_spec (bit_cnt b mod ELEM_BITS) 0) as [E|E].
  - rewrite E. simpl. change 4294967295 with (2 ^ 32 - 1).
    rewrite ones32_testbit by lia. apply Z.ltb_lt. lia.
  - cbn [negb orb]. rewrite Z.shiftl_1_l, u32_small.
    + rewrite <- (Z.testbit_ones_nonneg _ k), Z.ones_equiv by lia. done.
    + pose proof (Z.pow_pos_nonneg 2 (bit_cnt b mod ELEM_BITS)).
      pose proof (Z.pow_lt_mono_r 2 (bit_cnt b mod ELEM_BITS) 32). unfold_ints. lia.
Qed.

Lemma last_mask_u32 b : is_u32 (last_mask b).
Proof. unfold last_mask. case_match; [apply u32_range|unfold_ints; lia]. Qed.

(** Masking the last element keeps every bit of the bitmap. *)
Lemma mask_last b :
  wf b → 0 < bit_cnt b →
  ∃ e b', get_elem b (elem_cnt (bit_cnt b) - 1) = Ok e ∧
    put_elem b (elem_cnt (bit_cnt b) - 1) (Z.land e (last_mask b)) = Ok b' ∧
    wf b' ∧ bit_cnt b' = bit_cnt b ∧ ∀ i, 0 ≤ i < bit_cnt b → bit b' i = bit b i.
Proof.
  intros Hwf Hp. pose proof (wf_cnt b Hwf) as Hc. pose proof Hwf as [_ Hl Hw].
  assert (elem_cnt (bit_cnt b) - 1 = elem_idx (bit_cnt b - 1)) as ->.
  { rewrite elem_cnt_eq by done. unfold elem_idx, ELEM_BITS.
    replace (bit_cnt b + 31) with (bit_cnt b - 1 + 1 * 32) by lia. rewrite Z.div_add by lia. lia. }
  destruct (get_elem_ok b (bit_cnt b - 1) Hwf ltac:(lia)) as (e & He & Hg & Hu).
  exists e. unfold put_elem. rewrite Hg. simpl. eexists. repeat (split; [done|]).
  pose proof (last_mask_u32 b) as Hlm. split; [split; simpl; [done|by rewrite length_insert|]|].
  { apply Forall_insert; [done|]. apply u32_bits; [apply Z.land_nonneg; left; apply Hu|].
    intros. by rewrite Z.land_spec, (u32_high e). }
  split; [done|]. intros i Hi. unfold bit. simpl. pose proof (mod32 i) as Hm.
  destruct (decide (Z.to_nat (elem_idx i) = Z.to_nat (elem_idx (bit_cnt b - 1)))) as [E|E].
  - rewrite E, list_lookup_insert_eq, He by (by eapply lookup_lt_Some). simpl.
    rewrite Z.land_spec, last_mask_testbit by done.
    enough ((bit_cnt b mod ELEM_BITS =? 0) || (i mod ELEM_BITS <? bit_cnt b mod ELEM_BITS) = true)%bool
      as -> by apply andb_true_r.
    apply orb_true_iff. rewrite Z.eqb_eq, Z.ltb_lt. unfold elem_idx, ELEM_BITS in *.
    pose proof (Z.div_mod i 32). pose proof (Z.div_mod (bit_cnt b - 1) 32).
    pose proof (Z.mod_pos_bound (bit_cnt b - 1) 32). pose proof (Z.div_mod (bit_cnt b) 32).
    pose proof (Z.mod_pos_bound (bit_cnt b) 32). pose proof (Z.div_pos i 32).
    pose proof (Z.div_pos (bit_cnt b - 1) 32). lia.
  - by rewrite list_lookup_insert_ne by done.
Qed.

Section RoundTrip.
Context {F : Type}.
Context (file_read_at : F → Z → Z → result (list Z * F)).
Context (file_write_at : F → list Z → Z → Z → result (Z * F)).

(** A bitmap survives its file.  If the file layer returns on a read at offset 0
    the bytes that a complete write at offset 0 has put there, then writing a bitmap
    and reading the file into any bitmap [b0] of the same size succeeds, and [b0] then
    holds the same bits; the result is well formed. *)
Theorem bitmap_file_roundtrip b b0 f f' :
  wf b → wf b0 → bit_cnt b0 = bit_cnt b → 0 < bit_cnt b →
  file_write_at f (words_bytes (bits b)) (byte_cnt (bit_cnt b)) 0
    = Ok (byte_cnt (bit_cnt b), f') →
  file_read_at f' (byte_cnt (bit_cnt b)) 0 = Ok (words_bytes (bits b), f') →
  bitmap_write file_write_at b f = Ok (true, f') ∧
  ∃ b1, bitmap_read file_read_at b0 f' = Ok (true, b1, f') ∧ wf b1 ∧ bit_cnt b1 = bit_cnt b ∧
        ∀ i, 0 ≤ i < bit_cnt b → bit b1 i = bit b i.
Proof.
  intros Hwf Hwf0 Hc Hp Hwr Hrd.
  assert (byte_cnt (bit_cnt b) = 4 * Z.of_nat (length (bits b)) ∧
          i32 (byte_cnt (bit_cnt b)) = byte_cnt (bit_cnt b)) as [Hbc Hi32].
  { pose proof Hwf as [Hr Hl _]. unfold byte_cnt. rewrite <- Hl.
    assert (Z.of_nat (length (bits b)) ≤ 2 ^ 27).
    { rewrite Hl, elem_cnt_eq by done. apply Z.div_le_upper_bound; lia. }
    rewrite u32_small by (unfold_ints; lia). split; [done|].
    apply i32_small. unfold_ints. lia. }
  unfold bitmap_write, bitmap_read. rewrite Hc, Hi32, Hwr. cbn [mbind result_bind].
  rewrite Z.eqb_refl. split; [done|]. zcase; [|lia]. rewrite Hrd. cbn [mbind result_bind].
  rewrite length_words_bytes, Hbc. replace (_ =? _) with true by (symmetry; apply Z.eqb_eq; lia).
  assert (load_bytes (bits b0) (words_bytes (bits b)) = bits b) as ->.
  { unfold load_bytes. rewrite drop_ge, app_nil_r; [apply words_bytes_words, Hwf|].
    rewrite !length_words_bytes. pose proof (wf_len b Hwf). pose proof (wf_len b0 Hwf0) as Hl0.
    rewrite Hc in Hl0. lia. }
  destruct (mask_last b Hwf Hp) as (e & b1 & Hg & Hput & Hwf1 & Hc1 & Hb1).
  destruct b as [bc ws]. simpl in *. rewrite Hg. simpl. rewrite Hput. simpl. eauto.
Qed.

End RoundTrip.

Definition demo_write (f : list Z) (bs : list Z) (size ofs : Z) : result (Z * list Z) :=
  Ok (size, take (Z.to_nat ofs) f ++ take (Z.to_nat size) bs ++ drop (Z.to_nat (ofs + size)) f).
Definition demo_read (f : list Z) (size ofs : Z) : result (list Z * list Z) :=
  Ok (take (Z.to_nat size) (drop (Z.to_nat ofs) f), f).

Lemma bitmap_file_roundtrip_witness :
  ∃ b1, bitmap_read demo_read (Bitmap 40 [0; 7]) [255; 255; 255; 255; 225; 0; 0; 0]
          = Ok (true, b1, [255; 255; 255; 255; 225; 0; 0; 0]) ∧
        ∀ i, 0 ≤ i < 40 → bit b1 i = bit demo_bitmap i.
Proof.
  destruct (bitmap_file_roundtrip demo_read demo_write demo_bitmap (Bitmap 40 [0; 7])
              [] [255; 255; 255; 255; 225; 0; 0; 0]) as (_ & b1 & Hr & _ & _ & Hb).
  - apply demo_bitmap_wf.
  - split; [simpl; lia|reflexivity|repeat constructor; unfold_ints; lia].
  - reflexivity.
  - simpl. lia.
  - vm_compute. reflexivity.
  - vm_compute. reflexivity.
  - exists b1. split; [exact Hr|exact Hb].
Defined.
