(* ===== verification/Hash.v ===== *)
(** * lib/kernel/hash.c: hash tables with chaining

    A table is an array of buckets, each a list; the lists are the sequences of elements
    they hold ([DList] shows that the list operations used here act so on them).  An
    element is its address; what the table knows of it are the functions [hash] and
    [less] it was initialised with.  [malloc] is outside this file: whether it returned
    memory is the argument [mem].

    Shown: a table represents a finite map from keys to elements, with every operation
    the map operation it stands for, whatever [malloc] does; the number of buckets is a
    power of two; the loop that computes it ends; and iteration meets every element
    exactly once. *)

From S2P Require Import Prelude.

(** ** What a table needs of its elements

    [same], equality in the order [less], is equality of keys, and the hash is a function
    of the key. *)

Class HashElem (E : Type) := {
  hash_func : E → Z;
  less : E → E → bool;
}.

Definition same {E} `{HashElem E} (a b : E) : bool := negb (less a b) && negb (less b a).

Class HashKey (E K : Type) `{HashElem E} := {
  key : E → K;
  same_key : ∀ a b, same a b = true ↔ key a = key b;
  hash_key : ∀ a b, key a = key b → hash_func a = hash_func b;
  hash_u32 : ∀ a, is_u32 (hash_func a);
}.

(** ** Bucket counts *)

Definition turn_off_least_1bit (x : Z) : Z := Z.land x (u32 (x - 1)).

Definition is_power_of_2 (x : Z) : bool := negb (x =? 0) && (turn_off_least_1bit x =? 0).

Definition BEST_ELEMS_PER_BUCKET : Z := 2.

(** The loop of [rehash] that clears low bits until one is left. *)
Fixpoint power_loop (fuel : nat) (n : Z) : result Z :=
  if is_power_of_2 n then Ok n
  else match fuel with
       | O => Err OutOfFuel
       | S fuel => power_loop fuel (turn_off_least_1bit n)
       end.

Section table.
Context {E : Type} `{EqDecision E} `{HashElem E}.

Record hash : Type := Hash { elem_cnt : Z; bucket_cnt : Z; buckets : list (list E) }.

Definition set_buckets (bs : list (list E)) (h : hash) : hash := Hash (elem_cnt h) (bucket_cnt h) bs.

(** ** Helpers *)

(** The index of the bucket in [h] that [e] belongs in. *)
Definition find_bucket (h : hash) (e : E) : nat :=
  Z.to_nat (Z.land (hash_func e) (u32 (bucket_cnt h - 1))).

Definition get_bucket (h : hash) (b : nat) : result (list E) := deref (buckets h !! b).

Fixpoint find_elem (bucket : list E) (e : E) : option E :=
  match bucket with
  | [] => None
  | hi :: bucket => if negb (less hi e) && negb (less e hi) then Some hi else find_elem bucket e
  end.

Definition insert_elem (h : hash) (b : nat) (e : E) : hash :=
  Hash (u32 (elem_cnt h + 1)) (bucket_cnt h) (alter (cons e) b (buckets h)).

(** [list_remove] unlinks the element from whichever list it is in. *)
Definition remove_elem (h : hash) (e : E) : hash :=
  Hash (u32 (elem_cnt h - 1)) (bucket_cnt h) (filter (λ x, x ≠ e) <$> buckets h).

(** The inner loop of [rehash]: the elements of one old bucket go, one by one, to the
    front of their new buckets. *)
Fixpoint move_bucket (h : hash) (old_bucket : list E) : result hash :=
  match old_bucket with
  | [] => Ok h
  | e :: old_bucket =>
      get_bucket h (find_bucket h e);;
      move_bucket (set_buckets (alter (cons e) (find_bucket h e) (buckets h)) h) old_bucket
  end.

Fixpoint move_buckets (h : hash) (old_buckets : list (list E)) : result hash :=
  match old_buckets with
  | [] => Ok h
  | b :: old_buckets => h ← move_bucket h b; move_buckets h old_buckets
  end.

Definition new_bucket_cnt (h : hash) : result Z :=
  let n := elem_cnt h / BEST_ELEMS_PER_BUCKET in
  power_loop 32 (if n <? 4 then 4 else n).

Definition rehash (mem : bool) (h : hash) : result hash :=
  n ← new_bucket_cnt h;
  if n =? bucket_cnt h then Ok h
  else if negb mem then Ok h
  else move_buckets (Hash (elem_cnt h) n (replicate (Z.to_nat n) [])) (buckets h).

(** ** Life cycle *)

(** The loop of [hash_clear]; [destructor] is called for each element, if there is one. *)
Fixpoint clear_bucket {S} (destructor : E → ST S unit) (bucket : list E) : ST S unit :=
  match bucket with
  | [] => mret tt
  | e :: bucket => destructor e;; clear_bucket destructor bucket
  end.

Fixpoint clear_loop {S} (destructor : option (E → ST S unit)) (bs : list (list E)) : ST S unit :=
  match bs with
  | [] => mret tt
  | b :: bs =>
      match destructor with Some d => clear_bucket d b | None => mret tt end;;
      clear_loop destructor bs
  end.

Definition hash_clear {S} (h : hash) (destructor : option (E → ST S unit)) : ST S hash :=
  clear_loop destructor (buckets h);;
  mret (Hash 0 (bucket_cnt h) (replicate (length (buckets h)) [])).

Definition hash_init (mem : bool) : option hash :=
  if mem then Some (Hash 0 4 (replicate 4 [])) else None.

Definition hash_destroy {S} (h : hash) (destructor : option (E → ST S unit)) : ST S unit :=
  match destructor with Some _ => hash_clear h destructor;; mret tt | None => mret tt end.

(** ** Search, insertion, deletion *)

Definition hash_insert (mem : bool) (h : hash) (new : E) : result (option E * hash) :=
  let bucket := find_bucket h new in
  b ← get_bucket h bucket;
  let old := find_elem b new in
  h ← rehash mem (if old is None then insert_elem h bucket new else h);
  Ok (old, h).

Definition hash_replace (mem : bool) (h : hash) (new : E) : result (option E * hash) :=
  let bucket := find_bucket h new in
  b ← get_bucket h bucket;
  let old := find_elem b new in
  let h := match old with Some o => remove_elem h o | None => h end in
  h ← rehash mem (insert_elem h bucket new);
  Ok (old, h).

Definition hash_find (h : hash) (e : E) : result (option E) :=
  b ← get_bucket h (find_bucket h e); Ok (find_elem b e).

Definition hash_delete (mem : bool) (h : hash) (e : E) : result (option E * hash) :=
  b ← get_bucket h (find_bucket h e);
  match find_elem b e with
  | None => Ok (None, h)
  | Some found => h ← rehash mem (remove_elem h found); Ok (Some found, h)
  end.

(** ** Iteration *)

Fixpoint apply_bucket {S} (action : E → ST S unit) (bucket : list E) : ST S unit :=
  match bucket with
  | [] => mret tt
  | e :: bucket => action e;; apply_bucket action bucket
  end.

Fixpoint apply_loop {S} (action : E → ST S unit) (bs : list (list E)) : ST S unit :=
  match bs with
  | [] => mret tt
  | b :: bs => apply_bucket action b;; apply_loop action bs
  end.

Definition hash_apply {S} (h : hash) (action : E → ST S unit) : ST S unit :=
  apply_loop action (buckets h).

(** Where an iterator is in its bucket: the head of the list, an element given by the
    number of elements before it, or past the end of the table. *)
Inductive position : Type := AtHead | At (n : nat) | AtEnd.

Record hash_iterator : Type := Iter { bucket : nat; elem : position }.

Definition hash_first : hash_iterator := Iter 0 AtHead.

Definition hash_cur (h : hash) (i : hash_iterator) : option E :=
  match elem i with At n => b ← buckets h !! bucket i; b !! n | _ => None end.

(** The loop of [hash_next]: while the element is the tail of its bucket, on to the
    beginning of the next bucket. *)
Fixpoint next_loop (fuel : nat) (h : hash) (b n : nat) : result hash_iterator :=
  l ← get_bucket h b;
  if bool_decide (n = length l) then
    if bool_decide (Z.to_nat (bucket_cnt h) ≤ b + 1)%nat then Ok (Iter (b + 1) AtEnd)
    else match fuel with
         | O => Err OutOfFuel
         | S fuel => next_loop fuel h (b + 1) 0
         end
  else Ok (Iter b (At n)).

Definition hash_next (h : hash) (i : hash_iterator) : result (option E * hash_iterator) :=
  i ← match elem i with
      | AtHead => next_loop (length (buckets h)) h (bucket i) 0
      | At n => next_loop (length (buckets h)) h (bucket i) (n + 1)
      | AtEnd => Err MemoryFault
      end;
  Ok (hash_cur h i, i).

(** ** Information *)

Definition hash_size (h : hash) : Z := elem_cnt h.
Definition hash_empty (h : hash) : bool := elem_cnt h =? 0.

End table.

Arguments hash E : clear implicits.

(** ** Hash functions *)

Definition FNV_32_PRIME : Z := 16777619.
Definition FNV_32_BASIS : Z := 2166136261.

Fixpoint fnv_loop (h : Z) (buf : list Z) : Z :=
  match buf with
  | [] => h
  | b :: buf => fnv_loop (Z.lxor (u32 (h * FNV_32_PRIME)) b) buf
  end.

Definition hash_bytes (buf : list Z) : Z := fnv_loop FNV_32_BASIS buf.

(** The bytes up to the terminating null; reading past the last byte is a fault. *)
Fixpoint hash_string_loop (h : Z) (s : list Z) : result Z :=
  match s with
  | [] => Err MemoryFault
  | c :: s => if c =? 0 then Ok h else hash_string_loop (Z.lxor (u32 (h * FNV_32_PRIME)) c) s
  end.

Definition hash_string (s : list Z) : result Z := hash_string_loop FNV_32_BASIS s.

(** The four bytes of an [int], least significant first. *)
Definition int_bytes (i : Z) : list Z :=
  (λ n, u8 (Z.shiftr (u32 i) (8 * n))) <$> [0; 1; 2; 3].

Definition hash_int (i : Z) : Z := hash_bytes (int_bytes i).

(** ** The number of buckets *)

Lemma land_double_succ a b : Z.land (2 * a) (2 * b + 1) = 2 * Z.land a b.
Proof.
  apply Z.bits_inj'. intros n Hn. rewrite Z.land_spec. destruct (decide (n = 0)) as [->|Hn0].
  - rewrite !Z.testbit_even_0. done.
  - replace n with (Z.succ (n - 1)) by lia.
    rewrite !Z.testbit_even_succ, Z.testbit_odd_succ, Z.land_spec by lia. done.
Qed.

(** Clearing the lowest bit of x = 2^j * (2 * q + 1) leaves 2^j * (2 * q). *)
Lemma clear_low_bit (x : positive) :
  ∃ j q, 0 ≤ j ∧ 0 ≤ q ∧ Zpos x = 2 ^ j * (2 * q + 1) ∧
         Z.land (Zpos x) (Zpos x - 1) = 2 ^ j * (2 * q).
Proof.
  induction x as [p _|p (j & q & Hj & Hq & Hp & Hl)|].
  - exists 0, (Zpos p). split; [lia|]. split; [lia|]. split; [lia|].
    replace (Zpos p~1 - 1) with (2 * Zpos p) by lia. rewrite Z.land_comm.
    replace (Zpos p~1) with (2 * Zpos p + 1) by lia. rewrite land_double_succ, Z.land_diag. lia.
  - exists (Z.succ j), q. rewrite Z.pow_succ_r by lia. split; [lia|]. split; [lia|]. split; [lia|].
    replace (Zpos p~0 - 1) with (2 * (Zpos p - 1) + 1) by lia.
    replace (Zpos p~0) with (2 * Zpos p) by lia. rewrite land_double_succ, Hl. lia.
  - exists 0, 0. done.
Qed.

Lemma turn_off_spec x :
  0 < x < 2 ^ 32 →
  ∃ j q, 0 ≤ j ∧ 0 ≤ q ∧ x = 2 ^ j * (2 * q + 1) ∧ turn_off_least_1bit x = 2 ^ j * (2 * q).
Proof.
  intros Hx. destruct x as [|p|p]; try lia. unfold turn_off_least_1bit.
  rewrite u32_small by (unfold is_u32; lia). apply clear_low_bit.
Qed.

(** The loop keeps the highest bit, and the lowest bit moves up each time. *)
Lemma power_loop_spec fuel n j :
  (Z.of_nat fuel + j = 32) → 0 ≤ j → 0 < n < 2 ^ 32 → (2 ^ j | n) →
  power_loop fuel n = Ok (2 ^ Z.log2 n).
Proof.
  revert n j. induction fuel as [|fuel IH]; intros n j Hf Hj Hn [m ->].
  - replace j with 32 in * by lia. nia.
  - destruct (turn_off_spec _ Hn) as (i & q & Hi & Hq & Hx & Ht). simpl. unfold is_power_of_2.
    rewrite Ht. assert (0 < 2 ^ i) as Hi2 by (apply Z.pow_pos_nonneg; lia).
    rewrite (proj2 (Z.eqb_neq _ 0)) by lia. simpl. destruct (Z.eqb_spec (2 ^ i * (2 * q)) 0) as [E|E].
    + assert (q = 0) as -> by nia. rewrite Hx, Z.mul_1_r, Z.log2_pow2 by lia. done.
    + assert (j ≤ i) as Hji.
      { destruct (decide (j ≤ i)) as [|Hc]; [done|]. exfalso.
        assert (2 ^ j = 2 ^ i * (2 * 2 ^ (j - i - 1))) as E2.
        { rewrite <- Z.pow_succ_r, <- Z.pow_add_r by lia. f_equal. lia. }
        rewrite E2, Z.mul_comm, <- Z.mul_assoc in Hx. apply Z.mul_cancel_l in Hx; lia. }
      rewrite (IH _ (j + 1)); try lia.
      * f_equal. f_equal. rewrite Hx.
        assert (0 < q) by nia. rewrite !(Z.mul_comm (2 ^ i)), <- !Z.shiftl_mul_pow2 by lia.
        rewrite !Z.log2_shiftl by lia. by rewrite Z.log2_succ_double, Z.log2_double by lia.
      * exists (2 ^ (i - j) * q). rewrite <- (Z.sub_add j i) at 1. rewrite !Z.pow_add_r by lia. ring.
Qed.

(** ** The invariant and the abstract map *)

Section correct.
Context {E K : Type} `{EqDecision E} `{Countable K} {HE : HashElem E} {HK : HashKey E K}.
Implicit Types (h : hash E) (e : E) (m : gmap K E).

Abbreviation contents h := (concat (buckets h)).

(** A power of two of buckets, each element in its own. *)
Record shape h : Prop := {
  s_pow : ∃ j, 2 ≤ j < 32 ∧ bucket_cnt h = 2 ^ j;
  s_len : Z.of_nat (length (buckets h)) = bucket_cnt h;
  s_place : ∀ b l e, buckets h !! b = Some l → e ∈ l → find_bucket h e = b;
}.

Definition entry (e : E) : K * E := (key e, e).

(** The table holds exactly the elements of the map, one for each key. *)
Record represents h m : Prop := {
  r_shape : shape h;
  r_map : map_to_list m ≡ₚ entry <$> contents h;
  r_cnt : elem_cnt h = Z.of_nat (size m);
}.

Lemma find_bucket_lt h e : shape h → (find_bucket h e < length (buckets h))%nat.
Proof.
  intros [(j & Hj & Hp) Hl _]. unfold find_bucket. rewrite Hp.
  assert (2 ^ j < 2 ^ 32) by (apply Z.pow_lt_mono_r; lia). assert (0 < 2 ^ j) by lia.
  rewrite u32_small by (unfold is_u32; lia). change (2 ^ j - 1) with (Z.pred (2 ^ j)).
  rewrite <- Z.ones_equiv, Z.land_ones by lia.
  pose proof (Z.mod_pos_bound (hash_func e) (2 ^ j)). lia.
Qed.

Lemma get_bucket_ok h e :
  shape h → ∃ l, get_bucket h (find_bucket h e) = Ok l ∧ buckets h !! find_bucket h e = Some l.
Proof.
  intros Hs. destruct (lookup_lt_is_Some_2 _ _ (find_bucket_lt h e Hs)) as [l Hl].
  exists l. unfold get_bucket. by rewrite Hl.
Qed.

Lemma in_contents h e : e ∈ contents h ↔ ∃ b l, buckets h !! b = Some l ∧ e ∈ l.
Proof.
  rewrite list_elem_of_In, in_concat. split.
  - intros (l & Hl & He). apply list_elem_of_In, list_elem_of_lookup in Hl as (b & Hb).
    exists b, l. by rewrite list_elem_of_In.
  - intros (b & l & Hb & He). exists l. rewrite <- !list_elem_of_In.
    split; [by eapply list_elem_of_lookup_2|done].
Qed.

(** An element is looked for in the only bucket where it can be. *)
Lemma find_elem_spec l e :
  match find_elem l e with
  | Some x => x ∈ l ∧ key x = key e
  | None => ∀ x, x ∈ l → key x ≠ key e
  end.
Proof.
  induction l as [|x l IH]; simpl; [by intros x ?%elem_of_nil|].
  fold (same x e). destruct (same x e) eqn:Es.
  - split; [left|by apply same_key].
  - destruct (find_elem l e) as [y|]; [destruct IH; split; [by right|done]|].
    intros y [->|Hy]%elem_of_cons; [|by apply IH].
    rewrite <- same_key, Es. done.
Qed.

Lemma represents_lookup h m k e :
  represents h m → m !! k = Some e ↔ e ∈ contents h ∧ key e = k.
Proof.
  intros Hr. rewrite <- elem_of_map_to_list, (r_map _ _ Hr), list_elem_of_fmap. unfold entry. naive_solver.
Qed.

Lemma find_bucket_key h a b : key a = key b → find_bucket h a = find_bucket h b.
Proof. intros Hk. unfold find_bucket. by rewrite (hash_key a b Hk). Qed.

Lemma find_elem_map h m e l :
  represents h m → buckets h !! find_bucket h e = Some l → find_elem l e = m !! key e.
Proof.
  intros Hr Hl. pose proof (find_elem_spec l e) as Hf. symmetry. destruct (find_elem l e) as [x|].
  - destruct Hf as [Hx Hk]. apply (represents_lookup h m); [done|]. split; [|done].
    apply in_contents. eauto.
  - apply eq_None_not_Some. intros [x Hx]. apply (represents_lookup h m) in Hx as [Hx Hk]; [|done].
    apply in_contents in Hx as (b & l' & Hb & Hx).
    pose proof (s_place _ (r_shape _ _ Hr) _ _ _ Hb Hx) as Hp.
    rewrite (find_bucket_key h x e Hk) in Hp. simplify_eq. by apply (Hf x).
Qed.

(** ** Moving elements between buckets *)

Lemma concat_alter_cons (bs : list (list E)) b e :
  (b < length bs)%nat → concat (alter (cons e) b bs) ≡ₚ e :: concat bs.
Proof.
  revert b. induction bs as [|l bs IH]; intros b Hb; simpl in Hb; [lia|].
  destruct b as [|b]; [done|]. simpl. rewrite (IH b) by lia. by rewrite Permutation_middle.
Qed.

Lemma shape_cons h n e :
  shape h → shape (Hash n (bucket_cnt h) (alter (cons e) (find_bucket h e) (buckets h))).
Proof.
  intros [Hp Hl Hpl]. split; [done|simpl; by rewrite length_alter|]. simpl. intros b l x Hb Hx.
  rewrite list_lookup_alter in Hb. case_decide as Hd; [|by eapply Hpl].
  apply fmap_Some in Hb as (l' & Hl' & ->). subst b.
  apply elem_of_cons in Hx as [->|Hx]; [done|]. by eapply Hpl.
Qed.

Lemma move_bucket_ok h l :
  shape h → ∃ h', move_bucket h l = Ok h' ∧ shape h' ∧ contents h' ≡ₚ l ++ contents h ∧
                  elem_cnt h' = elem_cnt h ∧ bucket_cnt h' = bucket_cnt h.
Proof.
  revert h. induction l as [|e l IH]; intros h Hs; simpl; [eauto 10|].
  destruct (get_bucket_ok h e Hs) as (l' & -> & _). simpl.
  destruct (IH _ (shape_cons h (elem_cnt h) e Hs)) as (h' & Hr & Hs' & Hc & Hn & Hb).
  exists h'. split; [done|]. split; [done|]. split; [|done].
  rewrite Hc. simpl. rewrite concat_alter_cons by (by apply find_bucket_lt).
  by rewrite <- Permutation_middle.
Qed.

Lemma move_buckets_ok h bs :
  shape h → ∃ h', move_buckets h bs = Ok h' ∧ shape h' ∧ contents h' ≡ₚ concat bs ++ contents h ∧
                  elem_cnt h' = elem_cnt h ∧ bucket_cnt h' = bucket_cnt h.
Proof.
  revert h. induction bs as [|l bs IH]; intros h Hs; simpl; [eauto 10|].
  destruct (move_bucket_ok h l Hs) as (h1 & -> & Hs1 & Hc1 & Hn1 & Hb1). simpl.
  destruct (IH h1 Hs1) as (h' & -> & Hs' & Hc & Hn & Hb). exists h'.
  split; [done|]. split; [done|]. split; [|split; congruence].
  rewrite Hc, Hc1. rewrite !app_assoc. f_equiv. apply Permutation_app_comm.
Qed.

Lemma replicate_nil_lookup n b (l : list E) : replicate n [] !! b = Some l → l = [].
Proof. by intros [-> _]%lookup_replicate. Qed.

Lemma shape_empty c j :
  2 ≤ j < 32 → shape (Hash c (2 ^ j) (replicate (Z.to_nat (2 ^ j)) [])).
Proof.
  intros Hj. split; simpl; [eauto| |].
  - rewrite length_replicate, Z2Nat.id; [done|]. apply Z.pow_nonneg. lia.
  - intros b l e ->%replicate_nil_lookup He. by apply elem_of_nil in He.
Qed.

Lemma concat_replicate_nil n : concat (replicate n []) = @nil E.
Proof. induction n; simpl; done. Qed.

(** The count chosen by [rehash]: a power of two between 4 and 2^30. *)
Lemma new_bucket_cnt_spec h :
  is_u32 (elem_cnt h) →
  new_bucket_cnt h = Ok (2 ^ Z.max 2 (Z.log2 (elem_cnt h / 2))).
Proof.
  unfold is_u32, new_bucket_cnt, BEST_ELEMS_PER_BUCKET. intros Hn.
  assert (elem_cnt h / 2 < 2 ^ 32) by (apply Z.div_lt_upper_bound; lia).
  assert (0 ≤ elem_cnt h / 2) by (apply Z.div_pos; lia).
  rewrite (power_loop_spec 32 _ 0); [|done|done|zcase; lia|apply Z.divide_1_l].
  f_equal. f_equal. zcase.
  - change (Z.log2 4) with 2. assert (Z.log2 (elem_cnt h / 2) ≤ Z.log2 3) as Hl by (apply Z.log2_le_mono; lia).
    change (Z.log2 3) with 1 in Hl. lia.
  - assert (Z.log2 4 ≤ Z.log2 (elem_cnt h / 2)) as Hl by (apply Z.log2_le_mono; lia).
    change (Z.log2 4) with 2 in Hl. lia.
Qed.

Lemma rehash_ok mem h :
  shape h → is_u32 (elem_cnt h) →
  ∃ h', rehash mem h = Ok h' ∧ shape h' ∧ contents h' ≡ₚ contents h ∧ elem_cnt h' = elem_cnt h ∧
        (mem = true → bucket_cnt h' = 2 ^ Z.max 2 (Z.log2 (elem_cnt h / 2))).
Proof.
  intros Hs Hn. unfold rehash. rewrite (new_bucket_cnt_spec h Hn). simpl. zcase; [by eauto 10|].
  destruct mem; simpl; [|by exists h].
  set (j := Z.max 2 _) in *. assert (2 ≤ j < 32) as Hj.
  { unfold is_u32 in Hn. assert (elem_cnt h / 2 < 2 ^ 31) by (apply Z.div_lt_upper_bound; lia).
    destruct (decide (0 < elem_cnt h / 2)) as [Hp|Hp].
    - assert (Z.log2 (elem_cnt h / 2) < 31) by (apply Z.log2_lt_pow2; lia). unfold j. lia.
    - unfold j. rewrite (Z.log2_nonpos (elem_cnt h / 2)) by lia. lia. }
  destruct (move_buckets_ok _ (buckets h) (shape_empty (elem_cnt h) j Hj)) as (h' & -> & Hs' & Hc & Hn' & Hb').
  exists h'. split; [done|]. split; [done|]. split; [|done].
  rewrite Hc. simpl. by rewrite concat_replicate_nil, app_nil_r.
Qed.

(** ** The operations on the map *)

Lemma represents_Permutation h m h' :
  represents h m → shape h' → contents h' ≡ₚ contents h → elem_cnt h' = elem_cnt h → represents h' m.
Proof. intros [Hs Hm Hn] Hs' Hc He. split; [done|by rewrite Hm, Hc|congruence]. Qed.

Lemma represents_rehash mem h m :
  represents h m → is_u32 (Z.of_nat (size m)) →
  ∃ h', rehash mem h = Ok h' ∧ represents h' m.
Proof.
  intros Hr Hn. rewrite <- (r_cnt _ _ Hr) in Hn.
  destruct (rehash_ok mem h (r_shape _ _ Hr) Hn) as (h' & -> & Hs & Hc & He & _). exists h'.
  split; [done|]. by eapply represents_Permutation.
Qed.

Lemma represents_insert h m e :
  represents h m → m !! key e = None → is_u32 (Z.of_nat (size m) + 1) →
  represents (insert_elem h (find_bucket h e) e) (<[key e := e]> m).
Proof.
  intros [Hs Hm Hn] Hk Hu. split.
  - by apply shape_cons.
  - simpl. rewrite map_to_list_insert by done.
    rewrite concat_alter_cons by (by apply find_bucket_lt). simpl. by rewrite Hm.
  - simpl. rewrite map_size_insert_None by done. rewrite Hn, u32_small by done. lia.
Qed.

Lemma filter_remove_Permutation (l : list E) e :
  NoDup l → e ∈ l → e :: filter (λ x, x ≠ e) l ≡ₚ l.
Proof.
  intros Hnd Hin. induction l as [|x l IH]; [by apply elem_of_nil in Hin|].
  apply NoDup_cons in Hnd as [Hx Hnd]. rewrite filter_cons. case_decide as Hd.
  - apply elem_of_cons in Hin as [->|Hin]; [done|]. rewrite Permutation_swap. by rewrite IH.
  - subst x. f_equiv. clear IH Hin Hnd.
    induction l as [|y l IH]; [done|]. apply not_elem_of_cons in Hx as [Hxy Hx].
    rewrite filter_cons. rewrite decide_True by congruence. by rewrite IH.
Qed.

Lemma concat_filter (P : E → Prop) `{∀ x, Decision (P x)} (bs : list (list E)) :
  concat (filter P <$> bs) = filter P (concat bs).
Proof. induction bs as [|l bs IH]; [done|]. rewrite fmap_cons. cbn [concat]. by rewrite IH, filter_app. Qed.

Lemma represents_NoDup h m : represents h m → NoDup (contents h).
Proof.
  intros Hr. apply (NoDup_fmap_1 entry). rewrite <- (r_map _ _ Hr). apply NoDup_map_to_list.
Qed.

Lemma represents_remove h m e :
  represents h m → m !! key e = Some e → is_u32 (Z.of_nat (size m)) →
  represents (remove_elem h e) (delete (key e) m).
Proof.
  intros Hr Hk Hu. pose proof (represents_NoDup h m Hr) as Hnd.
  assert (e ∈ contents h) as Hin by (by apply (represents_lookup h m (key e))).
  destruct Hr as [[Hp Hl Hpl] Hm Hn]. split.
  - split; simpl; [done|by rewrite length_fmap|]. intros b l x Hb Hx.
    apply list_lookup_fmap_Some in Hb as (l' & -> & Hl').
    apply list_elem_of_filter in Hx as [_ Hx]. by eapply Hpl.
  - simpl. rewrite concat_filter. apply (Permutation_cons_inv (a := entry e)).
    rewrite <- fmap_cons.
    rewrite filter_remove_Permutation by done. rewrite <- Hm. by apply map_to_list_delete.
  - simpl. rewrite map_size_delete_Some by (by eexists). rewrite Hn.
    assert (size m ≠ 0%nat) by (intros E0%map_size_empty_inv; subst m; by rewrite lookup_empty in Hk).
    unfold is_u32 in Hu. rewrite u32_small by (unfold is_u32; lia). lia.
Qed.

Lemma represents_old_key h m e o :
  represents h m → m !! key e = Some o → key o = key e ∧ m !! key o = Some o.
Proof.
  intros Hr Ho. assert (key o = key e) as Hk by (by apply (represents_lookup h m) in Ho as [_ Hk]).
  split; [done|]. by rewrite Hk.
Qed.

Lemma represents_init : represents (Hash 0 4 (replicate 4 [])) (∅ : gmap K E).
Proof. split; [apply (shape_empty 0 2); lia|by rewrite map_to_list_empty|done]. Qed.

(** ** Iteration *)

(** Call [hash_next] until it returns a null pointer. *)
Fixpoint iterate (fuel : nat) h (i : hash_iterator) : result (list E) :=
  match fuel with
  | O => Err OutOfFuel
  | S fuel =>
      '(o, i) ← hash_next h i;
      match o with None => Ok [] | Some e => es ← iterate fuel h i; Ok (e :: es) end
  end.

(** The elements an iterator has yet to return, when the next one to consider is number
    [n] of bucket [b]. *)
Definition remaining h (b n : nat) : list E := drop n (default [] (buckets h !! b)) ++ concat (drop (S b) (buckets h)).

Lemma next_loop_spec fuel h b n l :
  shape h → buckets h !! b = Some l → (n ≤ length l)%nat → (length (buckets h) ≤ fuel + b)%nat →
  match remaining h b n with
  | [] => ∃ i, next_loop fuel h b n = Ok i ∧ hash_cur h i = None
  | e :: es => ∃ b' n', next_loop fuel h b n = Ok (Iter b' (At n')) ∧
                 hash_cur h (Iter b' (At n')) = Some e ∧ remaining h b' (n' + 1) = es ∧
                 ∃ l', buckets h !! b' = Some l' ∧ (n' + 1 ≤ length l')%nat
  end.
Proof.
  intros Hs. pose proof (s_len _ Hs) as Hlen. revert b n l.
  induction fuel as [|fuel IH]; intros b n l Hb Hn Hf; simpl; unfold get_bucket; rewrite Hb; simpl;
    pose proof (lookup_lt_Some _ _ _ Hb) as Hlt; [lia|].
  unfold remaining. rewrite Hb. simpl. case_bool_decide as Hd.
  - subst n. rewrite drop_all. simpl. case_bool_decide as He.
    + rewrite (drop_ge (buckets h)) by lia. simpl. by eexists.
    + destruct (lookup_lt_is_Some_2 (buckets h) (b + 1)) as [l' Hl']; [lia|].
      specialize (IH (b + 1)%nat 0%nat l' Hl'). unfold remaining in IH. rewrite Hl' in IH. simpl in IH.
      rewrite (drop_S _ l' (S b)) by (by rewrite <- Nat.add_1_r). simpl.
      rewrite <- (Nat.add_1_r b). apply IH; lia.
  - destruct (lookup_lt_is_Some_2 l n) as [e He]; [lia|].
    rewrite (drop_S l e n He). simpl. exists b, n. split; [done|].
    unfold hash_cur. simpl. rewrite Hb. simpl. split; [done|]. rewrite Nat.add_1_r. split; [done|].
    exists l. split; [done|lia].
Qed.

Lemma iterate_spec fuel h b n l :
  shape h → buckets h !! b = Some l → (n < length l)%nat →
  (length (remaining h b (n + 1)) < fuel)%nat →
  iterate fuel h (Iter b (At n)) = Ok (remaining h b (n + 1)).
Proof.
  intros Hs. revert b n l. induction fuel as [|fuel IH]; intros b n l Hb Hn Hf; [lia|].
  cbn [iterate hash_next elem bucket].
  pose proof (next_loop_spec (length (buckets h)) h b (n + 1) l Hs Hb) as Hl.
  destruct (remaining h b (n + 1)) as [|e es] eqn:Er; unfold hash_next; cbn [elem bucket].
  - destruct Hl as (i & -> & Hc); [lia|lia|]. simpl. by rewrite Hc.
  - destruct Hl as (b' & n' & -> & Hc & Hr & l' & Hl' & Hn'); [lia|lia|].
    cbn [mbind result_bind]. rewrite Hc. simpl in Hf.
    rewrite (IH b' n' l' Hl') by (rewrite ?Hr; lia). by rewrite Hr.
Qed.

Lemma iterate_all h :
  shape h → iterate (S (length (contents h))) h hash_first = Ok (contents h).
Proof.
  intros Hs. pose proof (s_len _ Hs) as Hlen. destruct (s_pow _ Hs) as (j & Hj & Hp).
  assert (0 < 2 ^ j) by (apply Z.pow_pos_nonneg; lia).
  destruct (lookup_lt_is_Some_2 (buckets h) 0) as [l Hl]; [lia|].
  assert (remaining h 0 0 = contents h) as Hr.
  { unfold remaining. rewrite Hl. simpl. by destruct (buckets h) as [|x bs]; simplify_eq/=. }
  pose proof (next_loop_spec (length (buckets h)) h 0 0 l Hs Hl) as Hn. rewrite Hr in Hn.
  cbn [iterate]. unfold hash_next. cbn [elem bucket hash_first].
  destruct (contents h) as [|e es] eqn:Ec.
  - destruct Hn as (i & -> & Hc); [lia|lia|]. cbn [mbind result_bind]. by rewrite Hc.
  - destruct Hn as (b' & n' & -> & Hc & Hr' & l' & Hl' & Hn'); [lia|lia|].
    cbn [mbind result_bind]. rewrite Hc. rewrite (iterate_spec _ h b' n' l' Hs Hl'); rewrite ?Hr'; [done|lia|].
    simpl. lia.
Qed.

End correct.

(** ** Claims *)

Section claims.
Context {E K : Type} `{EqDecision E} `{Countable K} {HE : HashElem E} {HK : HashKey E K}.

(** C22. A hash table is a finite map.  When the table represents the map [m] from keys to
    elements, [hash_find] returns the element with the key of its argument; [hash_insert]
    adds its argument unless the key is there, and returns the element that was;
    [hash_replace] adds it in any case, in place of the one it returns; [hash_delete]
    removes and returns the element with the key.  Each leaves a table that represents the
    new map, whether or not there is memory for new buckets, and none of them faults; the
    table [hash_init] makes represents the empty map. *)
Theorem hash_refines_map (h : hash E) (m : gmap K E) (e : E) (mem : bool) :
  represents h m → is_u32 (Z.of_nat (size m) + 1) →
  hash_find h e = Ok (m !! key e) ∧
  (∃ h', hash_insert mem h e = Ok (m !! key e, h') ∧
         represents h' (if m !! key e is None then <[key e := e]> m else m)) ∧
  (∃ h', hash_replace mem h e = Ok (m !! key e, h') ∧ represents h' (<[key e := e]> m)) ∧
  (∃ h', hash_delete mem h e = Ok (m !! key e, h') ∧ represents h' (delete (key e) m)) ∧
  (∃ h0, hash_init true = Some h0 ∧ represents h0 (∅ : gmap K E)).
Proof.
  intros Hr Hu. destruct (get_bucket_ok h e (r_shape _ _ Hr)) as (l & Hg & Hl).
  assert (is_u32 (Z.of_nat (size m))) as Hm by (unfold is_u32 in *; lia).
  unfold hash_find, hash_insert, hash_replace, hash_delete. rewrite Hg. cbn [mbind result_bind].
  rewrite (find_elem_map h m e l Hr Hl). split; [done|].
  assert (∀ o, m !! key e = Some o → key o = key e ∧ m !! key o = Some o) as Ho
    by (intros; by eapply represents_old_key).
  split; [|split; [|split; [|exact (ex_intro _ _ (conj eq_refl represents_init))]]];
    destruct (m !! key e) as [o|] eqn:Ek; try destruct (Ho _ eq_refl) as [Hko Hmo].
  - by destruct (represents_rehash mem h m Hr Hm) as (h' & -> & Hr'); eexists.
  - destruct (represents_rehash mem _ _ (represents_insert h m e Hr Ek Hu)) as (h' & -> & Hr');
      [|by eexists]. rewrite map_size_insert_None by done. unfold is_u32 in *. lia.
  - pose proof (represents_remove h m o Hr Hmo Hm) as Hd. rewrite Hko in Hd.
    assert (size (delete (key e) m) = (size m - 1)%nat) as Hsz by (rewrite map_size_delete_Some by eauto; lia).
    assert (0 < size m)%nat as Hpos
      by (destruct (size m) eqn:E0; [apply map_size_empty_inv in E0; subst m; by rewrite lookup_empty in Ek|lia]).
    assert (is_u32 (Z.of_nat (size (delete (key e) m)) + 1)) as Hu2 by (unfold is_u32 in *; lia).
    pose proof (represents_insert _ _ e Hd (lookup_delete_eq m (key e)) Hu2) as Hi.
    rewrite insert_delete_eq in Hi.
    destruct (represents_rehash mem _ _ Hi) as (h' & Hrh & Hr'); [|exists h'].
    + rewrite map_size_insert, Ek. done.
    + change (find_bucket (remove_elem h o) e) with (find_bucket h e) in Hrh. by rewrite Hrh.
  - destruct (represents_rehash mem _ _ (represents_insert h m e Hr Ek Hu)) as (h' & -> & Hr');
      [|by eexists]. rewrite map_size_insert_None by done. unfold is_u32 in *. lia.
  - pose proof (represents_remove h m o Hr Hmo Hm) as Hd. rewrite Hko in Hd.
    destruct (represents_rehash mem _ _ Hd) as (h' & -> & Hr'); [|by eexists].
    rewrite map_size_delete_Some by eauto. unfold is_u32 in *. lia.
  - eexists. split; [done|]. by rewrite delete_id.
Qed.

(** The number of buckets.  For every number of elements the loop that computes the
    ideal number of buckets ends, with the highest power of two not above half the number
    of elements, and at least 4; and [rehash] moves every element to the bucket it belongs
    in, losing none. *)
Theorem rehash_bucket_count (h : hash E) :
  shape h → is_u32 (elem_cnt h) →
  new_bucket_cnt h = Ok (2 ^ Z.max 2 (Z.log2 (elem_cnt h / 2))) ∧
  ∃ h', rehash true h = Ok h' ∧ shape h' ∧ concat (buckets h') ≡ₚ concat (buckets h) ∧
        bucket_cnt h' = 2 ^ Z.max 2 (Z.log2 (elem_cnt h / 2)).
Proof.
  intros Hs Hn. split; [by apply new_bucket_cnt_spec|].
  destruct (rehash_ok true h Hs Hn) as (h' & ? & ? & ? & _ & Hb). exists h'. auto.
Qed.

(** Iteration.  Calling [hash_next] from [hash_first] until it returns a null pointer
    ends, without a fault, after each element of the table has been returned exactly once;
    [hash_apply] acts on the same elements in the same order. *)
Theorem hash_iteration {S} (h : hash E) (m : gmap K E) (action : E → ST S unit) s :
  represents h m →
  ∃ es, iterate (Datatypes.S (length es)) h hash_first = Ok es ∧ NoDup es ∧
        (∀ e, e ∈ es ↔ m !! key e = Some e) ∧
        hash_apply h action s = apply_bucket action es s.
Proof.
  intros Hr. exists (concat (buckets h)). split; [apply iterate_all, Hr|].
  split; [by eapply represents_NoDup|]. split.
  - intros e. rewrite (represents_lookup h m) by done. naive_solver.
  - unfold hash_apply. clear. revert s. induction (buckets h) as [|b bs IH]; intros s; [done|].
    cbn [apply_loop concat]. revert s. induction b as [|e b IHb]; intros s; simpl; [apply IH|].
    unfold mbind, st_bind in *. destruct (action e s) as [[[] s']|]; [|done]. apply IHb.
Qed.

End claims.

(** A table of pairs of a key and a value, hashed by key. *)
#[export] Instance pair_hash : HashElem (Z * Z) := {|
  hash_func e := u32 (hash_int e.1);
  less a b := a.1 <? b.1 |}.

#[export] Instance pair_key : HashKey (Z * Z) Z.
Proof.
  refine {| key := fst |}.
  - intros a b. unfold same. cbn [less pair_hash].
    destruct (Z.ltb_spec a.1 b.1), (Z.ltb_spec b.1 a.1); simpl; split; intros; (done || lia).
  - intros a b Hk. cbn [hash_func pair_hash]. by rewrite Hk.
  - intros a. apply u32_range.
Defined.

Definition empty_table : hash (Z * Z) := Hash 0 4 (replicate 4 []).

Lemma hash_refines_map_witness :
  ∃ h1 h2 : hash (Z * Z),
    hash_insert true empty_table (7, 1) = Ok (None, h1) ∧ hash_insert true h1 (7, 2) = Ok (Some (7, 1), h2) ∧
    hash_find h2 (7, 0) = Ok (Some (7, 1)).
Proof.
  destruct (hash_refines_map empty_table (∅ : gmap Z (Z * Z)) (7, 1) true represents_init)
    as (_ & (h1 & H1 & R1) & _); [done|].
  destruct (hash_refines_map h1 _ (7, 2) true R1) as (_ & (h2 & H2 & R2) & _); [done|].
  destruct (hash_refines_map h2 _ (7, 0) true R2) as (H3 & _); [done|].
  exists h1, h2. split; [exact H1|]. split; [exact H2|]. exact H3.
Defined.

Lemma rehash_bucket_count_witness :
  new_bucket_cnt (Hash 25 4 (replicate 4 []) : hash (Z * Z)) = Ok 8.
Proof.
  destruct (rehash_bucket_count (Hash 25 4 (replicate 4 []) : hash (Z * Z))) as [H _].
  - apply (shape_empty 25 2). lia.
  - done.
  - exact H.
Defined.

Lemma hash_iteration_witness :
  ∃ es, iterate (S (length es)) empty_table hash_first = Ok es ∧
        hash_apply empty_table (λ e s, Ok (tt, s + e.2)) 5 = Ok (tt, 5).
Proof.
  destruct (hash_iteration empty_table (∅ : gmap Z (Z * Z)) (λ e s, Ok (tt, s + e.2)) 5 represents_init)
    as (es & H & _). exists es. split; [exact H|]. reflexivity.
Defined.
