(* ===== verification/HeapSort.v ===== *)
(** * lib/stdlib.c: qsort, bsearch and atoi

    An array of [cnt] elements of [size] bytes is its list of bytes; elements are moved
    byte by byte, and compared through a function given the bytes of two elements.
    Elements are numbered from 1 by the heap sort, as in the source.

    Shown: [sort] ends with a sorted permutation of the elements, [binary_search] finds an
    equal element if there is one, and [atoi] reads back any [int]. *)

From Stdlib Require Import Sorted.
From S2P Require Import Prelude.

(** ** Heap sort *)

Definition read_byte (array : list Z) (i : Z) : result Z :=
  if i <? 0 then Err MemoryFault else deref (array !! Z.to_nat i).

Definition write_byte (array : list Z) (i b : Z) : result (list Z) :=
  _ ← read_byte array i; Ok (<[Z.to_nat i := b]> array).

(** The bytes of the element at offset [off]: what a comparison function is given. *)
Definition element (array : list Z) (off size : Z) : list Z :=
  take (Z.to_nat size) (drop (Z.to_nat off) array).

(** The loop of [do_swap]: the bytes [i], [i + 1], ... of the elements at [a] and [b];
    [n] is how many are left. *)
Fixpoint swap_loop (n : nat) (array : list Z) (a b i : Z) : result (list Z) :=
  match n with
  | O => Ok array
  | S n =>
      t ← read_byte array (a + i);
      x ← read_byte array (b + i);
      array ← write_byte array (a + i) x;
      array ← write_byte array (b + i) t;
      swap_loop n array a b (i + 1)
  end.

Definition do_swap (array : list Z) (a_idx b_idx size : Z) : result (list Z) :=
  swap_loop (Z.to_nat size) array ((a_idx - 1) * size) ((b_idx - 1) * size) 0.

Section sort.
Variable compare : list Z → list Z → Z.

Definition do_compare (array : list Z) (a_idx b_idx size : Z) : Z :=
  compare (element array ((a_idx - 1) * size) size) (element array ((b_idx - 1) * size) size).

Fixpoint heapify (fuel : nat) (array : list Z) (i cnt size : Z) : result (list Z) :=
  let left := u32 (2 * i) in
  let right := u32 (2 * i + 1) in
  let max := i in
  let max := if (left <=? cnt) && (0 <? do_compare array left max size) then left else max in
  let max := if (right <=? cnt) && (0 <? do_compare array right max size) then right else max in
  if max =? i then Ok array
  else match fuel with
       | O => Err OutOfFuel
       | S fuel => array ← do_swap array i max size; heapify fuel array max cnt size
       end.

(** The loop that builds the heap, and the one that takes it apart; [i] counts down. *)
Fixpoint build_loop (i : nat) (array : list Z) (cnt size : Z) : result (list Z) :=
  match i with
  | O => Ok array
  | S i' => array ← heapify (Z.to_nat cnt) array (Z.of_nat i) cnt size; build_loop i' array cnt size
  end.

Fixpoint sort_loop (i : nat) (array : list Z) (size : Z) : result (list Z) :=
  match i with
  | S (S _ as i') =>
      array ← do_swap array 1 (Z.of_nat i) size;
      array ← heapify i array 1 (Z.of_nat i') size;
      sort_loop i' array size
  | _ => Ok array
  end.

Definition sort (array : list Z) (cnt size : Z) : result (list Z) :=
  ASSERT (0 <? size);;
  array ← build_loop (Z.to_nat (cnt / 2)) array cnt size;
  sort_loop (Z.to_nat cnt) array size.

(** [qsort] passes the comparison through [compare_thunk]. *)
Definition compare_thunk (a b : list Z) : Z := compare a b.
End sort.

Definition qsort (compare : list Z → list Z → Z) (array : list Z) (cnt size : Z) : result (list Z) :=
  sort (compare_thunk compare) array cnt size.

(** ** Binary search *)

(** [first] and [last] are offsets from the beginning of the array. *)
Fixpoint search_loop (compare : list Z → list Z → Z) (key : list Z) (fuel : nat)
    (array : list Z) (first last size : Z) : result (option Z) :=
  if first <? last then
    match fuel with
    | O => Err OutOfFuel
    | S fuel =>
        let range := (last - first) / size in
        let middle := first + range / 2 * size in
        let cmp := compare key (element array middle size) in
        if cmp <? 0 then search_loop compare key fuel array first middle size
        else if 0 <? cmp then search_loop compare key fuel array (middle + size) last size
        else Ok (Some middle)
    end
  else Ok None.

Definition binary_search (compare : list Z → list Z → Z) (key : list Z) (array : list Z)
    (cnt size : Z) : result (option Z) :=
  search_loop compare key (Z.to_nat cnt) array 0 (size * cnt) size.

Definition bsearch (compare : list Z → list Z → Z) (key : list Z) (array : list Z)
    (cnt size : Z) : result (option Z) :=
  binary_search (compare_thunk compare) key array cnt size.

(** ** atoi *)

(** ctype.h: space, form feed, new line, carriage return, tab, vertical tab. *)
Definition isspace (c : Z) : bool :=
  (c =? 32) || (c =? 12) || (c =? 10) || (c =? 13) || (c =? 9) || (c =? 11).
Definition isdigit (c : Z) : bool := (48 <=? c) && (c <=? 57).

(** A string is the bytes from the pointer on; reading past the last is a fault. *)
Fixpoint skip_spaces (s : list Z) : result (list Z) :=
  match s with
  | [] => Err MemoryFault
  | c :: s' => if isspace c then skip_spaces s' else Ok s
  end.

Fixpoint digits_loop (value : Z) (s : list Z) : result Z :=
  match s with
  | [] => Err MemoryFault
  | c :: s => if isdigit c then digits_loop (i32 (i32 (value * 10) - (c - 48))) s else Ok value
  end.

Definition atoi (s : list Z) : result Z :=
  s ← skip_spaces s;
  match s with
  | [] => Err MemoryFault
  | c :: s' =>
      let '(negative, s) :=
        if c =? 43 then (false, s') else if c =? 45 then (true, s') else (false, s) in
      value ← digits_loop 0 s;
      Ok (if negative then value else i32 (- value))
  end.

(** ** The array as a sequence of elements *)

Definition swap {A} (a b : nat) (l : list A) : list A :=
  match l !! a, l !! b with
  | Some x, Some y => <[a := y]> (<[b := x]> l)
  | _, _ => l
  end.

Definition packed (size : Z) (es : list (list Z)) : Prop :=
  0 < size ∧ Forall (λ e, Z.of_nat (length e) = size) es.

Section elements.
Context (size : Z) (sz : nat) (Hsz : size = Z.of_nat sz) (Hpos : (0 < sz)%nat).
Implicit Types (es : list (list Z)) (e x y : list Z).

Lemma packed_length es a e : packed size es → es !! a = Some e → length e = sz.
Proof. intros [_ H] Ha. rewrite Forall_lookup in H. specialize (H _ _ Ha). simpl in H. lia. Qed.

Lemma packed_insert es a e : packed size es → length e = sz → packed size (<[a := e]> es).
Proof. intros [Hs H] He. split; [done|]. apply Forall_insert; [done|simpl; lia]. Qed.

Lemma concat_take_length es a :
  packed size es → (a ≤ length es)%nat → length (concat (take a es)) = (a * sz)%nat.
Proof.
  intros [_ H]. revert es H. induction a as [|a IH]; intros [|e es] H Ha; simpl in *; try done; [lia|].
  apply Forall_cons in H as [He H]. rewrite length_app, IH by (done || lia). lia.
Qed.

Lemma concat_split es a e :
  packed size es → es !! a = Some e →
  ∃ p q, concat es = p ++ e ++ q ∧ length p = (a * sz)%nat ∧ length e = sz ∧
         ∀ e', concat (<[a := e']> es) = p ++ e' ++ q.
Proof.
  intros Hp Ha. pose proof (lookup_lt_Some _ _ _ Ha) as Hlt.
  exists (concat (take a es)), (concat (drop (S a) es)). split; [|split; [|split]].
  - rewrite <- (take_drop_middle es a e Ha) at 1. by rewrite concat_app.
  - apply concat_take_length; [done|lia].
  - by eapply packed_length.
  - intros e'. rewrite insert_take_drop by done. by rewrite concat_app.
Qed.

Lemma element_concat es a e :
  packed size es → es !! a = Some e → element (concat es) (Z.of_nat a * size) size = e.
Proof.
  intros Hp Ha. destruct (concat_split es a e Hp Ha) as (p & q & -> & Hlp & Hle & _).
  unfold element. rewrite Hsz, <- Nat2Z.inj_mul, !Nat2Z.id, <- Hlp, drop_app_length.
  by rewrite <- Hle, take_app_length.
Qed.

Lemma read_concat es a e i :
  packed size es → es !! a = Some e → (i < sz)%nat →
  read_byte (concat es) (Z.of_nat a * size + Z.of_nat i) = deref (e !! i).
Proof.
  intros Hp Ha Hi. destruct (concat_split es a e Hp Ha) as (p & q & -> & Hlp & Hle & _).
  unfold read_byte. rewrite (proj2 (Z.ltb_ge _ _)) by nia.
  rewrite Hsz, <- Nat2Z.inj_mul, <- Nat2Z.inj_add, Nat2Z.id, <- Hlp.
  rewrite lookup_app_r by lia. rewrite lookup_app_l by lia. do 2 f_equal. lia.
Qed.

Lemma write_concat es a e i v :
  packed size es → es !! a = Some e → (i < sz)%nat →
  write_byte (concat es) (Z.of_nat a * size + Z.of_nat i) v = Ok (concat (<[a := <[i := v]> e]> es)).
Proof.
  intros Hp Ha Hi. unfold write_byte. rewrite (read_concat es a e i Hp Ha Hi).
  destruct (concat_split es a e Hp Ha) as (p & q & -> & Hlp & Hle & ->).
  destruct (lookup_lt_is_Some_2 e i) as [b ->]; [lia|]. simpl. f_equal.
  rewrite Hsz, <- Nat2Z.inj_mul, <- Nat2Z.inj_add, Nat2Z.id, <- Hlp.
  rewrite insert_app_r, insert_app_l by lia. done.
Qed.

(** Two elements, the first [i] bytes exchanged. *)
Definition mix (i : nat) x y : list Z := take i y ++ drop i x.

Lemma mix_lookup i x y : length x = sz → length y = sz → (i < sz)%nat → mix i x y !! i = x !! i.
Proof.
  intros Hx Hy Hi. unfold mix. rewrite lookup_app_r; rewrite length_take_le by lia; [|lia].
  rewrite Nat.sub_diag, lookup_drop. f_equal. lia.
Qed.

Lemma mix_insert i x y b :
  length x = sz → length y = sz → y !! i = Some b → <[i := b]> (mix i x y) = mix (S i) x y.
Proof.
  intros Hx Hy Hb. pose proof (lookup_lt_Some _ _ _ Hb) as Hi. unfold mix.
  rewrite <- (Nat.add_0_r i) at 1. rewrite <- (length_take_le y i) at 1 by lia.
  rewrite insert_app_r.
  rewrite (take_S_r y i b Hb), <- app_assoc.
  destruct (lookup_lt_is_Some_2 x i) as [c Hc]; [lia|]. by rewrite (drop_S x c i Hc).
Qed.

Lemma length_mix i x y : length x = sz → length y = sz → (i ≤ sz)%nat → length (mix i x y) = sz.
Proof. intros. unfold mix. rewrite length_app, length_take, length_drop. lia. Qed.

Definition mixed (a b i : nat) x y es : list (list Z) := <[a := mix i x y]> (<[b := mix i y x]> es).

Lemma swap_loop_ok n a b i x y es :
  packed size es → a ≠ b → es !! a = Some x → es !! b = Some y → (i + n = sz)%nat →
  swap_loop n (concat (mixed a b i x y es)) (Z.of_nat a * size) (Z.of_nat b * size) (Z.of_nat i)
  = Ok (concat (mixed a b sz x y es)).
Proof.
  intros Hp Hab Ha Hb. pose proof (packed_length _ _ _ Hp Ha) as Hx.
  pose proof (packed_length _ _ _ Hp Hb) as Hy.
  pose proof (lookup_lt_Some _ _ _ Ha) as Hal. pose proof (lookup_lt_Some _ _ _ Hb) as Hbl.
  revert i. induction n as [|n IH]; intros i Hi; simpl; [by replace i with sz by lia|].
  destruct (lookup_lt_is_Some_2 x i) as [xi Hxi]; [lia|].
  destruct (lookup_lt_is_Some_2 y i) as [yi Hyi]; [lia|].
  assert (∀ k, (k ≤ sz)%nat → packed size (mixed a b k x y es)) as Hpk.
  { intros k Hk. apply packed_insert; [apply packed_insert; [done|]|]; by apply length_mix. }
  assert (∀ k, mixed a b k x y es !! a = Some (mix k x y)) as Hma.
  { intros k. apply list_lookup_insert_eq. by rewrite length_insert. }
  assert (∀ k, mixed a b k x y es !! b = Some (mix k y x)) as Hmb.
  { intros k. unfold mixed. rewrite list_lookup_insert_ne by done. by apply list_lookup_insert_eq. }
  rewrite (read_concat _ a _ i (Hpk i ltac:(lia)) (Hma i)) by lia. rewrite mix_lookup, Hxi by lia.
  rewrite (read_concat _ b _ i (Hpk i ltac:(lia)) (Hmb i)) by lia. rewrite mix_lookup, Hyi by lia. simpl.
  rewrite (write_concat _ a _ i yi (Hpk i ltac:(lia)) (Hma i)) by lia.
  rewrite (mix_insert i x y yi) by done. simpl.
  set (es1 := <[a := mix (S i) x y]> (mixed a b i x y es)).
  assert (packed size es1) as Hp1 by (apply packed_insert; [apply Hpk; lia|apply length_mix; lia]).
  assert (es1 !! b = Some (mix i y x)) as Hb1 by (unfold es1; by rewrite list_lookup_insert_ne).
  rewrite (write_concat es1 b _ i xi Hp1 Hb1) by lia. rewrite (mix_insert i y x xi) by done. simpl.
  replace (<[b := mix (S i) y x]> es1) with (mixed a b (S i) x y es).
  - replace (Z.of_nat i + 1) with (Z.of_nat (S i)) by lia. apply IH. lia.
  - unfold es1, mixed. rewrite list_insert_insert_eq. rewrite (list_insert_insert_ne _ b a) by done.
    by rewrite list_insert_insert_eq.
Qed.

Lemma do_swap_ok es a b :
  packed size es → a ≠ b → (a < length es)%nat → (b < length es)%nat →
  do_swap (concat es) (Z.of_nat a + 1) (Z.of_nat b + 1) size = Ok (concat (swap a b es)).
Proof.
  intros Hp Hab Ha Hb. destruct (lookup_lt_is_Some_2 es a Ha) as [x Hx].
  destruct (lookup_lt_is_Some_2 es b Hb) as [y Hy]. unfold do_swap, swap. rewrite Hx, Hy, !Z.add_simpl_r.
  assert (mixed a b 0 x y es = es) as E0.
  { unfold mixed, mix. rewrite !take_0, !drop_0, !app_nil_l,  (list_insert_id es b y Hy). by apply list_insert_id. }
  rewrite <- E0 at 1. change 0 with (Z.of_nat 0). rewrite swap_loop_ok by (done || lia).
  unfold mixed, mix. pose proof (packed_length _ _ _ Hp Hx). pose proof (packed_length _ _ _ Hp Hy).
  rewrite !drop_ge, !take_ge, !app_nil_r by lia. done.
Qed.

Lemma packed_swap es a b : packed size es → packed size (swap a b es).
Proof.
  intros Hp. unfold swap. destruct (es !! a) as [x|] eqn:Hx, (es !! b) as [y|] eqn:Hy; try done.
  apply packed_insert; [apply packed_insert; [done|]|]; by eapply packed_length.
Qed.
End elements.

(** ** The order of elements *)

(** What the documentation asks of a comparison function: a strcmp()-type result. *)
Class Comparator (compare : list Z → list Z → Z) : Prop := {
  cmp_sgn : ∀ a b, Z.sgn (compare b a) = - Z.sgn (compare a b);
  cmp_trans : ∀ a b c, compare a b ≤ 0 → compare b c ≤ 0 → compare a c ≤ 0;
}.

Section heap.
Context (compare : list Z → list Z → Z) `{!Comparator compare}.
Implicit Types (es : list (list Z)) (i j c m n k : nat).

Definition le (a b : list Z) : Prop := compare a b ≤ 0.

Lemma le_refl a : le a a.
Proof. unfold le. pose proof (cmp_sgn a a). destruct (Z.sgn_spec (compare a a)); lia. Qed.

Lemma le_trans a b d : le a b → le b d → le a d.
Proof. apply cmp_trans. Qed.

Lemma lt_le a b : 0 < compare a b → le b a.
Proof. unfold le. intros. pose proof (cmp_sgn a b). destruct (Z.sgn_spec (compare b a)), (Z.sgn_spec (compare a b)); lia. Qed.

Lemma not_lt_le a b : compare a b ≤ 0 → le a b.
Proof. done. Qed.

(** The element with 1-based index [i]. *)
Definition at_ es i : list Z := es !!! (i - 1)%nat.

Lemma at_lookup es i : (1 ≤ i ≤ length es)%nat → es !! (i - 1)%nat = Some (at_ es i).
Proof. intros Hi. apply list_lookup_lookup_total_lt. lia. Qed.

Lemma length_swap {A} a b (l : list A) : length (swap a b l) = length l.
Proof. unfold swap. destruct (l !! a), (l !! b); try done. by rewrite !length_insert. Qed.

Lemma at_swap es i m j :
  (1 ≤ i ≤ length es)%nat → (1 ≤ m ≤ length es)%nat → (1 ≤ j)%nat → i ≠ m →
  at_ (swap (i - 1) (m - 1) es) j =
  if decide (j = i) then at_ es m else if decide (j = m) then at_ es i else at_ es j.
Proof.
  intros Hi Hm Hj Him. unfold swap. rewrite (at_lookup es i Hi), (at_lookup es m Hm). unfold at_ at 1.
  case_decide as E1; [|case_decide as E2]; subst.
  - rewrite list_lookup_total_insert_eq by (rewrite length_insert; lia). done.
  - rewrite list_lookup_total_insert_ne by lia. rewrite list_lookup_total_insert_eq by lia. done.
  - rewrite !list_lookup_total_insert_ne by lia. done.
Qed.

Lemma swap_Permutation {A} a b (l : list A) : a ≠ b → swap a b l ≡ₚ l.
Proof.
  intros Hab. unfold swap. destruct (l !! a) as [x|] eqn:Ha, (l !! b) as [y|] eqn:Hb; try done.
  apply Permutation_inj. split; [by rewrite !length_insert|].
  exists (λ k, if decide (k = a) then b else if decide (k = b) then a else k). split.
  - intros k1 k2. repeat case_decide; congruence.
  - intros k. pose proof (lookup_lt_Some _ _ _ Ha). pose proof (lookup_lt_Some _ _ _ Hb).
    case_decide as E1; [|case_decide as E2]; subst.
    + rewrite list_lookup_insert_eq by (by rewrite length_insert). done.
    + rewrite list_lookup_insert_ne by done. by rewrite list_lookup_insert_eq.
    + by rewrite !list_lookup_insert_ne.
Qed.

Lemma take_swap {A} a b n (l : list A) :
  (a < n)%nat → (b < n)%nat → take n (swap a b l) = swap a b (take n l) ∧ drop n (swap a b l) = drop n l.
Proof.
  intros Ha Hb. unfold swap. rewrite !lookup_take_lt by done.
  destruct (l !! a), (l !! b); try done. rewrite !take_insert_lt, !drop_insert_lt by done. done.
Qed.

(** ** Heaps *)

Definition child (j c : nat) : Prop := c = (2 * j)%nat ∨ c = (2 * j + 1)%nat.

Definition heap (k n : nat) es : Prop :=
  ∀ j c, (k ≤ j)%nat → child j c → (c ≤ n)%nat → le (at_ es c) (at_ es j).

(** A heap but for node [i], whose children are below its parent. *)
Definition almost (i k n : nat) es : Prop :=
  (∀ j c, (k ≤ j)%nat → j ≠ i → child j c → (c ≤ n)%nat → le (at_ es c) (at_ es j)) ∧
  (∀ j c, (k ≤ j)%nat → child j i → child i c → (c ≤ n)%nat → le (at_ es c) (at_ es j)).

Lemma almost_swap i m k n es :
  (1 ≤ k)%nat → (k ≤ i)%nat → (n ≤ length es)%nat → almost i k n es → child i m → (m ≤ n)%nat →
  le (at_ es i) (at_ es m) → (∀ c, child i c → (c ≤ n)%nat → le (at_ es c) (at_ es m)) →
  almost m k n (swap (i - 1) (m - 1) es).
Proof.
  intros Hk Hki Hn [H1 H2] Hm Hmn Him Hc. assert (i < m)%nat as Hlt by (destruct Hm; lia).
  assert (∀ j, (1 ≤ j)%nat → at_ (swap (i - 1) (m - 1) es) j =
    if decide (j = i) then at_ es m else if decide (j = m) then at_ es i else at_ es j) as Hat.
  { intros j Hj. apply at_swap; lia. }
  split.
  - intros j c Hj Hjm Hjc Hcn. rewrite !Hat by (destruct Hjc; lia).
    rewrite (decide_False (P := j = m)) by done. destruct (decide (j = i)) as [->|Hji].
    + rewrite (decide_False (P := c = i)) by (destruct Hjc; lia). case_decide; [done|]. by apply Hc.
    + destruct (decide (c = i)) as [->|]; [by eapply H2|].
      rewrite (decide_False (P := c = m)) by (intros ->; destruct Hjc, Hm; lia). by apply H1.
  - intros j c Hj Hjm Hmc Hcn. assert (j = i) as -> by (destruct Hjm, Hm; lia).
    rewrite !Hat by (destruct Hmc; lia). rewrite (decide_True (P := i = i)) by done.
    rewrite !decide_False by (destruct Hmc; lia). apply H1; (done || lia).
Qed.

(** The index chosen by one round of [heapify]. *)
Lemma heapify_max size sz es i n :
  size = Z.of_nat sz → packed size es → (1 ≤ i ≤ n)%nat → (n ≤ length es)%nat → Z.of_nat n < 2 ^ 31 →
  ∃ m,
    (let left := u32 (2 * Z.of_nat i) in
     let right := u32 (2 * Z.of_nat i + 1) in
     let max := Z.of_nat i in
     let max := if (left <=? Z.of_nat n) && (0 <? do_compare compare (concat es) left max size) then left else max in
     if (right <=? Z.of_nat n) && (0 <? do_compare compare (concat es) right max size) then right else max) = Z.of_nat m ∧
    (m = i ∨ child i m) ∧ (m ≤ n)%nat ∧ le (at_ es i) (at_ es m) ∧
    (∀ c, child i c → (c ≤ n)%nat → le (at_ es c) (at_ es m)).
Proof.
  intros Hsz Hp Hi Hn Hb. assert (0 < sz)%nat as Hpos by (destruct Hp; lia). cbn zeta. rewrite !u32_small by (unfold is_u32; lia).
  assert (∀ a b, (1 ≤ a ≤ length es)%nat → (1 ≤ b ≤ length es)%nat →
            do_compare compare (concat es) (Z.of_nat a) (Z.of_nat b) size = compare (at_ es a) (at_ es b)) as Hcmp.
  { intros a b Ha Hb'. unfold do_compare.
    replace (Z.of_nat a - 1) with (Z.of_nat (a - 1)) by lia.
    replace (Z.of_nat b - 1) with (Z.of_nat (b - 1)) by lia.
    by rewrite (element_concat size sz Hsz Hpos es _ _ Hp (at_lookup es a Ha)),
      (element_concat size sz Hsz Hpos es _ _ Hp (at_lookup es b Hb')). }
  replace (2 * Z.of_nat i) with (Z.of_nat (2 * i)) by lia.
  replace (Z.of_nat (2 * i) + 1) with (Z.of_nat (2 * i + 1)) by lia.
  assert (∃ m1, (if (Z.of_nat (2 * i) <=? Z.of_nat n) &&
                    (0 <? do_compare compare (concat es) (Z.of_nat (2 * i)) (Z.of_nat i) size)
                 then Z.of_nat (2 * i) else Z.of_nat i) = Z.of_nat m1 ∧
               (m1 = i ∨ m1 = (2 * i)%nat) ∧ (m1 ≤ n)%nat ∧ le (at_ es i) (at_ es m1) ∧
               ((2 * i ≤ n)%nat → le (at_ es (2 * i)) (at_ es m1))) as (m1 & -> & Hm1 & Hm1n & Hle & Hl).
  { destruct (Z.leb_spec (Z.of_nat (2 * i)) (Z.of_nat n)); rewrite ?andb_true_l, ?andb_false_l.
    - rewrite Hcmp by lia. destruct (Z.ltb_spec 0 (compare (at_ es (2 * i)) (at_ es i))) as [Hc|Hc].
      + exists (2 * i)%nat. split; [done|]. split; [by right|]. split; [lia|].
        split; [by apply lt_le|]. intros _. apply le_refl.
      + exists i. split; [done|]. split; [by left|]. split; [lia|]. split; [apply le_refl|done].
    - exists i. split; [done|]. split; [by left|]. split; [lia|]. split; [apply le_refl|lia]. }
  destruct (Z.leb_spec (Z.of_nat (2 * i + 1)) (Z.of_nat n)); rewrite ?andb_true_l, ?andb_false_l.
  - rewrite Hcmp by lia. destruct (Z.ltb_spec 0 (compare (at_ es (2 * i + 1)) (at_ es m1))) as [Hc|Hc].
    + exists (2 * i + 1)%nat. split; [done|]. split; [right; by right|]. split; [lia|].
      apply lt_le in Hc. split; [by eapply le_trans|]. intros c [->| ->] Hcn; [|apply le_refl].
      eapply le_trans; [by apply Hl|done].
    + exists m1. split; [done|]. split; [destruct Hm1; [by left|right; by left]|]. split; [done|].
      split; [done|]. intros c [->| ->] Hcn; [by apply Hl|done].
  - exists m1. split; [done|]. split; [destruct Hm1; [by left|right; by left]|]. split; [done|].
    split; [done|]. intros c [->| ->] Hcn; [by apply Hl|lia].
Qed.

Lemma heapify_ok size sz fuel es i k n :
  size = Z.of_nat sz → (0 < sz)%nat → packed size es → (1 ≤ k ≤ i)%nat → (i ≤ n)%nat →
  (n ≤ length es)%nat → Z.of_nat n < 2 ^ 31 → (n ≤ fuel + i)%nat → almost i k n es →
  ∃ es', heapify compare fuel (concat es) (Z.of_nat i) (Z.of_nat n) size = Ok (concat es') ∧
         packed size es' ∧ heap k n es' ∧ take n es' ≡ₚ take n es ∧ drop n es' = drop n es.
Proof.
  intros Hsz Hpos. revert es i. induction fuel as [|fuel IH]; intros es i Hp Hk Hi Hn Hb Hf Hal;
    destruct (heapify_max size sz es i n) as (m & Hm & Hmi & Hmn & Hle & Hc); try (done || lia);
    cbn [heapify]; cbn zeta in Hm |- *; rewrite Hm; destruct (Z.eqb_spec (Z.of_nat m) (Z.of_nat i)) as [E|E].
  1, 3: apply Nat2Z.inj in E; subst m; exists es; split; [done|]; split; [done|]; split; [|done];
    intros j c Hj Hjc Hcn; destruct (decide (j = i)) as [->|]; [by apply Hc|by apply (proj1 Hal)].
  - exfalso. destruct Hmi as [->|Hmi]; [done|]. destruct Hmi; lia.
  - destruct Hmi as [->|Hmi]; [done|]. assert (i < m)%nat by (destruct Hmi; lia).
    replace (Z.of_nat i) with (Z.of_nat (i - 1) + 1) by lia.
    replace (Z.of_nat m) with (Z.of_nat (m - 1) + 1) by lia.
    rewrite (do_swap_ok size sz Hsz Hpos) by (done || lia). cbn [mbind result_bind].
    replace (Z.of_nat (m - 1) + 1) with (Z.of_nat m) by lia.
    destruct (IH (swap (i - 1) (m - 1) es) m) as (es' & Hr & Hp' & Hh & Ht & Hd); try lia.
    + by apply (packed_swap size sz Hsz).
    + by rewrite length_swap.
    + eapply almost_swap; try done; lia.
    + exists es'. split; [done|]. split; [done|]. split; [done|].
      destruct (take_swap (i - 1) (m - 1) n es) as [Et Ed]; [lia..|].
      rewrite Ht, Et, Hd, Ed. split; [|done]. apply swap_Permutation. lia.
Qed.

Lemma build_loop_ok size sz i es n :
  size = Z.of_nat sz → (0 < sz)%nat → packed size es → length es = n → Z.of_nat n < 2 ^ 31 →
  (i ≤ n)%nat → heap (S i) n es →
  ∃ es', build_loop compare i (concat es) (Z.of_nat n) size = Ok (concat es') ∧
         packed size es' ∧ heap 1 n es' ∧ es' ≡ₚ es.
Proof.
  intros Hsz Hpos. revert es. induction i as [|i IH]; intros es Hp Hn Hb Hi Hh; [by exists es|].
  cbn [build_loop]. rewrite Nat2Z.id.
  destruct (heapify_ok size sz n es (S i) (S i) n) as (es1 & -> & Hp1 & Hh1 & Ht & Hd); try (done || lia).
  { split; [|intros j c Hj []; lia]. intros j c Hj Hne. apply Hh. lia. }
  cbn [mbind result_bind]. rewrite (take_ge es) in Ht by lia.
  assert (length es1 = n) as Hl1.
  { apply (f_equal length) in Hd. rewrite !length_drop in Hd. apply Permutation_length in Ht.
    rewrite length_take in Ht. lia. }
  rewrite take_ge in Ht by lia.
  destruct (IH es1) as (es' & Hr & Hp' & Hh' & Hperm); try (done || lia).
  exists es'. split; [done|]. split; [done|]. split; [done|]. by rewrite Hperm.
Qed.

Lemma heap_root n es j : heap 1 n es → (1 ≤ j ≤ n)%nat → le (at_ es j) (at_ es 1).
Proof.
  intros Hh. induction j as [j IH] using lt_wf_ind. intros Hj.
  destruct (decide (j = 1%nat)) as [->|]; [apply le_refl|].
  pose proof (Nat.div_mod_eq j 2). pose proof (Nat.mod_upper_bound j 2).
  eapply le_trans; [apply (Hh (j / 2)%nat j)|apply IH]; try lia. unfold child. lia.
Qed.

(** The part of the array already sorted: above everything in the heap. *)
Definition sorted_above i es : Prop :=
  (∀ x y, x ∈ take i es → y ∈ drop i es → le x y) ∧ StronglySorted le (drop i es).

Lemma elem_of_take_at i es x : x ∈ take i es → ∃ j, (1 ≤ j ≤ i)%nat ∧ (j ≤ length es)%nat ∧ x = at_ es j.
Proof.
  intros Hx. apply list_elem_of_lookup in Hx as (k & Hk). apply lookup_take_Some in Hk as [Hk Hki].
  exists (S k). split; [lia|]. split; [by apply lookup_lt_Some in Hk|]. unfold at_. simpl.
  rewrite Nat.sub_0_r. symmetry. by apply list_lookup_total_correct.
Qed.

Lemma sorted_above_step i es :
  (2 ≤ i ≤ length es)%nat → heap 1 i es → sorted_above i es →
  let es1 := swap 0 (i - 1) es in
  almost 1 1 (i - 1) es1 ∧ sorted_above (i - 1) es1.
Proof.
  intros Hi Hh [Ha Hs] es1.
  assert (∀ j, (1 ≤ j)%nat → at_ es1 j =
    if decide (j = 1%nat) then at_ es i else if decide (j = i) then at_ es 1 else at_ es j) as Hat.
  { intros j Hj. apply (at_swap es 1 i j); lia. }
  assert (length es1 = length es) as Hl by apply length_swap.
  assert (drop (i - 1) es1 = at_ es 1 :: drop i es) as Hd.
  { rewrite (drop_S es1 (at_ es 1) (i - 1)).
    - replace (S (i - 1)) with i by lia. f_equal. unfold es1. by apply take_swap; lia.
    - rewrite (at_lookup es1 i) by lia. rewrite Hat by lia. rewrite decide_False, decide_True by lia. done. }
  split.
  - split; [|intros j c Hj []; lia]. intros j c Hj Hj1 Hc Hci. destruct Hc as [Hc|Hc];
      rewrite !Hat, !decide_False by lia; apply Hh; unfold child; lia.
  - split; rewrite Hd.
    + intros x y Hx [->|Hy]%elem_of_cons; apply elem_of_take_at in Hx as (j & Hj & Hjl & ->).
      * rewrite Hat by lia. repeat case_decide; subst; try lia.
        all: apply (heap_root i); [exact Hh|lia].
      * rewrite Hat by lia.
        assert (∀ k, (1 ≤ k ≤ i)%nat → le (at_ es k) y) as Hk.
        { intros k Hk. apply Ha; [|done]. eapply list_elem_of_lookup_2, lookup_take_Some.
          split; [apply at_lookup; lia|lia]. }
        repeat case_decide; subst; apply Hk; lia.
    + constructor; [done|]. apply Forall_forall. intros y Hy. apply Ha; [|done].
      eapply list_elem_of_lookup_2, (lookup_take_Some _ _ 0). split; [apply (at_lookup es 1); lia|lia].
Qed.

Lemma sorted_above_perm i es es' :
  sorted_above i es → take i es' ≡ₚ take i es → drop i es' = drop i es → sorted_above i es'.
Proof. intros [Ha Hs] Ht Hd. split; rewrite Hd; [|done]. intros x y. rewrite Ht. apply Ha. Qed.

Lemma sorted_above_all i es : (i ≤ 1)%nat → sorted_above i es → StronglySorted le es.
Proof.
  intros Hi [Ha Hs]. destruct i as [|i]; [done|]. replace i with 0%nat in * by lia.
  destruct es as [|x es]; [constructor|]. change (StronglySorted le es) in Hs. constructor; [done|].
  apply Forall_forall. intros y Hy. apply Ha; [left|done].
Qed.

Lemma sort_loop_ok size sz i es :
  size = Z.of_nat sz → (0 < sz)%nat → packed size es → (i ≤ length es)%nat →
  Z.of_nat (length es) < 2 ^ 31 → heap 1 i es → sorted_above i es →
  ∃ es', sort_loop compare i (concat es) size = Ok (concat es') ∧ packed size es' ∧ es' ≡ₚ es ∧
         StronglySorted le es'.
Proof.
  intros Hsz Hpos. revert es. induction i as [|[|i] IH]; intros es Hp Hi Hb Hh Hs.
  1, 2: exists es; split; [done|]; split; [done|]; split; [done|]; by eapply sorted_above_all; [|done]; lia.
  set (i' := S i) in *. change (S i') with (S (S i)). cbn [sort_loop]. fold i'.
  pose proof (sorted_above_step (S i') es ltac:(lia) Hh Hs) as [Hal Hs1].
  rewrite Nat.sub_1_r in Hal, Hs1. simpl Nat.pred in Hal, Hs1.
  replace (do_swap (concat es) 1 (Z.of_nat (S i')) size) with
          (do_swap (concat es) (Z.of_nat 0 + 1) (Z.of_nat i' + 1) size) by (f_equal; lia).
  rewrite (do_swap_ok size sz Hsz Hpos) by (done || lia). cbn [mbind result_bind].
  set (es1 := swap 0 i' es) in *.
  assert (packed size es1) as Hp1 by (by apply (packed_swap size sz Hsz)).
  assert (length es1 = length es) as Hl1 by apply length_swap.
  destruct (heapify_ok size sz (S i') es1 1 1 i') as (es2 & Hr & Hp2 & Hh2 & Ht & Hd); try (done || lia).
  change 1 with (Z.of_nat 1). rewrite Hr. cbn [mbind result_bind].
  assert (es2 ≡ₚ es1) as Hperm by (rewrite <- (take_drop i' es2), <- (take_drop i' es1), Ht, Hd; done).
  destruct (IH es2) as (es' & Hr' & Hp' & Hperm' & Hsort); try done.
  - rewrite (Permutation_length Hperm). lia.
  - rewrite (Permutation_length Hperm). lia.
  - by eapply sorted_above_perm.
  - exists es'. split; [done|]. split; [done|]. split; [|done]. rewrite Hperm', Hperm.
    apply swap_Permutation. lia.
Qed.
End heap.

(** ** Searching *)

Section search.
Context (compare : list Z → list Z → Z) `{!Comparator compare}.
Context (size : Z) (sz : nat) (Hsz : size = Z.of_nat sz) (Hpos : (0 < sz)%nat).
Implicit Types (es : list (list Z)).

Lemma sgn_flip a b : (0 < compare a b ↔ compare b a < 0) ∧ (compare a b = 0 ↔ compare b a = 0).
Proof.
  pose proof (cmp_sgn (compare := compare) a b).
  destruct (Z.sgn_spec (compare b a)), (Z.sgn_spec (compare a b)); lia.
Qed.

Lemma below_below key a b : compare key a < 0 → compare a b ≤ 0 → compare key b < 0.
Proof.
  intros H1 H2. destruct (decide (compare key b < 0)) as [|Hn]; [done|exfalso].
  destruct (sgn_flip key b) as [S1 S2], (sgn_flip a key) as [S3 S4].
  assert (compare b key ≤ 0) as H3 by (destruct (Z.lt_trichotomy (compare key b) 0) as [|[?|?]]; lia).
  pose proof (cmp_trans _ _ _ H2 H3). lia.
Qed.

Lemma above_above key a b : 0 < compare key a → compare b a ≤ 0 → 0 < compare key b.
Proof.
  intros H1 H2. destruct (decide (0 < compare key b)) as [|Hn]; [done|exfalso].
  assert (compare key b ≤ 0) as H3 by lia. pose proof (cmp_trans _ _ _ H3 H2). lia.
Qed.

Lemma sorted_lookup es i j a b :
  StronglySorted (le compare) es → es !! i = Some a → es !! j = Some b → (i ≤ j)%nat → compare a b ≤ 0.
Proof.
  intros Hs. revert i j. induction Hs as [|x es Hs IH Hf]; intros [|i] [|j] Ha Hb Hij; simplify_eq/=; try lia.
  - apply (le_refl compare).
  - rewrite Forall_forall in Hf. apply Hf. by eapply list_elem_of_lookup_2.
  - eapply IH; (done || lia).
Qed.

Lemma search_loop_ok key es fuel f l :
  packed size es → StronglySorted (le compare) es → (f ≤ l ≤ length es)%nat → (l ≤ fuel + f)%nat →
  (∀ i e, (i < f)%nat → es !! i = Some e → 0 < compare key e) →
  (∀ i e, (l ≤ i)%nat → es !! i = Some e → compare key e < 0) →
  ∃ r, search_loop compare key fuel (concat es) (Z.of_nat f * size) (Z.of_nat l * size) size = Ok r ∧
    match r with
    | Some off => ∃ i e, off = Z.of_nat i * size ∧ es !! i = Some e ∧ compare key e = 0
    | None => ∀ e, e ∈ es → compare key e ≠ 0
    end.
Proof.
  intros Hp Hs. revert f l. induction fuel as [|fuel IH]; intros f l Hfl Hf Hlo Hhi; simpl.
  - rewrite (proj2 (Z.ltb_ge _ _)) by nia. exists None. split; [done|]. intros e He.
    apply list_elem_of_lookup in He as (i & Hi).
    destruct (decide (i < f)%nat);
      [specialize (Hlo i e ltac:(lia) Hi)|specialize (Hhi i e ltac:(lia) Hi)]; lia.
  - destruct (Z.ltb_spec (Z.of_nat f * size) (Z.of_nat l * size)) as [Hlt|Hge].
    + assert (f < l)%nat as Hfl' by nia.
      assert ((Z.of_nat l * size - Z.of_nat f * size) / size = Z.of_nat (l - f)) as ->.
      { rewrite <- Z.mul_sub_distr_r, Z.div_mul by lia. lia. }
      set (m := (f + (l - f) / 2)%nat).
      assert (Z.of_nat f * size + Z.of_nat (l - f) / 2 * size = Z.of_nat m * size) as ->.
      { unfold m. rewrite Nat2Z.inj_add, Nat2Z.inj_div. lia. }
      assert (f ≤ m < l)%nat as Hm.
      { unfold m. pose proof (Nat.div_lt (l - f) 2). lia. }
      destruct (lookup_lt_is_Some_2 es m) as [e He]; [lia|].
      rewrite (element_concat size sz Hsz Hpos es m e Hp He).
      destruct (Z.ltb_spec (compare key e) 0) as [Hc|Hc]; [|destruct (Z.ltb_spec 0 (compare key e)) as [Hc'|Hc']].
      * apply IH; [lia|lia|done|]. intros i e' Hi He'. apply (below_below key e); [done|].
        eapply sorted_lookup; (done || lia).
      * replace (Z.of_nat m * size + size) with (Z.of_nat (m + 1) * size) by lia.
        apply IH; [lia|lia| |done]. intros i e' Hi He'. apply (above_above key e); [done|].
        eapply sorted_lookup; (done || lia).
      * exists (Some (Z.of_nat m * size)). split; [done|]. exists m, e. split; [done|]. split; [done|lia].
    + assert (l = f) as -> by nia. exists None. split; [done|]. intros e He.
      apply list_elem_of_lookup in He as (i & Hi).
      destruct (decide (i < f)%nat);
      [specialize (Hlo i e ltac:(lia) Hi)|specialize (Hhi i e ltac:(lia) Hi)]; lia.
Qed.
End search.

(** ** Reading decimal numbers *)

Definition digits_value (ds : list Z) : Z := foldl (λ v c, v * 10 + (c - 48)) 0 ds.

Lemma i32_mod x y : x mod 2 ^ 32 = y mod 2 ^ 32 → i32 x = i32 y.
Proof. intros H. unfold i32. by rewrite (Z.add_mod x), (Z.add_mod y), H by lia. Qed.

Lemma i32_idem x : (i32 x) mod 2 ^ 32 = x mod 2 ^ 32.
Proof. unfold i32. rewrite Zminus_mod_idemp_l. f_equal. lia. Qed.

Lemma digits_loop_ok v ds c rest :
  Forall (λ d, isdigit d = true) ds → isdigit c = false →
  digits_loop (i32 (- v)) (ds ++ c :: rest) = Ok (i32 (- foldl (λ v c, v * 10 + (c - 48)) v ds)).
Proof.
  intros Hd Hc. revert v. induction Hd as [|d ds Hd _ IH]; intros v; simpl; [by rewrite Hc|].
  rewrite Hd. rewrite <- IH. f_equal. apply i32_mod.
  rewrite <- Zminus_mod_idemp_l, i32_idem, Zminus_mod_idemp_l.
  rewrite <- Zminus_mod_idemp_l, <- Zmult_mod_idemp_l, i32_idem, Zmult_mod_idemp_l, Zminus_mod_idemp_l.
  f_equal. lia.
Qed.

Lemma skip_spaces_ok ws c rest :
  Forall (λ w, isspace w = true) ws → isspace c = false → skip_spaces (ws ++ c :: rest) = Ok (c :: rest).
Proof. intros Hw Hc. induction Hw as [|w ws Hw _ IH]; simpl; [by rewrite Hc|by rewrite Hw]. Qed.

Lemma isdigit_range c : isdigit c = true ↔ 48 ≤ c ≤ 57.
Proof. unfold isdigit. rewrite andb_true_iff, !Z.leb_le. done. Qed.

Lemma digit_not_space c : isdigit c = true → isspace c = false ∧ (c =? 43) = false ∧ (c =? 45) = false.
Proof. rewrite isdigit_range. intros. unfold isspace. rewrite !(proj2 (Z.eqb_neq _ _)) by lia. done. Qed.

(** ** Claims *)

(** C21. Heap sort.  For every array of [cnt] elements of [size] bytes (below 2 GB) and
    every comparison function that gives strcmp()-type results, [qsort] ends without an
    assertion failure and without touching memory outside the array, and leaves the same
    elements in ascending order. *)
Theorem qsort_correct compare `{!Comparator compare} (es : list (list Z)) size :
  packed size es → Z.of_nat (length es) < 2 ^ 31 →
  ∃ es', qsort compare (concat es) (Z.of_nat (length es)) size = Ok (concat es') ∧
    packed size es' ∧ es' ≡ₚ es ∧ StronglySorted (le compare) es'.
Proof.
  intros Hp Hb. pose proof (proj1 Hp) as Hpos. set (n := length es).
  assert (size = Z.of_nat (Z.to_nat size)) as Hsz by lia.
  unfold qsort, sort. rewrite (proj2 (Z.ltb_lt _ _)) by done. cbn [mbind result_bind ASSERT].
  change (compare_thunk compare) with compare.
  assert (Z.to_nat (Z.of_nat n / 2) = (n / 2)%nat) as ->.
  { change 2 with (Z.of_nat 2). by rewrite <- Nat2Z.inj_div, Nat2Z.id. }
  pose proof (Nat.div_mod_eq n 2). pose proof (Nat.mod_upper_bound n 2).
  destruct (build_loop_ok compare size (Z.to_nat size) (n / 2) es n) as (es1 & -> & Hp1 & Hh1 & Hperm1);
    try (done || lia).
  { intros j c Hj [->| ->] Hc; lia. }
  cbn [mbind result_bind]. rewrite Nat2Z.id. pose proof (Permutation_length Hperm1) as Hl.
  destruct (sort_loop_ok compare size (Z.to_nat size) n es1) as (es2 & -> & Hp2 & Hperm2 & Hs);
    try (done || lia).
  - split; rewrite drop_ge by lia; [by intros x y _ ?%elem_of_nil|constructor].
  - exists es2. split; [done|]. split; [done|]. split; [by rewrite Hperm2|done].
Qed.

(** Elements compared by their first byte. *)
Definition compare_first (a b : list Z) : Z := hd 0 a - hd 0 b.

#[export] Instance compare_first_ok : Comparator compare_first.
Proof. split; unfold compare_first; intros; [rewrite <- Z.sgn_opp; f_equal; lia|lia]. Qed.

Lemma qsort_correct_witness :
  ∃ es', qsort compare_first [3; 30; 1; 10; 2; 20] 3 2 = Ok (concat es') ∧ es' = [[1; 10]; [2; 20]; [3; 30]].
Proof.
  destruct (qsort_correct compare_first [[3; 30]; [1; 10]; [2; 20]] 2) as (es' & H & Hp & _).
  - split; [lia|repeat constructor].
  - done.
  - exists [[1; 10]; [2; 20]; [3; 30]]. split; [reflexivity|done].
Defined.

(** Binary search.  On a sorted array [bsearch] ends; if it returns a pointer, that is
    the offset of an element equal to the key, and if it returns a null pointer, no
    element is equal to the key. *)
Theorem bsearch_correct compare `{!Comparator compare} (es : list (list Z)) size key :
  packed size es → StronglySorted (le compare) es →
  ∃ r, bsearch compare key (concat es) (Z.of_nat (length es)) size = Ok r ∧
    match r with
    | Some off => ∃ i e, off = Z.of_nat i * size ∧ es !! i = Some e ∧ compare key e = 0
    | None => ∀ e, e ∈ es → compare key e ≠ 0
    end.
Proof.
  intros Hp Hs. pose proof (proj1 Hp) as Hpos. unfold bsearch, binary_search.
  change (compare_thunk compare) with compare. rewrite Nat2Z.id, Z.mul_comm.
  apply (search_loop_ok compare size (Z.to_nat size) ltac:(lia) ltac:(lia) key es (length es) 0 (length es));
    try (done || lia).
  intros i e Hi He. apply lookup_lt_Some in He. lia.
Qed.

Lemma bsearch_correct_witness :
  ∃ i, bsearch compare_first [2; 0] [1; 10; 2; 20; 3; 30] 3 2 = Ok (Some i) ∧ i = 2.
Proof.
  destruct (bsearch_correct compare_first [[1; 10]; [2; 20]; [3; 30]] 2 [2; 0]) as (r & H & _).
  - split; [lia|repeat constructor].
  - repeat constructor; unfold le, compare_first; simpl; lia.
  - exists 2. split; [exact eq_refl|done].
Defined.

(** atoi.  On white space, an optional sign and decimal digits, followed by anything
    that is not a digit, [atoi] returns the number they denote, for every value an [int]
    can have (also the most negative one), and otherwise the value modulo 2^32. *)
Theorem atoi_correct ws sign ds c rest :
  Forall (λ w, isspace w = true) ws → Forall (λ d, isdigit d = true) ds → ds ≠ [] →
  isdigit c = false → sign = [] ∨ sign = [43] ∨ sign = [45] →
  let n := if bool_decide (sign = [45]) then - digits_value ds else digits_value ds in
  atoi (ws ++ sign ++ ds ++ c :: rest) = Ok (i32 n) ∧
  (is_i32 n → atoi (ws ++ sign ++ ds ++ c :: rest) = Ok n).
Proof.
  intros Hw Hd Hne Hc Hs n.
  assert (atoi (ws ++ sign ++ ds ++ c :: rest) = Ok (i32 n)) as H;
    [|split; [done|]; intros Hn; by rewrite H, i32_small].
  pose proof (digits_loop_ok 0 ds c rest Hd Hc) as Hl. change (i32 (- 0)) with 0 in Hl.
  fold (digits_value ds) in Hl. unfold atoi.
  assert (i32 (- i32 (- digits_value ds)) = i32 (digits_value ds)) as Hneg.
  { apply i32_mod. rewrite <- Z.sub_0_l, <- Zminus_mod_idemp_r, i32_idem, Zminus_mod_idemp_r. f_equal. lia. }
  destruct Hs as [->|[->| ->]]; simpl app.
  - destruct ds as [|d ds]; [done|]. pose proof (Forall_inv Hd) as Hd0.
    destruct (digit_not_space d Hd0) as (H1 & H2 & H3). simpl app in *.
    rewrite (skip_spaces_ok ws d _ Hw H1). cbn [mbind result_bind]. rewrite H2, H3, Hl. simpl. by rewrite Hneg.
  - rewrite (skip_spaces_ok ws 43 _ Hw eq_refl). cbn [mbind result_bind Z.eqb Pos.eqb]. rewrite Hl. simpl. by rewrite Hneg.
  - rewrite (skip_spaces_ok ws 45 _ Hw eq_refl). cbn [mbind result_bind Z.eqb Pos.eqb]. rewrite Hl. done.
Qed.

(** " -2147483648", the most negative [int]. *)
Lemma atoi_correct_witness : atoi [32; 45; 50; 49; 52; 55; 52; 56; 51; 54; 52; 56; 0] = Ok (-2147483648).
Proof.
  apply (proj2 (atoi_correct [32] [45] [50; 49; 52; 55; 52; 56; 51; 54; 52; 56] 0 []
    ltac:(repeat constructor) ltac:(repeat constructor) ltac:(done) eq_refl (or_intror (or_intror eq_refl)))).
  split; [done|]. vm_compute. reflexivity.
Defined.
