(* ===== verification/CString.v ===== *)
(** * lib/string.c: blocks of memory and strings

    Memory is a finite map from addresses to bytes; an access outside its domain is a
    fault.  Every loop of the file is a definition over that memory, so that overlapping
    blocks and the modification of a string by [strtok_r] are what they are in the source.
    A scan for a terminating null faults or ends within the number of mapped bytes, which
    bounds it.

    Shown: [memcpy] and [memmove] copy (the latter also when the blocks overlap),
    [memcmp] and [strcmp] compare lexicographically, [strlcpy] and [strlcat] never write
    past the size they are given and always terminate the string, and [strtok_r] returns
    exactly the maximal runs of non-delimiters. *)

From S2P Require Import Prelude.

Abbreviation mem := (gmap Z Z).

Definition load (p : Z) : ST mem Z := λ m,
  match m !! p with Some b => Ok (b, m) | None => Err MemoryFault end.

Definition store (p b : Z) : ST mem unit := λ m,
  match m !! p with Some _ => Ok (tt, <[p := b]> m) | None => Err MemoryFault end.

(** A bound for the scans. *)
Definition scan_fuel : ST mem nat := gets (λ m, S (size m)).

(** ** Blocks *)

Fixpoint copy_up (size : nat) (dst src : Z) : ST mem Z :=
  match size with
  | O => mret dst
  | S size => b ← load src; store dst b;; copy_up size (dst + 1) (src + 1)
  end.

Fixpoint copy_down (size : nat) (dst src : Z) : ST mem Z :=
  match size with
  | O => mret dst
  | S size => b ← load (src - 1); store (dst - 1) b;; copy_down size (dst - 1) (src - 1)
  end.

Definition memcpy (dst src : Z) (size : nat) : ST mem Z :=
  assert (negb (dst =? 0) || (Nat.eqb size 0));;
  assert (negb (src =? 0) || (Nat.eqb size 0));;
  copy_up size dst src;; mret dst.

Definition memmove (dst src : Z) (size : nat) : ST mem Z :=
  assert (negb (dst =? 0) || (Nat.eqb size 0));;
  assert (negb (src =? 0) || (Nat.eqb size 0));;
  if dst <? src then copy_up size dst src
  else copy_down size (dst + Z.of_nat size) (src + Z.of_nat size).

Fixpoint memcmp_loop (size : nat) (a b : Z) : ST mem Z :=
  match size with
  | O => mret 0
  | S size =>
      x ← load a; y ← load b;
      if negb (x =? y) then mret (if y <? x then 1 else -1)
      else memcmp_loop size (a + 1) (b + 1)
  end.

Definition memcmp (a b : Z) (size : nat) : ST mem Z :=
  assert (negb (a =? 0) || (Nat.eqb size 0));;
  assert (negb (b =? 0) || (Nat.eqb size 0));;
  memcmp_loop size a b.

Fixpoint memchr_loop (size : nat) (block ch : Z) : ST mem (option Z) :=
  match size with
  | O => mret None
  | S size => b ← load block; if b =? ch then mret (Some block) else memchr_loop size (block + 1) ch
  end.

Definition memchr (block ch_ : Z) (size : nat) : ST mem (option Z) :=
  assert (negb (block =? 0) || (Nat.eqb size 0));;
  memchr_loop size block (u8 ch_).

Fixpoint memset_loop (size : nat) (dst value : Z) : ST mem unit :=
  match size with
  | O => mret tt
  | S size => store dst (u8 value);; memset_loop size (dst + 1) value
  end.

Definition memset (dst value : Z) (size : nat) : ST mem Z :=
  assert (negb (dst =? 0) || (Nat.eqb size 0));;
  memset_loop size dst value;; mret dst.

(** ** Strings *)

Fixpoint strcmp_loop (fuel : nat) (a b : Z) : ST mem Z :=
  x ← load a; y ← load b;
  if negb (x =? 0) && (x =? y) then
    match fuel with O => fail OutOfFuel | S fuel => strcmp_loop fuel (a + 1) (b + 1) end
  else mret (if x <? y then -1 else if y <? x then 1 else 0).

Definition strcmp (a b : Z) : ST mem Z :=
  assert (negb (a =? 0));; assert (negb (b =? 0));;
  fuel ← scan_fuel; strcmp_loop fuel a b.

Fixpoint strchr_loop (fuel : nat) (string c : Z) : ST mem (option Z) :=
  b ← load string;
  if b =? c then mret (Some string)
  else if b =? 0 then mret None
  else match fuel with O => fail OutOfFuel | S fuel => strchr_loop fuel (string + 1) c end.

Definition strchr (string c_ : Z) : ST mem (option Z) :=
  assert (negb (string =? 0));; fuel ← scan_fuel; strchr_loop fuel string (u8 c_).

(** Is [c] one of the characters of the string [set], the terminating null included? *)
Definition in_set (set c : Z) : ST mem bool :=
  o ← strchr set c; mret (if o is Some _ then true else false).

Fixpoint span_loop (fuel : nat) (stop_if : bool) (string set length : Z) : ST mem Z :=
  b ← load (string + length);
  if b =? 0 then mret length
  else
    i ← in_set set b;
    if Bool.eqb i stop_if then mret length
    else match fuel with
         | O => fail OutOfFuel
         | S fuel => span_loop fuel stop_if string set (length + 1)
         end.

Definition strcspn (string stop : Z) : ST mem Z := fuel ← scan_fuel; span_loop fuel true string stop 0.
Definition strspn (string skip : Z) : ST mem Z := fuel ← scan_fuel; span_loop fuel false string skip 0.

Fixpoint strpbrk_loop (fuel : nat) (string stop : Z) : ST mem (option Z) :=
  b ← load string;
  if b =? 0 then mret None
  else
    i ← in_set stop b;
    if i : bool then mret (Some string)
    else match fuel with O => fail OutOfFuel | S fuel => strpbrk_loop fuel (string + 1) stop end.

Definition strpbrk (string stop : Z) : ST mem (option Z) :=
  fuel ← scan_fuel; strpbrk_loop fuel string stop.

Fixpoint strrchr_loop (fuel : nat) (string c : Z) (p : option Z) : ST mem (option Z) :=
  b ← load string;
  if b =? 0 then mret p
  else
    let p := if b =? c then Some string else p in
    match fuel with O => fail OutOfFuel | S fuel => strrchr_loop fuel (string + 1) c p end.

Definition strrchr (string c_ : Z) : ST mem (option Z) :=
  fuel ← scan_fuel; strrchr_loop fuel string (u8 c_) None.

Fixpoint strlen_loop (fuel : nat) (string p : Z) : ST mem Z :=
  b ← load p;
  if b =? 0 then mret (p - string)
  else match fuel with O => fail OutOfFuel | S fuel => strlen_loop fuel string (p + 1) end.

Definition strlen (string : Z) : ST mem Z :=
  assert (negb (string =? 0));; fuel ← scan_fuel; strlen_loop fuel string string.

Fixpoint strnlen_loop (fuel : nat) (string maxlen length : Z) : ST mem Z :=
  b ← load (string + length);
  if negb (b =? 0) && (length <? maxlen) then
    match fuel with O => fail OutOfFuel | S fuel => strnlen_loop fuel string maxlen (length + 1) end
  else mret length.

Definition strnlen (string maxlen : Z) : ST mem Z :=
  fuel ← scan_fuel; strnlen_loop fuel string maxlen 0.

(** The loop of [strstr]; [n] is how many positions are left. *)
Fixpoint strstr_loop (n : nat) (haystack needle i : Z) (needle_len : nat) : ST mem (option Z) :=
  match n with
  | O => mret None
  | S n =>
      c ← memcmp (haystack + i) needle needle_len;
      if c =? 0 then mret (Some (haystack + i)) else strstr_loop n haystack needle (i + 1) needle_len
  end.

Definition strstr (haystack needle : Z) : ST mem (option Z) :=
  haystack_len ← strlen haystack;
  needle_len ← strlen needle;
  if needle_len <=? haystack_len then
    strstr_loop (S (Z.to_nat (haystack_len - needle_len))) haystack needle 0 (Z.to_nat needle_len)
  else mret None.

(** The two loops of [strtok_r]: over delimiters, where the null byte ends the string
    ([None]), and over the rest of the token. *)
Fixpoint skip_delims (fuel : nat) (s delimiters : Z) : ST mem (Z * bool) :=
  b ← load s;
  i ← in_set delimiters b;
  if i : bool then
    if b =? 0 then mret (s, true)
    else match fuel with O => fail OutOfFuel | S fuel => skip_delims fuel (s + 1) delimiters end
  else mret (s, false).

Fixpoint skip_token (fuel : nat) (s delimiters : Z) : ST mem Z :=
  b ← load s;
  i ← in_set delimiters b;
  if i : bool then mret s
  else match fuel with O => fail OutOfFuel | S fuel => skip_token fuel (s + 1) delimiters end.

(** [save] is the value of *SAVE_PTR; the token and the new value are returned. *)
Definition strtok_r (s : option Z) (delimiters save : Z) : ST mem (option Z * Z) :=
  assert (negb (delimiters =? 0));;
  let s := default save s in
  assert (negb (s =? 0));;
  fuel ← scan_fuel;
  '(s, at_end) ← skip_delims fuel s delimiters;
  if at_end : bool then mret (None, s)
  else
    let token := s in
    s ← skip_token fuel s delimiters;
    b ← load s;
    if negb (b =? 0) then store s 0;; mret (Some token, s + 1)
    else mret (Some token, s).

(** ** Bounded copies *)

Definition strlcpy (dst src : Z) (size : Z) : ST mem Z :=
  assert (negb (dst =? 0));; assert (negb (src =? 0));;
  src_len ← strlen src;
  (if 0 <? size then
     let dst_len := size - 1 in
     let dst_len := if src_len <? dst_len then src_len else dst_len in
     memcpy dst src (Z.to_nat dst_len);;
     store (dst + dst_len) 0
   else mret tt);;
  mret src_len.

Definition strlcat (dst src : Z) (size : Z) : ST mem Z :=
  assert (negb (dst =? 0));; assert (negb (src =? 0));;
  src_len ← strlen src;
  dst_len ← strlen dst;
  (if (0 <? size) && (dst_len <? size) then
     let copy_cnt := size - dst_len - 1 in
     let copy_cnt := if src_len <? copy_cnt then src_len else copy_cnt in
     memcpy (dst + dst_len) src (Z.to_nat copy_cnt);;
     store (dst + dst_len + copy_cnt) 0
   else mret tt);;
  mret (src_len + dst_len).

(** ** Contents of memory *)

Definition holds (m : mem) (p : Z) (l : list Z) : Prop :=
  ∀ i b, l !! i = Some b → m !! (p + Z.of_nat i) = Some b.

Definition mapped (m : mem) (p : Z) (n : nat) : Prop :=
  ∀ i, (i < n)%nat → is_Some (m !! (p + Z.of_nat i)).

Fixpoint blit (p : Z) (l : list Z) (m : mem) : mem :=
  match l with [] => m | b :: l => blit (p + 1) l (<[p := b]> m) end.

(** A null-terminated string. *)
Definition cstr (m : mem) (p : Z) (s : list Z) : Prop := holds m p (s ++ [0]) ∧ 0 ∉ s.

Lemma holds_cons m p b l : holds m p (b :: l) ↔ m !! p = Some b ∧ holds m (p + 1) l.
Proof.
  split.
  - intros H. split; [specialize (H 0%nat b eq_refl); by rewrite Z.add_0_r in H|].
    intros i c Hi. specialize (H (S i) c Hi). by replace (p + 1 + Z.of_nat i) with (p + Z.of_nat (S i)) by lia.
  - intros [Hp Hl] [|i] c Hc; simplify_eq/=; [by rewrite Z.add_0_r|].
    specialize (Hl i c Hc). by replace (p + Z.of_nat (S i)) with (p + 1 + Z.of_nat i) by lia.
Qed.

Lemma holds_app m p l1 l2 : holds m p (l1 ++ l2) ↔ holds m p l1 ∧ holds m (p + Z.of_nat (length l1)) l2.
Proof.
  revert p. induction l1 as [|b l1 IH]; intros p; simpl.
  - rewrite Z.add_0_r. split; [intros H; split; [by intros i c Hc|done]|by intros []].
  - rewrite !holds_cons, IH. replace (p + 1 + Z.of_nat (length l1)) with (p + Z.of_nat (S (length l1))) by lia.
    tauto.
Qed.

Lemma holds_mapped m p l : holds m p l → mapped m p (length l).
Proof. intros H i Hi. apply lookup_lt_is_Some_2 in Hi as [b Hb]. exists b. by apply H. Qed.

Lemma mapped_S m p n : mapped m p (S n) ↔ is_Some (m !! p) ∧ mapped m (p + 1) n.
Proof.
  split.
  - intros H. split; [specialize (H 0%nat); rewrite Z.add_0_r in H; apply H; lia|].
    intros i Hi. specialize (H (S i)). replace (p + 1 + Z.of_nat i) with (p + Z.of_nat (S i)) by lia. apply H. lia.
  - intros [Hp Hl] [|i] Hi; [by rewrite Z.add_0_r|].
    replace (p + Z.of_nat (S i)) with (p + 1 + Z.of_nat i) by lia. apply Hl. lia.
Qed.

Lemma mapped_app m p n1 n2 : mapped m p (n1 + n2) ↔ mapped m p n1 ∧ mapped m (p + Z.of_nat n1) n2.
Proof.
  revert p. induction n1 as [|n1 IH]; intros p.
  - simpl. rewrite Z.add_0_r. split; [intros H; split; [intros i Hi; lia|done]|by intros []].
  - cbn [Nat.add]. rewrite !mapped_S, IH. replace (p + 1 + Z.of_nat n1) with (p + Z.of_nat (S n1)) by lia. tauto.
Qed.

Lemma mapped_insert m p n q b : mapped m p n → mapped (<[q := b]> m) p n.
Proof.
  intros H i Hi. destruct (decide (q = p + Z.of_nat i)) as [->|]; [rewrite lookup_insert_eq; eauto|].
  rewrite lookup_insert_ne by done. by apply H.
Qed.

Lemma holds_insert m p l q b :
  holds m p l → q < p ∨ p + Z.of_nat (length l) ≤ q → holds (<[q := b]> m) p l.
Proof.
  intros H Hq i c Hc. rewrite lookup_insert_ne; [by apply H|]. apply lookup_lt_Some in Hc. lia.
Qed.

(** What memory holds after a block was written. *)
Lemma lookup_blit p l m q :
  blit p l m !! q = if decide (p ≤ q < p + Z.of_nat (length l)) then l !! Z.to_nat (q - p) else m !! q.
Proof.
  revert p m. induction l as [|b l IH]; intros p m; simpl; [by rewrite decide_False by lia|].
  rewrite IH. destruct (decide (q = p)) as [->|Hq].
  - rewrite decide_False, decide_True, lookup_insert_eq by lia. by rewrite Z.sub_diag.
  - rewrite lookup_insert_ne by done. destruct (decide (p + 1 ≤ q < p + 1 + Z.of_nat (length l))).
    + rewrite decide_True by lia. by replace (Z.to_nat (q - p)) with (S (Z.to_nat (q - (p + 1)))) by lia.
    + rewrite decide_False by lia. done.
Qed.

Lemma blit_holds p l m : holds (blit p l m) p l.
Proof.
  intros i b Hb. rewrite lookup_blit. pose proof (lookup_lt_Some _ _ _ Hb).
  rewrite decide_True by lia. by replace (Z.to_nat (p + Z.of_nat i - p)) with i by lia.
Qed.

Lemma blit_snoc p l b m : blit p (l ++ [b]) m = blit p l (<[p + Z.of_nat (length l) := b]> m).
Proof.
  apply map_eq. intros q. rewrite !lookup_blit, length_app. simpl.
  destruct (decide (q = p + Z.of_nat (length l))) as [->|Hq].
  - rewrite decide_True, decide_False, lookup_insert_eq by lia.
    rewrite lookup_app_r by lia. by replace (_ - _)%nat with 0%nat by lia.
  - rewrite lookup_insert_ne by done. destruct (decide (p ≤ q < p + Z.of_nat (length l))).
    + rewrite decide_True by lia. by rewrite lookup_app_l by lia.
    + by rewrite decide_False by lia.
Qed.

Lemma blit_app p l1 l2 m : blit p (l1 ++ l2) m = blit (p + Z.of_nat (length l1)) l2 (blit p l1 m).
Proof.
  revert p m. induction l1 as [|b l1 IH]; intros p m; simpl; [by rewrite Z.add_0_r|].
  rewrite IH. f_equal. lia.
Qed.

(** A scan is bounded by the size of the memory. *)
Lemma holds_size m p l : holds m p l → (length l ≤ size m)%nat.
Proof.
  intros H. rewrite <- size_dom.
  set (ps := (λ i, p + Z.of_nat i) <$> seq 0 (length l)).
  assert (length l = size (list_to_set ps : gset Z)) as ->.
  { rewrite size_list_to_set; [by unfold ps; rewrite length_fmap, length_seq|].
    unfold ps. apply NoDup_fmap_2; [intros i j; lia|apply NoDup_seq]. }
  apply subseteq_size. intros q Hq. apply elem_of_list_to_set, list_elem_of_fmap in Hq as (i & -> & Hi).
  apply elem_of_seq in Hi. apply elem_of_dom, (holds_mapped m p l H). lia.
Qed.

Lemma load_ok m p b : m !! p = Some b → load p m = Ok (b, m).
Proof. intros H. unfold load. by rewrite H. Qed.

Lemma store_ok m p b : is_Some (m !! p) → store p b m = Ok (tt, <[p := b]> m).
Proof. intros [c H]. unfold store. by rewrite H. Qed.

Lemma st_then {S A B} (x : ST S A) (f : A → ST S B) s a s' : x s = Ok (a, s') → (x ≫= f) s = f a s'.
Proof. intros H. unfold mbind, st_bind. by rewrite H. Qed.

Lemma assert_ok {S} (b : bool) (s : S) : b = true → assert b s = Ok (tt, s).
Proof. by intros ->. Qed.

(** ** Copying *)

Lemma copy_up_ok l dst src m :
  holds m src l → mapped m dst (length l) → dst ≤ src ∨ src + Z.of_nat (length l) ≤ dst →
  copy_up (length l) dst src m = Ok (dst + Z.of_nat (length l), blit dst l m).
Proof.
  revert dst src m. induction l as [|b l IH]; intros dst src m Hs Hd Ho; simpl.
  - by rewrite Z.add_0_r.
  - apply holds_cons in Hs as [Hb Hs]. apply mapped_S in Hd as [Hd0 Hd]. simpl in Ho.
    rewrite (st_then _ _ _ _ _ (load_ok _ _ _ Hb)), (st_then _ _ _ _ _ (store_ok _ _ b Hd0)).
    rewrite IH; [do 2 f_equal; lia|apply holds_insert; [done|lia]|by apply mapped_insert|lia].
Qed.

Lemma copy_down_ok l dst src m :
  holds m src l → mapped m dst (length l) → src ≤ dst ∨ dst + Z.of_nat (length l) ≤ src →
  copy_down (length l) (dst + Z.of_nat (length l)) (src + Z.of_nat (length l)) m = Ok (dst, blit dst l m).
Proof.
  revert m. induction l as [|b l IH] using rev_ind; intros m Hs Hd Ho.
  - simpl. by rewrite Z.add_0_r.
  - rewrite length_app, Nat.add_1_r in *. cbn [copy_down].
    apply holds_app in Hs as [Hs Hb]. apply holds_cons in Hb as [Hb _].
    replace (src + Z.of_nat (S (length l)) - 1) with (src + Z.of_nat (length l)) by lia.
    replace (dst + Z.of_nat (S (length l)) - 1) with (dst + Z.of_nat (length l)) by lia.
    rewrite (st_then _ _ _ _ _ (load_ok _ _ _ Hb)).
    rewrite <- Nat.add_1_r in Hd. apply mapped_app in Hd as [Hd Hd1]. apply mapped_S in Hd1 as [Hd1 _].
    rewrite (st_then _ _ _ _ _ (store_ok _ _ b Hd1)).
    rewrite IH; [by rewrite blit_snoc|apply holds_insert; [done|lia]|by apply mapped_insert|lia].
Qed.

Lemma nonnull_assert p n : p ≠ 0 ∨ n = 0%nat → negb (p =? 0) || Nat.eqb n 0 = true.
Proof. intros [H| ->]; [by rewrite (proj2 (Z.eqb_neq _ _) H)|by rewrite orb_true_r]. Qed.

Lemma memcpy_ok l dst src m :
  dst ≠ 0 → src ≠ 0 → holds m src l → mapped m dst (length l) →
  dst ≤ src ∨ src + Z.of_nat (length l) ≤ dst →
  memcpy dst src (length l) m = Ok (dst, blit dst l m).
Proof.
  intros Hd Hs Hl Hm Ho. unfold memcpy.
  rewrite !(st_then _ _ _ _ _ (assert_ok _ _ (nonnull_assert _ _ (or_introl _ Hd)))).
  rewrite !(st_then _ _ _ _ _ (assert_ok _ _ (nonnull_assert _ _ (or_introl _ Hs)))).
  by rewrite (st_then _ _ _ _ _ (copy_up_ok _ _ _ _ Hl Hm Ho)).
Qed.

Lemma mapped_blit m q n p l : mapped m q n → mapped (blit p l m) q n.
Proof.
  intros H i Hi. rewrite lookup_blit. case_decide; [|by apply H].
  apply lookup_lt_is_Some_2. lia.
Qed.

Lemma memset_loop_ok n dst v m :
  mapped m dst n → memset_loop n dst v m = Ok (tt, blit dst (replicate n (u8 v)) m).
Proof.
  revert dst m. induction n as [|n IH]; intros dst m Hm; [done|]. apply mapped_S in Hm as [H0 Hm].
  cbn [memset_loop]. rewrite (st_then _ _ _ _ _ (store_ok _ _ (u8 v) H0)).
  by rewrite IH by (by apply mapped_insert).
Qed.

Lemma memset_ok n dst v m :
  dst ≠ 0 → mapped m dst n → memset dst v n m = Ok (dst, blit dst (replicate n (u8 v)) m).
Proof.
  intros Hd Hm. unfold memset.
  rewrite (st_then _ _ _ _ _ (assert_ok _ _ (nonnull_assert _ _ (or_introl _ Hd)))).
  by rewrite (st_then _ _ _ _ _ (memset_loop_ok n dst v m Hm)).
Qed.

(** ** Scanning *)

Lemma cstr_cons m p c s : cstr m p (c :: s) ↔ m !! p = Some c ∧ c ≠ 0 ∧ cstr m (p + 1) s.
Proof.
  unfold cstr. simpl. rewrite holds_cons, not_elem_of_cons. naive_solver.
Qed.

Lemma cstr_nil m p : cstr m p [] ↔ m !! p = Some 0.
Proof.
  unfold cstr. simpl. rewrite holds_cons. split; [tauto|]. intros H. split; [split; [done|by intros i b]|].
  apply not_elem_of_nil.
Qed.

Lemma cstr_fuel m p s : cstr m p s → (length s < S (size m))%nat.
Proof. intros [H _]. apply holds_size in H. rewrite length_app in H. simpl in H. lia. Qed.

Lemma strlen_loop_ok fuel m string p s :
  cstr m p s → (length s < fuel)%nat →
  strlen_loop fuel string p m = Ok (p + Z.of_nat (length s) - string, m).
Proof.
  revert p s. induction fuel as [|fuel IH]; intros p s Hs Hf; [lia|]. destruct s as [|c s].
  - apply cstr_nil in Hs. cbn [strlen_loop]. rewrite (st_then _ _ _ _ _ (load_ok _ _ _ Hs)). simpl.
    by rewrite Z.add_0_r.
  - apply cstr_cons in Hs as (Hc & Hc0 & Hs). cbn [strlen_loop].
    rewrite (st_then _ _ _ _ _ (load_ok _ _ _ Hc)), (proj2 (Z.eqb_neq _ _) Hc0). simpl in Hf.
    rewrite (IH _ s Hs) by lia. do 2 f_equal. simpl. lia.
Qed.

Lemma nonnull p : p ≠ 0 → negb (p =? 0) = true.
Proof. intros H. by rewrite (proj2 (Z.eqb_neq _ _) H). Qed.

Lemma scan_fuel_run m : scan_fuel m = Ok (S (size m), m).
Proof. done. Qed.

Lemma strlen_ok m p s : p ≠ 0 → cstr m p s → strlen p m = Ok (Z.of_nat (length s), m).
Proof.
  intros Hp Hs. unfold strlen. rewrite (st_then _ _ _ _ _ (assert_ok _ m (nonnull p Hp))).
  rewrite (st_then _ _ _ _ _ (scan_fuel_run m)).
  rewrite (strlen_loop_ok _ _ _ _ s Hs) by (by eapply cstr_fuel). do 2 f_equal. lia.
Qed.

(** [strchr] finds the first occurrence of a character, or the terminating null. *)
Lemma strchr_loop_ok fuel m p c s :
  cstr m p s → (length s < fuel)%nat →
  ∃ o, strchr_loop fuel p c m = Ok (o, m) ∧
       match o with
       | Some q => ∃ i, q = p + Z.of_nat i ∧ (s ++ [0]) !! i = Some c ∧ ∀ j, (j < i)%nat → s !! j ≠ Some c
       | None => c ≠ 0 ∧ c ∉ s
       end.
Proof.
  revert p s. induction fuel as [|fuel IH]; intros p s Hs Hf; [lia|]. destruct s as [|b s].
  - apply cstr_nil in Hs. cbn [strchr_loop]. rewrite (st_then _ _ _ _ _ (load_ok _ _ _ Hs)).
    destruct (Z.eqb_spec 0 c) as [<-|Hc].
    + exists (Some p). split; [done|]. exists 0%nat. rewrite Z.add_0_r. split; [done|]. split; [done|lia].
    + exists None. split; [done|]. split; [done|apply not_elem_of_nil].
  - apply cstr_cons in Hs as (Hb & Hb0 & Hs). cbn [strchr_loop].
    rewrite (st_then _ _ _ _ _ (load_ok _ _ _ Hb)). destruct (Z.eqb_spec b c) as [->|Hbc].
    + exists (Some p). split; [done|]. exists 0%nat. rewrite Z.add_0_r. split; [done|]. split; [done|lia].
    + rewrite (proj2 (Z.eqb_neq _ _) Hb0). simpl in Hf.
      destruct (IH _ s Hs ltac:(lia)) as (o & -> & Ho). exists o. split; [done|]. destruct o as [q|].
      * destruct Ho as (i & -> & Hi & Hj). exists (S i). split; [lia|]. split; [done|].
        intros [|j] Hlt; simpl; [congruence|]. apply Hj. lia.
      * destruct Ho as [H0 Hn]. split; [done|]. apply not_elem_of_cons. split; [congruence|done].
Qed.

Lemma in_set_ok m d ds c :
  d ≠ 0 → cstr m d ds → is_u8 c → in_set d c m = Ok (bool_decide (c = 0 ∨ c ∈ ds), m).
Proof.
  intros Hd Hs Hc. unfold in_set, strchr. rewrite u8_small by done.
  destruct (strchr_loop_ok (S (size m)) m d c ds Hs (cstr_fuel _ _ _ Hs)) as (o & Ho & Hspec).
  erewrite st_then; [|rewrite (st_then _ _ _ _ _ (assert_ok _ m (nonnull d Hd)));
                      rewrite (st_then _ _ _ _ _ (scan_fuel_run m)); exact Ho].
  unfold mret, st_ret. do 2 f_equal. destruct o as [q|].
  - destruct Hspec as (i & _ & Hi & _). symmetry. apply bool_decide_eq_true_2.
    apply list_elem_of_lookup_2, elem_of_app in Hi. rewrite list_elem_of_singleton in Hi. tauto.
  - symmetry. apply bool_decide_eq_false_2. tauto.
Qed.

(** ** Tokens *)

(** The maximal runs of non-delimiters; [cur] is the run being read. *)
Fixpoint tokens_from (ds cur s : list Z) : list (list Z) :=
  let flush := if bool_decide (cur = []) then [] else [cur] in
  match s with
  | [] => flush
  | c :: s => if bool_decide (c ∈ ds) then flush ++ tokens_from ds [] s else tokens_from ds (cur ++ [c]) s
  end.

Definition tokens (ds s : list Z) : list (list Z) := tokens_from ds [] s.

Definition bytes (s : list Z) : Prop := Forall is_u8 s.

Lemma skip_delims_ok fuel m p d ds s :
  d ≠ 0 → cstr m d ds → cstr m p s → bytes s → (length s < fuel)%nat →
  ∃ pre rest, s = pre ++ rest ∧ tokens ds s = tokens ds rest ∧
    skip_delims fuel p d m = Ok ((p + Z.of_nat (length pre), bool_decide (rest = [])), m) ∧
    match rest with [] => True | c :: _ => c ∉ ds end.
Proof.
  intros Hd Hds. revert p s. induction fuel as [|fuel IH]; intros p s Hs Hb Hf; [lia|]. destruct s as [|c s].
  - exists [], []. split; [done|]. split; [done|]. split; [|done]. simpl. rewrite Z.add_0_r.
    apply cstr_nil in Hs. rewrite (st_then _ _ _ _ _ (load_ok _ _ _ Hs)).
    by rewrite (st_then _ _ _ _ _ (in_set_ok m d ds 0 Hd Hds ltac:(done))).
  - apply cstr_cons in Hs as (Hc & Hc0 & Hs). apply Forall_cons in Hb as [Hcb Hb]. cbn [skip_delims].
    rewrite (st_then _ _ _ _ _ (load_ok _ _ _ Hc)).
    rewrite (st_then _ _ _ _ _ (in_set_ok m d ds c Hd Hds Hcb)). case_bool_decide as Hin.
    + destruct Hin as [?|Hin]; [done|]. rewrite (proj2 (Z.eqb_neq _ _) Hc0). simpl in Hf.
      destruct (IH _ s Hs Hb ltac:(lia)) as (pre & rest & -> & Ht & Hr & Hh).
      exists (c :: pre), rest. split; [done|]. split; [|split; [|done]].
      * rewrite <- Ht. unfold tokens. simpl. by rewrite bool_decide_eq_true_2.
      * rewrite Hr. do 3 f_equal. simpl. lia.
    + exists [], (c :: s). rewrite Z.add_0_r. split; [done|]. split; [done|]. split; [done|]. tauto.
Qed.

Lemma tokens_from_app ds cur tok s :
  Forall (λ c, c ∉ ds) tok → tokens_from ds cur (tok ++ s) = tokens_from ds (cur ++ tok) s.
Proof.
  intros Ht. revert cur. induction Ht as [|c tok Hc _ IH]; intros cur; simpl; [by rewrite app_nil_r|].
  rewrite bool_decide_eq_false_2 by done. by rewrite IH, <- app_assoc.
Qed.

Lemma skip_token_ok fuel m p d ds s :
  d ≠ 0 → cstr m d ds → cstr m p s → bytes s → (length s < fuel)%nat →
  ∃ tok rest, s = tok ++ rest ∧ Forall (λ c, c ∉ ds) tok ∧
    skip_token fuel p d m = Ok (p + Z.of_nat (length tok), m) ∧
    match rest with [] => True | c :: _ => c ∈ ds end.
Proof.
  intros Hd Hds. revert p s. induction fuel as [|fuel IH]; intros p s Hs Hb Hf; [lia|]. destruct s as [|c s].
  - exists [], []. split; [done|]. split; [constructor|]. split; [|done]. simpl. rewrite Z.add_0_r.
    apply cstr_nil in Hs. rewrite (st_then _ _ _ _ _ (load_ok _ _ _ Hs)).
    by rewrite (st_then _ _ _ _ _ (in_set_ok m d ds 0 Hd Hds ltac:(done))).
  - apply cstr_cons in Hs as (Hc & Hc0 & Hs). apply Forall_cons in Hb as [Hcb Hb]. cbn [skip_token].
    rewrite (st_then _ _ _ _ _ (load_ok _ _ _ Hc)).
    rewrite (st_then _ _ _ _ _ (in_set_ok m d ds c Hd Hds Hcb)). case_bool_decide as Hin.
    + destruct Hin as [?|Hin]; [done|]. exists [], (c :: s). rewrite Z.add_0_r.
      split; [done|]. split; [constructor|]. split; done.
    + simpl in Hf. destruct (IH _ s Hs Hb ltac:(lia)) as (tok & rest & -> & Ht & Hr & Hh).
      exists (c :: tok), rest. split; [done|]. split; [constructor; [tauto|done]|]. split; [|done].
      rewrite Hr. do 2 f_equal. simpl. lia.
Qed.

Lemma cstr_app m p s1 s2 : cstr m p (s1 ++ s2) → cstr m (p + Z.of_nat (length s1)) s2.
Proof.
  intros [H Hn]. rewrite <- app_assoc in H. apply holds_app in H as [_ H]. split; [done|].
  intros Hc. apply Hn, elem_of_app. by right.
Qed.

Lemma cstr_insert m p s q b :
  cstr m p s → q < p ∨ p + Z.of_nat (length s) < q → cstr (<[q := b]> m) p s.
Proof. intros [H Hn] Hq. split; [|done]. apply holds_insert; [done|]. rewrite length_app. simpl. lia. Qed.

(** One call: no token is left, or the first one, made a string of its own, and the
    position after it. *)
Lemma strtok_r_ok m o p d ds s save :
  default save o = p → 0 < p → d ≠ 0 → cstr m d ds → cstr m p s → bytes s →
  d + Z.of_nat (length ds) < p ∨ p + Z.of_nat (length s) < d →
  match tokens ds s with
  | [] => ∃ save', strtok_r o d save m = Ok ((None, save'), m)
  | t :: ts => ∃ q save' m' s', strtok_r o d save m = Ok ((Some q, save'), m') ∧
      cstr m' q t ∧ cstr m' save' s' ∧ cstr m' d ds ∧ tokens ds s' = ts ∧ bytes s' ∧
      p ≤ q ∧ (s' = [] ∨ q + Z.of_nat (length t) < save') ∧
      p < save' ∧ save' + Z.of_nat (length s') ≤ p + Z.of_nat (length s) ∧
      (length s' < length s)%nat ∧ (∀ x, x < p → m' !! x = m !! x)
  end.
Proof.
  intros Ho Hp Hd Hds Hs Hb Hdisj. pose proof (cstr_fuel _ _ _ Hs) as Hf.
  destruct (skip_delims_ok _ m p d ds s Hd Hds Hs Hb Hf) as (pre & rest & -> & -> & Hsk & Hh).
  apply Forall_app in Hb as [_ Hb]. pose proof (cstr_app _ _ _ _ Hs) as Hs1.
  rewrite length_app in Hf, Hdisj |- *. set (q := p + Z.of_nat (length pre)) in *.
  assert (strtok_r o d save m = (if bool_decide (rest = []) then mret (None, q) else
    s ← skip_token (S (size m)) q d; b ← load s;
    if negb (b =? 0) then store s 0;; mret (Some q, s + 1) else mret (Some q, s)) m) as ->.
  { unfold strtok_r. rewrite (st_then _ _ _ _ _ (assert_ok _ m (nonnull d Hd))). cbn zeta. rewrite Ho.
    rewrite (st_then _ _ _ _ _ (assert_ok _ m (nonnull p ltac:(lia)))).
    rewrite (st_then _ _ _ _ _ (scan_fuel_run m)), (st_then _ _ _ _ _ Hsk). by case_bool_decide. }
  destruct rest as [|c0 rest0]; [by exists q|]. rewrite bool_decide_eq_false_2 by done.
  destruct (skip_token_ok (S (size m)) m q d ds _ Hd Hds Hs1 Hb ltac:(simpl in *; lia)) as (tok & rest & Heq & Htok & Hst & Hh2).
  rewrite Heq in Hs1, Hb, Hf, Hdisj |- *. rewrite length_app in Hf, Hdisj |- *.
  rewrite (st_then _ _ _ _ _ Hst). apply Forall_app in Hb as [_ Hb].
  assert (tok ≠ []) as Htne by (intros ->; simpl in Heq; subst rest; done).
  assert (0 < length tok)%nat as Htl by (destruct tok; [done|simpl; lia]).
  pose proof (cstr_app _ _ _ _ Hs1) as Hs2. destruct Hs1 as [Hh1 Hn1].
  rewrite <- app_assoc in Hh1. apply holds_app in Hh1 as [Hh1 Hh1'].
  assert (0 ∉ tok) as Hnt by (intros Hc; apply Hn1, elem_of_app; by left).
  unfold tokens. rewrite tokens_from_app by done. cbn [app]. destruct rest as [|c rest].
  - cbn [tokens_from]. rewrite bool_decide_eq_false_2 by done. apply cstr_nil in Hs2.
    rewrite (st_then _ _ _ _ _ (load_ok _ _ _ Hs2)). cbn [negb Z.eqb].
    exists q, (q + Z.of_nat (length tok)), m, []. split; [done|].
    split; [split; [apply holds_app; by split|done]|]. split; [by apply cstr_nil|].
    split; [done|]. split; [done|]. split; [constructor|]. simpl. split_and!; (lia || done || by left).
  - cbn [tokens_from]. rewrite (bool_decide_eq_true_2 (c ∈ ds)) by done.
    rewrite bool_decide_eq_false_2 by done. apply cstr_cons in Hs2 as (Hc & Hc0 & Hs2).
    rewrite (st_then _ _ _ _ _ (load_ok _ _ _ Hc)), (nonnull c Hc0).
    rewrite (st_then _ _ _ _ _ (store_ok _ _ 0 ltac:(eauto))). apply Forall_cons in Hb as [_ Hb].
    simpl length in *. exists q, (q + Z.of_nat (length tok) + 1). eexists _, rest. split; [done|].
    split; [split; [|done]; apply holds_app; split; [apply holds_insert; [done|lia]|]|].
    { apply holds_cons. split; [apply lookup_insert_eq|by intros i b]. }
    split; [apply cstr_insert; [done|lia]|]. split; [apply cstr_insert; [done|lia]|].
    split; [done|]. split; [done|]. split; [lia|]. split; [right; lia|].
    split; [lia|]. split; [lia|]. split; [lia|]. intros x Hx. apply lookup_insert_ne. lia.
Qed.

(** The loop around [strtok_r] that its documentation shows. *)
Fixpoint tokenize (fuel : nat) (o : option Z) (d save : Z) : ST mem (list Z) :=
  match fuel with
  | O => fail OutOfFuel
  | S fuel =>
      '(t, save) ← strtok_r o d save;
      match t with
      | None => mret []
      | Some q => qs ← tokenize fuel None d save; mret (q :: qs)
      end
  end.

Lemma cstr_agree m m' p s :
  cstr m p s → (∀ x, p ≤ x ≤ p + Z.of_nat (length s) → m' !! x = m !! x) → cstr m' p s.
Proof.
  intros [H Hn] Ha. split; [|done]. intros i b Hb. pose proof (lookup_lt_Some _ _ _ Hb) as Hi.
  rewrite length_app in Hi. simpl in Hi. rewrite Ha by lia. by apply H.
Qed.

Lemma tokenize_ok fuel m o p d ds s save :
  default save o = p → 0 < p → d ≠ 0 → cstr m d ds → cstr m p s → bytes s →
  d + Z.of_nat (length ds) < p ∨ p + Z.of_nat (length s) < d → (length s < fuel)%nat →
  ∃ qs m', tokenize fuel o d save m = Ok (qs, m') ∧ Forall2 (cstr m') qs (tokens ds s) ∧
           (tokens ds s = [] → m' = m) ∧ ∀ x, x < p → m' !! x = m !! x.
Proof.
  revert m o p s save. induction fuel as [|fuel IH]; intros m o p s save Ho Hp Hd Hds Hs Hb Hdisj Hf; [lia|].
  pose proof (strtok_r_ok m o p d ds s save Ho Hp Hd Hds Hs Hb Hdisj) as Hstep. cbn [tokenize].
  destruct (tokens ds s) as [|t ts].
  - destruct Hstep as (save' & Hr). rewrite (st_then _ _ _ _ _ Hr). exists [], m. by split_and!.
  - destruct Hstep as (q & save' & m1 & s' & Hr & Hq & Hs' & Hd' & Hts & Hb' & Hpq & Hqs & Hps & Hend & Hlen & Hfr).
    rewrite (st_then _ _ _ _ _ Hr).
    destruct (IH m1 None save' s' save') as (qs & m' & Hr' & Hall & Hsame & Hfr'); try (done || lia).
    rewrite (st_then _ _ _ _ _ Hr'). exists (q :: qs), m'. split; [done|]. rewrite Hts in Hall, Hsame.
    split; [|split; [done|]].
    + constructor; [|done]. destruct Hqs as [->|Hqs].
      * rewrite Hsame; [done|]. by rewrite <- Hts.
      * apply (cstr_agree m1); [done|]. intros x Hx. apply Hfr'. lia.
    + intros x Hx. rewrite Hfr' by lia. by apply Hfr.
Qed.

(** ** Comparison *)

Fixpoint lex (a b : list Z) : Z :=
  match a, b with
  | x :: a, y :: b => if x =? y then lex a b else if y <? x then 1 else -1
  | _, _ => 0
  end.

Lemma memcmp_loop_ok m a b la lb :
  holds m a la → holds m b lb → length lb = length la → memcmp_loop (length la) a b m = Ok (lex la lb, m).
Proof.
  revert a b lb. induction la as [|x la IH]; intros a b [|y lb] Ha Hb Hl; simplify_eq/=; [done|].
  apply holds_cons in Ha as [Hx Ha], Hb as [Hy Hb].
  rewrite (st_then _ _ _ _ _ (load_ok _ _ _ Hx)), (st_then _ _ _ _ _ (load_ok _ _ _ Hy)).
  destruct (Z.eqb_spec x y); simpl; [by apply IH|done].
Qed.

Lemma strcmp_loop_ok fuel m a b sa sb :
  cstr m a sa → cstr m b sb → bytes sa → bytes sb → (length sa < fuel)%nat →
  strcmp_loop fuel a b m = Ok (lex (sa ++ [0]) (sb ++ [0]), m).
Proof.
  intros Ha Hb Hua Hub. revert a b sb Ha Hb Hub.
  revert fuel. induction Hua as [|x sa Hx _ IH]; intros fuel a b sb Ha Hb Hub Hf;
    (destruct fuel as [|fuel]; [simpl in Hf; lia|]); cbn [strcmp_loop].
  - apply cstr_nil in Ha. rewrite (st_then _ _ _ _ _ (load_ok _ _ _ Ha)). destruct Hub as [|y sb Hy _].
    + apply cstr_nil in Hb. by rewrite (st_then _ _ _ _ _ (load_ok _ _ _ Hb)).
    + apply cstr_cons in Hb as (Hb & Hy0 & _). rewrite (st_then _ _ _ _ _ (load_ok _ _ _ Hb)).
      cbn [app lex]. rewrite Z.eqb_refl. cbn [negb andb].
      unfold is_u8 in Hy. rewrite (proj2 (Z.eqb_neq 0 y)), (proj2 (Z.ltb_lt 0 y)), (proj2 (Z.ltb_ge y 0)) by lia. done.
  - apply cstr_cons in Ha as (Ha & Hx0 & Hsa). rewrite (st_then _ _ _ _ _ (load_ok _ _ _ Ha)).
    destruct Hub as [|y sb Hy Hub].
    + apply cstr_nil in Hb. rewrite (st_then _ _ _ _ _ (load_ok _ _ _ Hb)). cbn [app lex]. unfold is_u8 in Hx.
      rewrite (nonnull x Hx0). cbn [andb]. rewrite (proj2 (Z.eqb_neq x 0)), (proj2 (Z.ltb_lt 0 x)), (proj2 (Z.ltb_ge x 0)) by lia. done.
    + apply cstr_cons in Hb as (Hb & Hy0 & Hsb). rewrite (st_then _ _ _ _ _ (load_ok _ _ _ Hb)).
      rewrite (nonnull x Hx0). cbn [andb app lex]. simpl in Hf. destruct (Z.eqb_spec x y) as [->|Hne].
      * apply IH; (done || lia).
      * destruct (Z.ltb_spec x y), (Z.ltb_spec y x); (done || lia).
Qed.

(** [lex] is zero exactly on equal lists of the same length, and changes sign with the
    order of its arguments. *)
Lemma lex_zero a b : length a = length b → lex a b = 0 ↔ a = b.
Proof.
  revert b. induction a as [|x a IH]; intros [|y b] Hl; simplify_eq/=; [done|].
  destruct (Z.eqb_spec x y) as [->|Hne]; [rewrite IH by done; naive_solver|].
  split; [zcase; lia|congruence].
Qed.

Lemma lex_flip a b : lex b a = - lex a b.
Proof.
  revert b. induction a as [|x a IH]; intros [|y b]; simpl; try done.
  rewrite (Z.eqb_sym y x). destruct (Z.eqb_spec x y); [apply IH|]. do 2 zcase; lia.
Qed.

Lemma take_min_length (s : list Z) n : take (Nat.min (length s) n) s = take n s.
Proof.
  destruct (decide (n ≤ length s)%nat); [by rewrite Nat.min_r by lia|].
  by rewrite Nat.min_l, !take_ge by lia.
Qed.

(** The copy both functions end with. *)
Lemma bounded_copy_ok m dst src s size :
  0 < dst → 0 < src → cstr m src s → mapped m dst (Z.to_nat size) →
  src + Z.of_nat (length s) < dst ∨ dst + size ≤ src →
  ∀ n off, (n ≤ length s)%nat → 0 ≤ off → off + Z.of_nat n < size →
    (memcpy (dst + off) src n;; store (dst + off + Z.of_nat n) 0) m
    = Ok (tt, blit (dst + off) (take n s ++ [0]) m).
Proof.
  intros Hd Hs Hsrc Hm Hdisj. intros n off Hn Hoff Hlt. destruct Hsrc as [Hh _]. apply holds_app in Hh as [Hh _].
  rewrite <- (take_drop n s) in Hh at 1. apply holds_app in Hh as [Hh _].
  assert (length (take n s) = n) as Hl by (rewrite length_take; lia).
  assert (∀ k, (k ≤ n)%nat → is_Some (m !! (dst + off + Z.of_nat k))) as Hmk.
  { intros k Hk. specialize (Hm (Z.to_nat off + k)%nat).
    replace (dst + off + Z.of_nat k) with (dst + Z.of_nat (Z.to_nat off + k)) by lia. apply Hm. lia. }
  rewrite <- Hl at 1. erewrite st_then.
  2: { apply memcpy_ok; [lia|lia|done| |rewrite Hl; lia]. intros k Hk. apply Hmk. lia. }
  rewrite store_ok.
  - rewrite blit_app, Hl. done.
  - rewrite lookup_blit, decide_False by lia. by apply Hmk.
Qed.

(** ** Claims *)

(** memmove.  For any two blocks, overlapping or not, [memmove] leaves in the
    destination what the source held before the call and changes nothing else.  (It
    returns a pointer past the destination when that lies below the source, where its
    documentation promises the destination.) *)
Theorem memmove_correct m dst src l :
  dst ≠ 0 → src ≠ 0 → holds m src l → mapped m dst (length l) →
  memmove dst src (length l) m =
  Ok (if dst <? src then dst + Z.of_nat (length l) else dst, blit dst l m).
Proof.
  intros Hd Hs Hl Hm. unfold memmove.
  rewrite !(st_then _ _ _ _ _ (assert_ok _ _ (nonnull_assert _ _ (or_introl _ Hd)))).
  rewrite !(st_then _ _ _ _ _ (assert_ok _ _ (nonnull_assert _ _ (or_introl _ Hs)))).
  zcase; [apply copy_up_ok|apply copy_down_ok]; (done || lia).
Qed.

(** Ten bytes at address 100. *)
Definition ten_bytes : mem := blit 100 [1; 2; 3; 4; 5; 6; 7; 8; 9; 10] ∅.

Lemma memmove_correct_witness :
  memmove 100 102 5 ten_bytes = Ok (105, blit 100 [3; 4; 5; 6; 7] ten_bytes) ∧
  memmove 102 100 5 ten_bytes = Ok (102, blit 102 [1; 2; 3; 4; 5] ten_bytes).
Proof.
  assert (∀ p l, (p, l) ∈ [(102, [3; 4; 5; 6; 7]); (100, [1; 2; 3; 4; 5])] → holds ten_bytes p l) as Hh.
  { intros p l Hp. repeat (apply elem_of_cons in Hp as [[= -> ->]|Hp]);
      [| |by apply elem_of_nil in Hp];
      intros i b Hb; do 5 (destruct i as [|i]; [by injection Hb as <-|]); done. }
  split.
  - apply (memmove_correct ten_bytes 100 102 [3; 4; 5; 6; 7]); [done|done|apply Hh; left|].
    apply (holds_mapped ten_bytes 100 [1; 2; 3; 4; 5]), Hh. right. left.
  - apply (memmove_correct ten_bytes 102 100 [1; 2; 3; 4; 5]); [done|done|apply Hh; right; left|].
    apply (holds_mapped ten_bytes 102 [3; 4; 5; 6; 7]), Hh. left.
Defined.

(** strtok_r.  Called as documented until it returns a null pointer, [strtok_r]
    returns, in order, a pointer to each maximal run of characters that are not
    delimiters; at the end each of them is a null-terminated string, and nothing before
    the string has changed.  Empty tokens are never returned. *)
Theorem strtok_r_tokens m p d ds s :
  0 < p → d ≠ 0 → cstr m d ds → cstr m p s → bytes s →
  d + Z.of_nat (length ds) < p ∨ p + Z.of_nat (length s) < d →
  ∃ qs m', tokenize (S (length s)) (Some p) d 0 m = Ok (qs, m') ∧ Forall2 (cstr m') qs (tokens ds s) ∧
           ∀ x, x < p → m' !! x = m !! x.
Proof.
  intros Hp Hd Hds Hs Hb Hdisj.
  destruct (tokenize_ok (S (length s)) m (Some p) p d ds s 0) as (qs & m' & H & Ht & _ & Hfr); try (done || lia).
  exists qs, m'. done.
Qed.

(** "  ab c" at address 100, the delimiter " " at 50. *)
Definition a_string : mem := blit 50 [32; 0] (blit 100 [32; 32; 97; 98; 32; 99; 0] ∅).

Lemma strtok_r_tokens_witness :
  ∃ qs m', tokenize 7 (Some 100) 50 0 a_string = Ok (qs, m') ∧ qs = [102; 105] ∧
           Forall2 (cstr m') qs [[97; 98]; [99]].
Proof.
  assert (∀ l p, blit p l a_string = a_string → holds a_string p l) as Hh.
  { intros l p Hl. rewrite <- Hl. apply blit_holds. }
  destruct (strtok_r_tokens a_string 100 50 [32] [32; 32; 97; 98; 32; 99]) as (qs & m' & H & Ht & _).
  - lia.
  - lia.
  - split; [apply Hh; vm_compute; reflexivity|]. rewrite list_elem_of_singleton. lia.
  - split; [apply Hh; vm_compute; reflexivity|]. rewrite !elem_of_cons, elem_of_nil. lia.
  - repeat constructor; lia.
  - left. simpl. lia.
  - exists qs, m'. split; [exact H|]. split; [|exact Ht].
    vm_compute in H. by injection H as <- _.
Defined.

(** strlcpy and strlcat.  With [size] bytes of space at [dst], [strlcpy] stores there
    the first [size] - 1 characters of the source, or all of it, and a terminating null,
    and nothing else; [strlcat] does the same with the concatenation, unless the string
    already there fills the space, when it changes nothing.  Both return the length the
    full result would have. *)
Theorem strlcpy_strlcat m dst src s t size :
  0 < dst → 0 < src → cstr m src s → mapped m dst (Z.to_nat size) → 0 < size →
  src + Z.of_nat (length s) < dst ∨ dst + size ≤ src →
  strlcpy dst src size m =
    Ok (Z.of_nat (length s), blit dst (take (Z.to_nat (size - 1)) s ++ [0]) m) ∧
  (cstr m dst t →
   strlcat dst src size m =
     Ok (Z.of_nat (length s) + Z.of_nat (length t),
         if Z.of_nat (length t) <? size
         then blit (dst + Z.of_nat (length t)) (take (Z.to_nat (size - 1) - length t) s ++ [0]) m
         else m)).
Proof.
  intros Hd Hs Hsrc Hm Hsz Hdisj.
  pose proof (bounded_copy_ok m dst src s size Hd Hs Hsrc Hm Hdisj) as Hcopy.
  assert ((0 <? size) = true) as Hpos by (by apply Z.ltb_lt). split.
  - unfold strlcpy. rewrite (st_then _ _ _ _ _ (assert_ok _ m (nonnull dst ltac:(lia)))).
    rewrite (st_then _ _ _ _ _ (assert_ok _ m (nonnull src ltac:(lia)))).
    rewrite (st_then _ _ _ _ _ (strlen_ok m src s ltac:(lia) Hsrc)), Hpos. cbn zeta.
    set (n := if Z.of_nat (length s) <? size - 1 then Z.of_nat (length s) else size - 1).
    assert (n = Z.of_nat (Nat.min (length s) (Z.to_nat (size - 1)))) as Hn by (unfold n; zcase; lia).
    pose proof (Hcopy (Z.to_nat n) 0) as Hc. rewrite !Z.add_0_r, Z2Nat.id in Hc by lia.
    erewrite st_then by (apply Hc; lia). unfold mret, st_ret. do 3 f_equal. f_equal.
    by rewrite Hn, Nat2Z.id, take_min_length.
  - intros Hdst. unfold strlcat. rewrite (st_then _ _ _ _ _ (assert_ok _ m (nonnull dst ltac:(lia)))).
    rewrite (st_then _ _ _ _ _ (assert_ok _ m (nonnull src ltac:(lia)))).
    rewrite (st_then _ _ _ _ _ (strlen_ok m src s ltac:(lia) Hsrc)).
    rewrite (st_then _ _ _ _ _ (strlen_ok m dst t ltac:(lia) Hdst)), Hpos. cbn [andb].
    destruct (Z.ltb_spec (Z.of_nat (length t)) size) as [Hlt|Hge]; [|by erewrite st_then]. cbn zeta.
    set (k := size - Z.of_nat (length t) - 1).
    set (n := if Z.of_nat (length s) <? k then Z.of_nat (length s) else k).
    assert (n = Z.of_nat (Nat.min (length s) (Z.to_nat k))) as Hn by (unfold n, k; zcase; lia).
    pose proof (Hcopy (Z.to_nat n) (Z.of_nat (length t))) as Hc. rewrite Z2Nat.id in Hc by lia.
    erewrite st_then by (apply Hc; unfold k in *; lia). unfold mret, st_ret. do 3 f_equal. f_equal.
    rewrite Hn, Nat2Z.id, take_min_length. f_equal. unfold k. lia.
Qed.

Lemma strlcpy_strlcat_witness :
  ∃ m', strlcpy 101 50 4 a_string = Ok (1, m') ∧ m' !! 101 = Some 32 ∧ m' !! 102 = Some 0.
Proof.
  assert (∀ l p, blit p l a_string = a_string → holds a_string p l) as Hh.
  { intros l p Hl. rewrite <- Hl. apply blit_holds. }
  destruct (strlcpy_strlcat a_string 101 50 [32] [] 4) as [H _]; [lia|lia| | |lia|left; simpl; lia|].
  - split; [apply Hh; vm_compute; reflexivity|]. rewrite list_elem_of_singleton. lia.
  - apply (holds_mapped a_string 101 [32; 97; 98; 32]), Hh. vm_compute. reflexivity.
  - eexists. split; [exact H|]. split; vm_compute; reflexivity.
Defined.

(** memcmp and strcmp.  Both compare lexicographically by unsigned bytes, [memcmp]
    two blocks of the same size and [strcmp] two null-terminated strings: the result is
    zero exactly when they are equal, and swapping the arguments changes its sign. *)
Theorem string_comparison m a b :
  a ≠ 0 → b ≠ 0 →
  (∀ la lb, holds m a la → holds m b lb → length lb = length la →
     ∃ r, memcmp a b (length la) m = Ok (r, m) ∧ memcmp b a (length la) m = Ok (- r, m) ∧
          (r = 0 ↔ la = lb)) ∧
  (∀ sa sb, cstr m a sa → cstr m b sb → bytes sa → bytes sb →
     ∃ r, strcmp a b m = Ok (r, m) ∧ strcmp b a m = Ok (- r, m) ∧ r = lex (sa ++ [0]) (sb ++ [0])).
Proof.
  intros Ha Hb. split.
  - intros la lb Hla Hlb Hl. exists (lex la lb). unfold memcmp.
    rewrite !(st_then _ _ _ _ _ (assert_ok _ _ (nonnull_assert _ _ (or_introl _ Ha)))).
    rewrite !(st_then _ _ _ _ _ (assert_ok _ _ (nonnull_assert _ _ (or_introl _ Hb)))).
    rewrite !(st_then _ _ _ _ _ (assert_ok _ _ (nonnull_assert _ _ (or_introl _ Ha)))).
    rewrite (memcmp_loop_ok m a b la lb) by done. rewrite <- Hl at 1.
    rewrite (memcmp_loop_ok m b a lb la) by done.
    split; [done|]. split; [by rewrite (lex_flip la lb)|]. by apply lex_zero.
  - intros sa sb Hsa Hsb Hua Hub. exists (lex (sa ++ [0]) (sb ++ [0])). unfold strcmp.
    rewrite (st_then _ _ _ _ _ (assert_ok _ m (nonnull a Ha))), (st_then _ _ _ _ _ (assert_ok _ m (nonnull b Hb))).
    rewrite (st_then _ _ _ _ _ (assert_ok _ m (nonnull b Hb))), (st_then _ _ _ _ _ (assert_ok _ m (nonnull a Ha))).
    rewrite !(st_then _ _ _ _ _ (scan_fuel_run m)).
    rewrite (strcmp_loop_ok _ m a b sa sb) by (done || by eapply cstr_fuel).
    rewrite (strcmp_loop_ok _ m b a sb sa) by (done || by eapply cstr_fuel).
    by rewrite (lex_flip (sa ++ [0])).
Qed.

Lemma string_comparison_witness : ∃ r, memcmp 100 101 3 ten_bytes = Ok (r, ten_bytes) ∧ r = -1.
Proof.
  destruct (string_comparison ten_bytes 100 101 ltac:(done) ltac:(done)) as [H _].
  assert (∀ l p, blit p l ten_bytes = ten_bytes → holds ten_bytes p l) as Hh.
  { intros l p Hl. rewrite <- Hl. apply blit_holds. }
  destruct (H [1; 2; 3] [2; 3; 4]) as (r & Hr & _).
  - apply Hh. vm_compute. reflexivity.
  - apply Hh. vm_compute. reflexivity.
  - done.
  - exists r. split; [exact Hr|]. vm_compute in Hr. by injection Hr as <-.
Defined.
