(* ===== verification/Vaddr.v ===== *)
(** * threads/vaddr.h: virtual addresses

    A page is 4096 bytes; the kernel's addresses are those from [PHYS_BASE] on, where
    physical memory is mapped one to one. *)

From S2P Require Import Prelude.

Definition PGBITS : Z := 12.
Definition PGSIZE : Z := 4096.
Definition PGMASK : Z := 4095.
Definition PHYS_BASE : Z := 3221225472. (* 0xc0000000 *)

Definition pg_ofs (va : Z) : Z := Z.land va PGMASK.
Definition pg_no (va : Z) : Z := Z.shiftr va PGBITS.
Definition pg_round_up (va : Z) : Z := Z.land (u32 (va + PGSIZE - 1)) (Z.lxor (2 ^ 32 - 1) PGMASK).
Definition pg_round_down (va : Z) : Z := Z.land va (Z.lxor (2 ^ 32 - 1) PGMASK).

Definition is_user_vaddr (va : Z) : bool := va <? PHYS_BASE.
Definition is_kernel_vaddr (va : Z) : bool := PHYS_BASE <=? va.

Definition ptov (paddr : Z) : result Z := ASSERT (paddr <? PHYS_BASE);; Ok (u32 (paddr + PHYS_BASE)).
Definition vtop (va : Z) : result Z := ASSERT (is_kernel_vaddr va);; Ok (va - PHYS_BASE).

(** ** Page arithmetic *)

Lemma pg_ofs_mod va : pg_ofs va = va mod PGSIZE.
Proof. unfold pg_ofs, PGMASK, PGSIZE. change 4095 with (Z.ones 12). by rewrite Z.land_ones. Qed.

Lemma pg_no_div va : pg_no va = va / PGSIZE.
Proof. unfold pg_no, PGBITS, PGSIZE. by rewrite Z.shiftr_div_pow2. Qed.

Lemma pg_round_down_eq va : is_u32 va → pg_round_down va = PGSIZE * (va / PGSIZE).
Proof.
  intros Hva. unfold pg_round_down, PGMASK, PGSIZE. change 4095 with (Z.ones 12).
  change (2 ^ 32 - 1) with (Z.ones 32).
  apply Z.bits_inj'. intros n Hn.
  change 4096 with (2 ^ 12). rewrite Z.mul_comm, <- Z.shiftr_div_pow2, <- Z.shiftl_mul_pow2 by lia.
  rewrite Z.land_spec, Z.lxor_spec, Z.shiftl_spec by lia.
  rewrite !Z.testbit_ones_nonneg by lia. destruct (Z.ltb_spec n 12), (Z.ltb_spec n 32); try lia; simpl.
  - by rewrite andb_false_r, Z.testbit_neg_r by lia.
  - rewrite andb_true_r, Z.shiftr_spec by lia. f_equal. lia.
  - rewrite andb_false_r, Z.shiftr_spec by lia. replace (n - 12 + 12) with n by lia.
    destruct (decide (va = 0)) as [->|]; [by rewrite Z.bits_0|].
    symmetry. apply Z.bits_above_log2; [apply Hva|].
    assert (Z.log2 va < 32) by (apply Z.log2_lt_pow2; unfold is_u32 in Hva; lia). lia.
Qed.

(** Physical and kernel virtual addresses are in bijection. *)
Lemma vtop_ptov p : 0 ≤ p < 2 ^ 32 - PHYS_BASE → (ptov p ≫= vtop) = Ok p.
Proof.
  unfold PHYS_BASE. intros Hp. unfold ptov, PHYS_BASE. rewrite (proj2 (Z.ltb_lt _ _)) by lia. simpl.
  unfold vtop, is_kernel_vaddr, PHYS_BASE. rewrite u32_small by (unfold is_u32; lia).
  rewrite (proj2 (Z.leb_le _ _)) by lia. simpl. f_equal. lia.
Qed.

Definition aligned (p : Z) : Prop := p mod PGSIZE = 0.

Lemma aligned_ofs p : aligned p ↔ pg_ofs p = 0.
Proof. by rewrite pg_ofs_mod. Qed.

Lemma aligned_add p k : aligned p → aligned (p + PGSIZE * k).
Proof. unfold aligned. intros H. rewrite Z.mul_comm, Z_mod_plus_full. done. Qed.

Lemma aligned_eq p : aligned p → p = PGSIZE * (p / PGSIZE).
Proof. unfold aligned. intros H. pose proof (Z.div_mod p PGSIZE). unfold PGSIZE in *. lia. Qed.

(** [q] is one of the [cnt] pages at [p]. *)
Definition in_group (p cnt q : Z) : Prop := ∃ i, 0 ≤ i < cnt ∧ q = p + PGSIZE * i.
