(* ===== verification/PageAlloc.v ===== *)
(** * The interface between the page allocator and its clients

    What threads/malloc.c relies on of threads/palloc.c: groups of fresh, aligned pages
    that are memory.  [Palloc] discharges the laws for the kernel pool; [Malloc] is proved
    against them. *)

From S2P Require Import Prelude CString Vaddr.

Class PageAlloc (S : Type) := {
  get_pages : Z → ST S Z;            (* palloc_get_multiple (0, cnt) *)
  free_pages : Z → Z → ST S unit;    (* palloc_free_multiple *)
  memory : S → mem;
  set_memory : mem → S → S;
  pages_ok : S → Prop;
  page_used : S → Z → Prop;
}.

Class PageAllocLaws (S : Type) `{PageAlloc S} : Prop := {
  pa_used (s : S) q : pages_ok s → page_used s q →
    aligned q ∧ 0 < q ∧ q + PGSIZE ≤ 2 ^ 32 ∧ mapped (memory s) q (Z.to_nat PGSIZE);
  pa_get (s : S) cnt : pages_ok s → 0 < cnt < 2 ^ 32 →
    ∃ p s', get_pages cnt s = Ok (p, s') ∧ pages_ok s' ∧ memory s' = memory s ∧
      ((p = 0 ∧ s' = s) ∨
       (p ≠ 0 ∧ (∀ q, in_group p cnt q → ¬ page_used s q) ∧
        ∀ q, page_used s' q ↔ page_used s q ∨ in_group p cnt q));
  pa_get_zero (s : S) : get_pages 0 s = Ok (0, s);
  pa_free (s : S) p cnt : pages_ok s → 0 < cnt → (∀ q, in_group p cnt q → page_used s q) →
    ∃ s', free_pages p cnt s = Ok (tt, s') ∧ pages_ok s' ∧
      (∀ q, page_used s' q ↔ page_used s q ∧ ¬ in_group p cnt q) ∧
      (∀ q n, mapped (memory s) q n → mapped (memory s') q n);
  pa_set (s : S) m : pages_ok s → (∀ q n, mapped (memory s) q n → mapped m q n) →
    pages_ok (set_memory m s) ∧ (∀ q, page_used (set_memory m s) q ↔ page_used s q) ∧
    memory (set_memory m s) = m;
}.
