(* ===== verification/Palloc.v ===== *)
(** * threads/palloc.c: the page allocator

    Two pools of pages, each with a bitmap of the pages in use; memory itself is the byte
    map of [CString], cleared and scrubbed with its [memset].  The pools' locks order the
    callers and carry no data. *)

From S2P Require Import Prelude Bytes CString Bitmap Vaddr PageAlloc.

Record pool : Type := Pool { used_map : bitmap; base : Z }.

Record palloc : Type := Palloc { kernel_pool : pool; user_pool : pool; ram : mem }.

Definition PAL_ASSERT : Z := 1.
Definition PAL_ZERO : Z := 2.
Definition PAL_USER : Z := 4.

Definition has_flag (flags f : Z) : bool := negb (Z.land flags f =? 0).

Definition set_kernel_pool (p : pool) (s : palloc) : palloc := Palloc p (user_pool s) (ram s).
Definition set_user_pool (p : pool) (s : palloc) : palloc := Palloc (kernel_pool s) p (ram s).
Definition set_ram (m : mem) (s : palloc) : palloc := Palloc (kernel_pool s) (user_pool s) m.

(** Run code on memory alone. *)
Definition on_ram {A} (f : ST mem A) : ST palloc A := λ s,
  match f (ram s) with Ok (a, m) => Ok (a, set_ram m s) | Err e => Err e end.

(** The pool a page group comes from: [true] for the user pool. *)
Definition get_pool (user : bool) (s : palloc) : pool := if user then user_pool s else kernel_pool s.
Definition put_map (user : bool) (b : bitmap) (s : palloc) : palloc :=
  if user then set_user_pool (Pool b (base (user_pool s))) s
  else set_kernel_pool (Pool b (base (kernel_pool s))) s.

(** ** Initialisation *)

(** [junk] is what the memory of the bitmap holds. *)
Definition init_pool (pbase page_cnt : Z) (junk : list Z) : result pool :=
  let bm_pages := DIV_ROUND_UP (bitmap_buf_size page_cnt) PGSIZE in
  if page_cnt <? bm_pages then Err Panicked
  else
    let page_cnt := page_cnt - bm_pages in
    b ← bitmap_create_in_buf page_cnt junk (bm_pages * PGSIZE);
    Ok (Pool b (pbase + bm_pages * PGSIZE)).

Definition palloc_init (init_ram_pages user_page_limit : Z) (junk_k junk_u : list Z) (m : mem) : result palloc :=
  free_start ← ptov (1024 * 1024);
  free_end ← ptov (init_ram_pages * PGSIZE);
  let free_pages := (free_end - free_start) / PGSIZE in
  let user_pages := free_pages / 2 in
  let user_pages := if user_page_limit <? user_pages then user_page_limit else user_pages in
  let kernel_pages := free_pages - user_pages in
  k ← init_pool free_start kernel_pages junk_k;
  u ← init_pool (free_start + kernel_pages * PGSIZE) user_pages junk_u;
  Ok (Palloc k u m).

(** ** Allocation *)

(** The address of the group, 0 for a null pointer. *)
Definition palloc_get_multiple (flags page_cnt : Z) : ST palloc Z :=
  let user := has_flag flags PAL_USER in
  if page_cnt =? 0 then mret 0
  else
    p ← gets (get_pool user);
    '(page_idx, b) ← lift (bitmap_scan_and_flip (used_map p) 0 page_cnt false);
    modify (put_map user b);;
    let pages := if negb (page_idx =? BITMAP_ERROR) then u32 (base p + u32 (PGSIZE * page_idx)) else 0 in
    (if negb (pages =? 0) then
       if has_flag flags PAL_ZERO
       then on_ram (memset pages 0 (Z.to_nat (u32 (PGSIZE * page_cnt))));; mret tt
       else mret tt
     else if has_flag flags PAL_ASSERT then fail Panicked else mret tt);;
    mret pages.

Definition palloc_get_page (flags : Z) : ST palloc Z := palloc_get_multiple flags 1.

(** ** Release *)

Definition page_from_pool (p : pool) (page : Z) : bool :=
  let page_no := pg_no page in
  let start_page := pg_no (base p) in
  let end_page := start_page + bitmap_size (used_map p) in
  (start_page <=? page_no) && (page_no <? end_page).

Definition palloc_free_multiple (pages page_cnt : Z) : ST palloc unit :=
  assert (pg_ofs pages =? 0);;
  if (pages =? 0) || (page_cnt =? 0) then mret tt
  else
    k ← gets (get_pool false);
    u ← gets (get_pool true);
    user ← (if page_from_pool k pages then mret false
            else if page_from_pool u pages then mret true
            else fail Panicked);
    p ← gets (get_pool user);
    let page_idx := pg_no pages - pg_no (base p) in
    on_ram (memset pages 204 (Z.to_nat (u32 (PGSIZE * page_cnt))));;
    a ← lift (bitmap_all (used_map p) page_idx page_cnt); assert a;;
    b ← lift (bitmap_set_multiple (used_map p) page_idx page_cnt false);
    modify (put_map user b).

Definition palloc_free_page (page : Z) : ST palloc unit := palloc_free_multiple page 1.

(** ** The invariant *)

Record pool_ok (p : pool) : Prop := {
  p_wf : wf (used_map p);
  p_align : aligned (base p);
  p_base : 0 < base p;
  p_end : base p + PGSIZE * bit_cnt (used_map p) ≤ 2 ^ 32;
}.

Definition pool_end (p : pool) : Z := base p + PGSIZE * bit_cnt (used_map p).

(** Both pools are well formed, the kernel's below the user's, and their pages are memory. *)
Record alloc_ok (s : palloc) : Prop := {
  a_kernel : pool_ok (kernel_pool s);
  a_user : pool_ok (user_pool s);
  a_apart : pool_end (kernel_pool s) ≤ base (user_pool s);
  a_ram : ∀ u i, 0 ≤ i < bit_cnt (used_map (get_pool u s)) →
                 mapped (ram s) (base (get_pool u s) + PGSIZE * i) (Z.to_nat PGSIZE);
}.

(** Page [q] of the pool is allocated. *)
Definition used (u : bool) (s : palloc) (q : Z) : Prop :=
  ∃ i, 0 ≤ i < bit_cnt (used_map (get_pool u s)) ∧ q = base (get_pool u s) + PGSIZE * i ∧
       bit (used_map (get_pool u s)) i = true.

Lemma a_pool s u : alloc_ok s → pool_ok (get_pool u s).
Proof. intros Hs. destruct u; apply Hs. Qed.

Lemma get_put_map u v b s :
  get_pool v (put_map u b s) = if eqb u v then Pool b (base (get_pool v s)) else get_pool v s.
Proof. by destruct u, v. Qed.

Lemma ram_put_map u b s : ram (put_map u b s) = ram s.
Proof. by destruct u. Qed.

(** Replacing the bitmap of a pool by another of the same size keeps the invariant, and so
    does writing to memory. *)
Lemma alloc_ok_update u b m s :
  alloc_ok s → wf b → bit_cnt b = bit_cnt (used_map (get_pool u s)) →
  (∀ q n, mapped (ram s) q n → mapped m q n) → alloc_ok (set_ram m (put_map u b s)).
Proof.
  intros [Hk Hu Ha Hr] Hwf Hc Hm. unfold pool_end in *. destruct u; simpl in *.
  - destruct Hu. split; simpl; try done; [split; simpl; try done; by rewrite Hc|].
    intros [] i Hi; simpl in *; apply Hm; [apply (Hr true); simpl; lia|by apply (Hr false)].
  - destruct Hk. split; simpl; try done; [split; simpl; try done; by rewrite Hc| |].
    + unfold pool_end. simpl. by rewrite Hc.
    + intros [] i Hi; simpl in *; apply Hm; [by apply (Hr true)|apply (Hr false); simpl; lia].
Qed.

(** A group of pages of one pool is one block of memory. *)
Lemma group_mapped s u i cnt :
  alloc_ok s → 0 ≤ i → 0 ≤ cnt → i + cnt ≤ bit_cnt (used_map (get_pool u s)) →
  mapped (ram s) (base (get_pool u s) + PGSIZE * i) (Z.to_nat (PGSIZE * cnt)).
Proof.
  intros Hs Hi Hc Hle k Hk. set (j := i + Z.of_nat k / PGSIZE).
  assert (0 ≤ Z.of_nat k / PGSIZE < cnt) as Hj.
  { split; [apply Z.div_pos; unfold PGSIZE; lia|]. apply Z.div_lt_upper_bound; unfold PGSIZE in *; lia. }
  pose proof (a_ram s Hs u j ltac:(lia) (Z.to_nat (Z.of_nat k mod PGSIZE))) as Hm.
  pose proof (Z.div_mod (Z.of_nat k) PGSIZE). pose proof (Z.mod_pos_bound (Z.of_nat k) PGSIZE).
  replace (base (get_pool u s) + PGSIZE * i + Z.of_nat k) with
    (base (get_pool u s) + PGSIZE * j + Z.of_nat (Z.to_nat (Z.of_nat k mod PGSIZE))).
  - apply Hm. unfold PGSIZE in *. lia.
  - unfold j. unfold PGSIZE in *. lia.
Qed.

Lemma used_update u b m s lo cnt v :
  pool_ok (get_pool u s) → bit_cnt b = bit_cnt (used_map (get_pool u s)) → 0 ≤ lo →
  (∀ j, 0 ≤ j → bit b j = if (lo <=? j) && (j <? lo + cnt) then v else bit (used_map (get_pool u s)) j) →
  lo + cnt ≤ bit_cnt b →
  ∀ w q, used w (set_ram m (put_map u b s)) q ↔
    (if eqb u w then in_group (base (get_pool u s) + PGSIZE * lo) cnt q ∧ v = true ∨
                     ¬ in_group (base (get_pool u s) + PGSIZE * lo) cnt q ∧ used w s q
     else used w s q).
Proof.
  intros Hp Hc Hlo Hb Hle w q.
  assert (get_pool w (set_ram m (put_map u b s)) = get_pool w (put_map u b s)) as Hg by (by destruct w).
  unfold used. rewrite Hg, get_put_map. destruct (eqb u w) eqn:E; [|done].
  apply eqb_prop in E as <-. simpl. rewrite Hc. unfold in_group. split.
  - intros (i & Hi & -> & Hbit). rewrite Hb in Hbit by lia.
    destruct (Z.leb_spec lo i), (Z.ltb_spec i (lo + cnt)); simpl in Hbit.
    1: left; split; [exists (i - lo); split; [lia|unfold PGSIZE; lia]|done].
    all: right; split; [intros (k & Hk & E); unfold PGSIZE in *; lia|eauto].
  - intros [[(i & Hi & ->) ->]|[Hn (i & Hi & -> & Hbit)]].
    + exists (lo + i). split; [lia|]. split; [unfold PGSIZE; lia|]. rewrite Hb by lia.
      destruct (Z.leb_spec lo (lo + i)), (Z.ltb_spec (lo + i) (lo + cnt)); (done || lia).
    + exists i. split; [lia|]. split; [done|]. rewrite Hb by lia.
      destruct (Z.leb_spec lo i), (Z.ltb_spec i (lo + cnt)); simpl; try done.
      exfalso. apply Hn. exists (i - lo). unfold PGSIZE. lia.
Qed.

(** ** The operations *)

Lemma on_ram_ok {A} (f : ST mem A) s a m : f (ram s) = Ok (a, m) → on_ram f s = Ok (a, set_ram m s).
Proof. intros H. unfold on_ram. by rewrite H. Qed.

Lemma set_ram_id s : set_ram (ram s) s = s.
Proof. by destruct s. Qed.

Lemma put_map_id u s : put_map u (used_map (get_pool u s)) s = s.
Proof. by destruct s as [[] [] ?], u. Qed.

(** The state after a group was marked, and cleared if that was asked for. *)
Lemma get_multiple_found flags cnt s r b :
  let u := has_flag flags PAL_USER in
  let p := base (get_pool u s) + PGSIZE * r in
  alloc_ok s → 0 < cnt < 2 ^ 32 → 0 ≤ r → r + cnt ≤ bit_cnt (used_map (get_pool u s)) →
  bitmap_scan_and_flip (used_map (get_pool u s)) 0 cnt false = Ok (r, b) →
  wf b → bit_cnt b = bit_cnt (used_map (get_pool u s)) →
  p ≠ 0 ∧ palloc_get_multiple flags cnt s =
    Ok (p, set_ram (if has_flag flags PAL_ZERO then blit p (replicate (Z.to_nat (PGSIZE * cnt)) 0) (ram s)
                    else ram s) (put_map u b s)).
Proof.
  intros u p Hs Hc Hr Hrc Hscan Hwf Hbc. destruct (a_pool s u Hs) as [[Hbcnt _ _] _ Hb He].
  assert (r ≠ BITMAP_ERROR) as Hne by (unfold BITMAP_ERROR; lia).
  assert (0 < p < 2 ^ 32) as Hp by (unfold p, PGSIZE in *; lia). split; [lia|].
  unfold palloc_get_multiple. fold u. rewrite (proj2 (Z.eqb_neq cnt 0)) by lia.
  erewrite st_then by reflexivity.
  erewrite st_then by (unfold lift; rewrite Hscan; reflexivity).
  cbv beta iota. erewrite st_then by reflexivity.
  rewrite (proj2 (Z.eqb_neq _ _) Hne). cbn [negb].
  rewrite (u32_small (PGSIZE * r)) by (unfold is_u32, PGSIZE in *; lia). fold p.
  rewrite (u32_small p) by (unfold is_u32; lia). rewrite (nonnull p) by lia.
  rewrite (u32_small (PGSIZE * cnt)) by (unfold is_u32, PGSIZE in *; lia).
  destruct (has_flag flags PAL_ZERO).
  - assert (mapped (ram (put_map u b s)) p (Z.to_nat (PGSIZE * cnt))) as Hm.
    { rewrite ram_put_map. by apply group_mapped; try lia. }
    erewrite st_then.
    2: { erewrite st_then; [|apply on_ram_ok, memset_ok; [lia|exact Hm]]. reflexivity. }
    by rewrite ram_put_map.
  - erewrite st_then by reflexivity. rewrite <- (ram_put_map u b s), set_ram_id. done.
Qed.

Lemma get_multiple_spec flags cnt s :
  let u := has_flag flags PAL_USER in
  alloc_ok s → 0 < cnt < 2 ^ 32 →
  (∃ p s', palloc_get_multiple flags cnt s = Ok (p, s') ∧ p ≠ 0 ∧ alloc_ok s' ∧ aligned p ∧
     base (get_pool u s) ≤ p ∧ p + PGSIZE * cnt ≤ pool_end (get_pool u s) ∧
     (∀ q, in_group p cnt q → ¬ used u s q) ∧
     (∀ w q, used w s' q ↔ used w s q ∨ (w = u ∧ in_group p cnt q)) ∧
     ram s' = (if has_flag flags PAL_ZERO then blit p (replicate (Z.to_nat (PGSIZE * cnt)) 0) (ram s) else ram s))
  ∨ ((∀ i, 0 ≤ i → i + cnt ≤ bit_cnt (used_map (get_pool u s)) → ¬ group (used_map (get_pool u s)) i cnt false) ∧
     palloc_get_multiple flags cnt s = if has_flag flags PAL_ASSERT then Err Panicked else Ok (0, s)).
Proof.
  intros u Hs Hc. pose proof (a_pool s u Hs) as Hp. pose proof (p_wf _ Hp) as Hwf.
  pose proof (wf_cnt _ Hwf) as Hcnt.
  destruct (bitmap_scan_and_flip_spec (used_map (get_pool u s)) 0 cnt false Hwf ltac:(lia) ltac:(lia))
    as (r & b & Hscan & Hwf' & Hbc & Hfirst & Hsame & Hflip).
  destruct Hfirst as [[-> Hnone]|(Hr0 & Hrc & Hgrp & _)].
  - right. split; [intros i Hi Hic; apply Hnone; lia|]. rewrite (Hsame eq_refl) in Hscan.
    unfold palloc_get_multiple. fold u. rewrite (proj2 (Z.eqb_neq cnt 0)) by lia.
    erewrite st_then by reflexivity. erewrite st_then by (unfold lift; rewrite Hscan; reflexivity).
    cbv beta iota. erewrite st_then by reflexivity. cbn [Z.eqb]. rewrite put_map_id. rewrite Z.eqb_refl. cbn [negb Z.eqb].
    by destruct (has_flag flags PAL_ASSERT).
  - left. assert (r ≠ BITMAP_ERROR) as Hne by (unfold BITMAP_ERROR; lia). specialize (Hflip Hne).
    destruct (get_multiple_found flags cnt s r b Hs Hc Hr0 Hrc Hscan Hwf' Hbc) as [Hpn Hget].
    fold u in Hpn, Hget. set (p := base (get_pool u s) + PGSIZE * r) in *. eexists p, _. split; [exact Hget|].
    split; [done|]. split; [|split; [|split; [|split; [|split; [|split]]]]].
    + apply alloc_ok_update; [done..|]. intros q n Hq. destruct (has_flag flags PAL_ZERO); [by apply mapped_blit|done].
    + apply aligned_add, Hp.
    + unfold p, PGSIZE. lia.
    + unfold p, pool_end, PGSIZE. lia.
    + intros q (i & Hi & ->) (j & Hj & E & Hbit). unfold p, PGSIZE in E. assert (j = r + i) as -> by lia.
      rewrite (Hgrp (r + i)) in Hbit by lia. done.
    + intros w q. rewrite (used_update u b _ s r cnt (negb false) Hp Hbc Hr0 Hflip) by lia. fold p.
      destruct (eqb u w) eqn:E; [apply eqb_prop in E as <-|apply eqb_false_iff in E; naive_solver].
      split; [naive_solver|]. intros [Hu|[_ Hg]]; [|by left]. right. split; [|done].
      intros (i & Hi & ->). destruct Hu as (j & Hj & E & Hbit). unfold p, PGSIZE in E.
      assert (j = r + i) as -> by lia. rewrite (Hgrp (r + i)) in Hbit by lia. done.
    + done.
Qed.

Lemma page_from_pool_spec p i :
  pool_ok p → 0 ≤ i → page_from_pool p (base p + PGSIZE * i) = (i <? bit_cnt (used_map p)).
Proof.
  intros [_ Ha Hb _] Hi. unfold page_from_pool, bitmap_size. rewrite !pg_no_div.
  rewrite (Z.mul_comm PGSIZE i), Z.div_add by (unfold PGSIZE; lia).
  rewrite (proj2 (Z.leb_le _ _)) by lia. simpl.
  destruct (Z.ltb_spec (base p / PGSIZE + i) (base p / PGSIZE + bit_cnt (used_map p))),
           (Z.ltb_spec i (bit_cnt (used_map p))); (done || lia).
Qed.

Lemma page_not_from_kernel s i :
  alloc_ok s → 0 ≤ i → page_from_pool (kernel_pool s) (base (user_pool s) + PGSIZE * i) = false.
Proof.
  intros Hs Hi. pose proof (a_apart s Hs) as Ha. pose proof (a_kernel s Hs) as [_ Hk1 _ _].
  pose proof (a_user s Hs) as [_ Hu1 _ _]. unfold pool_end in Ha.
  pose proof (aligned_eq _ Hk1) as Ek. pose proof (aligned_eq _ Hu1) as Eu.
  unfold page_from_pool, bitmap_size. rewrite !pg_no_div.
  rewrite (Z.mul_comm PGSIZE i), Z.div_add by (unfold PGSIZE; lia).
  apply andb_false_intro2, Z.ltb_ge. unfold PGSIZE in *. lia.
Qed.

(** The checks before a group is released select its pool, and memory is scrubbed. *)
Lemma free_multiple_run u s i cnt :
  let p := base (get_pool u s) + PGSIZE * i in
  let s1 := set_ram (blit p (replicate (Z.to_nat (PGSIZE * cnt)) 204) (ram s)) s in
  alloc_ok s → 0 < cnt → 0 ≤ i → i + cnt ≤ bit_cnt (used_map (get_pool u s)) →
  palloc_free_multiple p cnt s =
  (a ← lift (bitmap_all (used_map (get_pool u s)) i cnt); assert a;;
   b ← lift (bitmap_set_multiple (used_map (get_pool u s)) i cnt false);
   modify (put_map u b)) s1.
Proof.
  intros p s1 Hs Hc Hi Hic. destruct (a_pool s u Hs) as [[Hcnt _ _] Hal Hb He].
  assert (0 < p) as Hp by (unfold p, PGSIZE in *; lia).
  unfold palloc_free_multiple. assert (pg_ofs p = 0) as -> by (by apply aligned_ofs, aligned_add).
  erewrite st_then by (by apply assert_ok). rewrite (proj2 (Z.eqb_neq p 0)), (proj2 (Z.eqb_neq cnt 0)) by lia.
  cbn [orb]. do 2 (erewrite st_then by reflexivity).
  erewrite (st_then _ _ s u s).
  2: { destruct u; simpl.
       - unfold p. simpl. rewrite (page_not_from_kernel s i Hs Hi).
         rewrite (page_from_pool_spec _ i (a_user s Hs) Hi), (proj2 (Z.ltb_lt _ _)) by (simpl in *; lia). done.
       - unfold p. simpl. rewrite (page_from_pool_spec _ i (a_kernel s Hs) Hi), (proj2 (Z.ltb_lt _ _)) by (simpl in *; lia).
         done. }
  erewrite st_then by reflexivity.
  rewrite (u32_small (PGSIZE * cnt)) by (unfold is_u32, PGSIZE in *; lia).
  erewrite st_then; [|apply on_ram_ok, memset_ok; [lia|apply group_mapped; (done || lia)]].
  assert (pg_no p - pg_no (base (get_pool u s)) = i) as ->.
  { rewrite !pg_no_div. unfold p. rewrite (Z.mul_comm PGSIZE i), Z.div_add by (unfold PGSIZE; lia). lia. }
  done.
Qed.

Lemma bitmap_all_spec b i cnt :
  wf b → 0 ≤ i → 0 ≤ cnt → i + cnt ≤ bit_cnt b →
  ∃ r, bitmap_all b i cnt = Ok r ∧ (r = true ↔ group b i cnt true).
Proof.
  intros Hwf Hi Hc Hle. destruct (contains_group b i cnt true) as (r & Hr & Hg); [done..|].
  unfold bitmap_all. simpl in Hr. rewrite Hr. exists (negb r). split; [done|].
  by rewrite negb_true_iff.
Qed.

Lemma free_multiple_spec u s i cnt :
  let p := base (get_pool u s) + PGSIZE * i in
  alloc_ok s → 0 < cnt → 0 ≤ i → i + cnt ≤ bit_cnt (used_map (get_pool u s)) →
  ((∀ q, in_group p cnt q → used u s q) →
   ∃ s', palloc_free_multiple p cnt s = Ok (tt, s') ∧ alloc_ok s' ∧
     (∀ w q, used w s' q ↔ used w s q ∧ ¬ (w = u ∧ in_group p cnt q)) ∧
     ram s' = blit p (replicate (Z.to_nat (PGSIZE * cnt)) 204) (ram s)) ∧
  ((∃ q, in_group p cnt q ∧ ¬ used u s q) → palloc_free_multiple p cnt s = Err AssertFailed).
Proof.
  intros p Hs Hc Hi Hic. pose proof (a_pool s u Hs) as Hp. pose proof (p_wf _ Hp) as Hwf.
  unfold p. rewrite (free_multiple_run u s i cnt Hs Hc Hi Hic). fold p.
  destruct (bitmap_all_spec (used_map (get_pool u s)) i cnt) as (r & Hr & Hg); [done|lia..|].
  erewrite st_then by (unfold lift; rewrite Hr; reflexivity).
  assert (group (used_map (get_pool u s)) i cnt true ↔ ∀ q, in_group p cnt q → used u s q) as Hgu.
  { split.
    - intros Hgrp q (j & Hj & ->). exists (i + j). split; [lia|]. split; [unfold p, PGSIZE; lia|]. apply Hgrp. lia.
    - intros Hall j Hj. destruct (Hall (p + PGSIZE * (j - i))) as (k & Hk & E & Hbit).
      { exists (j - i). split; [lia|done]. }
      unfold p, PGSIZE in E. by assert (k = j) as <- by lia. }
  split.
  - intros Hall. assert (r = true) as -> by (by apply Hg, Hgu). erewrite st_then by reflexivity.
    destruct (bitmap_set_multiple_spec (used_map (get_pool u s)) i cnt false) as (b & Hb & Hwf' & Hbc & Hbits);
      [done|lia..|].
    erewrite st_then by (unfold lift; rewrite Hb; reflexivity). set (m := blit _ _ _).
    exists (set_ram m (put_map u b s)). split; [by destruct u|]. split; [|split; [|done]].
    + apply alloc_ok_update; [done..|]. intros q n Hq. by apply mapped_blit.
    + intros w q. rewrite (used_update u b m s i cnt false Hp Hbc Hi Hbits) by lia. fold p.
      destruct (eqb u w) eqn:E; [apply eqb_prop in E as <-; naive_solver|apply eqb_false_iff in E; naive_solver].
  - intros (q & Hq & Hn). destruct r; [|done]. exfalso. apply Hn, Hgu; [by apply Hg|done].
Qed.

(** ** Initialisation *)

Lemma buf_size_eq n : 0 ≤ n < 2 ^ 21 → bitmap_buf_size n = 8 + 4 * ((n + 31) / 32).
Proof.
  intros Hn. unfold bitmap_buf_size, byte_cnt. rewrite elem_cnt_eq by lia.
  pose proof (Z.div_pos (n + 31) 32). pose proof (Z.div_le_upper_bound (n + 31) 32 (2 ^ 21)).
  rewrite !u32_small by (unfold is_u32; try rewrite u32_small by (unfold is_u32; lia); lia). done.
Qed.

(** How many pages the bitmap of a pool takes. *)
Definition bm_pages (n : Z) : Z := DIV_ROUND_UP (bitmap_buf_size n) PGSIZE.

Lemma init_pool_ok pbase n junk :
  aligned pbase → 0 < pbase → 0 ≤ n < 2 ^ 21 → pbase + PGSIZE * n ≤ 2 ^ 32 → bm_pages n ≤ n →
  Z.of_nat (length junk) = elem_cnt (n - bm_pages n) → Forall is_u32 junk →
  ∃ p, init_pool pbase n junk = Ok p ∧ pool_ok p ∧ base p = pbase + PGSIZE * bm_pages n ∧
       bit_cnt (used_map p) = n - bm_pages n ∧ ∀ i, 0 ≤ i < n - bm_pages n → bit (used_map p) i = false.
Proof.
  intros Ha Hb Hn He Hbm Hl Hj. unfold init_pool. fold (bm_pages n).
  assert (bitmap_buf_size n ≤ bm_pages n * PGSIZE ∧ 0 ≤ bm_pages n) as [Hbuf Hbm0].
  { unfold bm_pages, DIV_ROUND_UP. rewrite buf_size_eq by done. unfold PGSIZE.
    pose proof (Z.div_pos (n + 31) 32). pose proof (Z.div_le_upper_bound (n + 31) 32 (2 ^ 21)).
    rewrite u32_small by (unfold is_u32; lia).
    pose proof (Z.div_mod (8 + 4 * ((n + 31) / 32) + 4096 - 1) 4096).
    pose proof (Z.mod_pos_bound (8 + 4 * ((n + 31) / 32) + 4096 - 1) 4096). lia. }
  rewrite (proj2 (Z.ltb_ge _ _)) by done. unfold bitmap_create_in_buf.
  assert (bitmap_buf_size (n - bm_pages n) ≤ bitmap_buf_size n) as Hmono.
  { rewrite !buf_size_eq by lia. pose proof (Z.div_le_mono (n - bm_pages n + 31) (n + 31) 32). lia. }
  rewrite (proj2 (Z.leb_le _ _)) by lia. cbn [mbind result_bind ASSERT].
  destruct (bitmap_set_all_spec (Bitmap (n - bm_pages n) junk) false) as (b & -> & Hwf & Hc & Hg).
  { split; simpl; [lia|done|done]. }
  simpl in Hc, Hg. cbn [mbind result_bind]. eexists. split; [done|]. cbn [base used_map]. split; [|split; [|split]].
  - split; cbn [used_map base]; [done| |unfold PGSIZE; lia|rewrite Hc; unfold PGSIZE in *; lia].
    rewrite Z.mul_comm. by apply aligned_add.
  - unfold PGSIZE. lia.
  - done.
  - intros i Hi. apply Hg. lia.
Qed.

(** With enough memory the allocator starts well formed, with every page free. *)
Lemma palloc_init_ok r limit jk ju m :
  let up := Z.min limit ((r - 256) / 2) in
  let kp := r - 256 - up in
  256 ≤ r < 262144 → 0 ≤ limit → bm_pages kp ≤ kp → bm_pages up ≤ up →
  Z.of_nat (length jk) = elem_cnt (kp - bm_pages kp) → Forall is_u32 jk →
  Z.of_nat (length ju) = elem_cnt (up - bm_pages up) → Forall is_u32 ju →
  mapped m (PHYS_BASE + 1048576) (Z.to_nat (PGSIZE * (r - 256))) →
  ∃ s, palloc_init r limit jk ju m = Ok s ∧ alloc_ok s ∧ ∀ u q, ¬ used u s q.
Proof.
  intros up kp Hr Hl Hbk Hbu Hjk Hwk Hju Hwu Hm.
  assert (0 ≤ up ∧ 0 ≤ kp ∧ up + kp = r - 256) as (Hup & Hkp & Hsum).
  { pose proof (Z.div_pos (r - 256) 2). pose proof (Z.div_le_upper_bound (r - 256) 2 (r - 256)). lia. }
  unfold palloc_init, ptov. rewrite !(proj2 (Z.ltb_lt _ _)) by (unfold PGSIZE, PHYS_BASE; lia).
  cbn [mbind result_bind ASSERT]. rewrite !u32_small by (unfold is_u32, PGSIZE, PHYS_BASE; lia).
  replace ((r * PGSIZE + PHYS_BASE - (1024 * 1024 + PHYS_BASE)) / PGSIZE) with (r - 256).
  2: { replace (r * PGSIZE + PHYS_BASE - (1024 * 1024 + PHYS_BASE)) with ((r - 256) * PGSIZE)
         by (unfold PGSIZE; lia). by rewrite Z.div_mul. }
  assert ((if limit <? (r - 256) / 2 then limit else (r - 256) / 2) = up) as -> by (unfold up; zcase; lia).
  fold kp. destruct (init_pool_ok (1024 * 1024 + PHYS_BASE) kp jk) as (k & -> & Hk & Ek & Ck & Fk);
    try done; try (unfold PGSIZE, PHYS_BASE; lia).
  cbn [mbind result_bind].
  destruct (init_pool_ok (1024 * 1024 + PHYS_BASE + kp * PGSIZE) up ju) as (u & -> & Hu & Eu & Cu & Fu);
    try done; try (unfold PGSIZE, PHYS_BASE in *; lia).
  { rewrite (Z.mul_comm kp). by apply aligned_add. }
  cbn [mbind result_bind]. eexists. split; [done|].
  assert (0 ≤ bm_pages up ∧ 0 ≤ bm_pages kp) as [Hb1 Hb2].
  { split; apply Z.div_pos; (apply u32_range || (unfold PGSIZE; lia)). }
  split.
  - split; [done|done|simpl; unfold pool_end, PGSIZE in *; lia|]. intros b i Hi n Hn.
    specialize (Hm (Z.to_nat (base (get_pool b (Palloc k u m)) + PGSIZE * i + Z.of_nat n - (PHYS_BASE + 1048576)))).
    destruct b; simpl in *; unfold PGSIZE in *; rewrite Z2Nat.id in Hm by lia.
    + replace (base u + 4096 * i + Z.of_nat n) with (PHYS_BASE + 1048576 + (base u + 4096 * i + Z.of_nat n - (PHYS_BASE + 1048576))) by lia.
      apply Hm. lia.
    + replace (base k + 4096 * i + Z.of_nat n) with (PHYS_BASE + 1048576 + (base k + 4096 * i + Z.of_nat n - (PHYS_BASE + 1048576))) by lia.
      apply Hm. lia.
  - intros [] q (i & Hi & _ & Hb); simpl in *; [rewrite Fu in Hb by lia|rewrite Fk in Hb by lia]; done.
Qed.

(** ** The interface *)

(** What malloc.c uses: groups of pages of the kernel pool. *)
#[export] Instance palloc_pages : PageAlloc palloc := {|
  get_pages cnt := palloc_get_multiple 0 cnt;
  free_pages p cnt := palloc_free_multiple p cnt;
  memory := ram;
  set_memory := set_ram;
  pages_ok := alloc_ok;
  page_used s q := used false s q;
|}.

#[export] Instance palloc_laws : PageAllocLaws palloc.
Proof.
  split.
  - intros s q Hs (i & Hi & -> & _). destruct (a_kernel s Hs) as [_ Hal Hb He].
    split; [by apply aligned_add|]. cbn [get_pool] in *. unfold PGSIZE in *. split; [lia|]. split; [lia|].
    apply (a_ram s Hs false i Hi).
  - intros s cnt Hs Hc. destruct (get_multiple_spec 0 cnt s Hs Hc)
      as [(p & s' & Hr & Hp & Hs' & _ & _ & _ & Hf & Hu & Hm)|[_ Hr]].
    + exists p, s'. split; [done|]. split; [done|]. split; [done|]. right. split; [done|].
      split; [done|]. intros q. rewrite (Hu false q). cbn [has_flag]. naive_solver.
    + exists 0, s. split; [done|]. split; [done|]. split; [done|]. by left.
  - done.
  - intros s p cnt Hs Hc Hall.
    destruct (Hall p) as (i & Hi & Ep & _); [exists 0; unfold PGSIZE; lia|].
    destruct (Hall (p + PGSIZE * (cnt - 1))) as (j & Hj & Eq & _); [exists (cnt - 1); lia|].
    assert (j = i + cnt - 1) as -> by (unfold PGSIZE in *; lia).
    destruct (free_multiple_spec false s i cnt Hs Hc ltac:(lia) ltac:(lia)) as [Hfree _].
    rewrite <- Ep in Hfree. destruct (Hfree Hall) as (s' & Hr & Hs' & Hu & Hm).
    exists s'. split; [done|]. split; [done|]. split; [intros q; rewrite (Hu false q); naive_solver|].
    intros q n Hq. change (mapped (ram s') q n). rewrite Hm. by apply mapped_blit.
  - intros s m Hs Hm. rewrite <- (put_map_id false s) at 1. split; [|done].
    apply alloc_ok_update; [done|apply Hs|done|done].
Qed.

(** ** Claims *)

(** C23. Allocation of pages.  In a well-formed allocator, a request for [cnt] > 0 pages
    either finds [cnt] contiguous free pages of the pool the flags select, marks exactly
    those as used, clears them if that is asked for and touches no other memory, and
    returns their page-aligned address; or there is no such group, and it returns a null
    pointer, changing nothing, or panics if the flags say so. *)
Theorem palloc_get_correct flags cnt s :
  let u := has_flag flags PAL_USER in
  alloc_ok s → 0 < cnt < 2 ^ 32 →
  (∃ p s', palloc_get_multiple flags cnt s = Ok (p, s') ∧ p ≠ 0 ∧ alloc_ok s' ∧ aligned p ∧
     base (get_pool u s) ≤ p ∧ p + PGSIZE * cnt ≤ pool_end (get_pool u s) ∧
     (∀ q, in_group p cnt q → ¬ used u s q) ∧
     (∀ w q, used w s' q ↔ used w s q ∨ (w = u ∧ in_group p cnt q)) ∧
     ram s' = (if has_flag flags PAL_ZERO then blit p (replicate (Z.to_nat (PGSIZE * cnt)) 0) (ram s) else ram s))
  ∨ ((∀ i, 0 ≤ i → i + cnt ≤ bit_cnt (used_map (get_pool u s)) → ¬ group (used_map (get_pool u s)) i cnt false) ∧
     palloc_get_multiple flags cnt s = if has_flag flags PAL_ASSERT then Err Panicked else Ok (0, s)).
Proof. apply get_multiple_spec. Qed.

(** Release of pages.  Releasing a group of used pages of one pool marks exactly those
    free and scrubs them; releasing a group in which some page is not in use (a page
    freed twice, for one) fails an assertion. *)
Theorem palloc_free_correct u s i cnt :
  let p := base (get_pool u s) + PGSIZE * i in
  alloc_ok s → 0 < cnt → 0 ≤ i → i + cnt ≤ bit_cnt (used_map (get_pool u s)) →
  ((∀ q, in_group p cnt q → used u s q) →
   ∃ s', palloc_free_multiple p cnt s = Ok (tt, s') ∧ alloc_ok s' ∧
     (∀ w q, used w s' q ↔ used w s q ∧ ¬ (w = u ∧ in_group p cnt q)) ∧
     ram s' = blit p (replicate (Z.to_nat (PGSIZE * cnt)) 204) (ram s)) ∧
  ((∃ q, in_group p cnt q ∧ ¬ used u s q) → palloc_free_multiple p cnt s = Err AssertFailed).
Proof. apply free_multiple_spec. Qed.

(** Two pools of two pages each, at addresses 4096 and 16384. *)
Definition two_pools : palloc :=
  Palloc (Pool (Bitmap 2 [0]) 4096) (Pool (Bitmap 2 [0]) 16384)
         (blit 4096 (replicate (Z.to_nat 20480) 0) ∅).

Lemma two_pools_ok : alloc_ok two_pools.
Proof.
  assert (∀ b, aligned b → 0 < b ≤ 16384 → pool_ok (Pool (Bitmap 2 [0]) b)) as Hp.
  { intros b Hal Hb. split; cbn [used_map base]; [|done|lia|unfold PGSIZE; simpl; lia].
    split; cbn [bit_cnt bits]; [lia|done|]. repeat constructor; lia. }
  split; [apply Hp; (done || lia)|apply Hp; (done || lia)|unfold pool_end, PGSIZE; simpl; lia|].
  intros u i Hi k Hk. unfold two_pools. cbn [ram]. rewrite lookup_blit, length_replicate.
  destruct u; cbn [get_pool user_pool kernel_pool two_pools base used_map bit_cnt] in *; unfold PGSIZE in *;
    rewrite decide_True by lia; apply lookup_lt_is_Some_2; rewrite length_replicate; lia.
Qed.

Lemma palloc_get_correct_witness :
  ∃ p s', palloc_get_multiple PAL_ZERO 2 two_pools = Ok (p, s') ∧ p = 4096 ∧ alloc_ok s'.
Proof.
  destruct (palloc_get_correct PAL_ZERO 2 two_pools two_pools_ok ltac:(lia)) as [(p & s' & H & _ & Hs & _ & H1 & H2 & _)|[Hn _]].
  - exists p, s'. split; [exact H|]. split; [|exact Hs].
    unfold pool_end, PGSIZE in H2. simpl in H1, H2. lia.
  - exfalso. apply (Hn 0); [lia|simpl; lia|]. intros k Hk.
    assert (k = 0 ∨ k = 1) as [->| ->] by lia; reflexivity.
Defined.

Lemma palloc_free_correct_witness : palloc_free_multiple 4096 1 two_pools = Err AssertFailed.
Proof.
  apply (palloc_free_correct false two_pools 0 1 two_pools_ok); [lia|lia|simpl; lia|].
  exists 4096. split; [exists 0; split; [lia|done]|]. intros (i & Hi & E & Hb).
  unfold PGSIZE in E. simpl in E. assert (i = 0) as -> by lia. vm_compute in Hb. discriminate.
Defined.
