(* ===== verification/Malloc.v ===== *)
(** * threads/malloc.c: the block allocator

    Blocks of a power of two of bytes are cut from arenas of one page; larger requests get
    whole pages.  The headers of the arenas and the free lists live inside the pages; they
    are represented beside the bytes of memory, [arenas] by the address of the page and
    each free list as the sequence of its blocks.  A page that was given back is no arena
    any more (its header has been scrubbed).  The page allocator is the interface
    [PageAlloc].  The descriptors' locks order the callers and carry no data. *)

From S2P Require Import Prelude CString Vaddr PageAlloc.

Record desc : Type := Desc { block_size : Z; blocks_per_arena : Z; free_list : list Z }.

Record arena : Type := Arena { magic : Z; adesc : option nat; free_cnt : Z }.

Record heap (S : Type) : Type := Heap { descs : list desc; arenas : gmap Z arena; pages : S }.
Arguments Heap {S}. Arguments descs {S}. Arguments arenas {S}. Arguments pages {S}.

Definition ARENA_MAGIC : Z := 2589232877. (* 0x9a548eed *)
Definition SIZEOF_ARENA : Z := 12.

Definition set_free_list (l : list Z) (d : desc) : desc := Desc (block_size d) (blocks_per_arena d) l.

(** ** Initialisation *)

(** The loop over the block sizes; [n] descriptors are left in the table. *)
Fixpoint init_loop (n : nat) (size : Z) : result (list desc) :=
  if size <? PGSIZE / 2 then
    match n with
    | O => Err AssertFailed
    | S n => ds ← init_loop n (size * 2); Ok (Desc size ((PGSIZE - SIZEOF_ARENA) / size) [] :: ds)
    end
  else Ok [].

Definition malloc_init {S} (pa : S) : result (heap S) := ds ← init_loop 10 16; Ok (Heap ds ∅ pa).

Section malloc.
Context {S : Type} `{PageAlloc S}.
Abbreviation M := (ST (heap S)).

Definition set_descs (ds : list desc) (h : heap S) : heap S := Heap ds (arenas h) (pages h).
Definition set_arenas (a : gmap Z arena) (h : heap S) : heap S := Heap (descs h) a (pages h).
Definition set_pages (p : S) (h : heap S) : heap S := Heap (descs h) (arenas h) p.

Definition on_pages {A} (f : ST S A) : M A := λ h,
  match f (pages h) with Ok (a, p) => Ok (a, set_pages p h) | Err e => Err e end.
Definition on_memory {A} (f : ST mem A) : M A := λ h,
  match f (memory (pages h)) with
  | Ok (a, m) => Ok (a, set_pages (set_memory m (pages h)) h)
  | Err e => Err e
  end.

Definition get_desc (i : nat) : M desc := λ h,
  match descs h !! i with Some d => Ok (d, h) | None => Err MemoryFault end.
Definition put_free_list (i : nat) (l : list Z) : M unit :=
  modify (λ h, set_descs (alter (set_free_list l) i (descs h)) h).
Definition put_arena (a : Z) (ar : arena) : M unit := modify (λ h, set_arenas (<[a := ar]> (arenas h)) h).

(** The header at the beginning of a page; memory that is no arena fails the check of the
    magic number. *)
Definition get_arena (a : Z) : M arena := λ h,
  match arenas h !! a with
  | Some ar => if magic ar =? ARENA_MAGIC then Ok (ar, h) else Err AssertFailed
  | None => Err AssertFailed
  end.

Definition block_to_arena (b : Z) : M Z :=
  let a := pg_round_down b in
  assert (negb (a =? 0));;
  ar ← get_arena a;
  match adesc ar with
  | Some i => d ← get_desc i; assert (u32 (pg_ofs b - SIZEOF_ARENA) mod block_size d =? 0)
  | None => assert (pg_ofs b =? SIZEOF_ARENA)
  end;;
  mret a.

Definition arena_to_block (a idx : Z) : M Z :=
  assert (negb (a =? 0));;
  ar ← get_arena a;
  match adesc ar with
  | None => fail MemoryFault
  | Some i =>
      d ← get_desc i;
      assert (idx <? blocks_per_arena d);;
      mret (u32 (a + SIZEOF_ARENA + idx * block_size d))
  end.

(** ** Allocation *)

(** The first descriptor, from number [i] on, whose blocks are large enough. *)
Fixpoint find_desc (ds : list desc) (i : nat) (size : Z) : option nat :=
  match ds with
  | [] => None
  | d :: ds => if size <=? block_size d then Some i else find_desc ds (Datatypes.S i) size
  end.

Fixpoint fill_loop (n : nat) (a : Z) (d i : nat) : M unit :=
  match n with
  | O => mret tt
  | Datatypes.S n =>
      b ← arena_to_block a (Z.of_nat i);
      ds ← get_desc d;
      put_free_list d (free_list ds ++ [b]);;
      fill_loop n a d (Datatypes.S i)
  end.

(** [malloc] once a free block is there. *)
Definition take_block (i : nat) : M Z :=
  d ← get_desc i;
  match free_list d with
  | [] => fail AssertFailed
  | b :: rest =>
      put_free_list i rest;;
      a ← block_to_arena b;
      ar ← get_arena a;
      put_arena a (Arena (magic ar) (adesc ar) (u32 (free_cnt ar - 1)));;
      mret b
  end.

Definition malloc (size : Z) : M Z :=
  if size =? 0 then mret 0
  else
    h ← gets id;
    match find_desc (descs h) 0 size with
    | None =>
        let page_cnt := u32 (u32 (size + SIZEOF_ARENA) + PGSIZE - 1) / PGSIZE in
        a ← on_pages (get_pages page_cnt);
        if a =? 0 then mret 0
        else put_arena a (Arena ARENA_MAGIC None page_cnt);; mret (u32 (a + SIZEOF_ARENA))
    | Some i =>
        d ← get_desc i;
        if bool_decide (free_list d = []) then
          a ← on_pages (get_pages 1);
          if a =? 0 then mret 0
          else
            put_arena a (Arena ARENA_MAGIC (Some i) (blocks_per_arena d));;
            fill_loop (Z.to_nat (blocks_per_arena d)) a i 0;;
            take_block i
        else take_block i
    end.

Definition calloc (a b : Z) : M Z :=
  let size := u32 (a * b) in
  if (size <? a) || (size <? b) then mret 0
  else
    p ← malloc size;
    (if negb (p =? 0) then on_memory (memset p 0 (Z.to_nat size));; mret tt else mret tt);;
    mret p.

(** [block_size] of the source; the record field has its name here. *)
Definition size_of_block (block : Z) : M Z :=
  a ← block_to_arena block;
  ar ← get_arena a;
  match adesc ar with
  | Some i => d ← get_desc i; mret (block_size d)
  | None => mret (u32 (PGSIZE * free_cnt ar - pg_ofs block))
  end.

(** ** Release *)

Fixpoint unlink_loop (n : nat) (a : Z) (d i : nat) : M unit :=
  match n with
  | O => mret tt
  | Datatypes.S n =>
      b ← arena_to_block a (Z.of_nat i);
      ds ← get_desc d;
      put_free_list d (filter (λ x, x ≠ b) (free_list ds));;
      unlink_loop n a d (Datatypes.S i)
  end.

Definition free (p : Z) : M unit :=
  if p =? 0 then mret tt
  else
    a ← block_to_arena p;
    ar ← get_arena a;
    match adesc ar with
    | Some i =>
        d ← get_desc i;
        on_memory (memset p 204 (Z.to_nat (block_size d)));;
        put_free_list i (p :: free_list d);;
        let cnt := u32 (free_cnt ar + 1) in
        put_arena a (Arena (magic ar) (Some i) cnt);;
        if blocks_per_arena d <=? cnt then
          assert (cnt =? blocks_per_arena d);;
          unlink_loop (Z.to_nat (blocks_per_arena d)) a i 0;;
          on_pages (free_pages a 1);;
          modify (λ h, set_arenas (delete a (arenas h)) h)
        else mret tt
    | None =>
        on_pages (free_pages a (free_cnt ar));;
        modify (λ h, set_arenas (delete a (arenas h)) h)
    end.

Definition realloc (old_block new_size : Z) : M Z :=
  if new_size =? 0 then free old_block;; mret 0
  else
    new_block ← malloc new_size;
    (if negb (old_block =? 0) && negb (new_block =? 0) then
       old_size ← size_of_block old_block;
       let min_size := if new_size <? old_size then new_size else old_size in
       on_memory (memcpy new_block old_block (Z.to_nat min_size));;
       free old_block
     else mret tt);;
    mret new_block.

End malloc.

(** ** Blocks and arenas *)

Definition page (b : Z) : Z := PGSIZE * (b / PGSIZE).

Definition sizes : list (Z * Z) :=
  [(16, 255); (32, 127); (64, 63); (128, 31); (256, 15); (512, 7); (1024, 3)].

(** Block number [k] of the arena at [a]. *)
Definition nth_block (d : desc) (a : Z) (k : nat) : Z := a + SIZEOF_ARENA + Z.of_nat k * block_size d.

Definition is_block (d : desc) (a b : Z) : Prop :=
  ∃ k, Z.of_nat k < blocks_per_arena d ∧ b = nth_block d a k.

Definition blocks (d : desc) (a : Z) : list Z := nth_block d a <$> seq 0 (Z.to_nat (blocks_per_arena d)).

Record desc_ok (d : desc) : Prop := {
  d_size : 16 ≤ block_size d;
  d_cnt : 3 ≤ blocks_per_arena d;
  d_fit : SIZEOF_ARENA + blocks_per_arena d * block_size d ≤ PGSIZE;
}.

(** How many free blocks of arena [a] the list holds. *)
Definition count (a : Z) (l : list Z) : nat := length (filter (λ b, page b = a) l).

Lemma list_filter_all {A} (P : A → Prop) `{∀ x, Decision (P x)} (l : list A) :
  (∀ x, x ∈ l → P x) → filter P l = l.
Proof.
  induction l as [|x l IH]; intros Hl; [done|]. rewrite filter_cons, decide_True by (apply Hl; left).
  rewrite IH; [done|]. intros y Hy. apply Hl. by right.
Qed.

Lemma list_filter_none {A} (P : A → Prop) `{∀ x, Decision (P x)} (l : list A) :
  (∀ x, x ∈ l → ¬ P x) → filter P l = [].
Proof.
  induction l as [|x l IH]; intros Hl; [done|]. rewrite filter_cons, decide_False by (apply Hl; left).
  apply IH. intros y Hy. apply Hl. by right.
Qed.

Lemma page_range a b : aligned a → a ≤ b < a + PGSIZE → page b = a.
Proof.
  intros Ha Hb. unfold page. pose proof (aligned_eq a Ha). unfold PGSIZE in *.
  assert (b / 4096 = a / 4096) as ->; [|lia]. symmetry. apply (Z.div_unique b 4096 _ (b - a)); lia.
Qed.

Lemma block_range d a b : desc_ok d → is_block d a b → a + SIZEOF_ARENA ≤ b ∧ b + block_size d ≤ a + PGSIZE.
Proof.
  intros [Hs Hc Hf] (k & Hk & ->). unfold nth_block, SIZEOF_ARENA, PGSIZE in *. nia.
Qed.

Lemma block_page d a b : desc_ok d → aligned a → is_block d a b → page b = a.
Proof.
  intros Hd Ha Hb. pose proof (block_range d a b Hd Hb). apply page_range; [done|].
  destruct Hd. unfold SIZEOF_ARENA in *. lia.
Qed.

(** Distinct blocks of an arena do not overlap. *)
Lemma blocks_apart d a b1 b2 :
  desc_ok d → is_block d a b1 → is_block d a b2 → b1 ≠ b2 →
  b1 + block_size d ≤ b2 ∨ b2 + block_size d ≤ b1.
Proof.
  intros [Hs _ _] (k1 & _ & ->) (k2 & _ & ->) Hne. unfold nth_block in *.
  destruct (Nat.lt_trichotomy k1 k2) as [|[->|]]; [left; nia|done|right; nia].
Qed.

Lemma elem_of_blocks d a b : desc_ok d → b ∈ blocks d a ↔ is_block d a b.
Proof.
  intros [_ Hc _]. unfold blocks, is_block. rewrite list_elem_of_fmap. setoid_rewrite elem_of_seq.
  split; intros (k & H1 & H2).
  - exists k. split; [lia|done].
  - exists k. split; [done|lia].
Qed.

Lemma NoDup_blocks d a : desc_ok d → NoDup (blocks d a).
Proof.
  intros [Hs _ _]. apply NoDup_fmap_2; [|apply NoDup_seq]. intros k1 k2. unfold nth_block. nia.
Qed.

Lemma length_blocks d a : length (blocks d a) = Z.to_nat (blocks_per_arena d).
Proof. unfold blocks. by rewrite length_fmap, length_seq. Qed.

(** ** The invariant *)

Section invariant.
Context {S : Type} `{PageAllocLaws S}.
Implicit Types (h : heap S).

Record arena_ok h (a : Z) (ar : arena) : Prop := {
  ar_align : aligned a;
  ar_pos : 0 < a;
  ar_magic : magic ar = ARENA_MAGIC;
  ar_desc : match adesc ar with
            | Some i => ∃ d, descs h !! i = Some d ∧ page_used (pages h) a ∧
                             free_cnt ar = Z.of_nat (count a (free_list d)) ∧
                             free_cnt ar < blocks_per_arena d
            | None => 0 < free_cnt ar < 2 ^ 20 ∧ ∀ q, in_group a (free_cnt ar) q → page_used (pages h) q
            end;
}.

(** How many pages an arena has. *)
Definition extent (ar : arena) : Z := match adesc ar with Some _ => 1 | None => free_cnt ar end.

Record heap_ok h : Prop := {
  h_pages : pages_ok (pages h);
  h_sizes : (λ d, (block_size d, blocks_per_arena d)) <$> descs h = sizes;
  h_arenas : ∀ a ar, arenas h !! a = Some ar → arena_ok h a ar;
  h_apart : ∀ a ar a' ar', arenas h !! a = Some ar → arenas h !! a' = Some ar' → a ≠ a' →
                           ¬ in_group a (extent ar) a';
  h_free : ∀ i d, descs h !! i = Some d → NoDup (free_list d) ∧
             ∀ b, b ∈ free_list d → ∃ ar, arenas h !! page b = Some ar ∧ adesc ar = Some i ∧ is_block d (page b) b;
}.

(** The block [b] is in use: handed out and not yet freed. *)
Definition live h (b : Z) : Prop :=
  ∃ ar, arenas h !! page b = Some ar ∧
    match adesc ar with
    | Some i => ∃ d, descs h !! i = Some d ∧ is_block d (page b) b ∧ b ∉ free_list d
    | None => b = page b + SIZEOF_ARENA
    end.

(** How many bytes a block in use has. *)
Definition capacity h (b : Z) : Z :=
  match arenas h !! page b with
  | Some ar => match adesc ar with
               | Some i => from_option block_size 0 (descs h !! i)
               | None => PGSIZE * free_cnt ar - SIZEOF_ARENA
               end
  | None => 0
  end.

Lemma h_desc h i d : heap_ok h → descs h !! i = Some d → desc_ok d.
Proof.
  intros Hh Hd. assert (sizes !! i = Some (block_size d, blocks_per_arena d)) as Hs.
  { rewrite <- (h_sizes h Hh), list_lookup_fmap, Hd. done. }
  apply list_elem_of_lookup_2 in Hs. unfold sizes in Hs.
  repeat (apply elem_of_cons in Hs as [[= E1 E2]|Hs]);
    [split; rewrite ?E1, ?E2; unfold SIZEOF_ARENA, PGSIZE; lia..|by apply elem_of_nil in Hs].
Qed.

Lemma page_aligned b : aligned (page b).
Proof. unfold page, aligned. rewrite Z.mul_comm. apply Z_mod_mult. Qed.

Lemma count_le d a l :
  desc_ok d → NoDup l → (∀ b, b ∈ l → page b = a → is_block d a b) →
  (count a l ≤ Z.to_nat (blocks_per_arena d))%nat ∧
  ∀ b, is_block d a b → b ∉ l → (count a l < Z.to_nat (blocks_per_arena d))%nat.
Proof.
  intros Hd Hl Hb. unfold count. set (f := filter (λ b, page b = a) l).
  assert (NoDup f) as Hf by (by apply NoDup_filter).
  assert (∀ b, b ∈ f → b ∈ blocks d a) as Hin.
  { intros b [Hp Hbl]%list_elem_of_filter. apply elem_of_blocks; [done|]. by apply Hb. }
  rewrite <- (length_blocks d a). split.
  - apply submseteq_length, NoDup_submseteq; done.
  - intros b Hblk Hnl. assert (NoDup (b :: f)) as Hbf.
    { constructor; [|done]. intros [_ ?]%list_elem_of_filter. done. }
    apply (submseteq_length (b :: f)), NoDup_submseteq; [done|].
    intros x [->|Hx]%elem_of_cons; [by apply elem_of_blocks|by apply Hin].
Qed.

(** ** Changing one free list *)

(** The free list of descriptor [i] becomes [l], and with it the count of arena [a]. *)
Definition relist (i : nat) (a : Z) (l : list Z) (n : Z) h : heap S :=
  Heap (alter (set_free_list l) i (descs h))
       (alter (λ ar, Arena (magic ar) (adesc ar) n) a (arenas h)) (pages h).

Lemma relist_desc i a l n h j d' :
  descs (relist i a l n h) !! j = Some d' →
  ∃ d, descs h !! j = Some d ∧ d' = if decide (i = j) then set_free_list l d else d.
Proof.
  simpl. rewrite list_lookup_alter. case_decide as E.
  - subst. intros (d & Hd & ->)%fmap_Some. eauto.
  - intros Hd. eauto.
Qed.

Lemma relist_arena i a l n h x ar' :
  arenas (relist i a l n h) !! x = Some ar' →
  ∃ ar, arenas h !! x = Some ar ∧ adesc ar' = adesc ar ∧ magic ar' = magic ar ∧
        free_cnt ar' = if decide (a = x) then n else free_cnt ar.
Proof.
  simpl. destruct (decide (a = x)) as [->|Hne].
  - rewrite lookup_alter_eq. intros (ar & Har & ->)%fmap_Some. eauto 6.
  - rewrite lookup_alter_ne by done. eauto 6.
Qed.

Lemma relist_ok i a l n h d ar :
  heap_ok h → descs h !! i = Some d → arenas h !! a = Some ar → adesc ar = Some i → NoDup l →
  (∀ b, b ∈ l → ∃ ar, arenas h !! page b = Some ar ∧ adesc ar = Some i ∧ is_block d (page b) b) →
  (∀ x, x ≠ a → count x l = count x (free_list d)) → n = Z.of_nat (count a l) → n < blocks_per_arena d →
  heap_ok (relist i a l n h).
Proof.
  intros Hh Hd Har Hai Hnd Hl Hcnt Hn Hlt. split.
  - apply Hh.
  - rewrite <- (h_sizes h Hh). apply list_eq. intros j. simpl. rewrite !list_lookup_fmap, list_lookup_alter.
    case_decide as E; [|done]. subst j. by rewrite Hd.
  - intros x ar' Hx. apply relist_arena in Hx as (ar0 & Hx & E1 & E2 & E3).
    destruct (h_arenas h Hh x ar0 Hx) as [H1 H2 H3 H4]. split; [done|done|congruence|].
    rewrite E1. simpl. destruct (adesc ar0) as [j|] eqn:Ej.
    + destruct H4 as (d0 & Hd0 & Hu & Hc & Hb). rewrite list_lookup_alter, E3. destruct (decide (i = j)) as [<-|Hij].
      * simplify_eq. rewrite Hd. exists (set_free_list l d). split; [done|]. split; [done|]. simpl.
        case_decide as Eax; [by subst x|]. by rewrite Hcnt.
      * exists d0. rewrite decide_False by congruence. done.
    + rewrite decide_False in E3 by congruence. by rewrite E3.
  - intros x arx y ary Hx Hy Hne. apply relist_arena in Hx as (arx' & Hx & E1 & _ & E3).
    apply relist_arena in Hy as (ary' & Hy & _).
    pose proof (h_apart h Hh x arx' y ary' Hx Hy Hne) as Hap. unfold extent in *. rewrite E1.
    destruct (adesc arx') eqn:Ed; [done|]. rewrite E3, decide_False by congruence. done.
  - intros j d' Hj. apply relist_desc in Hj as (d0 & Hd0 & ->).
    assert (∀ b ar0, arenas h !! b = Some ar0 → ∃ ar1, arenas (relist i a l n h) !! b = Some ar1 ∧ adesc ar1 = adesc ar0) as Hk.
    { intros b ar0 Hb. simpl. destruct (decide (a = b)) as [->|].
      - rewrite lookup_alter_eq, Hb. eexists. split; done.
      - rewrite lookup_alter_ne by done. eauto. }
    case_decide as E.
    + subst j. simplify_eq. simpl. split; [done|]. intros b Hb. destruct (Hl b Hb) as (ar0 & Hb0 & Ha0 & Hblk).
      destruct (Hk _ _ Hb0) as (ar1 & H1 & H2). exists ar1. split; [done|]. split; [congruence|]. done.
    + destruct (h_free h Hh j d0 Hd0) as [Hnd0 Hf0]. split; [done|]. intros b Hb.
      destruct (Hf0 b Hb) as (ar0 & Hb0 & Ha0 & Hblk). destruct (Hk _ _ Hb0) as (ar1 & H1 & H2).
      exists ar1. split; [done|]. split; [congruence|done].
Qed.

Lemma relist_live i a l n h d ar x :
  descs h !! i = Some d → arenas h !! a = Some ar → adesc ar = Some i →
  (∀ b, page b ≠ a → b ∈ l ↔ b ∈ free_list d) →
  live (relist i a l n h) x ↔ if decide (page x = a) then is_block d a x ∧ x ∉ l else live h x.
Proof.
  intros Hd Har Hai Hmem. unfold live. split.
  - intros (ar' & Hx & Hlive). apply relist_arena in Hx as (ar0 & Hx & E1 & _). rewrite E1 in Hlive.
    case_decide as E.
    + subst a. simplify_eq. rewrite Hai in Hlive. destruct Hlive as (d' & Hd' & Hb & Hn).
      apply relist_desc in Hd' as (d0 & Hd0 & ->). rewrite decide_True in Hb, Hn by done. by simplify_eq.
    + exists ar0. split; [done|]. destruct (adesc ar0) as [j|]; [|done].
      destruct Hlive as (d' & Hd' & Hb & Hn). apply relist_desc in Hd' as (d0 & Hd0 & ->).
      exists d0. split; [done|]. case_decide as Eij; [|done]. subst j. simplify_eq. simpl in *. by rewrite <- Hmem.
  - case_decide as E.
    + intros [Hb Hn]. subst a. simpl. rewrite lookup_alter_eq, Har. eexists. split; [done|]. simpl.
      rewrite Hai, list_lookup_alter, decide_True, Hd by done. eexists. split; [done|]. done.
    + intros (ar0 & Hx & Hlive). exists ar0. simpl. rewrite lookup_alter_ne by done. split; [done|].
      destruct (adesc ar0) as [j|]; [|done]. destruct Hlive as (d0 & Hd0 & Hb & Hn).
      rewrite list_lookup_alter. case_decide as Eij; [|eauto]. subst j. simplify_eq. rewrite Hd.
      eexists. split; [done|]. simpl. rewrite Hmem by done. done.
Qed.

(** ** Adding and removing arenas *)

Lemma arena_ok_ext h h' a ar :
  arena_ok h a ar → descs h' = descs h →
  (∀ q, in_group a (extent ar) q → page_used (pages h) q → page_used (pages h') q) → arena_ok h' a ar.
Proof.
  intros [H1 H2 H3 H4] Hd Hp. split; [done|done|done|]. unfold extent in Hp. rewrite Hd.
  destruct (adesc ar) as [i|].
  - destruct H4 as (d & ? & Hu & ?). exists d. split; [done|]. split; [|done].
    apply Hp; [|done]. exists 0. unfold PGSIZE. lia.
  - destruct H4 as [Hc Hu]. split; [done|]. auto.
Qed.

Lemma arena_pages h a ar q :
  arena_ok h a ar → in_group a (extent ar) q → page_used (pages h) q.
Proof.
  intros [_ _ _ H4]. unfold extent. destruct (adesc ar) as [i|]; [|by apply H4].
  intros (j & Hj & ->). destruct H4 as (d & _ & Hu & _). by replace (a + PGSIZE * j) with a by (unfold PGSIZE; lia).
Qed.

Lemma in_group_self a ar h : arena_ok h a ar → in_group a (extent ar) a.
Proof.
  intros [_ _ _ H4]. exists 0. unfold extent, PGSIZE. destruct (adesc ar); [lia|]. destruct H4. lia.
Qed.

Lemma unused_no_arena h a : heap_ok h → ¬ page_used (pages h) a → arenas h !! a = None.
Proof.
  intros Hh Hn. destruct (arenas h !! a) as [ar|] eqn:E; [|done]. exfalso. apply Hn.
  pose proof (h_arenas h Hh a ar E) as Ha. eapply arena_pages; [done|]. by eapply in_group_self.
Qed.

Lemma count_absent h i d a :
  heap_ok h → descs h !! i = Some d → arenas h !! a = None → count a (free_list d) = 0%nat.
Proof.
  intros Hh Hd Ha. unfold count. destruct (h_free h Hh i d Hd) as [_ Hf].
  destruct (filter (λ b, page b = a) (free_list d)) as [|b l] eqn:E; [done|].
  assert (b ∈ filter (λ b, page b = a) (free_list d)) as Hb by (rewrite E; left).
  apply list_elem_of_filter in Hb as [<- Hb]. destruct (Hf b Hb) as (ar & Har & _). congruence.
Qed.

Definition add_arena (a : Z) (ar : arena) (s' : S) h : heap S := Heap (descs h) (<[a := ar]> (arenas h)) s'.

Lemma add_arena_ok a ar s' h :
  heap_ok h → pages_ok s' → 0 < extent ar →
  (∀ q, in_group a (extent ar) q → ¬ page_used (pages h) q) →
  (∀ q, page_used s' q ↔ page_used (pages h) q ∨ in_group a (extent ar) q) →
  arena_ok (add_arena a ar s' h) a ar →
  heap_ok (add_arena a ar s' h) ∧
  ∀ x, live (add_arena a ar s' h) x ↔ live h x ∨
    (page x = a ∧ match adesc ar with
                  | Some i => ∃ d, descs h !! i = Some d ∧ is_block d a x
                  | None => x = a + SIZEOF_ARENA
                  end).
Proof.
  intros Hh Hs' Hext Hfresh Hused Har.
  assert (arenas h !! a = None) as Hnone.
  { apply (unused_no_arena h a Hh), Hfresh. exists 0. unfold PGSIZE. lia. }
  split.
  - split; simpl; [done|apply Hh| | |].
    + intros x arx [[<- <-]|[Hne Hx]]%lookup_insert_Some; [done|].
      apply (arena_ok_ext h); [by apply Hh|done|]. intros q _ Hq. apply Hused. by left.
    + intros x arx y ary Hx Hy Hxy. apply lookup_insert_Some in Hx as [[<- <-]|[_ Hx]],
        Hy as [[<- <-]|[_ Hy]]; [done| | |by eapply (h_apart h Hh)].
      * intros Hg. apply (Hfresh y Hg). pose proof (h_arenas h Hh y ary Hy) as Hy'.
        eapply arena_pages; [done|]. by eapply in_group_self.
      * intros Hg. apply (Hfresh a); [exists 0; unfold PGSIZE; lia|].
        eapply arena_pages; [by apply (h_arenas h Hh x arx)|done].
    + intros i d Hd. destruct (h_free h Hh i d Hd) as [Hnd Hf]. split; [done|]. intros b Hb.
      destruct (Hf b Hb) as (ar0 & Hb0 & ?). exists ar0. rewrite lookup_insert_ne by congruence. done.
  - intros x. unfold live. simpl. destruct (decide (a = page x)) as [->|Hne].
    + rewrite lookup_insert_eq, Hnone. split.
      * intros (ar0 & [= <-] & Hl). right. split; [done|]. destruct (adesc ar); [naive_solver|done].
      * intros [(ar0 & [=] & _)|[_ Hl]]. exists ar. split; [done|]. destruct (adesc ar) as [i|]; [|done].
        destruct Hl as (d & Hd & Hb). exists d. split; [done|]. split; [done|]. intros Hin.
        destruct (h_free h Hh i d Hd) as [_ Hf]. destruct (Hf x Hin) as (ar0 & Hx & _). congruence.
    + rewrite lookup_insert_ne by done. split; [by left|]. intros [|[? _]]; [done|congruence].
Qed.

Definition drop_arena (a : Z) (s' : S) h : heap S := Heap (descs h) (delete a (arenas h)) s'.

Lemma drop_arena_ok a ar s' h :
  heap_ok h → pages_ok s' → arenas h !! a = Some ar →
  (∀ i d, adesc ar = Some i → descs h !! i = Some d → count a (free_list d) = 0%nat) →
  (∀ q, page_used s' q ↔ page_used (pages h) q ∧ ¬ in_group a (extent ar) q) →
  heap_ok (drop_arena a s' h) ∧ ∀ x, live (drop_arena a s' h) x ↔ live h x ∧ page x ≠ a.
Proof.
  intros Hh Hs' Har Hcnt Hused. pose proof (h_arenas h Hh a ar Har) as Hao. split.
  - split; simpl; [done|apply Hh| | |].
    + intros x arx [Hne Hx]%lookup_delete_Some. pose proof (h_arenas h Hh x arx Hx) as Hxo.
      apply (arena_ok_ext h); [done|done|]. intros q Hq Hqu. apply Hused. split; [done|]. intros Hqa.
      destruct Hq as (i & Hi & ->), Hqa as (j & Hj & E). unfold PGSIZE in E.
      destruct (decide (j ≤ i)) as [Hij|Hij].
      * apply (h_apart h Hh x arx a ar Hx Har); [done|]. exists (i - j). unfold PGSIZE. lia.
      * apply (h_apart h Hh a ar x arx Har Hx); [done|]. exists (j - i). unfold PGSIZE. lia.
    + intros x arx y ary [_ Hx]%lookup_delete_Some [_ Hy]%lookup_delete_Some. by eapply (h_apart h Hh).
    + intros i d Hd. destruct (h_free h Hh i d Hd) as [Hnd Hf]. split; [done|]. intros b Hb.
      destruct (Hf b Hb) as (ar0 & Hb0 & Hi & Hblk). exists ar0. rewrite lookup_delete_ne; [done|].
      intros ->. simplify_eq. specialize (Hcnt i d Hi Hd). unfold count in Hcnt.
      apply length_zero_iff_nil in Hcnt.
      assert (b ∈ filter (λ b0, page b0 = page b) (free_list d)) as Hin by (by apply list_elem_of_filter).
      rewrite Hcnt in Hin. by apply elem_of_nil in Hin.
  - intros x. unfold live. simpl. split.
    + intros (ar0 & [Hne Hx]%lookup_delete_Some & Hl). split; [eauto|done].
    + intros [(ar0 & Hx & Hl) Hne]. exists ar0. rewrite lookup_delete_ne by done. done.
Qed.

(** ** The steps of the operations *)

Lemma page_ofs b : b = page b + pg_ofs b.
Proof. rewrite pg_ofs_mod. unfold page. pose proof (Z.div_mod b PGSIZE). unfold PGSIZE in *. lia. Qed.

Lemma block_to_arena_small h b i d ar :
  arenas h !! page b = Some ar → magic ar = ARENA_MAGIC → adesc ar = Some i → descs h !! i = Some d →
  desc_ok d → is_block d (page b) b → 0 < page b → is_u32 b → block_to_arena b h = Ok (page b, h).
Proof.
  intros Har Hm Hi Hd Hdo Hb Hp Hu. unfold block_to_arena. rewrite pg_round_down_eq by done. fold (page b).
  erewrite st_then by (apply assert_ok, nonnull; lia).
  erewrite st_then by (unfold get_arena; rewrite Har, Hm, Z.eqb_refl; reflexivity).
  erewrite st_then; [done|]. rewrite Hi. erewrite st_then by (unfold get_desc; rewrite Hd; reflexivity).
  apply assert_ok, Z.eqb_eq. pose proof (block_range d _ b Hdo Hb). pose proof (page_ofs b).
  destruct Hb as (k & Hk & Eb), Hdo as [Hs _ Hf].
  replace (pg_ofs b - SIZEOF_ARENA) with (Z.of_nat k * block_size d).
  2: { unfold nth_block in Eb. lia. }
  rewrite u32_small; [apply Z_mod_mult|]. unfold is_u32, SIZEOF_ARENA, PGSIZE in *. nia.
Qed.

Lemma block_to_arena_big h b ar :
  arenas h !! page b = Some ar → magic ar = ARENA_MAGIC → adesc ar = None → b = page b + SIZEOF_ARENA →
  0 < page b → is_u32 b → block_to_arena b h = Ok (page b, h).
Proof.
  intros Har Hm Hi Hb Hp Hu. unfold block_to_arena. rewrite pg_round_down_eq by done. fold (page b).
  erewrite st_then by (apply assert_ok, nonnull; lia).
  erewrite st_then by (unfold get_arena; rewrite Har, Hm, Z.eqb_refl; reflexivity).
  erewrite st_then; [done|]. rewrite Hi. apply assert_ok, Z.eqb_eq. pose proof (page_ofs b). lia.
Qed.

Lemma get_arena_run h a ar :
  arenas h !! a = Some ar → magic ar = ARENA_MAGIC → get_arena a h = Ok (ar, h).
Proof. intros Har Hm. unfold get_arena. by rewrite Har, Hm, Z.eqb_refl. Qed.

Lemma get_desc_run h i d : descs h !! i = Some d → get_desc i h = Ok (d, h).
Proof. intros Hd. unfold get_desc. by rewrite Hd. Qed.

Lemma arena_to_block_run h a k i d ar :
  arenas h !! a = Some ar → magic ar = ARENA_MAGIC → adesc ar = Some i → descs h !! i = Some d →
  desc_ok d → 0 < a → a + PGSIZE ≤ 2 ^ 32 → Z.of_nat k < blocks_per_arena d →
  arena_to_block a (Z.of_nat k) h = Ok (nth_block d a k, h).
Proof.
  intros Har Hm Hi Hd [Hs Hc Hf] Ha Ha2 Hk. unfold arena_to_block.
  erewrite st_then by (apply assert_ok, nonnull; lia).
  rewrite (st_then _ _ _ _ _ (get_arena_run h a ar Har Hm)), Hi.
  rewrite (st_then _ _ _ _ _ (get_desc_run h i d Hd)).
  erewrite st_then by (by apply assert_ok, Z.ltb_lt).
  rewrite u32_small; [done|]. unfold is_u32, SIZEOF_ARENA, PGSIZE in *. nia.
Qed.

(** The heap with another free list for descriptor [i]. *)
Definition with_list (i : nat) (l : list Z) h : heap S := set_descs (alter (set_free_list l) i (descs h)) h.

Lemma with_list_desc i l h d : descs h !! i = Some d → descs (with_list i l h) !! i = Some (set_free_list l d).
Proof. intros Hd. simpl. by rewrite list_lookup_alter_eq, Hd. Qed.

Lemma with_list_twice i l l' h : with_list i l' (with_list i l h) = with_list i l' h.
Proof.
  unfold with_list, set_descs. simpl. f_equal. apply list_eq. intros j. rewrite !list_lookup_alter.
  case_decide; [|done]. subst. rewrite ?decide_True by done. by destruct (descs h !! j).
Qed.

Lemma fill_loop_run n a i k h d ar :
  arenas h !! a = Some ar → magic ar = ARENA_MAGIC → adesc ar = Some i → descs h !! i = Some d →
  desc_ok d → 0 < a → a + PGSIZE ≤ 2 ^ 32 → Z.of_nat (k + n) ≤ blocks_per_arena d →
  fill_loop n a i k h = Ok (tt, with_list i (free_list d ++ (nth_block d a <$> seq k n)) h).
Proof.
  intros Har Hm Hi Hd Hdo Ha Ha2. revert k h d Har Hd Hdo. induction n as [|n IH]; intros k h d Har Hd Hdo Hk.
  - simpl. rewrite app_nil_r. unfold mret, st_ret. do 2 f_equal. unfold with_list, set_descs.
    destruct h as [ds ars s]. simpl in *. f_equal. apply list_eq. intros j. rewrite list_lookup_alter.
    case_decide; [|done]. subst. rewrite Hd. by destruct d.
  - cbn [fill_loop]. rewrite (st_then _ _ _ _ _ (arena_to_block_run h a k i d ar Har Hm Hi Hd Hdo Ha Ha2 ltac:(lia))).
    rewrite (st_then _ _ _ _ _ (get_desc_run h i d Hd)).
    set (l := free_list d ++ [nth_block d a k]).
    erewrite (st_then _ _ _ _ (with_list i l h)) by reflexivity.
    rewrite (IH (Datatypes.S k) (with_list i l h) (set_free_list l d)); try done.
    + rewrite with_list_twice. simpl. unfold l. by rewrite <- app_assoc.
    + by apply with_list_desc.
    + by destruct Hdo.
    + simpl. lia.
Qed.

Lemma unlink_loop_run n a i k h d ar :
  arenas h !! a = Some ar → magic ar = ARENA_MAGIC → adesc ar = Some i → descs h !! i = Some d →
  desc_ok d → 0 < a → a + PGSIZE ≤ 2 ^ 32 → Z.of_nat (k + n) ≤ blocks_per_arena d →
  unlink_loop n a i k h =
  Ok (tt, with_list i (filter (λ x, x ∉ nth_block d a <$> seq k n) (free_list d)) h).
Proof.
  intros Har Hm Hi Hd Hdo Ha Ha2. revert k h d Har Hd Hdo. induction n as [|n IH]; intros k h d Har Hd Hdo Hk.
  - simpl unlink_loop. unfold mret, st_ret. do 2 f_equal.
    assert (filter (λ x, x ∉ nth_block d a <$> seq k 0) (free_list d) = free_list d) as ->.
    { induction (free_list d) as [|x l IHl]; [done|]. rewrite filter_cons, decide_True; [by rewrite IHl|].
      simpl. apply not_elem_of_nil. }
    unfold with_list, set_descs.
    destruct h as [ds ars s]. simpl in *. f_equal. apply list_eq. intros j. rewrite list_lookup_alter.
    case_decide; [|done]. subst. rewrite Hd. by destruct d.
  - cbn [unlink_loop]. rewrite (st_then _ _ _ _ _ (arena_to_block_run h a k i d ar Har Hm Hi Hd Hdo Ha Ha2 ltac:(lia))).
    rewrite (st_then _ _ _ _ _ (get_desc_run h i d Hd)).
    set (l := filter (λ x, x ≠ nth_block d a k) (free_list d)).
    erewrite (st_then _ _ _ _ (with_list i l h)) by reflexivity.
    rewrite (IH (Datatypes.S k) (with_list i l h) (set_free_list l d)); try done.
    + rewrite with_list_twice. do 3 f_equal. simpl. unfold l. rewrite list_filter_filter. apply list_filter_iff.
      intros x. rewrite not_elem_of_cons. tauto.
    + by apply with_list_desc.
    + by destruct Hdo.
    + simpl. lia.
Qed.

Lemma take_block_run i h d b rest ar :
  descs h !! i = Some d → free_list d = b :: rest → arenas h !! page b = Some ar →
  magic ar = ARENA_MAGIC → adesc ar = Some i → desc_ok d → is_block d (page b) b → 0 < page b → is_u32 b →
  0 < free_cnt ar < 2 ^ 32 →
  take_block i h = Ok (b, relist i (page b) rest (free_cnt ar - 1) h).
Proof.
  intros Hd Hl Har Hm Hi Hdo Hb Hp Hu Hc. unfold take_block.
  rewrite (st_then _ _ _ _ _ (get_desc_run h i d Hd)), Hl.
  erewrite (st_then _ _ _ _ (with_list i rest h)) by reflexivity.
  erewrite st_then.
  2: { eapply (block_to_arena_small _ b i (set_free_list rest d) ar); try done; [by apply with_list_desc|by destruct Hdo]. }
  rewrite (st_then _ _ _ _ _ (get_arena_run (with_list i rest h) (page b) ar Har Hm)).
  erewrite st_then by reflexivity. unfold mret, st_ret. do 2 f_equal.
  unfold set_arenas, relist. simpl. f_equal. rewrite u32_small by (unfold is_u32; lia).
  apply map_eq. intros x. destruct (decide (x = page b)) as [->|].
  - by rewrite lookup_insert_eq, lookup_alter_eq, Har.
  - by rewrite lookup_insert_ne, lookup_alter_ne by done.
Qed.

(** ** malloc *)

Lemma count_cons a b l : count a (b :: l) = ((if decide (page b = a) then 1 else 0) + count a l)%nat.
Proof. unfold count. rewrite filter_cons. by case_decide. Qed.

Lemma small_arena h a ar i d :
  heap_ok h → arenas h !! a = Some ar → adesc ar = Some i → descs h !! i = Some d →
  aligned a ∧ 0 < a ∧ a + PGSIZE ≤ 2 ^ 32 ∧ magic ar = ARENA_MAGIC ∧ page_used (pages h) a ∧
  free_cnt ar = Z.of_nat (count a (free_list d)) ∧ free_cnt ar < blocks_per_arena d.
Proof.
  intros Hh Har Hi Hd. destruct (h_arenas h Hh a ar Har) as [H1 H2 H3 H4]. rewrite Hi in H4.
  destruct H4 as (d' & Hd' & Hu & Hc & Hb). simplify_eq.
  destruct (pa_used (pages h) a (h_pages h Hh) Hu) as (_ & _ & Hend & _). done.
Qed.

Lemma block_u32 d a b : desc_ok d → is_block d a b → 0 < a → a + PGSIZE ≤ 2 ^ 32 → is_u32 b.
Proof.
  intros Hd Hb Ha He. pose proof (block_range d a b Hd Hb). destruct Hd as [Hs _ _].
  unfold is_u32, SIZEOF_ARENA in *. lia.
Qed.

Lemma desc_cnt_bound d : desc_ok d → blocks_per_arena d < 256.
Proof. intros [Hs Hc Hf]. unfold SIZEOF_ARENA, PGSIZE in *. nia. Qed.

(** A block taken from a nonempty free list. *)
Lemma take_block_ok h i d b rest :
  heap_ok h → descs h !! i = Some d → free_list d = b :: rest →
  ∃ h', take_block i h = Ok (b, h') ∧ heap_ok h' ∧ pages h' = pages h ∧ b ≠ 0 ∧ ¬ live h b ∧
        (∀ x, live h' x ↔ live h x ∨ x = b) ∧ capacity h' b = block_size d.
Proof.
  intros Hh Hd Hl. pose proof (h_desc h i d Hh Hd) as Hdo. destruct (h_free h Hh i d Hd) as [Hnd Hf].
  rewrite Hl in Hnd, Hf. destruct (Hf b) as (ar & Har & Hi & Hb); [left|].
  destruct (small_arena h _ ar i d Hh Har Hi Hd) as (Hal & Hp & He & Hm & Hu & Hc & Hlt).
  rewrite Hl, count_cons, decide_True in Hc by done. apply NoDup_cons in Hnd as [Hbr Hnd].
  pose proof (block_u32 d _ b Hdo Hb Hp He) as Hbu. pose proof (desc_cnt_bound d Hdo).
  exists (relist i (page b) rest (free_cnt ar - 1) h).
  split; [by eapply take_block_run; [..|lia]|]. split; [|split; [done|split; [|split; [|split]]]].
  - eapply relist_ok; try done; [| |lia|lia].
    + intros x Hx. apply Hf. by right.
    + intros x Hx. rewrite Hl, count_cons, decide_False by congruence. done.
  - pose proof (block_range d _ b Hdo Hb). unfold SIZEOF_ARENA in *. lia.
  - intros (ar' & Har' & Hlive). simplify_eq. rewrite Hi in Hlive. destruct Hlive as (d' & Hd' & _ & Hn).
    simplify_eq. apply Hn. rewrite Hl. left.
  - intros x. rewrite (relist_live i (page b) rest _ h d ar x Hd Har Hi).
    2: { intros y Hy. rewrite Hl, elem_of_cons. naive_solver. }
    case_decide as E.
    + split.
      * intros [Hx Hn]. destruct (decide (x = b)) as [->|Hne]; [by right|]. left. exists ar. rewrite E.
        split; [done|]. rewrite Hi. exists d. split; [done|]. rewrite Hl, elem_of_cons. naive_solver.
      * intros [(ar' & Har' & Hlive)| ->]; [|done]. rewrite E in Har', Hlive. simplify_eq. rewrite Hi in Hlive.
        destruct Hlive as (d' & Hd' & Hx & Hn). simplify_eq. rewrite Hl, elem_of_cons in Hn. naive_solver.
    + split; [by left|]. intros [|Hx]; [done|congruence].
  - unfold capacity. simpl. rewrite lookup_alter_eq, Har. simpl. rewrite Hi, list_lookup_alter_eq, Hd. done.
Qed.

Lemma find_desc_spec ds j size i :
  find_desc ds j size = Some i → ∃ d, ds !! (i - j)%nat = Some d ∧ (j ≤ i)%nat ∧ size ≤ block_size d.
Proof.
  revert j. induction ds as [|d ds IH]; intros j Hf; simpl in Hf; [done|]. destruct (Z.leb_spec size (block_size d)).
  - injection Hf as ->. exists d. rewrite Nat.sub_diag. done.
  - destruct (IH _ Hf) as (d' & Hd' & Hj & Hs). exists d'. replace (i - j)%nat with (Datatypes.S (i - Datatypes.S j)) by lia.
    split; [done|]. split; [lia|done].
Qed.

Lemma on_pages_run {A} (f : ST S A) h a s : f (pages h) = Ok (a, s) → on_pages f h = Ok (a, set_pages s h).
Proof. intros Hf. unfold on_pages. by rewrite Hf. Qed.

Lemma set_pages_id h : set_pages (pages h) h = h.
Proof. by destruct h. Qed.

(** A request larger than any descriptor: whole pages. *)
Lemma malloc_big h cnt :
  heap_ok h → 0 ≤ cnt < 2 ^ 20 →
  ∃ r h', (a ← on_pages (get_pages cnt);
           if a =? 0 then mret 0
           else put_arena a (Arena ARENA_MAGIC None cnt);; mret (u32 (a + SIZEOF_ARENA))) h = Ok (r, h') ∧
    heap_ok h' ∧ memory (pages h') = memory (pages h) ∧
    ((r = 0 ∧ h' = h) ∨
     (r ≠ 0 ∧ ¬ live h r ∧ (∀ x, live h' x ↔ live h x ∨ x = r) ∧ capacity h' r = PGSIZE * cnt - SIZEOF_ARENA)).
Proof.
  intros Hh Hc. destruct (decide (cnt = 0)) as [->|Hc0].
  { exists 0, h. rewrite (st_then _ _ _ _ _ (on_pages_run _ _ _ _ (pa_get_zero (pages h)))), set_pages_id.
    split; [done|]. split; [done|]. split; [done|]. by left. }
  destruct (pa_get (pages h) cnt (h_pages h Hh) ltac:(lia)) as (a & s' & Hg & Hs' & Hmem & Hcase).
  rewrite (st_then _ _ _ _ _ (on_pages_run _ _ _ _ Hg)). destruct Hcase as [[-> ->]|(Ha & Hfresh & Hused)].
  { exists 0, h. rewrite set_pages_id. split; [done|]. split; [done|]. split; [done|]. by left. }
  rewrite (proj2 (Z.eqb_neq _ _) Ha). erewrite st_then by reflexivity.
  assert (in_group a cnt a) as Hself by (exists 0; unfold PGSIZE; lia).
  destruct (pa_used s' a Hs' ltac:(apply Hused; by right)) as (Hal & Hpos & Hend & _).
  rewrite u32_small by (unfold is_u32, SIZEOF_ARENA, PGSIZE in *; lia).
  set (ar := Arena ARENA_MAGIC None cnt).
  destruct (add_arena_ok a ar s' h Hh Hs') as [Hok Hlive]; try done; [unfold extent, ar; simpl; lia| |].
  { split; [done|done|done|]. simpl. split; [lia|]. intros q Hq. apply Hused. by right. }
  assert (page (a + SIZEOF_ARENA) = a) as Hpg by (apply page_range; [done|unfold SIZEOF_ARENA, PGSIZE; lia]).
  assert (arenas h !! a = None) as Hnone by (apply unused_no_arena; [done|by apply Hfresh]).
  exists (a + SIZEOF_ARENA), (add_arena a ar s' h). split; [done|]. split; [done|]. split; [done|].
  right. split; [unfold SIZEOF_ARENA; lia|]. split; [|split].
  - intros (ar' & Har' & _). rewrite Hpg in Har'. congruence.
  - intros x. rewrite Hlive. simpl. split; [naive_solver|]. intros [| ->]; [by left|by right].
  - unfold capacity. rewrite Hpg. simpl. by rewrite lookup_insert_eq.
Qed.

Lemma alter_id_list {A} (f : A → A) i (l : list A) x : l !! i = Some x → f x = x → alter f i l = l.
Proof.
  intros Hx Hf. apply list_eq. intros j. rewrite list_lookup_alter. case_decide; [|done]. subst. by rewrite Hx; simpl; rewrite Hf.
Qed.

(** A request that finds the free list of its descriptor empty: a new arena. *)
Lemma malloc_new h i d :
  heap_ok h → descs h !! i = Some d → free_list d = [] →
  ∃ r h', (a ← on_pages (get_pages 1);
           if a =? 0 then mret 0
           else
             put_arena a (Arena ARENA_MAGIC (Some i) (blocks_per_arena d));;
             fill_loop (Z.to_nat (blocks_per_arena d)) a i 0;;
             take_block i) h = Ok (r, h') ∧
    heap_ok h' ∧ memory (pages h') = memory (pages h) ∧
    ((r = 0 ∧ h' = h) ∨
     (r ≠ 0 ∧ ¬ live h r ∧ (∀ x, live h' x ↔ live h x ∨ x = r) ∧ capacity h' r = block_size d)).
Proof.
  intros Hh Hd Hl. pose proof (h_desc h i d Hh Hd) as Hdo. pose proof (desc_cnt_bound d Hdo) as Hcb.
  pose proof (d_cnt d Hdo) as Hc3.
  destruct (pa_get (pages h) 1 (h_pages h Hh) ltac:(lia)) as (a & s' & Hg & Hs' & Hmem & Hcase).
  rewrite (st_then _ _ _ _ _ (on_pages_run _ _ _ _ Hg)). destruct Hcase as [[-> ->]|(Ha & Hfresh & Hused)].
  { exists 0, h. rewrite set_pages_id. split; [done|]. split; [done|]. split; [done|]. by left. }
  rewrite (proj2 (Z.eqb_neq _ _) Ha). erewrite st_then by reflexivity.
  assert (in_group a 1 a) as Hself by (exists 0; unfold PGSIZE; lia).
  destruct (pa_used s' a Hs' ltac:(apply Hused; by right)) as (Hal & Hpos & Hend & _).
  assert (arenas h !! a = None) as Hnone by (apply unused_no_arena; [done|by apply Hfresh]).
  set (h1 := set_arenas _ _).
  erewrite st_then.
  2: { eapply (fill_loop_run _ a i 0 h1 d); try done; [simpl; apply lookup_insert_eq|done|done|lia]. }
  fold (blocks d a). rewrite Hl. cbn [app].
  set (b := nth_block d a 0). set (rest := nth_block d a <$> seq 1 (Z.to_nat (blocks_per_arena d) - 1)).
  assert (blocks d a = b :: rest) as Hblk.
  { unfold blocks, rest, b. replace (Z.to_nat (blocks_per_arena d)) with (Datatypes.S (Z.to_nat (blocks_per_arena d) - 1)) at 1 by lia.
    done. }
  assert (∀ x, x ∈ blocks d a → is_block d a x) as Hisb by (intros x; by apply elem_of_blocks).
  assert (is_block d a b) as Hb by (apply Hisb; rewrite Hblk; left).
  assert (∀ x, is_block d a x → page x = a) as Hpg by (intros x; by apply block_page).
  pose proof (NoDup_blocks d a Hdo) as Hnd. rewrite Hblk in Hnd. apply NoDup_cons in Hnd as [Hbr Hnd].
  erewrite (take_block_run i (with_list i (blocks d a) h1) (set_free_list (blocks d a) d) b rest
             (Arena ARENA_MAGIC (Some i) (blocks_per_arena d)));
    [|by apply with_list_desc|by simpl|rewrite (Hpg b Hb); simpl; apply lookup_insert_eq|done|done
     |by destruct Hdo|by rewrite (Hpg b Hb)|by rewrite (Hpg b Hb)|by eapply block_u32|simpl; lia].
  cbn [free_cnt].
  (* the same heap, as an arena whose blocks are all in use, of which all but one are freed *)
  set (ar := Arena ARENA_MAGIC (Some i) 0).
  destruct (add_arena_ok a ar s' h Hh Hs') as [Hok Hlive]; try done.
  { split; [done|done|done|]. simpl. exists d. split; [done|]. split; [apply Hused; by right|].
    rewrite (count_absent h i d a Hh Hd Hnone). simpl. lia. }
  set (h2 := add_arena a ar s' h) in *.
  assert (arenas h2 !! a = Some ar) as Ha2 by apply lookup_insert_eq.
  assert (∀ x, x ∈ rest → is_block d a x) as Hrest by (intros x Hx; apply Hisb; rewrite Hblk; by right).
  assert (relist i (page b) rest (blocks_per_arena d - 1) (with_list i (blocks d a) h1)
          = relist i a rest (blocks_per_arena d - 1) h2) as ->.
  { rewrite (Hpg b Hb). unfold relist. simpl. f_equal.
    - apply list_eq. intros j. rewrite !list_lookup_alter. case_decide; [|done]. subst.
      rewrite decide_True by done. by rewrite Hd.
    - apply map_eq. intros x. destruct (decide (x = a)) as [->|].
      + by rewrite !lookup_alter_eq, !lookup_insert_eq.
      + by rewrite !lookup_alter_ne, !lookup_insert_ne by done. }
  assert (count a rest = (Z.to_nat (blocks_per_arena d) - 1)%nat) as Hcount.
  { unfold count. assert (filter (λ b0, page b0 = a) rest = rest) as ->.
    { apply list_filter_all. intros x Hx. by apply Hpg, Hrest. }
    unfold rest. by rewrite length_fmap, length_seq. }
  eexists b, _. split; [done|]. split; [|split; [done|]].
  - eapply (relist_ok i a rest _ h2 d ar); try done; [| |lia|lia].
    + intros x Hx. rewrite (Hpg x (Hrest x Hx)). exists ar. split; [done|]. split; [done|]. by apply Hrest.
    + intros x Hx. rewrite Hl. unfold count. simpl. rewrite list_filter_none; [done|].
      intros y Hy. rewrite (Hpg y (Hrest y Hy)). done.
  - right. split; [|split; [|split]].
    + pose proof (block_range d a b Hdo Hb). unfold SIZEOF_ARENA in *. lia.
    + intros (ar' & Har' & _). rewrite (Hpg b Hb) in Har'. congruence.
    + intros x. rewrite (relist_live i a rest _ h2 d ar x Hd Ha2 eq_refl).
      2: { intros y Hy. rewrite Hl. split; [intros Hin; by rewrite (Hpg y (Hrest y Hin)) in Hy|by intros ?%elem_of_nil]. }
      case_decide as E.
      * split.
        -- intros [Hx Hn]. right. apply elem_of_blocks in Hx; [|done]. rewrite Hblk in Hx.
           apply elem_of_cons in Hx as [|]; done.
        -- intros [(ar' & Har' & _)| ->]; [rewrite E in Har'; congruence|done].
      * rewrite Hlive. split; [naive_solver|]. intros [| ->]; [by left|]. by rewrite (Hpg b Hb) in E.
    + unfold capacity. rewrite (Hpg b Hb). simpl. rewrite lookup_alter_eq, lookup_insert_eq. simpl.
      by rewrite list_lookup_alter_eq, Hd.
Qed.

Lemma malloc_spec h size :
  heap_ok h → is_u32 size →
  ∃ r h', malloc size h = Ok (r, h') ∧ heap_ok h' ∧ memory (pages h') = memory (pages h) ∧
    ((r = 0 ∧ h' = h) ∨
     (r ≠ 0 ∧ ¬ live h r ∧ (∀ x, live h' x ↔ live h x ∨ x = r) ∧
      (size + SIZEOF_ARENA + PGSIZE ≤ 2 ^ 32 → size ≤ capacity h' r))).
Proof.
  intros Hh Hu. unfold malloc. destruct (Z.eqb_spec size 0) as [->|Hs0].
  { exists 0, h. split; [done|]. split; [done|]. split; [done|]. by left. }
  erewrite st_then by reflexivity. unfold id. destruct (find_desc (descs h) 0 size) as [i|] eqn:Ef.
  - destruct (find_desc_spec _ _ _ _ Ef) as (d & Hd & _ & Hsz). rewrite Nat.sub_0_r in Hd.
    rewrite (st_then _ _ _ _ _ (get_desc_run h i d Hd)). case_bool_decide as Hl.
    + destruct (malloc_new h i d Hh Hd Hl) as (r & h' & -> & Hh' & Hm & Hcase). exists r, h'.
      split; [done|]. split; [done|]. split; [done|]. destruct Hcase as [?|(? & ? & ? & Hc)]; [by left|].
      right. rewrite Hc. done.
    + destruct (free_list d) as [|b rest] eqn:El; [done|].
      destruct (take_block_ok h i d b rest Hh Hd El) as (h' & -> & Hh' & Hp & Hb & Hnl & Hlive & Hc).
      exists b, h'. split; [done|]. split; [done|]. split; [by rewrite Hp|]. right. by rewrite Hc.
  - set (cnt := u32 (u32 (size + SIZEOF_ARENA) + PGSIZE - 1) / PGSIZE).
    assert (0 ≤ cnt < 2 ^ 20) as Hc.
    { unfold cnt. pose proof (u32_range (u32 (size + SIZEOF_ARENA) + PGSIZE - 1)) as Hr. unfold is_u32 in Hr.
      split; [apply Z.div_pos; unfold PGSIZE in *; lia|apply Z.div_lt_upper_bound; unfold PGSIZE in *; lia]. }
    destruct (malloc_big h cnt Hh Hc) as (r & h' & -> & Hh' & Hm & Hcase). exists r, h'.
    split; [done|]. split; [done|]. split; [done|]. destruct Hcase as [?|(? & ? & ? & Hcap)]; [by left|].
    right. split; [done|]. split; [done|]. split; [done|]. intros Hno. rewrite Hcap. unfold cnt, is_u32 in *.
    unfold SIZEOF_ARENA, PGSIZE in *. rewrite !u32_small by (unfold is_u32; try rewrite u32_small by (unfold is_u32; lia); lia).
    pose proof (Z.div_mod (size + 12 + 4096 - 1) 4096). pose proof (Z.mod_pos_bound (size + 12 + 4096 - 1) 4096). lia.
Qed.

(** ** free *)

Lemma heap_memory_ok h m :
  heap_ok h → (∀ q n, mapped (memory (pages h)) q n → mapped m q n) →
  heap_ok (set_pages (set_memory m (pages h)) h) ∧
  ∀ x, live (set_pages (set_memory m (pages h)) h) x ↔ live h x.
Proof.
  intros Hh Hm. destruct (pa_set (pages h) m (h_pages h Hh) Hm) as (Hok & Hused & _). split; [|done].
  split; simpl; [done|apply Hh| |apply Hh|apply Hh].
  intros a ar Ha. apply (arena_ok_ext h); [by apply Hh|done|]. intros q _ Hq. by apply Hused.
Qed.

Lemma mapped_sub m q n p k :
  mapped m q n → q ≤ p → p + Z.of_nat k ≤ q + Z.of_nat n → mapped m p k.
Proof.
  intros Hm Hq Hk i Hi. specialize (Hm (Z.to_nat (p + Z.of_nat i - q))).
  replace (q + Z.of_nat (Z.to_nat (p + Z.of_nat i - q))) with (p + Z.of_nat i) in Hm by lia. apply Hm. lia.
Qed.

Lemma live_small h b ar i :
  heap_ok h → live h b → arenas h !! page b = Some ar → adesc ar = Some i →
  ∃ d, descs h !! i = Some d ∧ desc_ok d ∧ is_block d (page b) b ∧ (b ∉ free_list d) ∧ is_u32 b.
Proof.
  intros Hh (ar' & Har' & Hl) Har Hi. assert (ar' = ar) as -> by congruence.
  rewrite Hi in Hl. destruct Hl as (d & Hd & Hb & Hn).
  pose proof (h_desc h i d Hh Hd) as Hdo. exists d. split; [done|]. split; [done|]. split; [done|]. split; [done|].
  destruct (small_arena h _ ar i d Hh Har Hi Hd) as (_ & Hp & He & _). by eapply block_u32.
Qed.

(** The free list with block [b] in front, and without the blocks of its arena. *)
Lemma push_ok h b ar i d :
  heap_ok h → arenas h !! page b = Some ar → adesc ar = Some i → descs h !! i = Some d →
  is_block d (page b) b → b ∉ free_list d →
  let l := b :: free_list d in
  let l' := filter (λ x, x ∉ blocks d (page b)) l in
  NoDup l ∧ (∀ x, x ∈ l → ∃ ar, arenas h !! page x = Some ar ∧ adesc ar = Some i ∧ is_block d (page x) x) ∧
  (∀ x, x ≠ page b → count x l = count x (free_list d)) ∧ count (page b) l = Datatypes.S (count (page b) (free_list d)) ∧
  NoDup l' ∧ (∀ x, x ∈ l' ↔ x ∈ free_list d ∧ page x ≠ page b) ∧
  (∀ x, x ≠ page b → count x l' = count x (free_list d)) ∧ count (page b) l' = 0%nat.
Proof.
  intros Hh Har Hi Hd Hb Hn l l'. pose proof (h_desc h i d Hh Hd) as Hdo.
  destruct (h_free h Hh i d Hd) as [Hnd Hf].
  assert (∀ x, x ∈ l → ∃ ar, arenas h !! page x = Some ar ∧ adesc ar = Some i ∧ is_block d (page x) x) as Hall.
  { intros x [->|Hx]%elem_of_cons; [eauto|by apply Hf]. }
  assert (NoDup l) as Hndl by (by constructor).
  assert (∀ x, x ∈ l' ↔ x ∈ free_list d ∧ page x ≠ page b) as Hmem.
  { intros x. unfold l', l. rewrite list_elem_of_filter, elem_of_blocks, elem_of_cons by done. split.
    - intros [Hx [->|Hin]]; [done|]. split; [done|]. intros Hp. apply Hx.
      destruct (Hf x Hin) as (_ & _ & _ & Hxb). by rewrite Hp in Hxb.
    - intros [Hin Hp]. split; [|by right]. intros Hx. apply Hp. apply (block_page d); [done|apply page_aligned|done]. }
  assert (∀ x, x ≠ page b → count x l = count x (free_list d)) as Hcl.
  { intros x Hx. unfold l. by rewrite count_cons, decide_False by congruence. }
  split; [done|]. split; [done|]. split; [done|]. split; [|split; [|split; [done|split]]].
  - unfold l. by rewrite count_cons, decide_True by done.
  - by apply NoDup_filter.
  - intros x Hx. rewrite <- Hcl by done. unfold count, l'. rewrite list_filter_filter. f_equal.
    apply list_filter_iff. intros y. split; [tauto|]. intros Hp. split; [done|].
    rewrite elem_of_blocks by done. intros Hyb. apply Hx. rewrite <- Hp. apply (block_page d); [done|apply page_aligned|done].
  - unfold count. rewrite list_filter_none; [done|]. intros x Hx. by apply Hmem in Hx as [_ ?].
Qed.

Lemma on_memory_run {A} (f : ST mem A) h a m :
  f (memory (pages h)) = Ok (a, m) → on_memory f h = Ok (a, set_pages (set_memory m (pages h)) h).
Proof. intros Hf. unfold on_memory. by rewrite Hf. Qed.

(** Freeing a block of an arena, once its bytes have been scrubbed. *)
Lemma free_small h b ar i d :
  heap_ok h → live h b → arenas h !! page b = Some ar → adesc ar = Some i → descs h !! i = Some d →
  ∃ h', (put_free_list i (b :: free_list d);;
         put_arena (page b) (Arena (magic ar) (Some i) (u32 (free_cnt ar + 1)));;
         if blocks_per_arena d <=? u32 (free_cnt ar + 1) then
           assert (u32 (free_cnt ar + 1) =? blocks_per_arena d);;
           unlink_loop (Z.to_nat (blocks_per_arena d)) (page b) i 0;;
           on_pages (free_pages (page b) 1);;
           modify (λ h, set_arenas (delete (page b) (arenas h)) h)
         else mret tt) h = Ok (tt, h') ∧
    heap_ok h' ∧ ∀ x, live h' x ↔ live h x ∧ x ≠ b.
Proof.
  intros Hh Hlive Har Hi Hd. destruct (live_small h b ar i Hh Hlive Har Hi) as (d' & Hd' & Hdo & Hb & Hn & Hbu).
  simplify_eq. destruct (small_arena h _ ar i d Hh Har Hi Hd) as (Hal & Hp & He & Hm & Hu & Hc & Hlt).
  destruct (push_ok h b ar i d Hh Har Hi Hd Hb Hn) as (Hnd & Hall & Hcl & Hcb & Hnd' & Hmem & Hcl' & Hcb').
  destruct (h_free h Hh i d Hd) as [Hndf Hf].
  destruct (count_le d (page b) (free_list d) Hdo Hndf) as [_ Hless].
  { intros x Hx Hpx. destruct (Hf x Hx) as (_ & _ & _ & Hxb). by rewrite <- Hpx. }
  specialize (Hless b Hb Hn). pose proof (desc_cnt_bound d Hdo) as Hcb256.
  rewrite (u32_small (free_cnt ar + 1)) by (unfold is_u32; lia).
  do 2 (erewrite st_then by reflexivity).
  set (l := b :: free_list d) in *. set (a := page b) in *. set (h2 := set_arenas _ _).
  assert (h2 = relist i a l (free_cnt ar + 1) h) as Eh2.
  { unfold h2, relist, set_arenas, set_descs. simpl. f_equal. apply map_eq. intros x. destruct (decide (x = a)) as [->|].
    - rewrite lookup_insert_eq, lookup_alter_eq, Har. simpl. by rewrite Hi.
    - by rewrite lookup_insert_ne, lookup_alter_ne by done. }
  assert (∀ x, live h x → page x = a → is_block d a x ∧ x ∉ free_list d) as Hlv.
  { intros x (ar' & Hx & Hl) Hpx. rewrite Hpx in *. simplify_eq. rewrite Hi in Hl.
    destruct Hl as (d' & Hd' & ?). by simplify_eq. }
  destruct (Z.leb_spec (blocks_per_arena d) (free_cnt ar + 1)) as [Hfull|Hpart].
  - (* every block of the arena is free *)
    assert (free_cnt ar + 1 = blocks_per_arena d) as Efull by lia.
    erewrite st_then by (by apply assert_ok, Z.eqb_eq).
    erewrite st_then.
    2: { eapply (unlink_loop_run _ a i 0 h2 (set_free_list l d) (Arena (magic ar) (Some i) (free_cnt ar + 1))); try done.
         - simpl. apply lookup_insert_eq.
         - simpl. by rewrite list_lookup_alter_eq, Hd.
         - by destruct Hdo.
         - simpl. lia. }
    change (nth_block (set_free_list l d) a <$> seq 0 (Z.to_nat (blocks_per_arena d))) with (blocks d a).
    cbn [free_list set_free_list]. set (l' := filter (λ x, x ∉ blocks d a) l) in *.
    destruct (pa_free (pages h) a 1 (h_pages h Hh) ltac:(lia)) as (s' & Hfr & Hs' & Hused & _).
    { intros q (j & Hj & ->). by replace (a + PGSIZE * j) with a by (unfold PGSIZE; lia). }
    erewrite st_then by (by apply on_pages_run).
    assert (heap_ok (relist i a l' 0 h)) as Hr.
    { eapply relist_ok; try done; [|by rewrite Hcb'|lia]. intros x Hx. apply Hmem in Hx as [Hx _]. by apply Hf. }
    destruct (drop_arena_ok a (Arena (magic ar) (Some i) 0) s' (relist i a l' 0 h) Hr Hs') as [Hok Hdl].
    { simpl. rewrite lookup_alter_eq, Har. simpl. by rewrite Hi. }
    { intros j d' [= <-] Hd'. apply relist_desc in Hd' as (d0 & Hd0 & ->). by rewrite decide_True. }
    { simpl. exact Hused. }
    exists (drop_arena a s' (relist i a l' 0 h)). split; [|split; [done|]].
    + unfold modify. do 2 f_equal. unfold drop_arena, relist, set_arenas, with_list, set_pages, set_descs, h2. simpl. f_equal.
      * apply list_eq. intros j. rewrite !list_lookup_alter. case_decide; [|done]. subst. rewrite decide_True by done. by rewrite Hd.
      * by rewrite delete_insert_eq, delete_alter_eq.
    + intros x. rewrite Hdl. rewrite (relist_live i a l' 0 h d ar x Hd Har Hi) by (intros y Hy; rewrite Hmem; tauto).
      case_decide as E.
      * split; [tauto|]. intros [Hx Hne]. exfalso. destruct (Hlv x Hx E) as [Hxb Hxn].
        assert (NoDup (x :: l)) as Hndx.
        { constructor; [|done]. unfold l. rewrite elem_of_cons. tauto. }
        destruct (count_le d a l Hdo Hnd) as [_ Hless2].
        { intros y Hy Hpy. destruct (Hall y Hy) as (_ & _ & _ & Hyb). by rewrite <- Hpy. }
        specialize (Hless2 x Hxb ltac:(unfold l; rewrite elem_of_cons; tauto)). lia.
      * split; [intros [Hx _]; split; [done|intros ->; by apply E]|tauto].
  - exists (relist i a l (free_cnt ar + 1) h). rewrite Eh2. split; [done|]. split.
    + eapply relist_ok; try done; lia.
    + intros x. rewrite (relist_live i a l _ h d ar x Hd Har Hi).
      2: { intros y Hy. unfold l. rewrite elem_of_cons. split; [|by right]. intros [->|]; done. }
      case_decide as E.
      * unfold l. rewrite elem_of_cons. split.
        -- intros [Hx Hnx]. split; [|tauto]. exists ar. rewrite E. split; [done|]. rewrite Hi. exists d. tauto.
        -- intros [Hx Hne]. destruct (Hlv x Hx E). tauto.
      * split; [|tauto]. intros Hx. split; [done|intros ->; by apply E].
Qed.

Lemma free_spec h b :
  heap_ok h → live h b → ∃ h', free b h = Ok (tt, h') ∧ heap_ok h' ∧ ∀ x, live h' x ↔ live h x ∧ x ≠ b.
Proof.
  intros Hh Hlive. destruct Hlive as (ar & Har & Hl) eqn:Elive. clear Elive.
  pose proof (h_arenas h Hh _ ar Har) as [Hal Hp Hm Hd]. unfold free. destruct (adesc ar) as [i|] eqn:Hi.
  - destruct (live_small h b ar i Hh Hlive Har Hi) as (d & Hd' & Hdo & Hb & Hn & Hbu).
    pose proof (block_range d _ b Hdo Hb) as Hrange.
    rewrite (proj2 (Z.eqb_neq b 0)) by (unfold SIZEOF_ARENA in *; lia).
    erewrite st_then by (by eapply block_to_arena_small).
    rewrite (st_then _ _ _ _ _ (get_arena_run h _ ar Har Hm)), Hi.
    rewrite (st_then _ _ _ _ _ (get_desc_run h i d Hd')).
    destruct (small_arena h _ ar i d Hh Har Hi Hd') as (_ & _ & He & _ & Hu & _).
    destruct (pa_used (pages h) _ (h_pages h Hh) Hu) as (_ & _ & _ & Hmap).
    erewrite st_then.
    2: { apply on_memory_run, memset_ok; [unfold SIZEOF_ARENA in *; lia|].
         eapply mapped_sub; [exact Hmap|unfold SIZEOF_ARENA in *; lia|]. destruct Hdo. unfold PGSIZE in *. lia. }
    set (m := blit _ _ _).
    destruct (heap_memory_ok h m Hh) as [Hh1 Hl1]; [intros q n Hq; by apply mapped_blit|].
    destruct (free_small _ b ar i d Hh1 (proj2 (Hl1 b) Hlive) Har Hi Hd') as (h' & Hr & Hh' & Hl').
    exists h'. split; [exact Hr|]. split; [done|]. intros x. by rewrite Hl', Hl1.
  - destruct Hd as [Hc Hall]. assert (page_used (pages h) (page b)) as Hu.
    { apply Hall. exists 0. unfold PGSIZE. lia. }
    destruct (pa_used (pages h) _ (h_pages h Hh) Hu) as (_ & _ & He & _).
    rewrite (proj2 (Z.eqb_neq b 0)) by (unfold SIZEOF_ARENA in *; lia).
    assert (is_u32 b) as Hbu by (unfold is_u32, SIZEOF_ARENA, PGSIZE in *; lia).
    erewrite st_then by (by eapply block_to_arena_big).
    rewrite (st_then _ _ _ _ _ (get_arena_run h _ ar Har Hm)), Hi.
    destruct (pa_free (pages h) (page b) (free_cnt ar) (h_pages h Hh) ltac:(lia) Hall) as (s' & Hfr & Hs' & Hused & _).
    erewrite st_then by (by apply on_pages_run).
    destruct (drop_arena_ok (page b) ar s' h Hh Hs' Har) as [Hok Hdl].
    { intros j d' Hj. congruence. }
    { unfold extent. by rewrite Hi. }
    exists (drop_arena (page b) s' h). split; [done|]. split; [done|]. intros x. rewrite Hdl. split.
    + intros [Hx Hpx]. split; [done|congruence].
    + intros [Hx Hne]. split; [done|]. intros Hpx. apply Hne. destruct Hx as (ar' & Har' & Hlx).
      rewrite Hpx in Har', Hlx. simplify_eq. rewrite Hi in Hlx. congruence.
Qed.

(** A block in use lies within its arena. *)
Lemma live_extent h b :
  heap_ok h → live h b →
  ∃ ar, arenas h !! page b = Some ar ∧ page b + SIZEOF_ARENA ≤ b ∧
        b + capacity h b ≤ page b + PGSIZE * extent ar ∧
        ∀ i d, adesc ar = Some i → descs h !! i = Some d →
               desc_ok d ∧ is_block d (page b) b ∧ capacity h b = block_size d.
Proof.
  intros Hh Hlive. pose proof Hlive as (ar & Har & Hl). exists ar. split; [done|].
  unfold capacity, extent. rewrite Har. destruct (adesc ar) as [i|] eqn:Hi.
  - destruct (live_small h b ar i Hh Hlive Har Hi) as (d & Hd & Hdo & Hb & _). rewrite Hd. simpl.
    pose proof (block_range d _ b Hdo Hb). split; [lia|]. split; [lia|]. intros j d' [= <-] Hd'. by simplify_eq.
  - split; [lia|]. split; [lia|done].
Qed.

(** Two blocks in use do not overlap. *)
Lemma live_apart h b1 b2 :
  heap_ok h → live h b1 → live h b2 → b1 ≠ b2 →
  b1 + capacity h b1 ≤ b2 ∨ b2 + capacity h b2 ≤ b1.
Proof.
  intros Hh H1 H2 Hne.
  destruct (live_extent h b1 Hh H1) as (ar1 & Ha1 & Hlo1 & Hhi1 & Hs1).
  destruct (live_extent h b2 Hh H2) as (ar2 & Ha2 & Hlo2 & Hhi2 & Hs2). unfold SIZEOF_ARENA in *.
  destruct (decide (page b1 = page b2)) as [E|E].
  - rewrite E in Ha1. assert (ar1 = ar2) as -> by congruence. destruct (adesc ar2) as [i|] eqn:Hi.
    + destruct (live_small h b2 ar2 i Hh H2 Ha2 Hi) as (d & Hd & _).
      destruct (Hs1 i d eq_refl Hd) as (Hdo & Hb1 & ->), (Hs2 i d eq_refl Hd) as (_ & Hb2 & ->).
      rewrite E in Hb1. by eapply blocks_apart.
    + destruct H1 as (ar & Har & Hl1), H2 as (ar' & Har' & Hl2). rewrite E in Har.
      assert (ar = ar2) as -> by congruence. assert (ar' = ar2) as -> by congruence.
      rewrite Hi in Hl1, Hl2. rewrite E in Hl1. congruence.
  - pose proof (aligned_eq _ (page_aligned b1)) as E1. pose proof (aligned_eq _ (page_aligned b2)) as E2.
    set (k1 := page b1 / PGSIZE) in *. set (k2 := page b2 / PGSIZE) in *.
    destruct (Z.lt_total k1 k2) as [Hlt|[Heq|Hlt]]; [left| |right].
    + assert (extent ar1 ≤ k2 - k1) as Hx; [|unfold PGSIZE in *; lia].
      destruct (Z.le_gt_cases (extent ar1) (k2 - k1)) as [|Hgt]; [done|]. exfalso.
      apply (h_apart h Hh _ ar1 _ ar2 Ha1 Ha2 E). exists (k2 - k1). lia.
    + exfalso. apply E. rewrite E1, E2, Heq. done.
    + assert (extent ar2 ≤ k1 - k2) as Hx; [|unfold PGSIZE in *; lia].
      destruct (Z.le_gt_cases (extent ar2) (k1 - k2)) as [|Hgt]; [done|]. exfalso.
      apply (h_apart h Hh _ ar2 _ ar1 Ha2 Ha1); [done|]. exists (k1 - k2). lia.
Qed.

Lemma malloc_init_ok (s : S) :
  pages_ok s → ∃ h, malloc_init s = Ok h ∧ heap_ok h ∧ ∀ b, ¬ live h b.
Proof.
  intros Hs. eexists. split; [reflexivity|]. split.
  - split; [done|done|by intros a ar ?|by intros a ar a' ar' ?|].
    intros i d Hd. apply list_elem_of_lookup_2 in Hd. cbn [descs] in Hd.
    repeat (apply elem_of_cons in Hd as [->|Hd]); [..|by apply elem_of_nil in Hd];
      (split; [constructor|by intros b ?%elem_of_nil]).
  - intros b (ar & Har & _). done.
Qed.

End invariant.
