(* ===== verification/MallocThms.v ===== *)
(** * Theorems about the memory allocators

    malloc.c over any page allocator that satisfies the interface, and over palloc.c. *)

From S2P Require Import Prelude Bytes CString Vaddr PageAlloc Bitmap Palloc Malloc.

Section claims.
Context {S : Type} `{PageAllocLaws S}.


(** C25. free.  Freeing a block that is in use returns, failing no assertion (the count of
    free blocks of its arena is exact), and takes exactly that block out of use; no arena
    without a block in use is kept. *)
Theorem free_correct (h : heap S) b :
  heap_ok h → live h b →
  ∃ h', free b h = Ok (tt, h') ∧ heap_ok h' ∧ (∀ x, live h' x ↔ live h x ∧ x ≠ b) ∧
    ∀ a ar i d, arenas h' !! a = Some ar → adesc ar = Some i → descs h' !! i = Some d →
      free_cnt ar = Z.of_nat (count a (free_list d)) ∧ free_cnt ar < blocks_per_arena d.
Proof.
  intros Hh Hl. destruct (free_spec h b Hh Hl) as (h' & Hr & Hh' & Hl'). exists h'.
  split; [done|]. split; [done|]. split; [done|]. intros a ar i d Ha Hi Hd.
  by destruct (small_arena h' a ar i d Hh' Ha Hi Hd) as (_ & _ & _ & _ & _ & ? & ?).
Qed.

Lemma find_desc_none ds j size :
  Forall (λ d, block_size d < size) ds → find_desc ds j size = None.
Proof.
  intros Hds. revert j. induction Hds as [|d ds Hd _ IH]; intros j; [done|]. simpl.
  rewrite (proj2 (Z.leb_gt _ _)) by done. apply IH.
Qed.

(** Sizes that do not fit.  The computation of the number of pages wraps around: a
    request within 12 bytes of 2^32 is answered with a single page of 4084 bytes, if with
    any; and the check of [calloc] against overflow passes for 65537 * 65537, a request of
    more than 4 GB, for which it allocates and clears 131073 bytes. *)
Theorem allocation_size_overflow (h : heap S) :
  heap_ok h →
  (∃ r h', malloc 4294967290 h = Ok (r, h') ∧ (r = 0 ∨ capacity h' r = 4084)) ∧
  calloc 65537 65537 h =
    (p ← malloc 131073;
     (if negb (p =? 0) then on_memory (memset p 0 (Z.to_nat 131073));; mret tt else mret tt);;
     mret p) h.
Proof.
  intros Hh. split; [|reflexivity]. unfold malloc.
  change (4294967290 =? 0) with false. cbv beta iota. erewrite st_then by reflexivity. unfold id.
  rewrite find_desc_none.
  - change (u32 (u32 (4294967290 + SIZEOF_ARENA) + PGSIZE - 1) / PGSIZE) with 1.
    destruct (malloc_big h 1 Hh ltac:(lia)) as (r & h' & Hr & _ & _ & Hcase). exists r, h'. split; [exact Hr|].
    destruct Hcase as [[? _]|(_ & _ & _ & Hc)]; [by left|by right].
  - assert (Forall (λ p : Z * Z, p.1 < 4294967290) ((λ d, (block_size d, blocks_per_arena d)) <$> descs h)) as Hs.
    { rewrite (h_sizes h Hh). unfold sizes. repeat constructor. }
    rewrite Forall_fmap in Hs. exact Hs.
Qed.
End claims.

(** ** malloc.c over palloc.c *)

Definition booted_heap : heap palloc :=
  match malloc_init two_pools with Ok h => h | Err _ => Heap [] ∅ two_pools end.

Lemma booted_heap_ok : heap_ok booted_heap.
Proof. destruct (malloc_init_ok (S := palloc) two_pools) as (h & Hr & Hh & _); [exact two_pools_ok|]. unfold booted_heap. by rewrite Hr. Qed.

Definition block_of (r : result (Z * heap palloc)) : Z := match r with Ok (p, _) => p | Err _ => -1 end.

Lemma twenty : is_u32 20.
Proof. split; lia. Qed.

Lemma first_block : block_of (malloc 20 booted_heap) = 4108.
Proof. vm_compute. reflexivity. Qed.


Lemma free_correct_witness :
  ∃ h1 h2, malloc 20 booted_heap = Ok (4108, h1) ∧ free 4108 h1 = Ok (tt, h2) ∧ heap_ok h2 ∧ ¬ live h2 4108.
Proof.
  destruct (malloc_spec booted_heap 20 booted_heap_ok twenty) as (r & h1 & Hr & Hh & _ & Hc).
  pose proof first_block as Hv. rewrite Hr in Hv. cbn [block_of] in Hv. subst r.
  destruct Hc as [[Hz _]|(_ & _ & Hl & _)]; [discriminate Hz|].
  destruct (free_correct h1 4108 Hh) as (h2 & Hf & Hh2 & Hl2 & _); [apply Hl; right; reflexivity|].
  exists h1, h2. split; [exact Hr|]. split; [exact Hf|]. split; [exact Hh2|].
  intros Hx. apply Hl2 in Hx as [_ Hx]. exact (Hx eq_refl).
Defined.

Lemma allocation_size_overflow_witness :
  ∃ r h', malloc 4294967290 booted_heap = Ok (r, h') ∧ r = 4108.
Proof.
  destruct (allocation_size_overflow booted_heap booted_heap_ok) as [(r & h' & Hr & _) _].
  assert (block_of (malloc 4294967290 booted_heap) = 4108) as Hv by (vm_compute; reflexivity).
  exists r, h'. split; [exact Hr|]. rewrite Hr in Hv. exact Hv.
Defined.
