(* ===== verification/FixedPoint.v ===== *)
(** * threads/fixed_point.c: 17.14 fixed-point arithmetic

    A [fixed_point] is an [int32_t] that stands for its value divided by 2^14.  The
    scheduler's load average and recent-CPU estimates are computed with it.  The 64-bit
    divisions in [multiply] and [divide] are the kernel's own [__divdi3]
    (lib/arithmetic.c), so a zero divisor is the divide error that routine raises. *)

From S2P Require Import Prelude Arith64.

(** ** The code *)

Definition NUM_FRACTIONAL_BITS : Z := 14.
Definition FIXED_POINT_MULTIPLIER : Z := Z.shiftl 1 NUM_FRACTIONAL_BITS.

Definition to_fp (n : Z) : Z := i32 (n * FIXED_POINT_MULTIPLIER).

Definition to_int (x : Z) : Z := Z.quot x FIXED_POINT_MULTIPLIER.

Definition round_fp (x : Z) : Z :=
  if 0 <? x
  then Z.quot (i32 (x + Z.quot FIXED_POINT_MULTIPLIER 2)) FIXED_POINT_MULTIPLIER
  else Z.quot (i32 (x - Z.quot FIXED_POINT_MULTIPLIER 2)) FIXED_POINT_MULTIPLIER.

Definition add (x n : Z) : Z := i32 (x + to_fp n).

Definition multiply (x y : Z) : result Z :=
  q ← divdi3 (i64 (x * y)) FIXED_POINT_MULTIPLIER; mret (i32 q).

Definition divide (x y : Z) : result Z :=
  q ← divdi3 (i64 (x * FIXED_POINT_MULTIPLIER)) y; mret (i32 q).

(** ** Lemmas *)

Lemma mult_value : FIXED_POINT_MULTIPLIER = 2 ^ 14.
Proof. reflexivity. Qed.

Lemma product_i64 x y : is_i32 x → is_i32 y → is_i64 (x * y).
Proof.
  unfold_ints. intros Hx Hy. assert (Z.abs (x * y) ≤ 2 ^ 31 * 2 ^ 31).
  { rewrite Z.abs_mul. apply Z.mul_le_mono_nonneg; lia. }
  lia.
Qed.

Lemma multiply_exact x y :
  is_i32 x → is_i32 y → multiply x y = Ok (i32 (Z.quot (x * y) (2 ^ 14))).
Proof.
  intros Hx Hy. pose proof (product_i64 x y Hx Hy) as Hp. unfold multiply.
  rewrite (i64_small _ Hp), mult_value. unfold divdi3.
  rewrite sdiv64_exact by (done || unfold_ints; lia). cbn [mbind result_bind].
  rewrite (i64_small (Z.quot _ _)); [done|]. apply quot_in_i64; [done|unfold_ints; lia..].
Qed.

Lemma divide_exact x y :
  is_i32 x → is_i32 y → y ≠ 0 → divide x y = Ok (i32 (Z.quot (x * 2 ^ 14) y)).
Proof.
  intros Hx Hy Hy0. assert (is_i64 (x * 2 ^ 14)) as Hp by (unfold_ints; lia). unfold divide.
  rewrite mult_value, (i64_small _ Hp). unfold divdi3.
  rewrite sdiv64_exact by (done || unfold_ints; lia). cbn [mbind result_bind].
  rewrite (i64_small (Z.quot _ _)); [done|]. apply quot_in_i64; [done|unfold_ints; lia..].
Qed.

(** Truncated division by the multiplier, by cases on the sign. *)
Lemma quot_iff a b :
  Z.quot a (2 ^ 14) = b ↔
  (0 ≤ a ∧ 2 ^ 14 * b ≤ a < 2 ^ 14 * b + 2 ^ 14) ∨
  (a < 0 ∧ 2 ^ 14 * b - 2 ^ 14 < a ≤ 2 ^ 14 * b).
Proof.
  pose proof (Z.quot_rem a (2 ^ 14) ltac:(lia)) as Hqr.
  destruct (Z.le_gt_cases 0 a).
  - pose proof (Z.rem_bound_pos a (2 ^ 14) ltac:(lia) ltac:(lia)) as Hb.
    revert Hqr Hb. generalize (Z.rem a (2 ^ 14)), (Z.quot a (2 ^ 14)). intros.
    split; intros; [left|]; lia.
  - pose proof (Z.rem_bound_pos_neg a (2 ^ 14) ltac:(lia) ltac:(lia)) as Hb.
    revert Hqr Hb. generalize (Z.rem a (2 ^ 14)), (Z.quot a (2 ^ 14)). intros.
    split; intros; [right|]; lia.
Qed.

(** ** Claims *)

(** Conversions.  An integer of 17 bits and a sign survives the conversion to fixed
    point and back, by truncation and by rounding; [round_fp] returns an integer
    within half a unit of the value (ties away from zero) whenever adding the half does
    not leave the 32-bit range; [to_int] truncates toward zero. *)
Theorem fixed_point_conversions n x :
  - 2 ^ 17 < n < 2 ^ 17 → is_i32 x → - 2 ^ 31 + 2 ^ 13 ≤ x < 2 ^ 31 - 2 ^ 13 →
  to_int (to_fp n) = n ∧ round_fp (to_fp n) = n ∧
  2 * Z.abs (2 ^ 14 * round_fp x - x) ≤ 2 ^ 14 ∧
  Z.abs (2 ^ 14 * to_int x) ≤ Z.abs x < Z.abs (2 ^ 14 * to_int x) + 2 ^ 14.
Proof.
  intros Hn Hx Hr. unfold to_int, round_fp, to_fp. rewrite mult_value.
  replace (Z.quot (2 ^ 14) 2) with (2 ^ 13) by reflexivity.
  rewrite (i32_small (n * _)) by (unfold_ints; lia).
  pose proof quot_iff as Hq.
  split; [apply Hq; lia|]. split.
  { zcase; rewrite i32_small by (unfold_ints; lia); apply Hq; lia. }
  split.
  - zcase; rewrite i32_small by (unfold_ints; lia);
      [destruct (proj1 (Hq (x + 2 ^ 13) _) eq_refl)|destruct (proj1 (Hq (x - 2 ^ 13) _) eq_refl)]; lia.
  - destruct (proj1 (Hq x _) eq_refl); lia.
Qed.

Lemma fixed_point_conversions_witness : round_fp (to_fp 63) = 63 ∧ round_fp 8192 = 1.
Proof.
  destruct (fixed_point_conversions 63 8192) as (_ & H & _); [lia|split; lia|lia|].
  split; [exact H|reflexivity].
Defined.

(** Arithmetic.  For all operands [multiply] returns the product scaled back and
    truncated toward zero, reduced to 32 bits, without trapping, so it is exact to
    within one unit of 2^-14 when the result fits; [divide] does the same for the
    quotient, and a zero divisor is a divide error. *)
Theorem fixed_point_arithmetic x y :
  is_i32 x → is_i32 y →
  (multiply x y = Ok (i32 (Z.quot (x * y) (2 ^ 14))) ∧
   (is_i32 (Z.quot (x * y) (2 ^ 14)) →
    ∃ r, multiply x y = Ok r ∧ Z.abs (2 ^ 14 * r - x * y) < 2 ^ 14)) ∧
  divide x y = if y =? 0 then Err DivideError else Ok (i32 (Z.quot (x * 2 ^ 14) y)).
Proof.
  intros Hx Hy. pose proof (multiply_exact x y Hx Hy) as Hm. split; [split; [done|]|].
  - intros Hr. exists (Z.quot (x * y) (2 ^ 14)). rewrite Hm, i32_small by done. split; [done|].
    pose proof (Z.quot_rem (x * y) (2 ^ 14) ltac:(lia)).
    pose proof (Z.rem_bound_abs (x * y) (2 ^ 14) ltac:(lia)). lia.
  - zcase; [subst|by apply divide_exact]. unfold divide, divdi3, sdiv64.
    assert (is_i64 (x * FIXED_POINT_MULTIPLIER)) by (rewrite mult_value; unfold_ints; lia).
    simpl. done.
Qed.

Lemma fixed_point_arithmetic_witness :
  multiply (to_fp 59) (to_fp 2) = Ok (to_fp 118) ∧ divide 5 0 = Err DivideError.
Proof.
  split.
  - destruct (fixed_point_arithmetic (to_fp 59) (to_fp 2)) as [[H _] _]; [split; vm_compute; congruence..|].
    rewrite H. reflexivity.
  - destruct (fixed_point_arithmetic 5 0) as [_ H]; [split; lia..|]. exact H.
Defined.
