(* ===== verification/Thread.v ===== *)
(** * threads/thread.c, threads/interrupt.c: threads and the scheduler

    The kernel state is one record: the threads by address, the run queue, the list of
    all threads, the sleepers, the semaphores, locks and conditions, the interrupt flag
    and the statistics.  The queues are the sequences of threads they hold: the list
    library they are built on is shown in [DList] to act on those sequences.

    A thread that is switched out leaves its unfinished calls on its stack.  [pending]
    is that stack, a list of [frame]s, each the rest of one function after the call that
    switched; an operation pushes its own rest before it calls a function that may
    switch, and [schedule] only changes which thread is current.  Running the current
    thread means popping its top frame ([Synch.run_frame]).

    Not represented: the saved registers and page tables of a thread (switch.S,
    [process_activate]), which carry no scheduling state. *)

From S2P Require Import Prelude Arith64 FixedPoint Vaddr.

(** ** Data *)

Abbreviation ptr := Z (only parsing).

Inductive thread_status : Type :=
  | THREAD_RUNNING | THREAD_READY | THREAD_BLOCKED | THREAD_DYING.

#[export] Instance thread_status_eq_dec : EqDecision thread_status.
Proof. solve_decision. Defined.

Definition PRI_MIN : Z := 0.
Definition PRI_DEFAULT : Z := 31.
Definition PRI_MAX : Z := 63.
Definition THREAD_MAGIC : Z := 3446325067.
Definition TIME_SLICE : Z := 4.
Definition TIMER_FREQ : Z := 100.

Record thread : Type := Thread {
  tid : Z;
  pid : Z;
  status : thread_status;
  name : list Z;
  stack : Z;
  priority : Z;
  wake_time : Z;
  nice : Z;
  recent_cpu : Z;
  priority_donations : list ptr;
  orig_priority : Z;
  lock_needed : option ptr;
  pagedir : Z;
  magic : Z;
}.

Definition set_tid (x : Z) (t : thread) : thread :=
  Thread x (pid t) (status t) (name t) (stack t) (priority t) (wake_time t) (nice t) (recent_cpu t) (priority_donations t) (orig_priority t) (lock_needed t) (pagedir t) (magic t).
Definition set_pid (x : Z) (t : thread) : thread :=
  Thread (tid t) x (status t) (name t) (stack t) (priority t) (wake_time t) (nice t) (recent_cpu t) (priority_donations t) (orig_priority t) (lock_needed t) (pagedir t) (magic t).
Definition set_status (x : thread_status) (t : thread) : thread :=
  Thread (tid t) (pid t) x (name t) (stack t) (priority t) (wake_time t) (nice t) (recent_cpu t) (priority_donations t) (orig_priority t) (lock_needed t) (pagedir t) (magic t).
Definition set_stack (x : Z) (t : thread) : thread :=
  Thread (tid t) (pid t) (status t) (name t) x (priority t) (wake_time t) (nice t) (recent_cpu t) (priority_donations t) (orig_priority t) (lock_needed t) (pagedir t) (magic t).
Definition set_priority (x : Z) (t : thread) : thread :=
  Thread (tid t) (pid t) (status t) (name t) (stack t) x (wake_time t) (nice t) (recent_cpu t) (priority_donations t) (orig_priority t) (lock_needed t) (pagedir t) (magic t).
Definition set_wake_time (x : Z) (t : thread) : thread :=
  Thread (tid t) (pid t) (status t) (name t) (stack t) (priority t) x (nice t) (recent_cpu t) (priority_donations t) (orig_priority t) (lock_needed t) (pagedir t) (magic t).
Definition set_nice (x : Z) (t : thread) : thread :=
  Thread (tid t) (pid t) (status t) (name t) (stack t) (priority t) (wake_time t) x (recent_cpu t) (priority_donations t) (orig_priority t) (lock_needed t) (pagedir t) (magic t).
Definition set_recent_cpu (x : Z) (t : thread) : thread :=
  Thread (tid t) (pid t) (status t) (name t) (stack t) (priority t) (wake_time t) (nice t) x (priority_donations t) (orig_priority t) (lock_needed t) (pagedir t) (magic t).
Definition set_priority_donations (x : list ptr) (t : thread) : thread :=
  Thread (tid t) (pid t) (status t) (name t) (stack t) (priority t) (wake_time t) (nice t) (recent_cpu t) x (orig_priority t) (lock_needed t) (pagedir t) (magic t).
Definition set_orig_priority (x : Z) (t : thread) : thread :=
  Thread (tid t) (pid t) (status t) (name t) (stack t) (priority t) (wake_time t) (nice t) (recent_cpu t) (priority_donations t) x (lock_needed t) (pagedir t) (magic t).
Definition set_lock_needed (x : option ptr) (t : thread) : thread :=
  Thread (tid t) (pid t) (status t) (name t) (stack t) (priority t) (wake_time t) (nice t) (recent_cpu t) (priority_donations t) (orig_priority t) x (pagedir t) (magic t).

(** A semaphore is an object of its own, the semaphore inside a lock, or the one inside
    the [semaphore_elem] on the stack of a thread in [cond_wait]. *)
Inductive sema_id : Type :=
  | SemaAt (s : ptr)
  | LockSema (l : ptr)
  | WaiterSema (t : ptr).

#[export] Instance sema_id_eq_dec : EqDecision sema_id.
Proof. solve_decision. Defined.

#[export] Instance sema_id_countable : Countable sema_id.
Proof.
  refine (inj_countable' (λ s, match s with
    | SemaAt p => (0, p) | LockSema p => (1, p) | WaiterSema p => (2, p) end)
    (λ '(n, p), if n =? 0 then SemaAt p else if n =? 1 then LockSema p else WaiterSema p) _).
  by intros [].
Defined.

Record semaphore : Type := Sema { value : Z; waiters : list ptr }.

(** The function a kernel thread runs: [idle], with the semaphore it is passed, or any
    other. *)
Inductive thread_func : Type :=
  | Idle (idle_started : sema_id)
  | Other.

(** The rest of a function that is waiting for a call to return. *)
Inductive frame : Type :=
  | IntrSetLevel (old_level : bool)      (* intr_set_level (old_level) at the end of a function *)
  | Iret                                 (* return from an interrupt handler *)
  | SemaDownLoop (s : sema_id) (old_level : bool) (* the loop of sema_down, after thread_block *)
  | LockAcquired (l : ptr)               (* lock_acquire after sema_down *)
  | ThreadInited (t : ptr) (pid : Z) (f : thread_func)  (* thread_create_ptr after init_thread *)
  | AllocateTid (t : ptr)                (* allocate_tid after lock_acquire *)
  | SetTid (t : ptr) (tid : Z)           (* the assignment of allocate_tid's result *)
  | ThreadCreated (t : ptr) (f : thread_func)  (* thread_create_ptr after allocate_tid *)
  | TimerSleep (start n : Z)             (* timer_sleep after timer_ticks *)
  | WaitSignal (l : ptr)                 (* cond_wait after lock_release *)
  | Reacquire (l : ptr)                  (* cond_wait after sema_down *)
  | CondBroadcast (c l : ptr)            (* the loop of cond_broadcast *)
  | StartEnable (s : sema_id)            (* thread_start after thread_create_ptr *)
  | StartWait (s : sema_id)              (* thread_start after intr_enable *)
  | KernelThread (f : thread_func)       (* the first activation of a new thread *)
  | RunFunction (f : thread_func)        (* kernel_thread after intr_enable *)
  | IdleLoop                             (* the loop of idle *)
  | IdleHalt.                            (* idle after thread_block *)

Record kernel : Type := Kernel {
  threads : gmap ptr thread;
  pending : gmap ptr (list frame);
  semas : gmap sema_id semaphore;
  locks : gmap ptr (option ptr);
  conds : gmap ptr (list ptr);
  ready_list : list ptr;
  all_list : list ptr;
  sleeping_list : list ptr;
  cur : ptr;
  idle_thread : option ptr;
  initial_thread : ptr;
  next_tid : Z;
  intr_on : bool;
  in_external_intr : bool;
  yield_on_return : bool;
  thread_waiting : bool;
  thread_mlfqs : bool;
  load_avg : Z;
  load_coefficient : Z;
  idle_ticks : Z;
  kernel_ticks : Z;
  user_ticks : Z;
  thread_ticks : Z;
  ticks : Z;
}.

Definition set_threads (x : gmap ptr thread) (k : kernel) : kernel :=
  Kernel x (pending k) (semas k) (locks k) (conds k) (ready_list k) (all_list k) (sleeping_list k) (cur k) (idle_thread k) (initial_thread k) (next_tid k) (intr_on k) (in_external_intr k) (yield_on_return k) (thread_waiting k) (thread_mlfqs k) (load_avg k) (load_coefficient k) (idle_ticks k) (kernel_ticks k) (user_ticks k) (thread_ticks k) (ticks k).
Definition set_pending (x : gmap ptr (list frame)) (k : kernel) : kernel :=
  Kernel (threads k) x (semas k) (locks k) (conds k) (ready_list k) (all_list k) (sleeping_list k) (cur k) (idle_thread k) (initial_thread k) (next_tid k) (intr_on k) (in_external_intr k) (yield_on_return k) (thread_waiting k) (thread_mlfqs k) (load_avg k) (load_coefficient k) (idle_ticks k) (kernel_ticks k) (user_ticks k) (thread_ticks k) (ticks k).
Definition set_semas (x : gmap sema_id semaphore) (k : kernel) : kernel :=
  Kernel (threads k) (pending k) x (locks k) (conds k) (ready_list k) (all_list k) (sleeping_list k) (cur k) (idle_thread k) (initial_thread k) (next_tid k) (intr_on k) (in_external_intr k) (yield_on_return k) (thread_waiting k) (thread_mlfqs k) (load_avg k) (load_coefficient k) (idle_ticks k) (kernel_ticks k) (user_ticks k) (thread_ticks k) (ticks k).
Definition set_locks (x : gmap ptr (option ptr)) (k : kernel) : kernel :=
  Kernel (threads k) (pending k) (semas k) x (conds k) (ready_list k) (all_list k) (sleeping_list k) (cur k) (idle_thread k) (initial_thread k) (next_tid k) (intr_on k) (in_external_intr k) (yield_on_return k) (thread_waiting k) (thread_mlfqs k) (load_avg k) (load_coefficient k) (idle_ticks k) (kernel_ticks k) (user_ticks k) (thread_ticks k) (ticks k).
Definition set_conds (x : gmap ptr (list ptr)) (k : kernel) : kernel :=
  Kernel (threads k) (pending k) (semas k) (locks k) x (ready_list k) (all_list k) (sleeping_list k) (cur k) (idle_thread k) (initial_thread k) (next_tid k) (intr_on k) (in_external_intr k) (yield_on_return k) (thread_waiting k) (thread_mlfqs k) (load_avg k) (load_coefficient k) (idle_ticks k) (kernel_ticks k) (user_ticks k) (thread_ticks k) (ticks k).
Definition set_ready_list (x : list ptr) (k : kernel) : kernel :=
  Kernel (threads k) (pending k) (semas k) (locks k) (conds k) x (all_list k) (sleeping_list k) (cur k) (idle_thread k) (initial_thread k) (next_tid k) (intr_on k) (in_external_intr k) (yield_on_return k) (thread_waiting k) (thread_mlfqs k) (load_avg k) (load_coefficient k) (idle_ticks k) (kernel_ticks k) (user_ticks k) (thread_ticks k) (ticks k).
Definition set_all_list (x : list ptr) (k : kernel) : kernel :=
  Kernel (threads k) (pending k) (semas k) (locks k) (conds k) (ready_list k) x (sleeping_list k) (cur k) (idle_thread k) (initial_thread k) (next_tid k) (intr_on k) (in_external_intr k) (yield_on_return k) (thread_waiting k) (thread_mlfqs k) (load_avg k) (load_coefficient k) (idle_ticks k) (kernel_ticks k) (user_ticks k) (thread_ticks k) (ticks k).
Definition set_sleeping_list (x : list ptr) (k : kernel) : kernel :=
  Kernel (threads k) (pending k) (semas k) (locks k) (conds k) (ready_list k) (all_list k) x (cur k) (idle_thread k) (initial_thread k) (next_tid k) (intr_on k) (in_external_intr k) (yield_on_return k) (thread_waiting k) (thread_mlfqs k) (load_avg k) (load_coefficient k) (idle_ticks k) (kernel_ticks k) (user_ticks k) (thread_ticks k) (ticks k).
Definition set_cur (x : ptr) (k : kernel) : kernel :=
  Kernel (threads k) (pending k) (semas k) (locks k) (conds k) (ready_list k) (all_list k) (sleeping_list k) x (idle_thread k) (initial_thread k) (next_tid k) (intr_on k) (in_external_intr k) (yield_on_return k) (thread_waiting k) (thread_mlfqs k) (load_avg k) (load_coefficient k) (idle_ticks k) (kernel_ticks k) (user_ticks k) (thread_ticks k) (ticks k).
Definition set_idle_thread (x : option ptr) (k : kernel) : kernel :=
  Kernel (threads k) (pending k) (semas k) (locks k) (conds k) (ready_list k) (all_list k) (sleeping_list k) (cur k) x (initial_thread k) (next_tid k) (intr_on k) (in_external_intr k) (yield_on_return k) (thread_waiting k) (thread_mlfqs k) (load_avg k) (load_coefficient k) (idle_ticks k) (kernel_ticks k) (user_ticks k) (thread_ticks k) (ticks k).
Definition set_next_tid (x : Z) (k : kernel) : kernel :=
  Kernel (threads k) (pending k) (semas k) (locks k) (conds k) (ready_list k) (all_list k) (sleeping_list k) (cur k) (idle_thread k) (initial_thread k) x (intr_on k) (in_external_intr k) (yield_on_return k) (thread_waiting k) (thread_mlfqs k) (load_avg k) (load_coefficient k) (idle_ticks k) (kernel_ticks k) (user_ticks k) (thread_ticks k) (ticks k).
Definition set_intr_on (x : bool) (k : kernel) : kernel :=
  Kernel (threads k) (pending k) (semas k) (locks k) (conds k) (ready_list k) (all_list k) (sleeping_list k) (cur k) (idle_thread k) (initial_thread k) (next_tid k) x (in_external_intr k) (yield_on_return k) (thread_waiting k) (thread_mlfqs k) (load_avg k) (load_coefficient k) (idle_ticks k) (kernel_ticks k) (user_ticks k) (thread_ticks k) (ticks k).
Definition set_in_external_intr (x : bool) (k : kernel) : kernel :=
  Kernel (threads k) (pending k) (semas k) (locks k) (conds k) (ready_list k) (all_list k) (sleeping_list k) (cur k) (idle_thread k) (initial_thread k) (next_tid k) (intr_on k) x (yield_on_return k) (thread_waiting k) (thread_mlfqs k) (load_avg k) (load_coefficient k) (idle_ticks k) (kernel_ticks k) (user_ticks k) (thread_ticks k) (ticks k).
Definition set_yield_on_return (x : bool) (k : kernel) : kernel :=
  Kernel (threads k) (pending k) (semas k) (locks k) (conds k) (ready_list k) (all_list k) (sleeping_list k) (cur k) (idle_thread k) (initial_thread k) (next_tid k) (intr_on k) (in_external_intr k) x (thread_waiting k) (thread_mlfqs k) (load_avg k) (load_coefficient k) (idle_ticks k) (kernel_ticks k) (user_ticks k) (thread_ticks k) (ticks k).
Definition set_thread_waiting (x : bool) (k : kernel) : kernel :=
  Kernel (threads k) (pending k) (semas k) (locks k) (conds k) (ready_list k) (all_list k) (sleeping_list k) (cur k) (idle_thread k) (initial_thread k) (next_tid k) (intr_on k) (in_external_intr k) (yield_on_return k) x (thread_mlfqs k) (load_avg k) (load_coefficient k) (idle_ticks k) (kernel_ticks k) (user_ticks k) (thread_ticks k) (ticks k).
Definition set_load_avg (x : Z) (k : kernel) : kernel :=
  Kernel (threads k) (pending k) (semas k) (locks k) (conds k) (ready_list k) (all_list k) (sleeping_list k) (cur k) (idle_thread k) (initial_thread k) (next_tid k) (intr_on k) (in_external_intr k) (yield_on_return k) (thread_waiting k) (thread_mlfqs k) x (load_coefficient k) (idle_ticks k) (kernel_ticks k) (user_ticks k) (thread_ticks k) (ticks k).
Definition set_load_coefficient (x : Z) (k : kernel) : kernel :=
  Kernel (threads k) (pending k) (semas k) (locks k) (conds k) (ready_list k) (all_list k) (sleeping_list k) (cur k) (idle_thread k) (initial_thread k) (next_tid k) (intr_on k) (in_external_intr k) (yield_on_return k) (thread_waiting k) (thread_mlfqs k) (load_avg k) x (idle_ticks k) (kernel_ticks k) (user_ticks k) (thread_ticks k) (ticks k).
Definition set_idle_ticks (x : Z) (k : kernel) : kernel :=
  Kernel (threads k) (pending k) (semas k) (locks k) (conds k) (ready_list k) (all_list k) (sleeping_list k) (cur k) (idle_thread k) (initial_thread k) (next_tid k) (intr_on k) (in_external_intr k) (yield_on_return k) (thread_waiting k) (thread_mlfqs k) (load_avg k) (load_coefficient k) x (kernel_ticks k) (user_ticks k) (thread_ticks k) (ticks k).
Definition set_kernel_ticks (x : Z) (k : kernel) : kernel :=
  Kernel (threads k) (pending k) (semas k) (locks k) (conds k) (ready_list k) (all_list k) (sleeping_list k) (cur k) (idle_thread k) (initial_thread k) (next_tid k) (intr_on k) (in_external_intr k) (yield_on_return k) (thread_waiting k) (thread_mlfqs k) (load_avg k) (load_coefficient k) (idle_ticks k) x (user_ticks k) (thread_ticks k) (ticks k).
Definition set_user_ticks (x : Z) (k : kernel) : kernel :=
  Kernel (threads k) (pending k) (semas k) (locks k) (conds k) (ready_list k) (all_list k) (sleeping_list k) (cur k) (idle_thread k) (initial_thread k) (next_tid k) (intr_on k) (in_external_intr k) (yield_on_return k) (thread_waiting k) (thread_mlfqs k) (load_avg k) (load_coefficient k) (idle_ticks k) (kernel_ticks k) x (thread_ticks k) (ticks k).
Definition set_thread_ticks (x : Z) (k : kernel) : kernel :=
  Kernel (threads k) (pending k) (semas k) (locks k) (conds k) (ready_list k) (all_list k) (sleeping_list k) (cur k) (idle_thread k) (initial_thread k) (next_tid k) (intr_on k) (in_external_intr k) (yield_on_return k) (thread_waiting k) (thread_mlfqs k) (load_avg k) (load_coefficient k) (idle_ticks k) (kernel_ticks k) (user_ticks k) x (ticks k).
Definition set_ticks (x : Z) (k : kernel) : kernel :=
  Kernel (threads k) (pending k) (semas k) (locks k) (conds k) (ready_list k) (all_list k) (sleeping_list k) (cur k) (idle_thread k) (initial_thread k) (next_tid k) (intr_on k) (in_external_intr k) (yield_on_return k) (thread_waiting k) (thread_mlfqs k) (load_avg k) (load_coefficient k) (idle_ticks k) (kernel_ticks k) (user_ticks k) (thread_ticks k) x.

Abbreviation K := (ST kernel).

(** ** Access to the state *)

Definition get_thread (t : ptr) : K thread := λ k,
  match threads k !! t with Some th => Ok (th, k) | None => Err MemoryFault end.
Definition put_thread (t : ptr) (th : thread) : K unit :=
  modify (λ k, set_threads (<[t := th]> (threads k)) k).
Definition update_thread (t : ptr) (f : thread → thread) : K unit :=
  th ← get_thread t; put_thread t (f th).

Definition push_frame (f : frame) : K unit :=
  modify (λ k, set_pending (<[cur k := f :: default [] (pending k !! cur k)]> (pending k)) k).

Definition get_sema (s : sema_id) : K semaphore := λ k,
  match semas k !! s with Some v => Ok (v, k) | None => Err MemoryFault end.
Definition put_sema (s : sema_id) (v : semaphore) : K unit :=
  modify (λ k, set_semas (<[s := v]> (semas k)) k).

Definition get_holder (l : ptr) : K (option ptr) := λ k,
  match locks k !! l with Some h => Ok (h, k) | None => Err MemoryFault end.
Definition put_holder (l : ptr) (h : option ptr) : K unit :=
  modify (λ k, set_locks (<[l := h]> (locks k)) k).

(** [list_remove (&t->elem)] on the queue that holds it. *)
Definition remove (t : ptr) (q : list ptr) : list ptr := filter (λ x, x ≠ t) q.

(** ** Identity of the running thread *)

Definition is_thread (t : ptr) : K bool := λ k,
  Ok (match threads k !! t with Some th => magic th =? THREAD_MAGIC | None => false end, k).

Definition running_thread : K ptr := gets cur.

Definition thread_current : K ptr :=
  t ← running_thread;
  b ← is_thread t; assert b;;
  th ← get_thread t; assert (bool_decide (status th = THREAD_RUNNING));;
  mret t.

Definition thread_tid : K Z := t ← thread_current; th ← get_thread t; mret (tid th).
Definition thread_get_priority : K Z := t ← thread_current; th ← get_thread t; mret (priority th).
Definition thread_get_nice : K Z := t ← thread_current; th ← get_thread t; mret (nice th).

(** ** Choosing a thread *)

(** The loop over the list, with the best priority so far, an [int8_t]. *)
Fixpoint highest_loop (ths : gmap ptr thread) (es : list ptr) (max_priority : Z)
    (next : option ptr) : result (option ptr) :=
  match es with
  | [] => mret next
  | e :: es =>
      t ← deref (ths !! e);
      let pri := i8 (priority t) in
      if max_priority <? pri then highest_loop ths es pri (Some e)
      else highest_loop ths es max_priority next
  end.

Definition list_highest_priority (in_list : list ptr) : K (option ptr) := λ k,
  match in_list with
  | [] => Ok (None, k)
  | _ => lift (highest_loop (threads k) in_list (-1) None) k
  end.

Definition next_thread_to_run : K (option ptr) :=
  ready ← gets ready_list;
  match ready with
  | [] => gets idle_thread
  | _ =>
      next ← list_highest_priority ready;
      match next with
      | Some t => modify (set_ready_list (remove t ready));; mret (Some t)
      | None => gets idle_thread
      end
  end.

(** ** Switching *)

Definition intr_get_level : K bool := gets intr_on.
Definition intr_context : K bool := gets in_external_intr.

(** [palloc_free_page (prev)]: the thread and its stack are gone. *)
Definition free_thread (t : ptr) : K unit :=
  modify (λ k, set_pending (delete t (pending k)) (set_threads (delete t (threads k)) k)).

Definition thread_schedule_tail (prev : option ptr) : K unit :=
  t ← running_thread;
  level ← intr_get_level; assert (negb level);;
  update_thread t (set_status THREAD_RUNNING);;
  modify (set_thread_ticks 0);;
  match prev with
  | None => mret tt
  | Some p =>
      th ← get_thread p; init ← gets initial_thread;
      if bool_decide (status th = THREAD_DYING) && negb (p =? init)
      then assert (negb (p =? t));; free_thread p
      else mret tt
  end.

Definition schedule : K unit :=
  t ← running_thread;
  next ← next_thread_to_run;
  level ← intr_get_level; assert (negb level);;
  th ← get_thread t; assert (negb (bool_decide (status th = THREAD_RUNNING)));;
  match next with
  | None => fail AssertFailed
  | Some n =>
      b ← is_thread n; assert b;;
      if t =? n then thread_schedule_tail None
      else modify (set_cur n);; thread_schedule_tail (Some t)
  end.

Definition intr_disable : K bool :=
  old_level ← intr_get_level; modify (set_intr_on false);; mret old_level.

Definition thread_yield : K unit :=
  t ← thread_current;
  c ← intr_context; assert (negb c);;
  old_level ← intr_disable;
  idle ← gets idle_thread;
  (if bool_decide (Some t = idle) then mret tt
   else modify (λ k, set_ready_list (ready_list k ++ [t]) k));;
  update_thread t (set_status THREAD_READY);;
  push_frame (IntrSetLevel old_level);;
  schedule.

Definition intr_enable : K bool :=
  old_level ← intr_get_level;
  c ← intr_context; assert (negb c);;
  modify (set_intr_on true);;
  w ← gets thread_waiting;
  (if w : bool then modify (set_thread_waiting false);; thread_yield else mret tt);;
  mret old_level.

Definition intr_set_level (level : bool) : K unit :=
  (if level then intr_enable else intr_disable);; mret tt.

Definition thread_block : K unit :=
  c ← intr_context; assert (negb c);;
  level ← intr_get_level; assert (negb level);;
  t ← thread_current;
  update_thread t (set_status THREAD_BLOCKED);;
  schedule.

Definition thread_unblock (t : ptr) : K unit :=
  b ← is_thread t; assert b;;
  old_level ← intr_disable;
  th ← get_thread t;
  assert (bool_decide (status th = THREAD_BLOCKED));;
  modify (λ k, set_ready_list (ready_list k ++ [t]) k);;
  put_thread t (set_status THREAD_READY th);;
  c ← thread_current; cth ← get_thread c;
  (if priority cth <? priority th then modify (set_thread_waiting true) else mret tt);;
  intr_set_level old_level.

(** [thread_exit] after [process_exit]: the thread is dying and another one runs. *)
Definition thread_exit : K unit :=
  c ← intr_context; assert (negb c);;
  intr_disable;;
  t ← thread_current;
  modify (λ k, set_all_list (remove t (all_list k)) k);;
  update_thread t (set_status THREAD_DYING);;
  schedule.

(** ** Sleeping *)

Fixpoint wake_loop (cur_time : Z) (es : list ptr) : K unit :=
  match es with
  | [] => mret tt
  | e :: es =>
      t ← get_thread e;
      (if wake_time t <=? cur_time then
         update_thread e (set_wake_time (-1));;
         modify (λ k, set_sleeping_list (remove e (sleeping_list k)) k);;
         thread_unblock e
       else mret tt);;
      wake_loop cur_time es
  end.

Definition wake_sleeping_threads (cur_time : Z) : K unit :=
  level ← intr_get_level; assert (negb level);;
  es ← gets sleeping_list;
  wake_loop cur_time es.

Definition thread_sleep : K unit :=
  t ← thread_current;
  modify (λ k, set_sleeping_list (sleeping_list k ++ [t]) k).

(** ** The multi-level feedback queue scheduler *)

Definition mlfqs_priority (recent_cpu nice : Z) : Z :=
  let update := i32 (PRI_MAX - round_fp (Z.quot recent_cpu 4) - i32 (nice * 2)) in
  if update <? PRI_MIN then PRI_MIN
  else if PRI_MAX <? update then PRI_MAX
  else update.

Definition thread_update_mlfqs_priority (t : ptr) : K unit :=
  idle ← gets idle_thread;
  if bool_decide (Some t = idle) then mret tt
  else update_thread t (λ th, set_priority (mlfqs_priority (recent_cpu th) (nice th)) th).

Definition update_recent_cpu (t : ptr) : K unit :=
  la ← gets load_avg;
  a ← lift (divide (i32 (2 * la)) (i32 (i32 (2 * la) + to_fp 1)));
  th ← get_thread t;
  r ← lift (multiply (recent_cpu th) a);
  put_thread t (set_recent_cpu (i32 (r + to_fp (nice th))) th).

Definition update_load_avg : K unit :=
  la ← gets load_avg;
  m ← lift (multiply (Z.quot (to_fp 59) 60) la);
  t ← thread_current;
  k ← gets (λ k, (length (ready_list k), idle_thread k));
  let ready_threads := u32 (Z.of_nat k.1 + if bool_decide (Some t = k.2) then 0 else 1) in
  modify (set_load_avg (i32 (m + Z.quot (to_fp 1) 60 * ready_threads))).

Fixpoint foreach_loop (func : ptr → K unit) (es : list ptr) : K unit :=
  match es with
  | [] => mret tt
  | e :: es => func e;; foreach_loop func es
  end.

Definition thread_foreach (func : ptr → K unit) : K unit :=
  level ← intr_get_level; assert (negb level);;
  es ← gets all_list;
  foreach_loop func es.

Definition intr_yield_on_return : K unit :=
  c ← intr_context; assert c;; modify (set_yield_on_return true).

(** The statistics of [thread_tick]. *)
Definition count_tick (t : ptr) : K unit :=
  th ← get_thread t; idle ← gets idle_thread;
  if bool_decide (Some t = idle) then modify (λ k, set_idle_ticks (i64 (idle_ticks k + 1)) k)
  else if negb (pagedir th =? 0) then modify (λ k, set_user_ticks (i64 (user_ticks k + 1)) k)
  else modify (λ k, set_kernel_ticks (i64 (kernel_ticks k + 1)) k).

Definition mlfqs_tick (t : ptr) : K unit :=
  update_thread t (λ th, set_recent_cpu (add (recent_cpu th) 1) th);;
  n ← gets (λ k, i32 (idle_ticks k + user_ticks k + kernel_ticks k));
  (if Z.rem n TIMER_FREQ =? 0 then
     update_load_avg;;
     la ← gets load_avg;
     lc ← lift (divide (i32 (2 * la)) (add (i32 (2 * la)) 1));
     modify (set_load_coefficient lc);;
     thread_foreach update_recent_cpu
   else mret tt);;
  (if Z.rem n 4 =? 0 then
     thread_foreach thread_update_mlfqs_priority;;
     intr_yield_on_return
   else mret tt).

(** [timer_ticks] (devices/timer.c). *)
Definition timer_ticks : K Z :=
  old_level ← intr_disable; t ← gets ticks; intr_set_level old_level;; mret t.

Definition thread_tick : K unit :=
  t ← thread_current;
  count_tick t;;
  mlfqs ← gets thread_mlfqs;
  (if mlfqs : bool then mlfqs_tick t
   else
     modify (λ k, set_thread_ticks (u32 (thread_ticks k + 1)) k);;
     n ← gets thread_ticks;
     if TIME_SLICE <=? n then intr_yield_on_return else mret tt);;
  curtime ← timer_ticks;
  wake_sleeping_threads curtime.

(** ** Priorities and niceness *)

Definition thread_set_priority (new_priority : Z) : K unit :=
  t ← thread_current;
  update_thread t (set_orig_priority new_priority);;
  th ← get_thread t;
  (if bool_decide (priority_donations th = []) then update_thread t (set_priority new_priority)
   else if priority th <? new_priority then update_thread t (set_priority new_priority)
   else mret tt);;
  thread_yield.

Definition thread_set_nice (n : Z) : K unit :=
  t ← thread_current;
  update_thread t (set_nice n);;
  thread_update_mlfqs_priority t;;
  thread_yield.

Definition thread_get_load_avg : K Z :=
  la ← gets load_avg; m ← lift (multiply (to_fp 100) la); mret (round_fp m).

Definition thread_get_recent_cpu : K Z :=
  t ← thread_current; th ← get_thread t;
  m ← lift (multiply (to_fp 100) (recent_cpu th)); mret (round_fp m).

(** The loop of [thread_donate_priority] along the chain of locks, one lock each
    iteration. *)
Fixpoint donate_loop (fuel : nat) (next_lock : option ptr) (curr : ptr) : K unit :=
  match next_lock with
  | None => mret tt
  | Some l =>
      match fuel with
      | O => fail OutOfFuel
      | S fuel =>
          h ← get_holder l;
          match h with
          | None => fail AssertFailed
          | Some h =>
              c ← get_thread curr;
              update_thread h (set_priority (priority c));;
              th ← get_thread h;
              donate_loop fuel (lock_needed th) h
          end
      end
  end.

Definition thread_donate_priority (fuel : nat) (donate_to : ptr) : K unit :=
  t ← thread_current;
  update_thread donate_to (λ th, set_priority_donations (priority_donations th ++ [t]) th);;
  p ← thread_get_priority;
  update_thread donate_to (set_priority p);;
  th ← get_thread donate_to;
  donate_loop fuel (lock_needed th) donate_to.

(** ** Creation *)

Definition init_thread (t : ptr) (nm : list Z) (prio : Z) : K unit :=
  assert ((PRI_MIN <=? prio) && (prio <=? PRI_MAX));;
  put_thread t (Thread 0 (-1) THREAD_BLOCKED (take 15 nm) (t + PGSIZE) prio (-1) 0 0 [] prio
                  None 0 THREAD_MAGIC);;
  old_level ← intr_disable;
  modify (λ k, set_all_list (all_list k ++ [t]) k);;
  intr_set_level old_level.

Definition alloc_frame (t : ptr) (size : Z) : K Z :=
  b ← is_thread t; assert b;;
  assert (size mod 4 =? 0);;
  update_thread t (λ th, set_stack (stack th - size) th);;
  th ← get_thread t; mret (stack th).

(** [thread_create_ptr] after [allocate_tid]: the three stack frames that make the new
    thread start in [kernel_thread], and the run queue. *)
Definition thread_create_tail (t : ptr) (f : thread_func) : K unit :=
  alloc_frame t 12;; alloc_frame t 4;; alloc_frame t 28;;
  modify (λ k, set_pending (<[t := [KernelThread f]]> (pending k)) k);;
  thread_unblock t.
