(* ===== verification/Synch.v ===== *)
(** * threads/synch.c, devices/timer.c: semaphores, locks, conditions, sleeping

    The synchronisation primitives over the kernel state of [Thread], the creation of
    threads (which takes [tid_lock]), the timer interrupt, and [run_frame], which
    resumes the unfinished call on top of the current thread's stack.  [step] is the
    resulting machine: a thread calls a primitive, resumes a call, or is interrupted by
    the timer whenever interrupts are on. *)

From S2P Require Import Prelude Arith64 FixedPoint Thread.

(** ** Semaphores *)

Definition sema_init (s : sema_id) (v : Z) : K unit := put_sema s (Sema v []).

(** The loop of [sema_down], entered with interrupts off: block, or take one unit. *)
Definition sema_down_loop (s : sema_id) (old_level : bool) : K unit :=
  v ← get_sema s;
  if value v =? 0 then
    t ← thread_current;
    put_sema s (Sema (value v) (waiters v ++ [t]));;
    push_frame (SemaDownLoop s old_level);;
    thread_block
  else
    put_sema s (Sema (value v - 1) (waiters v));;
    intr_set_level old_level.

Definition sema_down (s : sema_id) : K unit :=
  c ← intr_context; assert (negb c);;
  old_level ← intr_disable;
  sema_down_loop s old_level.

(** [on_success] is what the caller still has to do when the value was taken; it runs
    when the call has returned. *)
Definition sema_try_down_then (s : sema_id) (on_success : list frame) : K bool :=
  old_level ← intr_disable;
  v ← get_sema s;
  success ← (if 0 <? value v
             then put_sema s (Sema (value v - 1) (waiters v));;
                  foldr (λ f rest, rest;; push_frame f) (mret tt) on_success;; mret true
             else mret false);
  intr_set_level old_level;;
  mret success.

Definition sema_try_down (s : sema_id) : K bool := sema_try_down_then s [].

Definition sema_up (s : sema_id) : K unit :=
  old_level ← intr_disable;
  v ← get_sema s;
  (if bool_decide (waiters v = []) then mret tt
   else
     high ← list_highest_priority (waiters v);
     match high with
     | None => fail AssertFailed
     | Some t => put_sema s (Sema (value v) (remove t (waiters v)));; thread_unblock t
     end);;
  v ← get_sema s;
  put_sema s (Sema (u32 (value v + 1)) (waiters v));;
  intr_set_level old_level.

(** ** Locks *)

Definition lock_init (l : ptr) : K unit :=
  put_holder l None;; sema_init (LockSema l) 1.

Definition lock_held_by_current_thread (l : ptr) : K bool :=
  h ← get_holder l; t ← thread_current; mret (bool_decide (h = Some t)).

(** The donation of [lock_acquire], when the lock is held by a thread of lower
    priority.  The chain of locks is followed for at most one step more than there are
    locks. *)
Definition lock_donate (l : ptr) : K unit :=
  h ← get_holder l;
  match h with
  | None => mret tt
  | Some h =>
      th ← get_thread h;
      p ← thread_get_priority;
      if priority th <? p then
        n ← gets (λ k, S (size (locks k)));
        thread_donate_priority n h;;
        t ← thread_current;
        update_thread t (set_lock_needed (Some l))
      else mret tt
  end.

Definition lock_acquire (l : ptr) : K unit :=
  c ← intr_context; assert (negb c);;
  b ← lock_held_by_current_thread l; assert (negb b);;
  lock_donate l;;
  push_frame (LockAcquired l);;
  sema_down (LockSema l).

Definition lock_try_acquire (l : ptr) : K bool :=
  b ← lock_held_by_current_thread l; assert (negb b);;
  sema_try_down_then (LockSema l) [LockAcquired l].

(** The loop of [lock_release] over the donations to the holder [h]. *)
Fixpoint release_loop (l h : ptr) (es : list ptr) : K unit :=
  match es with
  | [] => mret tt
  | e :: es =>
      temp ← get_thread e;
      hd ← get_thread h;
      (if bool_decide (lock_needed temp = Some l)
       then put_thread h (set_priority_donations (remove e (priority_donations hd)) hd)
       else if priority hd <? priority temp then put_thread h (set_priority (priority temp) hd)
       else mret tt);;
      release_loop l h es
  end.

Definition lock_release (l : ptr) : K unit :=
  b ← lock_held_by_current_thread l; assert b;;
  t ← thread_current;
  update_thread t (λ th, set_priority (orig_priority th) th);;
  th ← get_thread t;
  release_loop l t (priority_donations th);;
  put_holder l None;;
  sema_up (LockSema l).

(** ** Condition variables

    [conds] holds for each condition the threads whose [semaphore_elem] is queued. *)

Definition get_cond (c : ptr) : K (list ptr) := λ k,
  match conds k !! c with Some ws => Ok (ws, k) | None => Err MemoryFault end.
Definition put_cond (c : ptr) (ws : list ptr) : K unit :=
  modify (λ k, set_conds (<[c := ws]> (conds k)) k).

Definition cond_init (c : ptr) : K unit := put_cond c [].

Definition cond_wait (c l : ptr) : K unit :=
  i ← intr_context; assert (negb i);;
  b ← lock_held_by_current_thread l; assert b;;
  t ← thread_current;
  sema_init (WaiterSema t) 0;;
  ws ← get_cond c;
  put_cond c (ws ++ [t]);;
  push_frame (WaitSignal l);;
  lock_release l.

(** The loop of [cond_signal]: the waiter whose semaphore has the waiting thread of the
    highest priority. *)
Fixpoint signal_loop (es : list ptr) (max_priority : Z) (next : option ptr) : K (option ptr) :=
  match es with
  | [] => mret next
  | e :: es =>
      s ← get_sema (WaiterSema e);
      pri ← (if bool_decide (waiters s = []) then mret (-1)
             else
               h ← list_highest_priority (waiters s);
               match h with
               | None => fail MemoryFault
               | Some t => th ← get_thread t; mret (i8 (priority th))
               end);
      if max_priority <? pri then signal_loop es pri (Some e)
      else signal_loop es max_priority next
  end.

Definition cond_signal (c l : ptr) : K unit :=
  i ← intr_context; assert (negb i);;
  b ← lock_held_by_current_thread l; assert b;;
  ws ← get_cond c;
  match ws with
  | [] => mret tt
  | _ =>
      next ← signal_loop ws (-1) None;
      match next with
      | None => fail AssertFailed
      | Some w => put_cond c (remove w ws);; sema_up (WaiterSema w)
      end
  end.

(** One iteration of the loop of [cond_broadcast]; the rest is on the stack. *)
Definition cond_broadcast (c l : ptr) : K unit :=
  ws ← get_cond c;
  match ws with
  | [] => mret tt
  | _ => push_frame (CondBroadcast c l);; cond_signal c l
  end.

(** ** Creation of threads *)

Definition tid_lock : ptr := 1.

(** [page] is the page [palloc_get_page (PAL_ZERO)] returned. *)
Definition thread_create_ptr (page : option ptr) (nm : list Z) (prio : Z) (f : thread_func)
    (p : Z) : K (option ptr) :=
  match page with
  | None => mret None
  | Some t => push_frame (ThreadInited t p f);; init_thread t nm prio;; mret (Some t)
  end.

Definition allocate_tid (t : ptr) : K unit := push_frame (AllocateTid t);; lock_acquire tid_lock.

Definition thread_init (main : ptr) : K unit :=
  level ← intr_get_level; assert (negb level);;
  lock_init tid_lock;;
  modify (set_ready_list []);; modify (set_all_list []);; modify (set_sleeping_list []);;
  mlfqs ← gets thread_mlfqs;
  (if mlfqs : bool then modify (set_load_avg 0) else mret tt);;
  modify (set_thread_waiting false);;
  init_thread main [109; 97; 105; 110] PRI_DEFAULT;; (* "main" *)
  update_thread main (set_status THREAD_RUNNING);;
  allocate_tid main.

Definition thread_start (idle_started : sema_id) (page : option ptr) : K unit :=
  sema_init idle_started 0;;
  push_frame (StartEnable idle_started);;
  thread_create_ptr page [105; 100; 108; 101] PRI_MIN (Idle idle_started) (-1);; (* "idle" *)
  mret tt.

(** The thread function [idle] up to its loop. *)
Definition idle (idle_started : sema_id) : K unit :=
  t ← thread_current;
  modify (set_idle_thread (Some t));;
  push_frame IdleLoop;;
  sema_up idle_started.

(** ** The timer *)

Definition timer_sleep (n : Z) : K unit :=
  old_level ← intr_disable; start ← gets ticks;
  push_frame (TimerSleep start n);;
  intr_set_level old_level.

(** [timer_sleep] after [timer_ticks] has returned [start]. *)
Definition timer_sleep_tail (start n : Z) : K unit :=
  level ← intr_get_level; assert level;;
  old_level ← intr_disable;
  thread_sleep;;
  t ← thread_current;
  update_thread t (set_wake_time (i64 (start + n)));;
  push_frame (IntrSetLevel old_level);;
  thread_block.

Definition timer_interrupt : K unit :=
  modify (λ k, set_ticks (i64 (ticks k + 1)) k);; thread_tick.

(** [intr_handler] for the timer's vector, an external interrupt: the processor clears
    the interrupt flag on entry and restores it on the return from the handler. *)
Definition intr_handler_timer : K unit :=
  push_frame Iret;;
  modify (set_intr_on false);;
  level ← intr_get_level; assert (negb level);;
  c ← intr_context; assert (negb c);;
  modify (set_in_external_intr true);;
  modify (set_yield_on_return false);;
  timer_interrupt;;
  level ← intr_get_level; assert (negb level);;
  c ← intr_context; assert c;;
  modify (set_in_external_intr false);;
  y ← gets yield_on_return;
  if y : bool then thread_yield else mret tt.

(** ** Resuming a call *)

Definition run_frame (f : frame) : K unit :=
  match f with
  | IntrSetLevel old_level => intr_set_level old_level
  | Iret => modify (set_intr_on true)
  | SemaDownLoop s old_level => sema_down_loop s old_level
  | LockAcquired l => t ← thread_current; put_holder l (Some t)
  | ThreadInited t p f =>
      update_thread t (set_pid p);;
      push_frame (ThreadCreated t f);;
      allocate_tid t
  | AllocateTid t =>
      n ← gets next_tid;
      modify (set_next_tid (i32 (n + 1)));;
      push_frame (SetTid t n);;
      lock_release tid_lock
  | SetTid t n => update_thread t (set_tid n)
  | ThreadCreated t f => thread_create_tail t f
  | TimerSleep start n => timer_sleep_tail start n
  | WaitSignal l =>
      push_frame (Reacquire l);;
      t ← thread_current; sema_down (WaiterSema t)
  | Reacquire l => lock_acquire l
  | CondBroadcast c l => cond_broadcast c l
  | StartEnable s => push_frame (StartWait s);; intr_enable;; mret tt
  | StartWait s => sema_down s
  | KernelThread f => push_frame (RunFunction f);; intr_enable;; mret tt
  | RunFunction (Idle s) => idle s
  | RunFunction Other => mret tt
  | IdleLoop => intr_disable;; push_frame IdleHalt;; thread_block
  | IdleHalt => push_frame IdleLoop;; modify (set_intr_on true)
  end.

Definition pop_frame (fs : list frame) : K unit :=
  modify (λ k, set_pending (<[cur k := fs]> (pending k)) k).

Definition resume : K unit := λ k,
  match pending k !! cur k with
  | Some (f :: fs) => (pop_frame fs;; run_frame f) k
  | _ => Ok (tt, k)
  end.

(** ** The primitives a thread calls *)

Inductive call : Type :=
  | CYield
  | CCreate (page : option ptr) (nm : list Z) (prio pid : Z)
  | CSemaInit (s : ptr) (v : Z)
  | CSemaDown (s : ptr)
  | CSemaTryDown (s : ptr)
  | CSemaUp (s : ptr)
  | CLockInit (l : ptr)
  | CLockAcquire (l : ptr)
  | CLockTryAcquire (l : ptr)
  | CLockRelease (l : ptr)
  | CCondInit (c : ptr)
  | CCondWait (c l : ptr)
  | CCondSignal (c l : ptr)
  | CCondBroadcast (c l : ptr)
  | CTimerSleep (n : Z)
  | CSetPriority (n : Z)
  | CSetNice (n : Z)
  | CIntrDisable
  | CIntrEnable
  | CExit.

Definition run_call (c : call) : K unit :=
  match c with
  | CYield => thread_yield
  | CCreate page nm prio p => thread_create_ptr page nm prio Other p;; mret tt
  | CSemaInit s v => sema_init (SemaAt s) v
  | CSemaDown s => sema_down (SemaAt s)
  | CSemaTryDown s => sema_try_down (SemaAt s);; mret tt
  | CSemaUp s => sema_up (SemaAt s)
  | CLockInit l => lock_init l
  | CLockAcquire l => lock_acquire l
  | CLockTryAcquire l => lock_try_acquire l;; mret tt
  | CLockRelease l => lock_release l
  | CCondInit c => cond_init c
  | CCondWait c l => cond_wait c l
  | CCondSignal c l => cond_signal c l
  | CCondBroadcast c l => cond_broadcast c l
  | CTimerSleep n => timer_sleep n
  | CSetPriority n => thread_set_priority n
  | CSetNice n => thread_set_nice n
  | CIntrDisable => intr_disable;; mret tt
  | CIntrEnable => intr_enable;; mret tt
  | CExit => thread_exit
  end.

(** What the caller of a primitive must respect: priorities in range, a page that is not
    in use, objects initialised once. *)
Definition call_ok (c : call) (k : kernel) : Prop :=
  match c with
  | CCreate (Some t) _ _ _ => threads k !! t = None
  | CSemaInit s _ => semas k !! SemaAt s = None
  | CLockInit l => locks k !! l = None
  | CSetPriority n => PRI_MIN ≤ n ≤ PRI_MAX
  | _ => True
  end.

Inductive step : kernel → kernel → Prop :=
  | step_call c k k' :
      default [] (pending k !! cur k) = [] → call_ok c k →
      run_call c k = Ok (tt, k') → step k k'
  | step_resume f fs k k' :
      pending k !! cur k = Some (f :: fs) → resume k = Ok (tt, k') → step k k'
  | step_timer k k' :
      intr_on k = true → intr_handler_timer k = Ok (tt, k') → step k k'.
