(* ===== verification/Sched.v ===== *)
(** * The scheduler's invariant

    Every thread is in at most one place: the run queue, the list of sleepers, the wait
    queue of one semaphore, or still under construction by [thread_create_ptr] (this is
    what lets the two purposes of [elem] share one list element).  The place and the
    [status] member agree, exactly one thread is running, and the run queue holds exactly
    the ready threads, the idle thread apart.  The primitives are shown to keep this
    invariant and not to fail any assertion while it holds. *)

From S2P Require Import Prelude Arith64 FixedPoint Thread Synch.

(** ** Places *)

Inductive place : Type :=
  | AtReady
  | AtSleep
  | AtSema (s : sema_id)
  | AtEmbryo (creator : ptr).

#[export] Instance place_eq_dec : EqDecision place.
Proof. solve_decision. Defined.

(** The threads that a stack is still creating. *)
Definition embryo (f : frame) : list ptr :=
  match f with
  | ThreadInited t _ _ => [t]
  | ThreadCreated t _ => [t]
  | _ => []
  end.

Definition embryos (fs : list frame) : list ptr := fs ≫= embryo.

Definition queue (k : kernel) (l : place) : list ptr :=
  match l with
  | AtReady => ready_list k
  | AtSleep => sleeping_list k
  | AtSema s => match semas k !! s with Some v => waiters v | None => [] end
  | AtEmbryo p => embryos (default [] (pending k !! p))
  end.

Definition place_status (l : place) : thread_status :=
  match l with AtReady => THREAD_READY | _ => THREAD_BLOCKED end.

(** ** The invariant *)

Record thread_ok (th : thread) : Prop := {
  ok_magic : magic th = THREAD_MAGIC;
  ok_priority : PRI_MIN ≤ priority th ≤ PRI_MAX;
  ok_orig : PRI_MIN ≤ orig_priority th ≤ PRI_MAX;
}.

Record core (k : kernel) : Prop := {
  c_nodup : ∀ l, NoDup (queue k l);
  c_uniq : ∀ l1 l2 t, t ∈ queue k l1 → t ∈ queue k l2 → l1 = l2;
  c_status : ∀ l t, t ∈ queue k l → ∃ th, threads k !! t = Some th ∧ status th = place_status l;
  c_idle : ∀ i, idle_thread k = Some i →
    (∀ l, i ∉ queue k l) ∧ ∃ th, threads k !! i = Some th ∧ status th ≠ THREAD_DYING;
  c_ready : ∀ t th, threads k !! t = Some th → status th = THREAD_READY →
    t ∈ ready_list k ∨ idle_thread k = Some t;
  c_thread : ∀ t th, threads k !! t = Some th → thread_ok th;
  c_all : NoDup (all_list k) ∧
    ∀ t, t ∈ all_list k ↔ ∃ th, threads k !! t = Some th ∧ status th ≠ THREAD_DYING;
  c_pending : ∀ p, threads k !! p = None → pending k !! p = None;
}.

(** The current thread is the one and only running thread. *)
Definition running (k : kernel) : Prop :=
  (∃ th, threads k !! cur k = Some th ∧ status th = THREAD_RUNNING) ∧
  ∀ t th, threads k !! t = Some th → status th = THREAD_RUNNING → t = cur k.

(** No thread is running: the state in which [schedule] is entered. *)
Definition stopped (k : kernel) : Prop :=
  ∀ t th, threads k !! t = Some th → status th ≠ THREAD_RUNNING.

(** ** Changes of state that keep the invariant *)

(** States that agree on everything the invariant speaks of. *)
Lemma core_ext k k' :
  threads k' = threads k → (∀ l, queue k' l = queue k l) → idle_thread k' = idle_thread k →
  all_list k' = all_list k → (∀ p, threads k !! p = None → pending k' !! p = None) →
  core k → core k'.
Proof.
  intros Ht Hq Hi Ha Hp [H1 H2 H3 H4 H5 H6 H7 H8].
  pose proof (Hq AtReady) as Hr. simpl in Hr.
  split.
  - intros l. rewrite Hq. apply H1.
  - intros l1 l2 t. rewrite !Hq. apply H2.
  - intros l t. rewrite Hq, Ht. apply H3.
  - intros i. rewrite Hi, Ht. intros E. destruct (H4 i E) as [Hn He]. split; [|done].
    intros l. rewrite Hq. apply Hn.
  - intros t th. rewrite Ht, Hr, Hi. apply H5.
  - intros t th. rewrite Ht. apply H6.
  - rewrite Ha, Ht. done.
  - intros p. rewrite Ht. apply Hp.
Qed.

(** A thread that changes neither its status nor its place. *)
Lemma core_update k t th th' :
  core k → threads k !! t = Some th → status th' = status th → thread_ok th' →
  core (set_threads (<[t := th']> (threads k)) k).
Proof.
  intros [H1 H2 H3 H4 H5 H6 H7 H8] Ht Hs Hok.
  assert (Hl : ∀ (P : thread_status → Prop) x,
    (∃ th, threads k !! x = Some th ∧ P (status th)) ↔
    (∃ th, <[t := th']> (threads k) !! x = Some th ∧ P (status th))).
  { intros P x. destruct (decide (x = t)) as [->|].
    - rewrite lookup_insert_eq. rewrite Ht. split; intros (y & [= <-] & HP); eexists;
        (split; [done|]); congruence.
    - by rewrite lookup_insert_ne. }
  split; simpl.
  - apply H1.
  - apply H2.
  - intros l x Hx. apply (Hl (λ s, s = place_status l)), H3, Hx.
  - intros i Hi. destruct (H4 i Hi) as [Hn He]. split; [apply Hn|].
    apply (Hl (λ s, s ≠ THREAD_DYING)), He.
  - intros x xh Hx Hr. destruct (decide (x = t)) as [->|].
    + rewrite lookup_insert_eq in Hx. injection Hx as <-. apply (H5 t th); congruence.
    + rewrite lookup_insert_ne in Hx by done. eauto.
  - intros x xh Hx. destruct (decide (x = t)) as [->|].
    + rewrite lookup_insert_eq in Hx. by injection Hx as <-.
    + rewrite lookup_insert_ne in Hx by done. eauto.
  - destruct H7 as [Hnd Hall]. split; [done|]. intros x.
    rewrite Hall. apply (Hl (λ s, s ≠ THREAD_DYING)).
  - intros p Hp. apply H8. destruct (decide (p = t)) as [->|].
    + by rewrite lookup_insert_eq in Hp.
    + by rewrite lookup_insert_ne in Hp.
Qed.

(** [t] leaves its place, if any, for [dest], if any. *)
Definition moved (k k' : kernel) (t : ptr) (dest : option place) : Prop :=
  (∀ l, NoDup (queue k' l)) ∧
  ∀ l x, x ∈ queue k' l ↔ (x ≠ t ∧ x ∈ queue k l) ∨ (x = t ∧ dest = Some l).

(** The statuses a thread may have at its destination. *)
Definition dest_status (k : kernel) (t : ptr) (dest : option place) (st : thread_status) : Prop :=
  match dest with
  | Some l => st = place_status l ∧ idle_thread k ≠ Some t
  | None => st = THREAD_READY → idle_thread k = Some t
  end.

Lemma core_move k k' t th th' dest :
  core k → threads k !! t = Some th → threads k' = <[t := th']> (threads k) →
  moved k k' t dest → dest_status k t dest (status th') → thread_ok th' →
  idle_thread k' = idle_thread k → pending k' = pending k →
  status th ≠ THREAD_DYING → (status th' = THREAD_DYING → idle_thread k ≠ Some t) →
  all_list k' = (if decide (status th' = THREAD_DYING) then remove t (all_list k) else all_list k) →
  core k'.
Proof.
  intros [H1 H2 H3 H4 H5 H6 [H7 H7'] H8] Ht Ht' [Hnd Hq] Hd Hok Hi Hp Hdy Hdy' Ha.
  split.
  - done.
  - intros l1 l2 x. rewrite !Hq. intros [[? ?]|[-> E]] [[? ?]|[? E']]; try done; [by eapply H2|].
    congruence.
  - intros l x. rewrite Hq, Ht'. intros [[Hx Hin]|[-> ->]].
    + rewrite lookup_insert_ne by done. by apply H3.
    + rewrite lookup_insert_eq. eexists. split; [done|]. apply Hd.
  - intros i. rewrite Hi, Ht'. intros E. destruct (H4 i E) as [Hn (ih & Hih & Hs)]. split.
    + intros l. rewrite Hq. intros [[_ ?]|[-> ->]]; [by eapply Hn|]. by apply Hd.
    + destruct (decide (i = t)) as [->|].
      * rewrite lookup_insert_eq. eexists. split; [done|]. intros E'. by apply Hdy'.
      * rewrite lookup_insert_ne by done. eauto.
  - intros x xh. rewrite Ht', Hi. destruct (decide (x = t)) as [->|].
    + rewrite lookup_insert_eq. intros [= <-] E. destruct dest as [l|]; simpl in Hd.
      * left. destruct Hd as [Hst _]. destruct l; simpl in Hst; try congruence.
        apply (Hq AtReady). by right.
      * right. by apply Hd.
    + rewrite lookup_insert_ne by done. intros Hx E. destruct (H5 x xh Hx E) as [Hr|]; [|by right].
      left. apply (Hq AtReady). by left.
  - intros x xh. rewrite Ht'. destruct (decide (x = t)) as [->|].
    + rewrite lookup_insert_eq. by intros [= <-].
    + rewrite lookup_insert_ne by done. apply H6.
  - rewrite Ha, Ht'. case_decide as E; unfold remove.
    + split; [by apply NoDup_filter|]. intros x. rewrite list_elem_of_filter, H7'.
      destruct (decide (x = t)) as [->|].
      * rewrite lookup_insert_eq. split; [naive_solver|]. intros (y & [= <-] & ?). done.
      * rewrite lookup_insert_ne by done. naive_solver.
    + split; [done|]. intros x. rewrite H7'. destruct (decide (x = t)) as [->|].
      * rewrite lookup_insert_eq. split; intros _; eexists; split; done.
      * by rewrite lookup_insert_ne.
  - intros p. rewrite Ht', Hp. intros E. apply H8. destruct (decide (p = t)) as [->|].
    + by rewrite lookup_insert_eq in E.
    + by rewrite lookup_insert_ne in E.
Qed.

(** ** Queues *)

Lemma elem_of_remove x t q : x ∈ remove t q ↔ x ≠ t ∧ x ∈ q.
Proof. unfold remove. by rewrite list_elem_of_filter. Qed.

Lemma NoDup_remove t q : NoDup q → NoDup (remove t q).
Proof. apply NoDup_filter. Qed.

Lemma remove_absent t q : t ∉ q → remove t q = q.
Proof.
  intros. unfold remove. induction q as [|x q IH]; [done|].
  apply not_elem_of_cons in H as [? ?]. rewrite filter_cons_True by done. f_equal. auto.
Qed.

Lemma NoDup_snoc (t : ptr) q : t ∉ q → NoDup q → NoDup (q ++ [t]).
Proof.
  intros. apply NoDup_app. repeat split; [done| |apply NoDup_singleton].
  intros x Hx ->%list_elem_of_singleton. done.
Qed.

Lemma elem_of_snoc (x t : ptr) q : x ∈ q ++ [t] ↔ x ∈ q ∨ x = t.
Proof. by rewrite elem_of_app, list_elem_of_singleton. Qed.

(** A thread in no queue. *)
Definition nowhere (k : kernel) (t : ptr) : Prop := ∀ l, t ∉ queue k l.

(** One queue changes; the others stay. *)
Lemma moved_at k k' t dest l0 :
  core k →
  (∀ l, l ≠ l0 → queue k' l = queue k l ∧ (t ∉ queue k l) ∧ dest ≠ Some l) →
  NoDup (queue k' l0) →
  (∀ x, x ∈ queue k' l0 ↔ (x ≠ t ∧ x ∈ queue k l0) ∨ (x = t ∧ dest = Some l0)) →
  moved k k' t dest.
Proof.
  intros Hc Ho Hnd H0. split.
  - intros l. destruct (decide (l = l0)) as [->|Hl]; [done|].
    destruct (Ho l Hl) as (-> & _). apply (c_nodup k Hc).
  - intros l x. destruct (decide (l = l0)) as [->|Hl]; [done|].
    destruct (Ho l Hl) as (-> & Hn & Hd). split; [|by intros [[??]|[??]]].
    intros Hx. left. split; [|done]. intros ->. done.
Qed.

Lemma moved_nowhere k k' t :
  core k → nowhere k t → (∀ l, queue k' l = queue k l) → moved k k' t None.
Proof.
  intros Hc Hn Hq. apply (moved_at _ _ _ _ AtReady); [done| | |].
  - intros l _. split; [done|]. split; [apply Hn|done].
  - rewrite Hq. apply (c_nodup k Hc).
  - intros x. rewrite Hq. split; [|by intros [[??]|[??]]]. intros Hx. left. split; [|done].
    intros ->. by apply (Hn AtReady).
Qed.

Lemma moved_to k k' t l0 :
  core k → nowhere k t → (∀ l, l ≠ l0 → queue k' l = queue k l) → queue k' l0 = queue k l0 ++ [t] →
  moved k k' t (Some l0).
Proof.
  intros Hc Hn Ho E. apply (moved_at _ _ _ _ l0); [done| | |].
  - intros l Hl. split; [by apply Ho|]. split; [apply Hn|congruence].
  - rewrite E. apply NoDup_snoc; [apply Hn|apply (c_nodup k Hc)].
  - intros x. rewrite E, elem_of_snoc. specialize (Hn l0).
    destruct (decide (x = t)) as [->|]; naive_solver.
Qed.

Lemma moved_from k k' t l0 :
  core k → (t ∈ queue k l0 ∨ nowhere k t) → (∀ l, l ≠ l0 → queue k' l = queue k l) →
  queue k' l0 = remove t (queue k l0) → moved k k' t None.
Proof.
  intros Hc Hin Ho E. apply (moved_at _ _ _ _ l0); [done| | |].
  - intros l Hl. split; [by apply Ho|]. split; [|done].
    destruct Hin as [Hin|Hn]; [|apply Hn]. intros Hx. apply Hl. by eapply (c_uniq k Hc).
  - rewrite E. apply NoDup_remove, (c_nodup k Hc).
  - intros x. rewrite E, elem_of_remove. naive_solver.
Qed.

(** A thread that is running or dying is nowhere, and so is the idle thread. *)
Lemma nowhere_status k t th :
  core k → threads k !! t = Some th →
  status th = THREAD_RUNNING ∨ status th = THREAD_DYING → nowhere k t.
Proof.
  intros Hc Ht Hs l Hl. destruct (c_status k Hc l t Hl) as (x & Hx & E).
  destruct l; simpl in E; destruct Hs; congruence.
Qed.

Lemma nowhere_running k : core k → running k → nowhere k (cur k).
Proof. intros Hc [(th & Ht & Hs) _]. eapply nowhere_status; eauto. Qed.

Lemma nowhere_idle k i : core k → idle_thread k = Some i → nowhere k i.
Proof. intros Hc Hi. exact (proj1 (c_idle k Hc i Hi)). Qed.

(** ** The choice of the next thread *)

Definition prio (k : kernel) (t : ptr) : Z :=
  match threads k !! t with Some th => priority th | None => -1 end.

(** [t] is the first of the threads of [q] with the highest priority. *)
Definition first_highest (k : kernel) (q : list ptr) (t : ptr) : Prop :=
  ∃ q1 q2, q = q1 ++ t :: q2 ∧ (∀ x, x ∈ q1 → prio k x < prio k t) ∧
           (∀ x, x ∈ q2 → prio k x ≤ prio k t).

Lemma highest_loop_spec k es m nx q1 :
  core k → (∀ x, x ∈ es → is_Some (threads k !! x)) → -1 ≤ m →
  match nx with
  | None => q1 = [] ∧ m = -1
  | Some n => first_highest k q1 n ∧ m = prio k n
  end →
  ∃ r, highest_loop (threads k) es m nx = Ok r ∧
       match r with None => q1 ++ es = [] | Some n => first_highest k (q1 ++ es) n end.
Proof.
  intros Hc. revert m nx q1. induction es as [|e es IH]; intros m nx q1 Hin Hm Hnx; simpl.
  - exists nx. rewrite app_nil_r. split; [done|]. destruct nx; naive_solver.
  - destruct (Hin e) as [th Hth]; [left|]. rewrite Hth. simpl.
    destruct (c_thread k Hc e th Hth) as [_ Hp _]. unfold PRI_MIN, PRI_MAX in Hp.
    assert (prio k e = priority th) as Hpr by (unfold prio; by rewrite Hth).
    rewrite i8_small by lia. replace (q1 ++ e :: es) with ((q1 ++ [e]) ++ es) by (by rewrite <- app_assoc).
    assert (∀ x, x ∈ es → is_Some (threads k !! x)) by (intros; apply Hin; by right).
    zcase.
    + apply IH; [done|lia|]. split; [|done]. exists q1, []. split; [done|].
      split; [|intros x Hx; by apply elem_of_nil in Hx].
      destruct nx as [n|]; [|destruct Hnx as [-> _]; intros x Hx; by apply elem_of_nil in Hx].
      destruct Hnx as [(a & b & -> & Ha & Hb) ->]. intros x.
      rewrite elem_of_app, elem_of_cons. intros [Hx|[->|Hx]]; [specialize (Ha x Hx); lia|lia|].
      specialize (Hb x Hx). lia.
    + apply IH; [done|done|]. destruct nx as [n|]; [|lia].
      destruct Hnx as [(a & b & -> & Ha & Hb) ->]. split; [|done].
      exists a, (b ++ [e]). split; [by rewrite <- app_assoc|]. split; [done|].
      intros x. rewrite elem_of_snoc. intros [Hx| ->]; [by apply Hb|lia].
Qed.

Lemma list_highest_priority_spec k q :
  core k → (∀ x, x ∈ q → is_Some (threads k !! x)) → q ≠ [] →
  ∃ n, list_highest_priority q k = Ok (Some n, k) ∧ first_highest k q n.
Proof.
  intros Hc Hin Hq. destruct q as [|e q]; [done|]. unfold list_highest_priority, lift.
  destruct (highest_loop_spec k (e :: q) (-1) None []) as (r & -> & Hr); [done|done|lia|done|].
  destruct r as [n|]; [by eexists|done].
Qed.

Lemma first_highest_in k q t : first_highest k q t → t ∈ q.
Proof. intros (a & b & -> & _). apply elem_of_app. right. left. Qed.

(** The thread that [next_thread_to_run] chooses. *)
Definition chosen (k : kernel) (n : ptr) : Prop :=
  match ready_list k with
  | [] => idle_thread k = Some n
  | q => first_highest k q n
  end.

Lemma queue_is_Some k l x : core k → x ∈ queue k l → is_Some (threads k !! x).
Proof. intros Hc Hx. destruct (c_status k Hc l x Hx) as (th & -> & _). eauto. Qed.

Lemma set_ready_same k : set_ready_list (ready_list k) k = k.
Proof. by destruct k. Qed.

Lemma next_thread_to_run_spec k i :
  core k → idle_thread k = Some i →
  ∃ n, next_thread_to_run k = Ok (Some n, set_ready_list (remove n (ready_list k)) k) ∧
       chosen k n ∧ (n ∈ ready_list k ∨ nowhere k n) ∧
       ∃ th, threads k !! n = Some th ∧ status th ≠ THREAD_DYING.
Proof.
  intros Hc Hi. unfold next_thread_to_run, chosen. unfold mbind, st_bind, gets at 1.
  destruct (ready_list k) as [|e q] eqn:E.
  - exists i. pose proof (nowhere_idle k i Hc Hi) as Hn. unfold gets. rewrite Hi.
    split; [|split; [done|split; [by right|by apply (c_idle k Hc)]]].
    change (remove i []) with (@nil ptr). rewrite <- E. by rewrite set_ready_same.
  - destruct (list_highest_priority_spec k (e :: q)) as (n & -> & Hf); [done| |done|].
    { intros x Hx. apply (queue_is_Some k AtReady); [done|]. simpl. by rewrite E. }
    exists n. split; [done|]. split; [done|].
    assert (n ∈ ready_list k) as Hin by (rewrite E; by eapply first_highest_in).
    split; [left; by rewrite <- E|].
    destruct (c_status k Hc AtReady n Hin) as (th & Hth & Hs). exists th. split; [done|].
    simpl in Hs. by rewrite Hs.
Qed.

(** ** Switching *)

Definition switched (n : ptr) (nth : thread) (k : kernel) : kernel :=
  set_thread_ticks 0
    (set_threads (<[n := set_status THREAD_RUNNING nth]> (threads k))
       (set_cur n (set_ready_list (remove n (ready_list k)) k))).

Definition reap (p : ptr) (k : kernel) : kernel :=
  match threads k !! p with
  | Some th =>
      if bool_decide (status th = THREAD_DYING) && negb (p =? initial_thread k)
      then set_pending (delete p (pending k)) (set_threads (delete p (threads k)) k)
      else k
  | None => k
  end.

(** Run a command whose result is known. *)
Lemma st_run {A B} (m : K A) (f : A → K B) k a k1 :
  m k = Ok (a, k1) → (m ≫= f) k = f a k1.
Proof. intros H. unfold mbind, st_bind. by rewrite H. Qed.

Lemma is_thread_ok k t th :
  core k → threads k !! t = Some th → is_thread t k = Ok (true, k).
Proof.
  intros Hc Ht. unfold is_thread. rewrite Ht, (ok_magic th) by (by eapply c_thread).
  by rewrite Z.eqb_refl.
Qed.

Lemma get_thread_ok k t th : threads k !! t = Some th → get_thread t k = Ok (th, k).
Proof. intros Ht. unfold get_thread. by rewrite Ht. Qed.

Lemma update_thread_ok k t th f :
  threads k !! t = Some th →
  update_thread t f k = Ok (tt, set_threads (<[t := f th]> (threads k)) k).
Proof. intros Ht. unfold update_thread. by rewrite (st_run _ _ _ _ _ (get_thread_ok _ _ _ Ht)). Qed.

Lemma assert_true {S} (k : S) b : b = true → assert b k = Ok (tt, k).
Proof. by intros ->. Qed.

(** Execute the next command of a straight-line program. *)
Ltac exec :=
  first
    [ erewrite st_run by (first [ apply assert_true; cbn; (done || assumption)
                                | apply get_thread_ok; eassumption
                                | eapply is_thread_ok; eassumption
                                | apply update_thread_ok; eassumption
                                | reflexivity ]) ]; cbn beta.

Lemma thread_schedule_tail_ok k p th pth :
  threads k !! cur k = Some th → threads k !! p = Some pth → intr_on k = false → p ≠ cur k →
  thread_schedule_tail (Some p) k =
  Ok (tt, reap p (set_thread_ticks 0
                    (set_threads (<[cur k := set_status THREAD_RUNNING th]> (threads k)) k))).
Proof.
  intros Ht Hp Hi Hne. unfold thread_schedule_tail, running_thread, intr_get_level. do 2 exec.
  rewrite Hi. do 3 exec.
  erewrite st_run by (apply get_thread_ok; cbn; rewrite lookup_insert_ne by done; exact Hp).
  exec. unfold reap. cbn. rewrite lookup_insert_ne, Hp by done.
  destruct (bool_decide _ && negb _) eqn:E; [|done].
  erewrite st_run by (apply assert_true, negb_true_iff, Z.eqb_neq; done). done.
Qed.

Lemma schedule_eq k i cth :
  core k → stopped k → intr_on k = false → idle_thread k = Some i →
  threads k !! cur k = Some cth →
  ∃ n nth, chosen k n ∧ threads k !! n = Some nth ∧ (n ∈ ready_list k ∨ nowhere k n) ∧
    status nth ≠ THREAD_DYING ∧
    schedule k = Ok (tt, reap (cur k) (switched n nth k)).
Proof.
  intros Hc Hs Hi Hid Hcur.
  destruct (next_thread_to_run_spec k i Hc Hid) as (n & Hnext & Hch & Hin & nth & Hnth & Hdy).
  exists n, nth. repeat (split; [done|]). unfold schedule, running_thread. exec.
  rewrite (st_run _ _ _ _ _ Hnext). unfold intr_get_level. exec. cbn. rewrite Hi. do 2 exec.
  erewrite st_run by (apply assert_true, negb_true_iff, bool_decide_false, (Hs _ _ Hcur)).
  erewrite st_run by (unfold is_thread; cbn; rewrite Hnth, (ok_magic nth), Z.eqb_refl
                        by (by eapply c_thread); reflexivity).
  exec. destruct (Z.eqb_spec (cur k) n) as [E|E].
  - subst n. unfold thread_schedule_tail, running_thread, intr_get_level. do 2 exec. cbn.
    rewrite Hi. do 3 exec. unfold reap, switched. cbn. rewrite lookup_insert_eq. cbn.
    by rewrite bool_decide_false by done.
  - exec. erewrite thread_schedule_tail_ok by (cbn; eauto). done.
Qed.

Lemma core_reap k p : core k → core (reap p k).
Proof.
  intros Hc. unfold reap. destruct (threads k !! p) as [th|] eqn:Hp; [|done].
  destruct (bool_decide _ && negb _) eqn:E; [|done]. bools.
  apply bool_decide_eq_true in H.
  assert (Hn : nowhere k p) by (eapply nowhere_status; eauto).
  assert (Hq : ∀ l x, x ∈ queue (set_pending (delete p (pending k))
                 (set_threads (delete p (threads k)) k)) l → x ∈ queue k l).
  { intros l x. destruct l as [| | |q]; simpl; try done. destruct (decide (q = p)) as [->|].
    - rewrite lookup_delete_eq. simpl. by rewrite elem_of_nil.
    - by rewrite lookup_delete_ne. }
  pose proof Hc as [H1 H2 H3 H4 H5 H6 [H7 H7'] H8]. split; cbn [threads idle_thread all_list pending].
  - intros l. specialize (H1 l). destruct l as [| | |q]; simpl in *; try done.
    destruct (decide (q = p)) as [->|]; [rewrite lookup_delete_eq; apply NoDup_nil_2|].
    by rewrite lookup_delete_ne.
  - intros l1 l2 x Hx1 Hx2. eapply H2; apply Hq; eassumption.
  - intros l x Hx. apply Hq in Hx. simpl. rewrite lookup_delete_ne; [by apply H3|].
    intros ->. by apply (Hn l).
  - intros i Hi. destruct (H4 i Hi) as [Hni (ih & Hih & Hs)]. split.
    + intros l Hx. apply Hq in Hx. by eapply Hni.
    + exists ih. split; [|done]. simpl. rewrite lookup_delete_ne; [done|]. intros ->. congruence.
  - intros t xh Ht. simpl in *. apply lookup_delete_Some in Ht as [_ Ht]. by apply H5.
  - intros t xh Ht. simpl in *. apply lookup_delete_Some in Ht as [_ Ht]. eauto.
  - split; [done|]. intros t. simpl. rewrite H7'. destruct (decide (t = p)) as [->|].
    + rewrite lookup_delete_eq. split; [|by intros (? & ? & _)]. intros (? & ? & ?). congruence.
    + by rewrite lookup_delete_ne.
  - intros q Hqn. simpl in *. destruct (decide (q = p)) as [->|]; [apply lookup_delete_eq|].
    rewrite lookup_delete_ne in Hqn by done. rewrite lookup_delete_ne by done. auto.
Qed.

Lemma thread_ok_status th st : thread_ok th → thread_ok (set_status st th).
Proof. by intros [? ? ?]. Qed.

Create HintDb sched.
#[export] Hint Resolve thread_ok_status c_thread : sched.

Lemma core_switched k n nth :
  core k → threads k !! n = Some nth → (n ∈ ready_list k ∨ nowhere k n) →
  status nth ≠ THREAD_DYING → core (switched n nth k).
Proof.
  intros Hc Hn Hin Hdy.
  eapply (core_move k (switched n nth k) n nth (set_status THREAD_RUNNING nth) None);
    try done; [|by apply thread_ok_status; eauto with sched].
  apply (moved_from _ _ _ AtReady); [done|done| |done].
  intros []; done.
Qed.

Lemma running_switched k n nth :
  stopped k → threads k !! n = Some nth → running (switched n nth k).
Proof.
  intros Hs Hn. split; simpl.
  - rewrite lookup_insert_eq. eauto.
  - intros t th. destruct (decide (t = n)) as [->|]; [done|].
    rewrite lookup_insert_ne by done. intros Ht E. by apply Hs in Ht.
Qed.

Lemma running_reap k p : running k → running (reap p k).
Proof.
  intros [(th & Ht & Hs) Hr]. unfold reap. destruct (threads k !! p) as [ph|] eqn:Hp; [|split; eauto].
  destruct (bool_decide _ && negb _) eqn:E; [|split; eauto]. bools. apply bool_decide_eq_true in H.
  split; simpl.
  - exists th. split; [|done]. rewrite lookup_delete_ne; [done|]. intros ->. congruence.
  - intros t xh Hx. apply lookup_delete_Some in Hx as [_ Hx]. eauto.
Qed.

(** What [schedule] leaves alone. *)
Record kept (k k' : kernel) : Prop := {
  k_semas : semas k' = semas k;
  k_locks : locks k' = locks k;
  k_conds : conds k' = conds k;
  k_sleep : sleeping_list k' = sleeping_list k;
  k_all : all_list k' = all_list k;
  k_idle : idle_thread k' = idle_thread k;
  k_init : initial_thread k' = initial_thread k;
  k_intr : intr_on k' = intr_on k;
  k_ext : in_external_intr k' = in_external_intr k;
  k_waiting : thread_waiting k' = thread_waiting k;
  k_ticks : ticks k' = ticks k;
  k_tid : next_tid k' = next_tid k;
  k_mlfqs : thread_mlfqs k' = thread_mlfqs k;
  k_pend : ∀ p, p ≠ cur k → pending k' !! p = pending k !! p;
  k_pend_cur : is_Some (threads k' !! cur k) → pending k' !! cur k = pending k !! cur k;
  k_threads : ∀ t th, t ≠ cur k' → threads k' !! t = Some th → threads k !! t = Some th;
}.

Lemma kept_schedule k n nth : kept k (reap (cur k) (switched n nth k)).
Proof.
  assert (Ht : ∀ t th, t ≠ n → threads (switched n nth k) !! t = Some th → threads k !! t = Some th).
  { intros t th Hne. simpl. by rewrite lookup_insert_ne. }
  unfold reap. destruct (threads (switched n nth k) !! cur k) as [th|]; [|by split].
  destruct (_ && _); [|by split].
  split; try done; simpl.
  - intros p Hp. by rewrite lookup_delete_ne.
  - rewrite lookup_delete_eq. by intros [? ?].
  - intros t xh Hne Hx. apply lookup_delete_Some in Hx as [_ Hx]. by apply Ht.
Qed.

(** [schedule] returns, in the context of the chosen thread, and keeps the invariant. *)
Lemma schedule_ok k i cth :
  core k → stopped k → intr_on k = false → idle_thread k = Some i →
  threads k !! cur k = Some cth →
  ∃ k', schedule k = Ok (tt, k') ∧ core k' ∧ running k' ∧ kept k k' ∧ chosen k (cur k').
Proof.
  intros Hc Hs Hi Hid Hcur.
  destruct (schedule_eq k i cth) as (n & nth & Hch & Hn & Hin & Hdy & ->); [done..|].
  eexists. split; [done|]. split; [by apply core_reap, core_switched|].
  split; [by apply running_reap, running_switched|]. split; [apply kept_schedule|].
  unfold reap. destruct (threads (switched n nth k) !! cur k); [|done]. by destruct (_ && _).
Qed.

(** ** Frames *)

Definition stack_of (k : kernel) (p : ptr) : list frame := default [] (pending k !! p).

Definition pushed (f : frame) (k : kernel) : kernel :=
  set_pending (<[cur k := f :: stack_of k (cur k)]> (pending k)) k.

Lemma queue_pushed f k l : embryo f = [] → queue (pushed f k) l = queue k l.
Proof.
  intros E. destruct l as [| | |q]; try done. simpl. unfold stack_of.
  destruct (decide (q = cur k)) as [->|]; [|by rewrite lookup_insert_ne].
  rewrite lookup_insert_eq. simpl. unfold embryos. simpl. by rewrite E.
Qed.

Lemma core_pushed f k :
  embryo f = [] → is_Some (threads k !! cur k) → core k → core (pushed f k).
Proof.
  intros Hf [th Ht] Hc. apply (core_ext k); try done.
  - intros l. by apply queue_pushed.
  - intros p Hp. simpl. rewrite lookup_insert_ne by congruence. by apply (c_pending k Hc).
Qed.

(** ** Alive: the invariant with a running and an idle thread *)

Record alive (k : kernel) : Prop := {
  a_core : core k;
  a_running : running k;
  a_idle : is_Some (idle_thread k);
}.

Lemma alive_cur k : alive k → ∃ th, threads k !! cur k = Some th ∧ status th = THREAD_RUNNING.
Proof. by intros [_ [H _] _]. Qed.

Lemma thread_current_run k th :
  threads k !! cur k = Some th → thread_ok th → status th = THREAD_RUNNING →
  thread_current k = Ok (cur k, k).
Proof.
  intros Ht [Hm _ _] Hs. unfold thread_current, running_thread. exec.
  erewrite st_run by (unfold is_thread; rewrite Ht, Hm; reflexivity). do 2 exec.
  erewrite st_run by (apply assert_true, bool_decide_true, Hs). done.
Qed.

Lemma thread_current_ok k : alive k → thread_current k = Ok (cur k, k).
Proof.
  intros Ha. destruct (alive_cur k Ha) as (th & Ht & Hs).
  eapply thread_current_run; eauto. eapply c_thread; eauto. apply Ha.
Qed.

(** Updates of fields the invariant does not mention. *)
Lemma alive_ext k k' :
  threads k' = threads k → (∀ l, queue k' l = queue k l) → idle_thread k' = idle_thread k →
  all_list k' = all_list k → (∀ p, threads k !! p = None → pending k' !! p = None) →
  cur k' = cur k → alive k → alive k'.
Proof.
  intros Ht Hq Hi Ha Hp Hcu [Hc Hr Hid]. split.
  - by apply (core_ext k).
  - unfold running. by rewrite Ht, Hcu.
  - by rewrite Hi.
Qed.

Lemma alive_pushed f k : embryo f = [] → alive k → alive (pushed f k).
Proof.
  intros Hf Ha. destruct (alive_cur k Ha) as (th & Ht & _). destruct Ha as [Hc Hr Hi].
  split; [apply core_pushed; eauto|done|done].
Qed.

(** The current thread gives up the processor in state [st], bound for [dest]. *)
Lemma stop_current k k' th' dest :
  alive k → threads k' = <[cur k := th']> (threads k) → moved k k' (cur k) dest →
  status th' ≠ THREAD_RUNNING → dest_status k (cur k) dest (status th') → thread_ok th' →
  idle_thread k' = idle_thread k → pending k' = pending k →
  (status th' = THREAD_DYING → idle_thread k ≠ Some (cur k)) →
  all_list k' = (if decide (status th' = THREAD_DYING)
                 then remove (cur k) (all_list k) else all_list k) →
  core k' ∧ stopped k'.
Proof.
  intros Ha Ht' Hm Hs Hd Hok Hi Hp Hdy Hall.
  destruct (alive_cur k Ha) as (th & Ht & Hst). destruct Ha as [Hc [_ Hr] _]. split.
  - eapply core_move; eauto. by rewrite Hst.
  - intros t xh. rewrite Ht'. destruct (decide (t = cur k)) as [->|].
    + rewrite lookup_insert_eq. by intros [= <-].
    + rewrite lookup_insert_ne by done. intros Hx E. by apply Hr in Hx.
Qed.

(** The current thread stops with one more frame on its stack, and another one runs. *)
Lemma stop_schedule k k1 f th' dest :
  alive k → threads k1 = <[cur k := th']> (threads k) → moved k k1 (cur k) dest →
  status th' ≠ THREAD_RUNNING → dest_status k (cur k) dest (status th') → thread_ok th' →
  idle_thread k1 = idle_thread k → pending k1 = pending k →
  (status th' = THREAD_DYING → idle_thread k ≠ Some (cur k)) →
  all_list k1 = (if decide (status th' = THREAD_DYING)
                 then remove (cur k) (all_list k) else all_list k) →
  cur k1 = cur k → intr_on k1 = false → embryo f = [] →
  ∃ k', schedule (pushed f k1) = Ok (tt, k') ∧ alive k' ∧ kept (pushed f k1) k' ∧
        chosen (pushed f k1) (cur k').
Proof.
  intros Ha Ht' Hm Hs Hd Hok Hi Hp Hdy Hall Hcu Hio Hf. pose proof (a_idle k Ha) as [i Hid].
  destruct (stop_current k k1 th' dest) as [Hc1 Hs1]; [done..|].
  assert (threads k1 !! cur k1 = Some th') as Hc by (by rewrite Ht', Hcu, lookup_insert_eq).
  destruct (schedule_ok (pushed f k1) i th') as (k' & Hk' & Hc' & Hr' & Hkept & Hch).
  - apply core_pushed; eauto.
  - exact Hs1.
  - done.
  - simpl. congruence.
  - done.
  - exists k'. split; [done|]. split; [|done]. split; [done|done|].
    rewrite (k_idle _ _ Hkept). simpl. rewrite Hi, Hid. done.
Qed.

(** ** [thread_yield] *)

Definition requeue (k : kernel) : list ptr :=
  if bool_decide (Some (cur k) = idle_thread k) then ready_list k else ready_list k ++ [cur k].

Definition yielded (th : thread) (k : kernel) : kernel :=
  pushed (IntrSetLevel (intr_on k))
    (set_threads (<[cur k := set_status THREAD_READY th]> (threads k))
       (set_ready_list (requeue k) (set_intr_on false k))).

Lemma thread_yield_ok k th :
  alive k → in_external_intr k = false → threads k !! cur k = Some th →
  ∃ k', thread_yield k = Ok (tt, k') ∧ alive k' ∧ kept (yielded th k) k' ∧
        chosen (yielded th k) (cur k').
Proof.
  intros Ha He Ht. pose proof (a_idle k Ha) as [i Hi]. pose proof (a_core k Ha) as Hc.
  assert (Hrun : thread_yield k = schedule (yielded th k)).
  { unfold thread_yield. rewrite (st_run _ _ _ _ _ (thread_current_ok k Ha)).
    unfold intr_context. exec. rewrite He. do 3 exec. unfold yielded, requeue.
    destruct (decide (Some (cur k) = idle_thread k)) as [E|E].
    - rewrite !bool_decide_true by done. exec.
      erewrite st_run by (apply update_thread_ok; exact Ht).
      erewrite st_run by reflexivity. by destruct k.
    - rewrite !bool_decide_false by done. exec.
      erewrite st_run by (apply update_thread_ok; exact Ht).
      erewrite st_run by reflexivity. done. }
  set (ky := set_threads (<[cur k := set_status THREAD_READY th]> (threads k))
               (set_ready_list (requeue k) (set_intr_on false k))).
  rewrite Hrun. eapply (stop_schedule k ky _ (set_status THREAD_READY th)
    (if bool_decide (Some (cur k) = idle_thread k) then None else Some AtReady)); try done.
  - pose proof (nowhere_running k Hc (a_running k Ha)) as Hn. unfold ky, requeue.
    case_bool_decide; [by apply moved_nowhere|].
    apply moved_to; try done. intros []; done.
  - case_bool_decide as E; simpl; [by intros _|]. split; [done|]. congruence.
  - apply thread_ok_status. eauto with sched.
Qed.

(** ** Returning with interrupts restored *)

Definition set_level (f : frame) : Prop := match f with IntrSetLevel _ => True | _ => False end.

(** The effect of the last call of a primitive, which may switch to another thread: the
    objects are as they were, and the stacks too but for what [thread_yield] left. *)
Record tail (k k' : kernel) : Prop := {
  t_semas : semas k' = semas k;
  t_locks : locks k' = locks k;
  t_conds : conds k' = conds k;
  t_sleep : sleeping_list k' = sleeping_list k;
  t_all : all_list k' = all_list k;
  t_idle : idle_thread k' = idle_thread k;
  t_init : initial_thread k' = initial_thread k;
  t_ext : in_external_intr k' = in_external_intr k;
  t_ticks : ticks k' = ticks k;
  t_tid : next_tid k' = next_tid k;
  t_mlfqs : thread_mlfqs k' = thread_mlfqs k;
  t_pend : ∀ p, p ≠ cur k → stack_of k' p = stack_of k p;
  t_pend_cur : ∃ fs, Forall set_level fs ∧ stack_of k' (cur k) = fs ++ stack_of k (cur k);
}.

Lemma alive_set_intr k b : alive k → alive (set_intr_on b k).
Proof. intros Ha. apply (alive_ext k); try done. apply (c_pending k (a_core k Ha)). Qed.

Lemma alive_set_waiting k b : alive k → alive (set_thread_waiting b k).
Proof. intros Ha. apply (alive_ext k); try done. apply (c_pending k (a_core k Ha)). Qed.

#[export] Hint Resolve alive_set_intr alive_set_waiting alive_pushed a_core a_running a_idle : sched.

(** The yielding thread is not dying, so its stack is still there. *)
Lemma yield_stack k th k' :
  alive k → threads k !! cur k = Some th → core k' → kept (yielded th k) k' →
  stack_of k' (cur k) = IntrSetLevel (intr_on k) :: stack_of k (cur k).
Proof.
  intros Ha Ht Hc' Hk. pose proof (k_pend_cur _ _ Hk) as Hp. simpl in Hp.
  unfold stack_of at 1. rewrite Hp; [by rewrite lookup_insert_eq|].
  assert (cur k ∈ all_list k') as Hall.
  { rewrite (k_all _ _ Hk). simpl. apply (c_all k (a_core k Ha)). exists th. split; [done|].
    destruct (alive_cur k Ha) as (th' & ? & ?). congruence. }
  apply (c_all k' Hc') in Hall as (x & -> & _). eauto.
Qed.

Lemma yield_tail k th k' :
  alive k → threads k !! cur k = Some th → core k' → kept (yielded th k) k' → tail k k'.
Proof.
  intros Ha Ht Hc' Hk. pose proof (yield_stack k th k' Ha Ht Hc' Hk) as Hst.
  destruct Hk as [H1 H2 H3 H4 H5 H6 H7 H8 H9 H10 H11 H12 H13 H14 H15 _]. split; try done.
  - intros p Hp. unfold stack_of. rewrite H14 by done. simpl. by rewrite lookup_insert_ne.
  - exists [IntrSetLevel (intr_on k)]. rewrite Hst. split; [by repeat constructor|done].
Qed.

Lemma tail_set_intr k b : tail k (set_intr_on b k).
Proof. split; try done. exists []. split; [constructor|done]. Qed.

Lemma intr_set_level_ok b k :
  alive k → (b = true → in_external_intr k = false) →
  ∃ k', intr_set_level b k = Ok (tt, k') ∧ alive k' ∧ tail k k' ∧
        (b = false ∨ thread_waiting k = false → k' = set_intr_on b k).
Proof.
  intros Ha He. destruct b.
  - unfold intr_set_level, intr_enable, intr_get_level, intr_context.
    destruct (thread_waiting k) eqn:Ew.
    + destruct (alive_cur k Ha) as (th & Ht & _).
      destruct (thread_yield_ok (set_thread_waiting false (set_intr_on true k)) th)
        as (k' & Hy & Ha' & Hk & _); [eauto with sched|by apply He|done|].
      exists k'. split; [|split; [done|split]].
      * unfold mbind, st_bind, gets, modify. simpl. rewrite (He eq_refl). simpl. rewrite Ew.
        by rewrite Hy.
      * apply yield_tail in Hk; [|eauto with sched|done|eauto with sched].
        destruct Hk. by split.
      * intros [|]; done.
    + eexists. split; [|split; [|split; [apply tail_set_intr|done]]].
      * unfold mbind, st_bind, gets, modify. simpl. rewrite (He eq_refl). simpl. by rewrite Ew.
      * eauto with sched.
  - eexists. split; [done|]. split; [eauto with sched|]. split; [apply tail_set_intr|done].
Qed.

(** ** [thread_unblock] *)

Definition unblocked (t : ptr) (th : thread) (k : kernel) : kernel :=
  let k := set_threads (<[t := set_status THREAD_READY th]> (threads k))
             (set_ready_list (ready_list k ++ [t]) (set_intr_on false k)) in
  if prio k (cur k) <? prio k t then set_thread_waiting true k else k.

Lemma alive_unblocked t th k :
  alive k → threads k !! t = Some th → status th = THREAD_BLOCKED → nowhere k t →
  idle_thread k ≠ Some t → alive (unblocked t th k).
Proof.
  intros Ha Ht Hs Hn Hi.
  set (ku := set_threads (<[t := set_status THREAD_READY th]> (threads k))
               (set_ready_list (ready_list k ++ [t]) (set_intr_on false k))).
  assert (alive ku) as Hu.
  { destruct Ha as [Hc Hr Hid]. split; [|split|done].
    - eapply (core_move k ku t th (set_status THREAD_READY th) (Some AtReady)); try done.
      + apply moved_to; try done. intros []; done.
      + apply thread_ok_status. eauto with sched.
      + by rewrite Hs.
    - destruct Hr as [(c & Hcu & Hcs) _]. exists c. split; [|done]. simpl.
      rewrite lookup_insert_ne; [done|]. intros ->. congruence.
    - intros x xh. simpl. destruct (decide (x = t)) as [->|].
      + rewrite lookup_insert_eq. by intros [= <-].
      + rewrite lookup_insert_ne by done. apply Hr. }
  unfold unblocked. fold ku. destruct (_ <? _); eauto with sched.
Qed.

Lemma thread_unblock_eq t th k :
  alive k → threads k !! t = Some th → status th = THREAD_BLOCKED → nowhere k t →
  idle_thread k ≠ Some t →
  thread_unblock t k = intr_set_level (intr_on k) (unblocked t th k).
Proof.
  intros Ha Ht Hs Hn Hi. pose proof (alive_unblocked t th k Ha Ht Hs Hn Hi) as Hu.
  destruct (alive_cur k Ha) as (c & Hcu & Hcs).
  assert (cur k ≠ t) by (intros E; rewrite E in *; congruence).
  unfold thread_unblock.
  erewrite st_run by (eapply is_thread_ok; [apply (a_core k Ha)|exact Ht]).
  do 2 exec.
  erewrite st_run by (apply get_thread_ok; exact Ht).
  erewrite st_run by (apply assert_true, bool_decide_true, Hs). do 2 exec.
  unfold unblocked in *. cbn zeta in *.
  set (ku := set_threads (<[t := set_status THREAD_READY th]> (threads k))
               (set_ready_list (ready_list k ++ [t]) (set_intr_on false k))) in *.
  assert (alive ku) as Hau.
  { destruct (_ <? _); [|done]. apply (alive_ext (set_thread_waiting true ku)); try done.
    apply (c_pending _ (a_core _ Hu)). }
  change (set_threads _ _) with ku.
  rewrite (st_run _ _ _ _ _ (thread_current_ok ku Hau)).
  erewrite st_run by (apply get_thread_ok; cbn; rewrite lookup_insert_ne by done; exact Hcu).
  assert (prio ku (cur ku) = priority c ∧ prio ku t = priority th) as [-> ->].
  { unfold prio, ku. cbn. by rewrite lookup_insert_ne, Hcu, lookup_insert_eq by done. }
  by destruct (priority c <? priority th).
Qed.

(** ** Semaphores *)

Lemma queue_sema k s v l :
  queue (set_semas (<[s := v]> (semas k)) k) l = if decide (l = AtSema s) then waiters v else queue k l.
Proof.
  destruct l as [| |s'|]; try (by rewrite decide_False by done).
  simpl. destruct (decide (s' = s)) as [->|].
  - by rewrite lookup_insert_eq, decide_True.
  - rewrite lookup_insert_ne by done. by rewrite decide_False by congruence.
Qed.

Lemma queue_at_sema k s v : semas k !! s = Some v → queue k (AtSema s) = waiters v.
Proof. intros H. simpl. by rewrite H. Qed.

(** The value changes, the wait queue does not. *)
Lemma alive_sema_value k s v v' :
  alive k → semas k !! s = Some v → waiters v' = waiters v →
  alive (set_semas (<[s := v']> (semas k)) k).
Proof.
  intros Ha Hs Hw. apply (alive_ext k); try done.
  - intros l. rewrite queue_sema. destruct (decide (l = AtSema s)) as [->|]; [|done].
    by rewrite (queue_at_sema _ _ _ Hs).
  - apply (c_pending k (a_core k Ha)).
Qed.

(** A waiter leaves the wait queue; it is still blocked. *)
Lemma alive_sema_dequeue k s v t th :
  alive k → semas k !! s = Some v → t ∈ waiters v → threads k !! t = Some th →
  let k' := set_semas (<[s := Sema (value v) (remove t (waiters v))]> (semas k)) k in
  alive k' ∧ nowhere k' t ∧ status th = THREAD_BLOCKED ∧ idle_thread k ≠ Some t.
Proof.
  intros Ha Hs Hin Ht k'. pose proof (a_core k Ha) as Hc.
  rewrite <- (queue_at_sema k s v Hs) in Hin.
  destruct (c_status k Hc _ _ Hin) as (x & Hx & Hst). simpl in Hst.
  assert (x = th) as -> by congruence.
  assert (moved k k' t None) as Hm.
  { apply (moved_from _ _ _ (AtSema s)); [done|by left| |].
    - intros l Hl. unfold k'. by rewrite queue_sema, decide_False.
    - unfold k'. rewrite queue_sema, decide_True by done. by rewrite (queue_at_sema _ _ _ Hs). }
  split; [|split; [|split; [done|]]].
  - destruct Ha as [_ Hr Hid]. split; [|done|done].
    eapply (core_move k k' t th th None); try done; rewrite ?Hst; try done.
    + unfold k'. simpl. by rewrite insert_id.
    + eauto with sched.
  - intros l Hl. apply (proj2 Hm) in Hl as [[? _]|[_ ?]]; done.
  - intros Hi. by apply (nowhere_idle k t Hc Hi) in Hin.
Qed.

(** The state of [sema_up] when it restores the interrupt level. *)
Definition upped (s : sema_id) (v : semaphore) (k km : kernel) : Prop :=
  (waiters v = [] ∧
   km = set_semas (<[s := Sema (u32 (value v + 1)) []]> (semas k)) (set_intr_on false k)) ∨
  (∃ t th, first_highest k (waiters v) t ∧ threads k !! t = Some th ∧
     let kd := set_semas (<[s := Sema (value v) (remove t (waiters v))]> (semas k))
                 (set_intr_on false k) in
     km = set_semas (<[s := Sema (u32 (value v + 1)) (remove t (waiters v))]> (semas kd))
            (unblocked t th kd)).

Lemma get_sema_ok k s v : semas k !! s = Some v → get_sema s k = Ok (v, k).
Proof. intros Hs. unfold get_sema. by rewrite Hs. Qed.

Lemma semas_unblocked t th k : semas (unblocked t th k) = semas k.
Proof. unfold unblocked. cbn zeta. by destruct (_ <? _). Qed.

Lemma intr_unblocked t th k : intr_on (unblocked t th k) = false.
Proof. unfold unblocked. cbn zeta. by destruct (_ <? _). Qed.

Lemma set_intr_false k : intr_on k = false → set_intr_on false k = k.
Proof. intros H. destruct k; simpl in *. by subst. Qed.

Lemma sema_up_eq s v k :
  alive k → semas k !! s = Some v →
  ∃ km, sema_up s k = intr_set_level (intr_on k) km ∧ alive km ∧ upped s v k km.
Proof.
  intros Ha Hs. unfold sema_up. set (ki := set_intr_on false k).
  assert (alive ki) as Hi by (by apply alive_set_intr).
  erewrite st_run by reflexivity. fold ki.
  erewrite st_run by (by apply get_sema_ok).
  destruct (decide (waiters v = [])) as [E|E].
  - rewrite bool_decide_true by done.
    erewrite st_run by reflexivity. erewrite st_run by (by apply get_sema_ok).
    eexists. split; [by exec|]. split; [by eapply alive_sema_value|]. left. by rewrite E.
  - rewrite bool_decide_false by done.
    destruct (list_highest_priority_spec ki (waiters v)) as (t & Hl & Hf); [eauto with sched| |done|].
    { intros x Hx. apply (queue_is_Some ki (AtSema s)); [eauto with sched|].
      by rewrite (queue_at_sema ki s v Hs). }
    pose proof (first_highest_in _ _ _ Hf) as Hin.
    destruct (queue_is_Some ki (AtSema s) t) as [th Ht]; [eauto with sched|by rewrite (queue_at_sema ki s v Hs)|].
    destruct (alive_sema_dequeue ki s v t th Hi Hs Hin Ht) as (Had & Hn & Hst & Hid).
    set (kd := set_semas (<[s := Sema (value v) (remove t (waiters v))]> (semas ki)) ki) in *.
    pose proof (alive_unblocked t th kd Had Ht Hst Hn Hid) as Hu.
    erewrite st_run; [|rewrite (st_run _ _ _ _ _ Hl); erewrite st_run by reflexivity; fold kd;
      rewrite (thread_unblock_eq t th kd) by done; reflexivity].
    change (intr_on kd) with false.
    rewrite (set_intr_false _ (intr_unblocked t th kd)).
    assert (semas (unblocked t th kd) !! s = Some (Sema (value v) (remove t (waiters v)))) as Hs'.
    { rewrite semas_unblocked. simpl. apply lookup_insert_eq. }
    rewrite (st_run _ _ _ _ _ (get_sema_ok _ _ _ Hs')).
    eexists. split; [by exec|]. split; [by eapply alive_sema_value|].
    right. exists t, th. split; [done|]. split; [done|]. cbn zeta. fold ki. fold kd.
    by rewrite semas_unblocked.
Qed.

Lemma sema_up_ok s v k :
  alive k → semas k !! s = Some v → (intr_on k = true → in_external_intr k = false) →
  ∃ km k', sema_up s k = Ok (tt, k') ∧ upped s v k km ∧ alive km ∧ alive k' ∧ tail km k'.
Proof.
  intros Ha Hs He. destruct (sema_up_eq s v k Ha Hs) as (km & -> & Hm & Hu).
  destruct (intr_set_level_ok (intr_on k) km) as (k' & Hr & Ha' & Ht & _); [done| |].
  { intros E. specialize (He E). destruct Hu as [[_ ->]|(t & th & _ & _ & ->)]; [done|].
    cbn zeta. unfold unblocked. cbn zeta. by destruct (_ <? _). }
  exists km, k'. done.
Qed.

Lemma thread_block_run k th :
  threads k !! cur k = Some th → thread_ok th → status th = THREAD_RUNNING →
  intr_on k = false → in_external_intr k = false →
  thread_block k = schedule (set_threads (<[cur k := set_status THREAD_BLOCKED th]> (threads k)) k).
Proof.
  intros Ht Hok Hs Hi He. unfold thread_block, intr_context, intr_get_level. exec. rewrite He.
  do 2 exec. rewrite Hi. exec. rewrite (st_run _ _ _ _ _ (thread_current_run k th Ht Hok Hs)).
  by erewrite st_run by (apply update_thread_ok; eauto).
Qed.

(** [sema_down] with interrupts off: the two outcomes of one pass through its loop. *)
Definition sema_blocked (s : sema_id) (v : semaphore) (old_level : bool) (th : thread)
    (k : kernel) : kernel :=
  pushed (SemaDownLoop s old_level)
    (set_threads (<[cur k := set_status THREAD_BLOCKED th]> (threads k))
       (set_semas (<[s := Sema (value v) (waiters v ++ [cur k])]> (semas k)) k)).

Lemma sema_down_loop_ok s v old_level th k :
  alive k → semas k !! s = Some v → (value v = 0 → intr_on k = false) →
  in_external_intr k = false → idle_thread k ≠ Some (cur k) → threads k !! cur k = Some th →
  ∃ k', sema_down_loop s old_level k = Ok (tt, k') ∧ alive k' ∧
    if value v =? 0 then kept (sema_blocked s v old_level th k) k'
    else tail (set_semas (<[s := Sema (value v - 1) (waiters v)]> (semas k)) k) k'.
Proof.
  intros Ha Hs Hi He Hid Ht. unfold sema_down_loop.
  rewrite (st_run _ _ _ _ _ (get_sema_ok _ _ _ Hs)). zcase.
  - specialize (Hi e). destruct (alive_cur k Ha) as (th' & Ht' & Hst). assert (th' = th) as -> by congruence.
    pose proof (c_thread k (a_core k Ha) _ _ Ht) as Hok.
    rewrite (st_run _ _ _ _ _ (thread_current_ok k Ha)). do 2 exec.
    set (k1 := set_threads (<[cur k := set_status THREAD_BLOCKED th]> (threads k))
                 (set_semas (<[s := Sema (value v) (waiters v ++ [cur k])]> (semas k)) k)).
    rewrite (thread_block_run _ th) by done.
    change (set_threads _ _) with (pushed (SemaDownLoop s old_level) k1).
    destruct (stop_schedule k k1 (SemaDownLoop s old_level) (set_status THREAD_BLOCKED th) (Some (AtSema s)))
      as (k' & Hk' & Ha' & Hkept & _); try done.
    + apply moved_to.
      * eauto with sched.
      * apply nowhere_running; eauto with sched.
      * intros l Hl. etransitivity;
          [apply (queue_sema k s (Sema (value v) (waiters v ++ [cur k])))|by rewrite decide_False].
      * unfold k1. rewrite (queue_at_sema k s v Hs). simpl. by rewrite lookup_insert_eq.
    + by apply thread_ok_status.
    + eauto.
  - exec. destruct (intr_set_level_ok old_level (set_semas (<[s := Sema (value v - 1) (waiters v)]> (semas k)) k))
      as (k' & Hk' & Ha' & Htl & _); [by eapply alive_sema_value|done|].
    eauto.
Qed.

Lemma sema_down_ok s v th k :
  alive k → semas k !! s = Some v → in_external_intr k = false →
  idle_thread k ≠ Some (cur k) → threads k !! cur k = Some th →
  ∃ k', sema_down s k = Ok (tt, k') ∧ alive k' ∧
    let ki := set_intr_on false k in
    if value v =? 0 then kept (sema_blocked s v (intr_on k) th ki) k'
    else tail (set_semas (<[s := Sema (value v - 1) (waiters v)]> (semas k)) ki) k'.
Proof.
  intros Ha Hs He Hi Ht. unfold sema_down, intr_context. exec. rewrite He. do 2 exec.
  apply (sema_down_loop_ok s v (intr_on k) th (set_intr_on false k)); eauto with sched.
Qed.

(** ** Changes of threads that do not concern the scheduler *)

Definition touched (k k' : kernel) : Prop :=
  ∃ ths, k' = set_threads ths k ∧ (∀ t, status <$> ths !! t = status <$> threads k !! t) ∧
         ∀ t th, ths !! t = Some th → thread_ok th.

Lemma touched_refl k : core k → touched k k.
Proof. intros Hc. exists (threads k). split; [by destruct k|]. split; [done|]. apply Hc. Qed.

Lemma touched_trans k1 k2 k3 : touched k1 k2 → touched k2 k3 → touched k1 k3.
Proof.
  intros (a & -> & Ha & Ha') (b & -> & Hb & Hb'). exists b. split; [done|]. split; [|done].
  intros t. by rewrite Hb, <- Ha.
Qed.

Lemma touched_put k t th th' :
  core k → threads k !! t = Some th → status th' = status th → thread_ok th' →
  touched k (set_threads (<[t := th']> (threads k)) k).
Proof.
  intros Hc Ht Hs Hok. eexists. split; [done|]. split; intros x.
  - destruct (decide (x = t)) as [->|]; [|by rewrite lookup_insert_ne].
    rewrite lookup_insert_eq, Ht. simpl. by rewrite Hs.
  - intros xh. destruct (decide (x = t)) as [->|].
    + rewrite lookup_insert_eq. by intros [= <-].
    + rewrite lookup_insert_ne by done. eauto with sched.
Qed.

Lemma touched_status k (ths : gmap ptr thread) (P : thread_status → Prop) t :
  (∀ t, status <$> ths !! t = status <$> threads k !! t) →
  (∃ th, ths !! t = Some th ∧ P (status th)) ↔ (∃ th, threads k !! t = Some th ∧ P (status th)).
Proof.
  intros H. specialize (H t). destruct (ths !! t), (threads k !! t); simpl in H; try done.
  injection H as H. split; intros (x & [= <-] & Hx); eexists; (split; [done|]); congruence.
Qed.

Lemma touched_core k k' : core k → touched k k' → core k'.
Proof.
  intros [H1 H2 H3 H4 H5 H6 [H7 H7'] H8] (ths & -> & Hs & Hok). split; try done.
  - intros l t Hl. apply (touched_status k ths (λ s, s = place_status l) t Hs), H3, Hl.
  - intros i Hi. destruct (H4 i Hi) as [Hn He]. split; [done|].
    by apply (touched_status k ths (λ s, s ≠ THREAD_DYING) i Hs).
  - intros t th Ht E. simpl in Ht.
    destruct (proj1 (touched_status k ths (λ s, s = THREAD_READY) t Hs)) as (x & Hx & Ex); eauto.
  - split; [done|]. intros t. simpl. rewrite H7'. symmetry.
    apply (touched_status k ths (λ s, s ≠ THREAD_DYING) t Hs).
  - intros p Hp. simpl in *. apply H8. specialize (Hs p). rewrite Hp in Hs.
    by destruct (threads k !! p).
Qed.

Lemma touched_alive k k' : alive k → touched k k' → alive k'.
Proof.
  intros [Hc [Hr1 Hr2] Hi] Ht. split; [by eapply touched_core| |].
  - destruct Ht as (ths & -> & Hs & _). split; simpl.
    + apply (touched_status k ths (λ s, s = THREAD_RUNNING) (cur k) Hs), Hr1.
    + intros t th Ht E.
      destruct (proj1 (touched_status k ths (λ s, s = THREAD_RUNNING) t Hs)) as (x & ? & ?); eauto.
  - by destruct Ht as (ths & -> & _).
Qed.

#[export] Hint Resolve touched_refl touched_core touched_alive : sched.

Lemma update_thread_touched t f k u k' :
  core k → update_thread t f k = Ok (u, k') →
  (∀ th, threads k !! t = Some th → thread_ok th → status (f th) = status th ∧ thread_ok (f th)) →
  touched k k'.
Proof.
  intros Hc H Hf. unfold update_thread, get_thread in H.
  apply st_bind_Ok in H as (th & k1 & H1 & H2).
  destruct (threads k !! t) as [x|] eqn:Ht; [|done]. injection H1 as <- <-. injection H2 as _ <-.
  destruct (Hf x eq_refl) as [Hs Hok]; [eauto with sched|]. by eapply touched_put.
Qed.

(** [thread_current] and reads leave the state alone. *)
Lemma thread_current_Ok k t k' : thread_current k = Ok (t, k') → k' = k ∧ t = cur k.
Proof.
  unfold thread_current, running_thread, is_thread, get_thread, gets, assert, lift, ASSERT,
    mbind, st_bind.
  destruct (threads k !! cur k) as [th|] eqn:Ht; [|done]. destruct (magic th =? _); [|done].
  simpl. rewrite Ht. simpl. case_bool_decide; [|done]. by intros [= <- <-].
Qed.

Lemma get_thread_Ok t k th k' : get_thread t k = Ok (th, k') → k' = k ∧ threads k !! t = Some th.
Proof. unfold get_thread. destruct (threads k !! t); [|done]. by intros [= <- <-]. Qed.

Lemma get_holder_Ok l k h k' : get_holder l k = Ok (h, k') → k' = k ∧ locks k !! l = Some h.
Proof. unfold get_holder. destruct (locks k !! l); [|done]. by intros [= <- <-]. Qed.

Lemma assert_Ok {S} b (k k' : S) u : assert b k = Ok (u, k') → b = true ∧ k' = k.
Proof. unfold assert, lift, ASSERT. destruct b; [|done]. by intros [= _ <-]. Qed.

Lemma gets_Ok {S A} (f : S → A) k a k' : gets f k = Ok (a, k') → a = f k ∧ k' = k.
Proof. by intros [= <- <-]. Qed.

(** Take apart the run of a straight-line program. *)
Ltac bind_in H x k1 E := apply st_bind_Ok in H as (x & k1 & E & H).
Ltac reads H :=
  repeat (let x := fresh "x" in let k1 := fresh "k" in let E := fresh "E" in
    apply st_bind_Ok in H as (x & k1 & E & H);
    first [ apply thread_current_Ok in E as [-> ->]
          | apply get_thread_Ok in E as [-> E]
          | apply get_holder_Ok in E as [-> E]
          | apply assert_Ok in E as [E ->]
          | apply gets_Ok in E as [-> ->] ]).

Lemma priority_ok th p : thread_ok th → PRI_MIN ≤ p ≤ PRI_MAX → thread_ok (set_priority p th).
Proof. by intros [? ? ?]. Qed.

Lemma donate_loop_touched fuel nl c k u k' :
  core k → donate_loop fuel nl c k = Ok (u, k') → touched k k'.
Proof.
  revert nl c k. induction fuel as [|n IH]; intros [l|] c k Hc H; simpl in H; try done.
  1, 3: injection H as _ <-; eauto with sched.
  reads H. destruct x as [h|]; [|done]. reads H. bind_in H u1 k1 E1.
  assert (touched k k1) as Ht.
  { eapply update_thread_touched; [done..|]. intros th _ Hok. split; [done|].
    apply priority_ok; [done|]. eapply ok_priority, c_thread; eauto. }
  bind_in H th k2 E2. apply get_thread_Ok in E2 as [-> E2].
  eapply touched_trans; [done|]. eapply IH; [|done]. eauto with sched.
Qed.

(** A thread cannot block with interrupts on. *)
Lemma sema_down_loop_intr s v old_level k k' :
  alive k → semas k !! s = Some v → sema_down_loop s old_level k = Ok (tt, k') →
  value v = 0 → intr_on k = false.
Proof.
  intros Ha Hs H E. unfold sema_down_loop in H.
  rewrite (st_run _ _ _ _ _ (get_sema_ok _ _ _ Hs)), E in H. simpl in H.
  rewrite (st_run _ _ _ _ _ (thread_current_ok k Ha)) in H.
  destruct (intr_on k) eqn:Hi; [|done]. exfalso. revert H.
  unfold put_sema, push_frame, thread_block, intr_context, intr_get_level, modify, gets, assert, lift,
    ASSERT, mbind, st_bind. simpl. destruct (in_external_intr k); simpl; [done|]. by rewrite Hi.
Qed.
