(* ===== verification/SchedInv.v ===== *)
(** * The kernel invariant and its preservation

    On top of the queues ([Sched]), the invariant says what the stacks of unfinished
    calls look like and counts, for each lock, the unit of its semaphore: it is in the
    semaphore's value, with the holder, or on the way to a thread that has taken it in
    [lock_acquire] and not returned yet.  There is exactly one. *)

From S2P Require Import Prelude Arith64 FixedPoint Thread Synch Sched.

(** ** Stacks *)

(** [idle] is created once, while the kernel boots. *)
Definition frame_ok (f : frame) : Prop :=
  match f with
  | ThreadInited _ _ (Idle _) | ThreadCreated _ (Idle _) | KernelThread (Idle _)
  | RunFunction (Idle _) | StartEnable _ | StartWait _ => False
  | _ => True
  end.

(** A thread in the loop of a lock's [sema_down] has called [lock_acquire]. *)
Fixpoint waits_ok (fs : list frame) : Prop :=
  match fs with
  | SemaDownLoop (LockSema l) _ :: fs' =>
      match fs' with LockAcquired l' :: _ => l = l' | _ => False end ∧ waits_ok fs'
  | _ :: fs' => waits_ok fs'
  | [] => True
  end.

Definition idle_frame (f : frame) : Prop :=
  match f with IntrSetLevel _ | Iret => True | _ => False end.

(** The idle thread is always somewhere in its loop. *)
Definition idle_stack (fs : list frame) : Prop :=
  ∃ top bottom, fs = top ++ [bottom] ∧ Forall idle_frame top ∧
                (bottom = IdleLoop ∨ bottom = IdleHalt).

(** ** The unit of a lock *)

Definition token (l : ptr) (f : frame) : Z :=
  match f with
  | LockAcquired l' => if decide (l' = l) then 1 else 0
  | SemaDownLoop (LockSema l') _ => if decide (l' = l) then -1 else 0
  | _ => 0
  end.

Fixpoint tokens (l : ptr) (fs : list frame) : Z :=
  match fs with [] => 0 | f :: fs => token l f + tokens l fs end.

Definition total (l : ptr) (m : gmap ptr (list frame)) : Z :=
  map_fold (λ _ fs n, tokens l fs + n) 0 m.

Definition held (h : option ptr) : Z := match h with Some _ => 1 | None => 0 end.

Definition val (k : kernel) (s : sema_id) : option Z := value <$> semas k !! s.

Definition lock_ok (k : kernel) (l : ptr) : Prop :=
  match locks k !! l with
  | Some h => ∃ v, val k (LockSema l) = Some v ∧ 0 ≤ v ∧ v + held h + total l (pending k) = 1
  | None => val k (LockSema l) = None ∧ total l (pending k) = 0
  end.

(** ** The invariant *)

Record inv (k : kernel) : Prop := {
  i_alive : alive k;
  i_ext : in_external_intr k = false;
  i_idle : ∀ i, idle_thread k = Some i → idle_stack (stack_of k i);
  i_stacks : ∀ p, Forall frame_ok (stack_of k p) ∧ waits_ok (stack_of k p);
  i_embryo : ∀ p t, t ∈ embryos (stack_of k p) → stack_of k t = [];
  i_locks : ∀ l, lock_ok k l;
}.

(** ** Lemmas on stacks *)

Lemma tokens_app l fs1 fs2 : tokens l (fs1 ++ fs2) = tokens l fs1 + tokens l fs2.
Proof. induction fs1 as [|f fs1 IH]; simpl; lia. Qed.

Lemma tokens_set_level l fs : Forall set_level fs → tokens l fs = 0.
Proof. induction 1 as [|f fs Hf _ IH]; [done|]. destruct f; simpl in *; try done. Qed.

Lemma tokens_nonneg l fs : waits_ok fs → 0 ≤ tokens l fs.
Proof.
  assert (∀ n fs, (length fs ≤ n)%nat → waits_ok fs → 0 ≤ tokens l fs) as H; [|by eapply H].
  clear fs. induction n as [|n IH]; intros [|f fs] Hn Hw; simpl in Hn; try done; try lia.
  assert (waits_ok fs → 0 ≤ tokens l fs) as Hfs by (intros; apply IH; [lia|done]).
  destruct f as [| |[s|l'|t] o|l'| | | | | | | | | | | | | |]; try (by simpl in *; auto).
  - destruct Hw as [Hh Hw]. destruct fs as [|f fs]; [done|]. destruct f; try done. subst.
    assert (0 ≤ tokens l fs) by (apply IH; [simpl in Hn; lia|done]).
    cbn [tokens token]. destruct (decide _); lia.
  - specialize (Hfs Hw). cbn [tokens token]. destruct (decide _); lia.
Qed.

Lemma waits_ok_app fs1 fs2 : Forall set_level fs1 → waits_ok fs2 → waits_ok (fs1 ++ fs2).
Proof. induction 1 as [|f fs1 Hf _ IH]; intros; [done|]. destruct f; simpl in *; try done. auto. Qed.

Lemma frame_ok_set_level fs : Forall set_level fs → Forall frame_ok fs.
Proof. intros H. eapply Forall_impl; [exact H|]. by intros []. Qed.

Lemma idle_stack_app fs1 fs2 : Forall set_level fs1 → idle_stack fs2 → idle_stack (fs1 ++ fs2).
Proof.
  intros H1 (top & b & -> & H2 & Hb). exists (fs1 ++ top), b. split; [by rewrite app_assoc|].
  split; [|done]. apply Forall_app. split; [|done]. eapply Forall_impl; [done|]. by intros [].
Qed.

Lemma embryos_app fs1 fs2 : embryos (fs1 ++ fs2) = embryos fs1 ++ embryos fs2.
Proof. apply bind_app. Qed.

Lemma embryos_set_level fs : Forall set_level fs → embryos fs = [].
Proof. induction 1 as [|f fs Hf _ IH]; [done|]. destruct f; simpl in *; try done. Qed.

(** ** Lemmas on the total *)

Lemma total_insert l m p fs : m !! p = None → total l (<[p := fs]> m) = tokens l fs + total l m.
Proof. intros H. unfold total. rewrite map_fold_insert_L; [done| |done]. intros. lia. Qed.

Lemma total_delete l m p : total l m = tokens l (default [] (m !! p)) + total l (delete p m).
Proof.
  destruct (m !! p) as [fs|] eqn:E; simpl.
  - rewrite <- (total_insert l (delete p m) p fs) by apply lookup_delete_eq.
    by rewrite insert_delete_id.
  - by rewrite delete_id.
Qed.

(** The total depends only on the stacks. *)
Lemma total_ext l (m m' : gmap ptr (list frame)) :
  (∀ p, tokens l (default [] (m !! p)) = tokens l (default [] (m' !! p))) → total l m = total l m'.
Proof.
  revert m'. induction m as [|p fs m Hp IH] using map_ind.
  - intros m'. induction m' as [|p fs m' Hp IH] using map_ind; [done|]. intros H.
    rewrite total_insert by done. rewrite <- IH.
    + specialize (H p). rewrite lookup_empty, lookup_insert_eq in H. simpl in H. lia.
    + intros q. specialize (H q). destruct (decide (q = p)) as [->|].
      * by rewrite Hp, lookup_empty.
      * by rewrite lookup_insert_ne in H.
  - intros m' H. rewrite total_insert by done. rewrite (total_delete l m' p).
    rewrite <- (IH (delete p m')).
    + specialize (H p). rewrite lookup_insert_eq in H. simpl in H. lia.
    + intros q. specialize (H q). destruct (decide (q = p)) as [->|].
      * by rewrite Hp, lookup_delete_eq.
      * by rewrite lookup_insert_ne in H by done; rewrite lookup_delete_ne.
Qed.

Lemma total_change l k k' c :
  (∀ p, p ≠ c → tokens l (stack_of k' p) = tokens l (stack_of k p)) →
  total l (pending k') = total l (pending k) - tokens l (stack_of k c) + tokens l (stack_of k' c).
Proof.
  intros H. rewrite (total_delete l (pending k) c), (total_delete l (pending k') c).
  unfold stack_of in *. rewrite (total_ext l (delete c (pending k')) (delete c (pending k))); [lia|].
  intros p. destruct (decide (p = c)) as [->|].
  - by rewrite !lookup_delete_eq.
  - rewrite !lookup_delete_ne by done. by apply H.
Qed.

Lemma total_nonneg l k p :
  (∀ p, waits_ok (stack_of k p)) → tokens l (stack_of k p) ≤ total l (pending k).
Proof.
  intros Hw. rewrite (total_delete l (pending k) p). fold (stack_of k p).
  assert (∀ m : gmap ptr (list frame), map_Forall (λ _ fs, waits_ok fs) m → 0 ≤ total l m) as H.
  { intros m. induction m as [|q fs m Hq IH] using map_ind; [done|]. intros Hm.
    rewrite total_insert by done. apply map_Forall_insert in Hm as [H1 H2]; [|done].
    pose proof (tokens_nonneg l fs H1). specialize (IH H2). lia. }
  enough (0 ≤ total l (delete p (pending k))) by lia. apply H.
  intros q fs Hq. apply lookup_delete_Some in Hq as [_ Hq]. specialize (Hw q).
  unfold stack_of in Hw. by rewrite Hq in Hw.
Qed.

(** ** One step of the current thread *)

(** The unit of lock [l] moved by [d] onto the stack of the current thread. *)
Definition lock_change (k k' : kernel) (l : ptr) (d : Z) : Prop :=
  match locks k !! l, locks k' !! l with
  | Some h, Some h' =>
      ∃ v v', val k (LockSema l) = Some v ∧ val k' (LockSema l) = Some v' ∧
              (0 ≤ v → 0 ≤ v') ∧ v' + held h' + d = v + held h
  | None, None => val k' (LockSema l) = val k (LockSema l) ∧ d = 0
  | None, Some h' => h' = None ∧ val k' (LockSema l) = Some 1 ∧ d = 0
  | Some _, None => False
  end.

(** [outcome k fs k']: the thread that is current in [k] ran; its stack is now [fs], and
    nothing else has changed that the invariant speaks of, locks apart. *)
Record outcome (k : kernel) (fs : list frame) (k' : kernel) : Prop := {
  o_alive : alive k';
  o_ext : in_external_intr k' = in_external_intr k;
  o_idle : idle_thread k' = idle_thread k;
  o_stacks : ∀ p, p ≠ cur k → stack_of k' p = stack_of k p;
  o_stack : stack_of k' (cur k) = fs;
}.

Lemma inv_step k k' fs :
  inv k → outcome k fs k' →
  Forall frame_ok fs → waits_ok fs → (idle_thread k = Some (cur k) → idle_stack fs) →
  (∀ t, t ∈ embryos fs → t ≠ cur k ∧ stack_of k t = []) →
  (∀ l, lock_change k k' l (tokens l fs - tokens l (stack_of k (cur k)))) →
  inv k'.
Proof.
  intros [Ha He Hid Hst Hem Hlk] [Ha' He' Hi Hp Hc] Hfok Hw Hids Hemb Hl. split; try done; [by rewrite He'|..].
  - intros i. rewrite Hi. intros E. destruct (decide (i = cur k)) as [->|].
    + rewrite Hc. by apply Hids.
    + rewrite Hp by done. by apply Hid.
  - intros p. destruct (decide (p = cur k)) as [->|]; [by rewrite Hc|]. by rewrite Hp.
  - intros p t Ht. enough (t ≠ cur k ∧ stack_of k t = []) as [Hne Hn] by (by rewrite Hp).
    destruct (decide (p = cur k)) as [->|]; [apply Hemb; by rewrite <- Hc|].
    rewrite Hp in Ht by done. split; [|by eapply Hem].
    intros ->. destruct (alive_cur k Ha) as (th & Hth & Hs).
    destruct (c_status k (a_core k Ha) (AtEmbryo p) (cur k) Ht) as (x & Hx & Hxs).
    simpl in Hxs. congruence.
  - intros l. specialize (Hlk l). specialize (Hl l).
    assert (total l (pending k') =
            total l (pending k) - tokens l (stack_of k (cur k)) + tokens l fs) as Htot.
    { rewrite <- Hc. apply total_change. intros p Hpn. by rewrite Hp. }
    unfold lock_ok, lock_change in *.
    destruct (locks k !! l) as [h|], (locks k' !! l) as [h'|].
    + destruct Hl as (v & v' & Hv & Hv' & Hpos & E). destruct Hlk as (x & Hx & Hx0 & Hx1).
      assert (x = v) as -> by congruence. exists v'. split; [done|]. split; [by apply Hpos|]. lia.
    + done.
    + destruct Hl as (-> & Hs & E). destruct Hlk as [_ E']. exists 1.
      split; [done|]. split; [lia|]. simpl. lia.
    + destruct Hl as [Hs E]. destruct Hlk as [Hs' E']. rewrite Hs. split; [done|]. lia.
Qed.

(** Steps that do not concern locks. *)
Lemma lock_same k k' l :
  inv k → locks k' = locks k → val k' (LockSema l) = val k (LockSema l) → lock_change k k' l 0.
Proof.
  intros Hinv Hl Hs. pose proof (i_locks k Hinv l) as H. unfold lock_change, lock_ok in *.
  rewrite Hl. destruct (locks k !! l) as [h|]; [|done]. destruct H as (v & Hv & _).
  exists v, v. rewrite Hs. repeat split; try done. lia.
Qed.

Lemma embryo_cur k t : inv k → t ∈ embryos (stack_of k (cur k)) → t ≠ cur k ∧ stack_of k t = [].
Proof.
  intros Hinv Ht. split; [|by eapply i_embryo]. intros ->.
  destruct (alive_cur k (i_alive k Hinv)) as (th & Hth & Hs).
  destruct (c_status k (a_core k (i_alive k Hinv)) (AtEmbryo (cur k)) (cur k) Ht) as (x & Hx & Hxs).
  simpl in Hxs. congruence.
Qed.

(** The popped state: the top frame is being run. *)
Definition popped (fs : list frame) (k : kernel) : kernel :=
  set_pending (<[cur k := fs]> (pending k)) k.

Lemma stack_popped fs k p : stack_of (popped fs k) p = if decide (p = cur k) then fs else stack_of k p.
Proof.
  unfold stack_of, popped. simpl. case_decide as E; [subst; by rewrite lookup_insert_eq|].
  by rewrite lookup_insert_ne.
Qed.

Lemma stack_pushed f k p :
  stack_of (pushed f k) p = if decide (p = cur k) then f :: stack_of k (cur k) else stack_of k p.
Proof.
  unfold pushed, stack_of. simpl. case_decide as E; [subst; by rewrite lookup_insert_eq|].
  by rewrite lookup_insert_ne.
Qed.

Lemma queue_embryo k q : queue k (AtEmbryo q) = embryos (stack_of k q).
Proof. done. Qed.

(** Popping a frame only takes threads out of the creator's care. *)
Lemma alive_popped f fs k : alive k → stack_of k (cur k) = f :: fs → alive (popped fs k).
Proof.
  intros [[H1 H2 H3 H4 H5 H6 H7 H8] Hr Hi] Hst.
  assert (Hq : ∀ l x, x ∈ queue (popped fs k) l → x ∈ queue k l).
  { intros l x. destruct l as [| | |q]; try done.
    rewrite !queue_embryo, stack_popped. case_decide as E; [|done]. subst.
    rewrite Hst. unfold embryos. simpl. rewrite elem_of_app. auto. }
  split; [|done|done]. split; try done.
  - intros l. specialize (H1 l). destruct l as [| | |q]; try done.
    rewrite queue_embryo in *. rewrite stack_popped.
    case_decide as E; [|done]. subst. rewrite Hst in H1. by apply NoDup_app in H1 as (_ & _ & ?).
  - intros l1 l2 t Ht1 Ht2. eapply H2; by apply Hq.
  - intros l t Ht. by apply (H3 l), Hq.
  - intros i Hid. destruct (H4 i Hid) as [Hn He]. split; [|done]. intros l Hx. by apply Hq, Hn in Hx.
  - intros p Hp. simpl. destruct (decide (p = cur k)) as [->|].
    + destruct Hr as [(th & Ht & _) _]. simpl in Hp. congruence.
    + rewrite lookup_insert_ne by done. by apply H8.
Qed.

Lemma popped_none k : stack_of k (cur k) = [] → alive k → alive (popped [] k).
Proof.
  intros Hst Ha. destruct (alive_cur k Ha) as (th & Ht & _). apply (alive_ext k); try done.
  - intros [| | |q]; try done. rewrite !queue_embryo, stack_popped. case_decide as E; [|done]. subst. by rewrite Hst.
  - intros p Hp. simpl. rewrite lookup_insert_ne by congruence. by apply (c_pending k (a_core k Ha)).
Qed.

Lemma outcome_tail k km k' fs :
  outcome k fs km → cur km = cur k → tail km k' → alive k' →
  ∃ top, Forall set_level top ∧ outcome k (top ++ fs) k'.
Proof.
  intros [H1 H2 H3 H4 H5] Hc [T1 T2 T3 T4 T5 T6 T7 T8 T9 T10 T11 T12 (top & Htop & T13)] Ha.
  exists top. split; [done|]. split; try congruence.
  - intros p Hp. rewrite T12 by congruence. by apply H4.
Qed.

(** The stack of a thread that was switched out and is not dying. *)
Lemma kept_stack km k' p :
  kept km k' → core k' → cur km ∈ all_list km → stack_of k' p = stack_of km p.
Proof.
  intros Hk Hc Hin. unfold stack_of. destruct (decide (p = cur km)) as [->|].
  - rewrite (k_pend_cur _ _ Hk); [done|]. rewrite <- (k_all _ _ Hk) in Hin.
    apply (c_all k' Hc) in Hin as (th & -> & _). eauto.
  - by rewrite (k_pend _ _ Hk).
Qed.

Lemma outcome_popped k fs0 fs k' : outcome (popped fs0 k) fs k' → outcome k fs k'.
Proof.
  intros [H1 H2 H3 H4 H5]. split; try done. intros p Hp. rewrite H4 by done.
  rewrite stack_popped. by rewrite decide_False.
Qed.

Lemma outcome_pushed k f fs k' : outcome (pushed f k) fs k' → outcome k fs k'.
Proof.
  intros [H1 H2 H3 H4 H5]. split; try done. intros p Hp. rewrite H4 by done.
  rewrite stack_pushed. by rewrite decide_False.
Qed.

(** Only the values of semaphores matter to the locks. *)
Definition same_vals (k k' : kernel) : Prop := ∀ s, val k' s = val k s.
Definition add_val (s0 : sema_id) (d : Z) (k k' : kernel) : Prop :=
  ∀ s, val k' s = (if decide (s = s0) then Z.add d else id) <$> val k s.

Definition quiet (k k' : kernel) : Prop := locks k' = locks k ∧ same_vals k k'.

Lemma quiet_trans k1 k2 k3 : quiet k1 k2 → quiet k2 k3 → quiet k1 k3.
Proof. intros [? H] [? H']. split; [congruence|]. intros s. by rewrite H', H. Qed.

Lemma tail_quiet k k' : tail k k' → quiet k k'.
Proof. intros []. split; [done|]. intros s. unfold val. congruence. Qed.

Lemma kept_quiet k k' : kept k k' → quiet k k'.
Proof. intros []. split; [done|]. intros s. unfold val. congruence. Qed.

Lemma yield_outcome k k' :
  alive k → in_external_intr k = false → thread_yield k = Ok (tt, k') →
  (∃ top, Forall set_level top ∧ outcome k (top ++ stack_of k (cur k)) k') ∧ quiet k k'.
Proof.
  intros Ha He Hy. destruct (alive_cur k Ha) as (th & Ht & _).
  destruct (thread_yield_ok k th Ha He Ht) as (k1 & Hy1 & Ha1 & Hk1 & _).
  assert (k1 = k') as -> by congruence.
  assert (tail k k') as Htl by (by apply (yield_tail k th); [| |apply Ha1|]).
  split; [|by apply tail_quiet]. apply (outcome_tail k k); try done.
Qed.

Lemma set_level_outcome b k k' :
  alive k → in_external_intr k = false → intr_set_level b k = Ok (tt, k') →
  (∃ top, Forall set_level top ∧ outcome k (top ++ stack_of k (cur k)) k') ∧ quiet k k'.
Proof.
  intros Ha He Hy. destruct (intr_set_level_ok b k Ha) as (k1 & Hy1 & Ha1 & Hk1 & _); [done|].
  assert (k1 = k') as -> by congruence. split; [|by apply tail_quiet].
  apply (outcome_tail k k); try done.
Qed.

Lemma stack_unblocked t th k p : stack_of (unblocked t th k) p = stack_of k p.
Proof. unfold unblocked. cbn zeta. by destruct (_ <? _). Qed.

Lemma unblocked_same t th k :
  cur (unblocked t th k) = cur k ∧ in_external_intr (unblocked t th k) = in_external_intr k ∧
  idle_thread (unblocked t th k) = idle_thread k ∧ locks (unblocked t th k) = locks k.
Proof. unfold unblocked. cbn zeta. by destruct (_ <? _). Qed.

Lemma upped_same s v k km :
  upped s v k km → semas k !! s = Some v →
  cur km = cur k ∧ in_external_intr km = in_external_intr k ∧ idle_thread km = idle_thread k ∧
  locks km = locks k ∧ (∀ p, stack_of km p = stack_of k p) ∧
  ∀ s', val km s' = if decide (s' = s) then Some (u32 (value v + 1)) else val k s'.
Proof.
  intros [[Hw ->]|(t & th & _ & _ & ->)] Hs; cbn zeta.
  - repeat (split; [done|]). intros s'. unfold val. simpl. case_decide as E.
    + subst. by rewrite lookup_insert_eq.
    + by rewrite lookup_insert_ne.
  - set (kd := set_semas (<[s := Sema (value v) (remove t (waiters v))]> (semas k))
                 (set_intr_on false k)). destruct (unblocked_same t th kd) as (U1 & U2 & U3 & U4).
    cbn [cur in_external_intr idle_thread locks]. split; [exact U1|]. split; [exact U2|].
    split; [exact U3|]. split; [exact U4|]. split; [intros p; exact (stack_unblocked t th kd p)|].
    intros s'. unfold val. simpl. case_decide as E.
    + subst. by rewrite lookup_insert_eq.
    + by rewrite !lookup_insert_ne.
Qed.

Lemma sema_up_outcome s v k k' :
  alive k → in_external_intr k = false → semas k !! s = Some v → sema_up s k = Ok (tt, k') →
  (∃ top, Forall set_level top ∧ outcome k (top ++ stack_of k (cur k)) k') ∧
  locks k' = locks k ∧
  ∀ s', val k' s' = if decide (s' = s) then Some (u32 (value v + 1)) else val k s'.
Proof.
  intros Ha He Hs Hr. destruct (sema_up_ok s v k Ha Hs) as (km & k1 & Hr1 & Hu & Ham & Ha1 & Htl); [done|].
  assert (k1 = k') as -> by congruence.
  destruct (upped_same s v k km Hu Hs) as (E1 & E2 & E3 & E4 & E5 & E6).
  destruct (tail_quiet _ _ Htl) as [Q1 Q2]. split; [|split].
  - by apply (outcome_tail k km).
  - congruence.
  - intros s'. by rewrite Q2.
Qed.

Lemma sema_down_loop_outcome s v old_level k k' :
  alive k → in_external_intr k = false → idle_thread k ≠ Some (cur k) →
  semas k !! s = Some v → sema_down_loop s old_level k = Ok (tt, k') →
  locks k' = locks k ∧
  if value v =? 0 then
    outcome k (SemaDownLoop s old_level :: stack_of k (cur k)) k' ∧ same_vals k k'
  else
    (∃ top, Forall set_level top ∧ outcome k (top ++ stack_of k (cur k)) k') ∧
    add_val s (-1) k k'.
Proof.
  intros Ha He Hid Hs Hr. destruct (alive_cur k Ha) as (th & Ht & Hst).
  pose proof (sema_down_loop_intr s v old_level k k' Ha Hs Hr) as Hi.
  destruct (sema_down_loop_ok s v old_level th k) as (k1 & Hr1 & Ha1 & Hk); [done..|].
  assert (k1 = k') as -> by congruence. destruct (Z.eqb_spec (value v) 0) as [E|E].
  - destruct (kept_quiet _ _ Hk) as [Q1 Q2]. split; [exact Q1|]. split.
    + split; [done|apply (k_ext _ _ Hk)|apply (k_idle _ _ Hk)| |].
      all: assert (∀ p, stack_of k' p = stack_of (sema_blocked s v old_level th k) p) as Hstk
        by (intros p; apply kept_stack; [done|apply Ha1|]; apply (c_all k (a_core k Ha));
            exists th; rewrite Hst; done).
      * intros p Hp. rewrite Hstk. unfold sema_blocked. rewrite stack_pushed. simpl.
        by rewrite decide_False.
      * rewrite Hstk. unfold sema_blocked. rewrite stack_pushed. simpl. by rewrite decide_True.
    + intros s'. rewrite Q2. unfold val, sema_blocked. simpl.
      destruct (decide (s' = s)) as [->|]; [by rewrite lookup_insert_eq, Hs|].
      by rewrite lookup_insert_ne.
  - destruct (tail_quiet _ _ Hk) as [Q1 Q2]. split; [exact Q1|]. split.
    + apply (outcome_tail k (set_semas (<[s := Sema (value v - 1) (waiters v)]> (semas k)) k)); try done.
      split; try done. by eapply alive_sema_value.
    + intros s'. rewrite Q2. unfold val. simpl. destruct (decide (s' = s)) as [->|].
      * rewrite lookup_insert_eq, Hs. simpl. f_equal. lia.
      * rewrite lookup_insert_ne by done. by destruct (semas k !! s').
Qed.

Lemma sema_down_outcome s k k' :
  alive k → in_external_intr k = false → idle_thread k ≠ Some (cur k) →
  sema_down s k = Ok (tt, k') →
  ∃ v, val k s = Some v ∧ locks k' = locks k ∧
  if v =? 0 then
    outcome k (SemaDownLoop s (intr_on k) :: stack_of k (cur k)) k' ∧ same_vals k k'
  else
    (∃ top, Forall set_level top ∧ outcome k (top ++ stack_of k (cur k)) k') ∧
    add_val s (-1) k k'.
Proof.
  intros Ha He Hid Hr. unfold sema_down, intr_context in Hr. reads Hr.
  bind_in Hr o k1 E1. injection E1 as <- <-.
  assert (∃ v, semas k !! s = Some v) as [v Hs].
  { unfold sema_down_loop, get_sema in Hr. simpl in Hr. unfold mbind, st_bind in Hr. simpl in Hr.
    destruct (semas k !! s); [eauto|done]. }
  exists (value v). unfold val at 1. rewrite Hs. split; [done|].
  destruct (sema_down_loop_outcome s v (intr_on k) (set_intr_on false k) k') as [Hl H];
    eauto with sched. split; [exact Hl|]. destruct (_ =? 0).
  - destruct H as [[H1 H2 H3 H4 H5] H6]. done.
  - destruct H as [(top & Htop & [H1 H2 H3 H4 H5]) H6]. split; [|done]. exists top. done.
Qed.

(** ** Locks *)

Lemma reads_priority k p k' :
  alive k → thread_get_priority k = Ok (p, k') → k' = k ∧ PRI_MIN ≤ p ≤ PRI_MAX.
Proof.
  intros Ha H. unfold thread_get_priority in H. reads H. injection H as <- <-. split; [done|].
  eapply ok_priority, c_thread; [apply Ha|done].
Qed.

Lemma lock_donate_touched l k u k' : alive k → lock_donate l k = Ok (u, k') → touched k k'.
Proof.
  intros Ha H. unfold lock_donate in H. bind_in H h k1 E1. apply get_holder_Ok in E1 as [-> _].
  destruct h as [h|]; [|injection H as _ <-; eauto with sched].
  bind_in H th k1 E1. apply get_thread_Ok in E1 as [-> _].
  bind_in H p k1 E1. apply reads_priority in E1 as [-> _]; [|done].
  destruct (_ <? p); [|injection H as _ <-; eauto with sched].
  bind_in H n k1 E1. apply gets_Ok in E1 as [_ ->]. bind_in H u1 k1 E1.
  unfold thread_donate_priority in E1. bind_in E1 t k2 E2. apply thread_current_Ok in E2 as [-> ->].
  bind_in E1 u2 k2 E2. apply update_thread_touched in E2; [|apply Ha|by intros th' _ []].
  bind_in E1 p' k3 E3. apply reads_priority in E3 as [-> Hp]; [|eauto with sched].
  bind_in E1 u3 k3 E3. apply update_thread_touched in E3; [|eauto with sched|].
  2: { intros th' _ Hok. split; [done|]. by apply priority_ok. }
  bind_in E1 th' k4 E4. apply get_thread_Ok in E4 as [-> _].
  assert (touched k k3) as T3 by (by eapply touched_trans).
  apply donate_loop_touched in E1; [|eauto with sched].
  assert (touched k k1) as T1 by (by eapply touched_trans).
  bind_in H t k5 E5. apply thread_current_Ok in E5 as [-> ->].
  apply update_thread_touched in H; [by eapply touched_trans|eauto with sched|by intros th'' _ []].
Qed.

Lemma release_loop_touched l h es k u k' :
  core k → release_loop l h es k = Ok (u, k') → touched k k'.
Proof.
  revert k. induction es as [|e es IH]; intros k Hc H; simpl in H.
  { injection H as _ <-. eauto with sched. }
  bind_in H te k1 E1. apply get_thread_Ok in E1 as [-> E1].
  bind_in H hh k1 E2. apply get_thread_Ok in E2 as [-> E2]. bind_in H u1 k1 E3.
  assert (touched k k1) as T.
  { destruct (bool_decide _); [|destruct (_ <? _)]; injection E3 as _ <-.
    - eapply touched_put; [done..|]. by destruct (c_thread k Hc _ _ E2).
    - eapply touched_put; [done..|]. apply priority_ok; eauto with sched.
      eapply ok_priority, c_thread; eauto.
    - eauto with sched. }
  eapply touched_trans; [done|]. eapply IH; [|done]. eauto with sched.
Qed.

(** What a touched state shares with the original. *)
Lemma touched_same k k' :
  touched k k' → cur k' = cur k ∧ pending k' = pending k ∧ locks k' = locks k ∧
  semas k' = semas k ∧ idle_thread k' = idle_thread k ∧
  in_external_intr k' = in_external_intr k ∧ intr_on k' = intr_on k.
Proof. by intros (ths & -> & _). Qed.

(** Put an outcome reached from a state that agrees with [k] on the stacks. *)
Lemma outcome_from k k1 fs k' :
  outcome k1 fs k' → cur k1 = cur k → in_external_intr k1 = in_external_intr k →
  idle_thread k1 = idle_thread k → (∀ p, p ≠ cur k → stack_of k1 p = stack_of k p) →
  outcome k fs k'.
Proof.
  intros [H1 H2 H3 H4 H5] Hc He Hi Hs. split; try congruence.
  intros p Hp. rewrite H4 by congruence. by apply Hs.
Qed.

Lemma lock_acquire_outcome l k k' :
  alive k → in_external_intr k = false → idle_thread k ≠ Some (cur k) →
  lock_acquire l k = Ok (tt, k') →
  is_Some (locks k !! l) ∧ locks k !! l ≠ Some (Some (cur k)) ∧ locks k' = locks k ∧
  ∃ v, val k (LockSema l) = Some v ∧
  if v =? 0 then
    outcome k (SemaDownLoop (LockSema l) (intr_on k) :: LockAcquired l :: stack_of k (cur k)) k' ∧
    same_vals k k'
  else
    (∃ top, Forall set_level top ∧ outcome k (top ++ LockAcquired l :: stack_of k (cur k)) k') ∧
    add_val (LockSema l) (-1) k k'.
Proof.
  intros Ha He Hid H. unfold lock_acquire, intr_context in H. reads H. clear E.
  bind_in H b k1 E1. unfold lock_held_by_current_thread in E1. bind_in E1 h k2 E3.
  apply get_holder_Ok in E3 as [-> E3]. reads E1. injection E1 as <- <-.
  bind_in H u0 k1 E1. apply assert_Ok in E1 as [E1 ->].
  apply negb_true_iff, bool_decide_eq_false in E1.
  bind_in H u k1 E2. apply lock_donate_touched in E2; [|done].
  destruct (touched_same _ _ E2) as (S1 & S2 & S3 & S4 & S5 & S6 & S7).
  bind_in H u1 k2 E4. injection E4 as _ <-. fold (pushed (LockAcquired l) k1) in H.
  rewrite E3. split; [eauto|]. split; [congruence|].
  destruct (sema_down_outcome (LockSema l) (pushed (LockAcquired l) k1) k') as (v & Hv & Hl & Ho);
    [eauto with sched|simpl; congruence|simpl; congruence|done|].
  assert (∀ s, val (pushed (LockAcquired l) k1) s = val k s) as Hval by (intros s; unfold val; simpl; by rewrite S4).
  split; [rewrite Hl; simpl; congruence|]. exists v. rewrite <- Hval. split; [done|].
  assert (stack_of (pushed (LockAcquired l) k1) (cur k) = LockAcquired l :: stack_of k (cur k)) as Hstk.
  { rewrite stack_pushed, S1, decide_True by done. unfold stack_of. by rewrite S2. }
  assert (∀ fs, outcome (pushed (LockAcquired l) k1) fs k' → outcome k fs k') as Hfrom.
  { intros fs Hf. eapply outcome_from; [done|simpl; congruence..|].
    intros p Hp. rewrite stack_pushed, decide_False by congruence. unfold stack_of. by rewrite S2. }
  simpl in Ho. rewrite S1, S7, Hstk in Ho. destruct (v =? 0).
  - destruct Ho as [Ho Hs]. split; [by apply Hfrom|]. intros s. by rewrite Hs.
  - destruct Ho as [(top & Htop & Ho) Hs]. split; [eauto|]. intros s. by rewrite Hs, Hval.
Qed.

Lemma lock_release_outcome l k k' :
  alive k → in_external_intr k = false → lock_release l k = Ok (tt, k') →
  locks k !! l = Some (Some (cur k)) ∧
  ((∃ top, Forall set_level top ∧ outcome k (top ++ stack_of k (cur k)) k') ∧
   locks k' = <[l := None]> (locks k) ∧
   ∃ v, val k (LockSema l) = Some v ∧
     ∀ s, val k' s = if decide (s = LockSema l) then Some (u32 (v + 1)) else val k s).
Proof.
  intros Ha He H. unfold lock_release in H. bind_in H b k1 E1.
  unfold lock_held_by_current_thread in E1. reads E1. injection E1 as <- <-.
  bind_in H u k1 E2. apply assert_Ok in E2 as [E2 ->]. apply bool_decide_eq_true in E2 as ->.
  split; [done|]. bind_in H t k1 E2. apply thread_current_Ok in E2 as [-> ->].
  bind_in H u1 k1 E2. apply update_thread_touched in E2; [|apply Ha|].
  2: { intros th _ Hok. split; [done|]. apply priority_ok; [done|]. apply Hok. }
  bind_in H th k2 E3. apply get_thread_Ok in E3 as [-> _].
  bind_in H u2 k2 E3. apply release_loop_touched in E3; [|eauto with sched].
  assert (touched k k2) as T by (by eapply touched_trans).
  destruct (touched_same _ _ T) as (S1 & S2 & S3 & S4 & S5 & S6 & S7).
  bind_in H u3 k3 E4. injection E4 as _ <-.
  assert (alive (set_locks (<[l := None]> (locks k2)) k2)) as Ha2.
  { apply (alive_ext k2); try done; [|eauto with sched]. apply (c_pending k2). eauto with sched. }
  assert (∃ v, semas k !! LockSema l = Some v) as [v Hv].
  { unfold sema_up, get_sema, intr_disable, intr_get_level, gets, modify, mbind, st_bind in H.
    simpl in H. rewrite S4 in H. destruct (semas k !! LockSema l); [eauto|done]. }
  destruct (sema_up_outcome (LockSema l) v (set_locks (<[l := None]> (locks k2)) k2) k')
    as ((top & Htop & Ho) & Hl & Hval); [done|simpl; congruence|simpl; congruence|done|].
  split; [|split].
  - exists top. split; [done|]. simpl in Ho. replace (stack_of (set_locks _ k2) (cur k2))
      with (stack_of k (cur k)) in Ho by (unfold stack_of; simpl; by rewrite S1, S2).
    eapply outcome_from; [done|simpl; congruence..|]. intros p _. unfold stack_of. simpl. by rewrite S2.
  - rewrite Hl. simpl. by rewrite S3.
  - exists (value v). unfold val at 1. rewrite Hv. split; [done|]. intros s. rewrite Hval.
    case_decide; [done|]. unfold val. simpl. by rewrite S4.
Qed.
