(* ===== verification/SchedOps.v ===== *)
(** * Every step keeps the kernel invariant

    Each unfinished call and each primitive is taken through [inv_run], and the theorem
    is that the invariant of [SchedInv] holds in every state the kernel reaches from one
    in which it holds.  Mutual exclusion is read off the invariant. *)

From S2P Require Import Prelude Arith64 FixedPoint Thread Synch Sched SchedInv.

(** ** Running from a stack *)

Lemma waits_ok_tail f fs : waits_ok (f :: fs) → waits_ok fs.
Proof. destruct f as [| |[]| | | | | | | | | | | | | | |]; simpl; tauto. Qed.

Lemma waits_ok_suffix pre rest : waits_ok (pre ++ rest) → waits_ok rest.
Proof. induction pre as [|f pre IH]; [done|]. intros H. apply IH. by eapply waits_ok_tail. Qed.

(** The thread had [pre] on top of [rest] and ends with [new] on top of [rest]. *)
Lemma inv_run k pre rest new k' :
  inv k → stack_of k (cur k) = pre ++ rest → outcome k (new ++ rest) k' →
  Forall frame_ok new → waits_ok (new ++ rest) →
  (idle_thread k = Some (cur k) → idle_stack (new ++ rest)) →
  (∀ t, t ∈ embryos new → t ∈ embryos pre) →
  (∀ l, lock_change k k' l (tokens l new - tokens l pre)) →
  inv k'.
Proof.
  intros Hinv Hst Ho Hf Hw Hid Hem Hl.
  destruct (i_stacks k Hinv (cur k)) as [Hfo _]. rewrite Hst in Hfo.
  apply Forall_app in Hfo as [_ Hfr].
  eapply inv_step; [done|done| |done|done| |].
  - by apply Forall_app.
  - intros t. rewrite embryos_app, elem_of_app. intros Ht. apply embryo_cur; [done|].
    rewrite Hst, embryos_app, elem_of_app. destruct Ht; auto.
  - intros l. rewrite Hst, !tokens_app.
    replace (tokens l new + tokens l rest - (tokens l pre + tokens l rest))
      with (tokens l new - tokens l pre) by lia. apply Hl.
Qed.

(** The frames of the idle thread. *)
Definition idle_any (f : frame) : Prop := idle_frame f ∨ f = IdleLoop ∨ f = IdleHalt.

Lemma idle_stack_cons f fs : idle_stack (f :: fs) → idle_any f ∧ (f ≠ IdleLoop → f ≠ IdleHalt → idle_stack fs).
Proof.
  intros (top & b & E & Ht & Hb). destruct top as [|g top]; simpl in E; injection E as -> ->.
  - split; [right; done|]. intros ??. destruct Hb; done.
  - apply Forall_cons in Ht as [Hg Ht]. split; [by left|]. intros _ _. by exists top, b.
Qed.

Lemma idle_stack_bottom f fs : idle_stack (f :: fs) → f = IdleLoop ∨ f = IdleHalt → fs = [].
Proof.
  intros (top & b & E & Ht & Hb) Hf. destruct top as [|g top]; simpl in E; injection E as -> ->; [done|].
  apply Forall_cons in Ht as [Hg _]. destruct Hf as [-> | ->]; done.
Qed.

Lemma not_idle k f fs :
  inv k → stack_of k (cur k) = f :: fs → ¬ idle_any f → idle_thread k ≠ Some (cur k).
Proof.
  intros Hinv Hst Hf Hi. apply Hf. apply (i_idle k Hinv) in Hi. rewrite Hst in Hi.
  by apply idle_stack_cons in Hi as [? _].
Qed.

Lemma not_idle_nil k : inv k → stack_of k (cur k) = [] → idle_thread k ≠ Some (cur k).
Proof.
  intros Hinv Hst Hi. apply (i_idle k Hinv) in Hi. rewrite Hst in Hi.
  destruct Hi as (top & b & E & _). by destruct top.
Qed.

Ltac not_idle := eapply not_idle; [eassumption|eassumption|]; intros [[]|[|]]; done.

(** Most steps leave the locks alone and push nothing of interest. *)
Definition plain (fs : list frame) : Prop :=
  Forall frame_ok fs ∧ (∀ l, tokens l fs = 0) ∧ embryos fs = [].

Lemma plain_set_level fs : Forall set_level fs → plain fs.
Proof.
  intros H. split; [by apply frame_ok_set_level|]. split; [|by apply embryos_set_level].
  intros l. by apply tokens_set_level.
Qed.

Definition lock_quiet (k k' : kernel) : Prop :=
  locks k' = locks k ∧ ∀ l, val k' (LockSema l) = val k (LockSema l).

Lemma quiet_lock k k' : quiet k k' → lock_quiet k k'.
Proof. intros [? H]. split; [done|]. intros l. apply H. Qed.

Lemma inv_quiet k pre rest new k' :
  inv k → stack_of k (cur k) = pre ++ rest → outcome k (new ++ rest) k' →
  plain new → (∀ l, tokens l pre = 0) → waits_ok (new ++ rest) →
  (idle_thread k = Some (cur k) → idle_stack (new ++ rest)) → lock_quiet k k' → inv k'.
Proof.
  intros Hinv Hst Ho (Hf & Ht & He) Hp Hw Hid [Hl Hv].
  eapply (inv_run k pre rest new); try done.
  - intros t. by rewrite He, elem_of_nil.
  - intros l. rewrite Ht, Hp. by apply lock_same.
Qed.

(** The rest of a well-formed stack. *)
Lemma rest_ok k pre rest : inv k → stack_of k (cur k) = pre ++ rest → waits_ok rest.
Proof.
  intros Hinv Hst. apply (waits_ok_suffix pre). rewrite <- Hst. by apply (i_stacks k Hinv).
Qed.

(** A primitive whose last call may switch, with interrupts restored. *)
Lemma inv_tail k pre rest k' :
  inv k → stack_of k (cur k) = pre ++ rest → (∀ l, tokens l pre = 0) →
  (∃ top, Forall set_level top ∧ outcome k (top ++ rest) k') → lock_quiet k k' →
  (idle_thread k = Some (cur k) → idle_stack rest) → inv k'.
Proof.
  intros Hinv Hst Hp (top & Htop & Ho) Hq Hid.
  eapply (inv_quiet k pre rest top); try done.
  - by apply plain_set_level.
  - apply waits_ok_app; [done|]. by eapply rest_ok.
  - intros Hi. apply idle_stack_app; auto.
Qed.

(** ** The calls that wait on locks *)

(** What [lock_acquire] leaves is well formed, whichever way it went. *)
Lemma inv_lock_acquire k k0 pre rest new l k' :
  inv k → stack_of k (cur k) = pre ++ rest →
  cur k0 = cur k → in_external_intr k0 = in_external_intr k → idle_thread k0 = idle_thread k →
  locks k0 = locks k → same_vals k k0 → (∀ p, p ≠ cur k → stack_of k0 p = stack_of k p) →
  stack_of k0 (cur k) = new ++ rest → alive k0 → idle_thread k ≠ Some (cur k) →
  Forall frame_ok new → (∀ l, tokens l new = 0) → (∀ l, tokens l pre = 0) →
  waits_ok (new ++ rest) → (∀ t, t ∈ embryos new → t ∈ embryos pre) →
  lock_acquire l k0 = Ok (tt, k') → inv k'.
Proof.
  intros Hinv Hst Hc He Hi Hlk Hv0 Hs0 Hst0 Ha0 Hid Hf Htn Htp Hw Hem Hr.
  destruct (lock_acquire_outcome l k0 k') as (Hex & Hnh & Hl & v & Hv & Ho); try done.
  { rewrite He. apply Hinv. } { congruence. }
  rewrite Hc, Hst0 in Ho. rewrite Hlk in *. rewrite (Hv0 (LockSema l)) in Hv.
  pose proof (i_locks k Hinv l) as Hlo. unfold lock_ok in Hlo.
  destruct (locks k !! l) as [h|] eqn:El; [|by destruct Hex].
  destruct Hlo as (v1 & Hv1 & Hpos & _). assert (v1 = v) as -> by congruence.
  destruct (v =? 0) eqn:Ez; bools.
  - destruct Ho as [Ho Hsv]. eapply (inv_run k pre rest (SemaDownLoop (LockSema l) (intr_on k0) ::
      LockAcquired l :: new)); try done.
    + by eapply outcome_from.
    + repeat constructor. done.
    + intros l'. cbn [tokens token]. rewrite Htn, Htp.
      replace (_ - 0) with 0 by (destruct (decide _); lia).
      apply lock_same; [done|congruence|]. by rewrite Hsv, Hv0.
  - destruct Ho as [(top & Htop & Ho) Hav].
    eapply (inv_run k pre rest (top ++ LockAcquired l :: new)); try done.
    + rewrite <- app_assoc. by eapply outcome_from.
    + apply Forall_app. split; [by apply frame_ok_set_level|]. by constructor.
    + rewrite <- app_assoc. by apply waits_ok_app.
    + intros t. rewrite embryos_app, (embryos_set_level top) by done. apply Hem.
    + intros l'. rewrite tokens_app, (tokens_set_level l' top) by done.
      cbn [tokens token]. rewrite Htn, Htp. unfold lock_change. rewrite Hl.
      pose proof (Hav (LockSema l')) as Hav'. rewrite (Hv0 (LockSema l')) in Hav'.
      destruct (decide (l = l')) as [<-|Hne].
      * rewrite El. rewrite decide_True in Hav' by done. rewrite Hv in Hav'. simpl in Hav'.
        exists v, (-1 + v). split; [done|]. split; [done|]. split; lia.
      * rewrite decide_False in Hav' by congruence.
        replace (0 + (0 + 0) - 0) with 0 by lia.
        pose proof (lock_same k k' l' Hinv) as Hsame. unfold lock_change in Hsame. rewrite Hl in Hsame.
        apply Hsame; [done|]. rewrite Hav'. by destruct (val k (LockSema l')).
Qed.

(** A held lock's semaphore is at zero and its unit is not on the way to anyone. *)
Lemma held_lock k l h v :
  inv k → locks k !! l = Some (Some h) → val k (LockSema l) = Some v →
  v = 0 ∧ ∀ p, tokens l (stack_of k p) = 0.
Proof.
  intros Hinv Hl Hv. pose proof (i_locks k Hinv l) as Hlo. unfold lock_ok in Hlo. rewrite Hl in Hlo.
  destruct Hlo as (v1 & Hv1 & Hpos & Hs). assert (v1 = v) as -> by congruence. simpl in Hs.
  assert (Hw : ∀ p, waits_ok (stack_of k p)) by (intros p; apply (i_stacks k Hinv p)).
  pose proof (total_nonneg l k (cur k) Hw). pose proof (tokens_nonneg l _ (Hw (cur k))).
  split; [lia|]. intros p. pose proof (total_nonneg l k p Hw).
  pose proof (tokens_nonneg l _ (Hw p)). lia.
Qed.

Lemma inv_lock_release k k0 pre rest new l k' :
  inv k → stack_of k (cur k) = pre ++ rest →
  cur k0 = cur k → in_external_intr k0 = in_external_intr k → idle_thread k0 = idle_thread k →
  locks k0 = locks k → (∀ l, val k0 (LockSema l) = val k (LockSema l)) →
  (∀ p, p ≠ cur k → stack_of k0 p = stack_of k p) →
  stack_of k0 (cur k) = new ++ rest → alive k0 → idle_thread k ≠ Some (cur k) →
  plain new → (∀ l, tokens l pre = 0) → waits_ok (new ++ rest) →
  lock_release l k0 = Ok (tt, k') → inv k'.
Proof.
  intros Hinv Hst Hc He Hi Hlk Hv0 Hs0 Hst0 Ha0 Hid (Hf & Htn & Hem) Htp Hw Hr.
  destruct (lock_release_outcome l k0 k') as (Hh & (top & Htop & Ho) & Hl & v & Hv & Hval); try done.
  { rewrite He. apply Hinv. }
  rewrite Hc, Hst0 in Ho. rewrite Hlk, Hc in *. rewrite Hv0 in Hv.
  destruct (held_lock k l (cur k) v Hinv Hh Hv) as [-> _].
  eapply (inv_run k pre rest (top ++ new)); try done.
  - rewrite <- app_assoc. by eapply outcome_from.
  - apply Forall_app. split; [by apply frame_ok_set_level|done].
  - rewrite <- app_assoc. by apply waits_ok_app.
  - intros t. rewrite embryos_app, (embryos_set_level top), Hem by done. by rewrite elem_of_nil.
  - intros l'. rewrite tokens_app, (tokens_set_level l' top), Htn, Htp by done.
    pose proof (Hval (LockSema l')) as Hv'. unfold lock_change. rewrite Hl.
    destruct (decide (l' = l)) as [->|Hne].
    + rewrite Hh, lookup_insert_eq. rewrite decide_True in Hv' by done.
      exists 0, 1. split; [done|]. split; [done|]. simpl. split; lia.
    + rewrite lookup_insert_ne by done. rewrite decide_False in Hv' by congruence.
      replace (0 + 0 - 0) with 0 by lia. rewrite Hv0 in Hv'.
      pose proof (i_locks k Hinv l') as Hlo. unfold lock_ok in Hlo.
      destruct (locks k !! l') as [h|].
      * destruct Hlo as (x & Hx & Hx0 & _). exists x, x. rewrite Hv'. split; [done|]. split; [done|]. lia.
      * split; [congruence|done].
Qed.

(** ** Popped and replaced frames *)

(** The top of the stack is replaced by frames that care for the same new threads. *)
Lemma alive_replaced fs k : alive k → embryos fs = embryos (stack_of k (cur k)) → alive (popped fs k).
Proof.
  intros Ha E. destruct (alive_cur k Ha) as (th & Ht & _). apply (alive_ext k); try done.
  - intros [| | |q]; try done. rewrite !queue_embryo, stack_popped. case_decide; [|done].
    subst. done.
  - intros p Hp. simpl. rewrite lookup_insert_ne by congruence. by apply (c_pending k (a_core k Ha)).
Qed.

Lemma stack_popped_cur fs k : stack_of (popped fs k) (cur k) = fs.
Proof. by rewrite stack_popped, decide_True. Qed.

Lemma stack_popped_ne fs k p : p ≠ cur k → stack_of (popped fs k) p = stack_of k p.
Proof. intros. by rewrite stack_popped, decide_False. Qed.

Lemma pushed_popped f fs k : pushed f (popped fs k) = popped (f :: fs) k.
Proof.
  unfold pushed. change (cur (popped fs k)) with (cur k). rewrite stack_popped_cur. unfold popped. simpl.
  by rewrite insert_insert_eq.
Qed.

Lemma popped_popped fs1 fs2 k : popped fs1 (popped fs2 k) = popped fs1 k.
Proof. unfold popped. simpl. by rewrite insert_insert_eq. Qed.

Lemma push_frame_run f k : push_frame f k = Ok (tt, pushed f k).
Proof. done. Qed.

Ltac push_in H := erewrite st_run in H by (apply push_frame_run).

(** ** Conditions *)

Lemma get_sema_Ok s k v k' : get_sema s k = Ok (v, k') → k' = k ∧ semas k !! s = Some v.
Proof. unfold get_sema. destruct (semas k !! s); [|done]. by intros [= <- <-]. Qed.

Lemma list_highest_Ok q k r k' : list_highest_priority q k = Ok (r, k') → k' = k.
Proof.
  unfold list_highest_priority, lift. destruct q; [by intros [= _ <-]|].
  destruct (highest_loop _ _ _ _); [|done]. by intros [= _ <-].
Qed.

Lemma signal_loop_Ok es m nx k r k' : signal_loop es m nx k = Ok (r, k') → k' = k.
Proof.
  revert m nx. induction es as [|e es IH]; intros m nx H; simpl in H; [by injection H as _ <-|].
  bind_in H s k1 E1. apply get_sema_Ok in E1 as [-> _]. bind_in H p k1 E1.
  assert (k1 = k) as ->.
  { destruct (bool_decide _); [by injection E1 as _ <-|]. bind_in E1 h k2 E2.
    apply list_highest_Ok in E2 as ->. destruct h; [|done]. bind_in E1 th k2 E2.
    apply get_thread_Ok in E2 as [-> _]. by injection E1 as _ <-. }
  destruct (_ <? _); by eapply IH.
Qed.

Lemma get_cond_Ok c k ws k' : get_cond c k = Ok (ws, k') → k' = k.
Proof. unfold get_cond. destruct (conds k !! c); [|done]. by intros [= _ <-]. Qed.

Lemma alive_conds k cs : alive k → alive (set_conds cs k).
Proof. intros Ha. apply (alive_ext k); try done. apply (c_pending k (a_core k Ha)). Qed.

Lemma cond_signal_outcome c l k k' :
  alive k → in_external_intr k = false → cond_signal c l k = Ok (tt, k') →
  (∃ top, Forall set_level top ∧ outcome k (top ++ stack_of k (cur k)) k') ∧ lock_quiet k k'.
Proof.
  intros Ha He H. unfold cond_signal, intr_context in H. reads H. clear E.
  bind_in H b k1 E1. unfold lock_held_by_current_thread in E1. reads E1. injection E1 as <- <-.
  bind_in H u k1 E1. apply assert_Ok in E1 as [_ ->].
  bind_in H ws k1 E1. apply get_cond_Ok in E1 as ->.
  destruct ws as [|w ws].
  { injection H as <-. split; [|done]. exists []. split; [constructor|]. by split. }
  bind_in H nx k1 E1. apply signal_loop_Ok in E1 as ->. destruct nx as [t|]; [|done].
  bind_in H u1 k1 E1. injection E1 as _ <-.
  set (k1 := set_conds _ k) in H.
  assert (∃ v, semas k !! WaiterSema t = Some v) as [v Hv].
  { unfold sema_up, get_sema, intr_disable, intr_get_level, gets, modify, mbind, st_bind in H.
    simpl in H. destruct (semas k !! WaiterSema t); [eauto|done]. }
  destruct (sema_up_outcome (WaiterSema t) v k1 k') as ((top & Htop & Ho) & Hl & Hval);
    [by apply alive_conds|done|done|done|].
  split; [|split; [exact Hl|]].
  - exists top. split; [done|]. by eapply outcome_from.
  - intros l'. by rewrite Hval, decide_False by done.
Qed.

(** ** Starting a thread *)

Lemma nowhere_touched k k' t : touched k k' → nowhere k t → nowhere k' t.
Proof. by intros (ths & -> & _). Qed.

(** A blocked thread that is in no queue gets its first frame. *)
Lemma inv_born k t th g :
  inv k → threads k !! t = Some th → status th = THREAD_BLOCKED → nowhere k t →
  idle_thread k ≠ Some t → stack_of k t = [] → frame_ok (KernelThread g) →
  inv (set_pending (<[t := [KernelThread g]]> (pending k)) k).
Proof.
  intros Hinv Ht Hs Hn Hid Hst Hg. set (k' := set_pending _ k).
  destruct (alive_cur k (i_alive k Hinv)) as (c & Hc & Hcs).
  assert (cur k ≠ t) by (intros E; rewrite E in *; congruence).
  assert (Hstk : ∀ p, stack_of k' p = if decide (p = t) then [KernelThread g] else stack_of k p).
  { intros p. unfold stack_of, k'. simpl. case_decide; [subst; by rewrite lookup_insert_eq|].
    by rewrite lookup_insert_ne. }
  split.
  - apply (alive_ext k); try done; [| |apply Hinv].
    + intros [| | |q]; try done. rewrite !queue_embryo, Hstk. case_decide; [|done]. subst.
      by rewrite Hst.
    + intros p Hp. simpl. rewrite lookup_insert_ne by congruence.
      by apply (c_pending k (a_core k (i_alive k Hinv))).
  - apply Hinv.
  - intros i Hi. change (idle_thread k = Some i) in Hi. rewrite Hstk, decide_False by congruence. by apply (i_idle k Hinv).
  - intros p. rewrite Hstk. case_decide; [by split; [repeat constructor|]|]. apply (i_stacks k Hinv).
  - intros p x. rewrite !Hstk. case_decide as E; [by rewrite elem_of_nil|]. intros Hx.
    rewrite decide_False; [by eapply (i_embryo k Hinv)|]. intros ->.
    by apply (Hn (AtEmbryo p)).
  - intros l. pose proof (i_locks k Hinv l) as Hl. unfold lock_ok in *.
    replace (total l (pending k')) with (total l (pending k)); [done|].
    apply total_ext. intros p. fold (stack_of k p). fold (stack_of k' p). rewrite Hstk.
    case_decide; [subst; by rewrite Hst|done].
Qed.

Lemma inv_unblock k t th k' :
  inv k → threads k !! t = Some th → status th = THREAD_BLOCKED → nowhere k t →
  idle_thread k ≠ Some t → thread_unblock t k = Ok (tt, k') → inv k'.
Proof.
  intros Hinv Ht Hs Hn Hid H. pose proof (i_alive k Hinv) as Ha.
  rewrite (thread_unblock_eq t th k) in H by done.
  pose proof (alive_unblocked t th k Ha Ht Hs Hn Hid) as Hau.
  destruct (unblocked_same t th k) as (U1 & U2 & U3 & U4).
  destruct (set_level_outcome (intr_on k) (unblocked t th k) k') as [(top & Htop & Ho) Hq];
    [done|rewrite U2; apply Hinv|done|].
  rewrite U1, stack_unblocked in Ho. apply (inv_tail k [] (stack_of k (cur k))); try done.
  - exists top. split; [done|]. eapply outcome_from; [done..|]. intros p _. apply stack_unblocked.
  - apply quiet_lock in Hq as [Q1 Q2]. split; [congruence|]. intros l. rewrite Q2.
    unfold val. by rewrite semas_unblocked.
  - intros Hi. by apply (i_idle k Hinv).
Qed.

Lemma alloc_frame_touched t n k x k' : core k → alloc_frame t n k = Ok (x, k') → touched k k'.
Proof.
  intros Hc H. unfold alloc_frame in H. bind_in H b k1 E1. injection E1 as _ <-.
  bind_in H u k1 E1. apply assert_Ok in E1 as [_ ->]. bind_in H u1 k1 E1. apply assert_Ok in E1 as [_ ->].
  bind_in H u2 k1 E1. apply update_thread_touched in E1; [|done|by intros th _ []].
  bind_in H th k2 E2. apply get_thread_Ok in E2 as [-> _]. by injection H as _ <-.
Qed.

(** ** The frames *)

Section frames.
Context (k k' : kernel) (f : frame) (fs : list frame).
Context (Hinv : inv k) (Hst : stack_of k (cur k) = f :: fs).

Let Hst1 : stack_of k (cur k) = [f] ++ fs := Hst.
Let Hap : alive (popped fs k) := alive_popped f fs k (i_alive k Hinv) Hst.

Lemma inv_IntrSetLevel b : f = IntrSetLevel b → intr_set_level b (popped fs k) = Ok (tt, k') → inv k'.
Proof.
  intros -> H. destruct (set_level_outcome b (popped fs k) k') as [(top & Htop & Ho) Hq];
    [done|apply Hinv|done|]. simpl in Ho. rewrite stack_popped_cur in Ho.
  apply (inv_tail k _ fs k' Hinv Hst1); try done.
  - exists top. split; [done|]. by eapply outcome_popped.
  - by apply quiet_lock.
  - intros Hi. apply (i_idle k Hinv) in Hi. rewrite Hst in Hi.
    apply idle_stack_cons in Hi as [_ Hi]. by apply Hi.
Qed.

Lemma inv_Iret : f = Iret → k' = set_intr_on true (popped fs k) → inv k'.
Proof.
  intros -> ->. apply (inv_tail k _ fs _ Hinv Hst1); try done.
  - exists []. split; [constructor|]. split; try done; [eauto with sched| |].
    + intros p Hp. exact (stack_popped_ne fs k p Hp).
    + exact (stack_popped_cur fs k).
  - intros Hi. apply (i_idle k Hinv) in Hi. rewrite Hst in Hi.
    apply idle_stack_cons in Hi as [_ Hi]. by apply Hi.
Qed.

Lemma inv_SemaDownLoop s o :
  f = SemaDownLoop s o → sema_down_loop s o (popped fs k) = Ok (tt, k') → inv k'.
Proof.
  intros E H. assert (idle_thread k ≠ Some (cur k)) as Hid by (subst f; not_idle).
  assert (∃ v, semas k !! s = Some v) as [v Hs].
  { unfold sema_down_loop, get_sema, mbind, st_bind in H. simpl in H.
    destruct (semas k !! s); [eauto|done]. }
  destruct (sema_down_loop_outcome s v o (popped fs k) k') as [Hl Ho];
    [done|apply Hinv|done|done|done|].
  simpl in Ho. rewrite stack_popped_cur in Ho. destruct (i_stacks k Hinv (cur k)) as [Hfo Hw].
  rewrite Hst in Hfo, Hw. apply Forall_cons in Hfo as [_ Hfo].
  destruct (value v =? 0) eqn:Ez; bools.
  - destruct Ho as [Ho Hsv]. subst f. eapply (inv_run k [SemaDownLoop s o] fs [SemaDownLoop s o]); try done.
    + by eapply outcome_popped.
    + by repeat constructor.
    + intros l. rewrite Z.sub_diag. by apply lock_same.
  - destruct Ho as [(top & Htop & Ho) Hav]. subst f.
    eapply (inv_run k [SemaDownLoop s o] fs top); try done.
    + by eapply outcome_popped.
    + by apply frame_ok_set_level.
    + apply waits_ok_app; [done|]. by eapply waits_ok_tail.
    + intros t. rewrite embryos_set_level by done. by rewrite elem_of_nil.
    + intros l. rewrite tokens_set_level by done. cbn [tokens].
      pose proof (i_locks k Hinv l) as Hlo. unfold lock_change, lock_ok in *.
      change (locks k' = locks k) in Hl. rewrite Hl. pose proof (Hav (LockSema l)) as Hv.
      change (val (popped fs k) (LockSema l)) with (val k (LockSema l)) in Hv.
      destruct (decide (LockSema l = s)) as [<-|Hne].
      * cbn [token]. rewrite decide_True by done. unfold val in Hlo. rewrite Hs in Hlo.
        assert (val k (LockSema l) = Some (value v)) as Hvk by (unfold val; by rewrite Hs).
        rewrite Hvk in Hv. destruct (locks k !! l) as [h|].
        -- destruct Hlo as (x & [= <-] & Hx0 & _). exists (value v), (-1 + value v).
           split; [done|]. split; [done|]. split; lia.
        -- by destruct Hlo.
      * replace (token l (SemaDownLoop s o)) with 0
          by (unfold token; destruct s; try done; rewrite decide_False by congruence; done).
        destruct (locks k !! l) as [h|].
        -- destruct Hlo as (x & Hx & Hx0 & _). exists x, x. rewrite Hv, Hx. simpl.
           split; [done|]. split; [done|].
           lia.
        -- destruct Hlo as [Hn _]. rewrite Hv, Hn. done.
Qed.

Lemma inv_LockAcquired l :
  f = LockAcquired l → run_frame (LockAcquired l) (popped fs k) = Ok (tt, k') →
  locks k !! l = Some None ∧ inv k'.
Proof.
  intros -> H. assert (idle_thread k ≠ Some (cur k)) as Hid by not_idle.
  simpl in H. rewrite (st_run _ _ _ _ _ (thread_current_ok _ Hap)) in H. injection H as <-.
  assert (Hw : ∀ p, waits_ok (stack_of k p)) by (intros p; apply (i_stacks k Hinv p)).
  pose proof (total_nonneg l k (cur k) Hw) as Ht. rewrite Hst in Ht. cbn [tokens token] in Ht.
  rewrite decide_True in Ht by done.
  assert (waits_ok fs) as Hwf by (by eapply rest_ok). pose proof (tokens_nonneg l fs Hwf).
  pose proof (i_locks k Hinv l) as Hlo. unfold lock_ok in Hlo.
  destruct (locks k !! l) as [h|] eqn:El; [|lia].
  destruct Hlo as (v & Hv & Hv0 & Hs). destruct h as [h|]; simpl in Hs; [lia|]. split; [done|].
  eapply (inv_run k [LockAcquired l] fs []); try done.
  - split; try done; [|intros p Hp; exact (stack_popped_ne fs k p Hp)|exact (stack_popped_cur fs k)].
    apply (alive_ext (popped fs k)); try done. apply (c_pending _ (a_core _ Hap)).
  - intros l'. cbn [tokens token]. unfold lock_change. simpl.
    pose proof (i_locks k Hinv l') as Hlo'. unfold lock_ok in Hlo'.
    destruct (decide (l = l')) as [<-|Hne].
    + rewrite El, lookup_insert_eq. exists v, v. repeat split; try done. simpl. lia.
    + rewrite lookup_insert_ne by done. destruct (locks k !! l') as [h'|].
      * destruct Hlo' as (x & Hx & _). exists x, x. repeat split; try done. lia.
      * done.
Qed.

Lemma inv_WaitSignal l :
  f = WaitSignal l → run_frame (WaitSignal l) (popped fs k) = Ok (tt, k') → inv k'.
Proof.
  intros -> H. assert (idle_thread k ≠ Some (cur k)) as Hid by not_idle. simpl in H.
  push_in H. rewrite pushed_popped in H.
  assert (alive (popped (Reacquire l :: fs) k)) as Ha1.
  { apply alive_replaced; [apply Hinv|]. by rewrite Hst. }
  bind_in H t k1 E1. apply thread_current_Ok in E1 as [-> ->].
  destruct (sema_down_outcome (WaiterSema (cur k)) (popped (Reacquire l :: fs) k) k')
    as (v & Hv & Hl & Ho); [done|apply Hinv|done|done|].
  simpl in Ho. rewrite stack_popped_cur in Ho. pose proof (rest_ok k _ fs Hinv Hst1) as Hw.
  destruct (v =? 0).
  - destruct Ho as [Ho Hs]. eapply (inv_quiet k [WaitSignal l] fs
      [SemaDownLoop (WaiterSema (cur k)) (intr_on k); Reacquire l]); try done.
    + by eapply outcome_popped.
    + by split; [repeat constructor|].
  - destruct Ho as [(top & Htop & Ho) Hs]. eapply (inv_run k [WaitSignal l] fs (top ++ [Reacquire l])); try done.
    + rewrite <- app_assoc. by eapply outcome_popped.
    + apply Forall_app. split; [by apply frame_ok_set_level|by repeat constructor].
    + rewrite <- app_assoc. by apply waits_ok_app.
    + intros t. rewrite embryos_app, (embryos_set_level top) by done. by rewrite elem_of_nil.
    + intros l'. rewrite tokens_app, tokens_set_level by done. apply lock_same; [done|done|].
      rewrite Hs, decide_False by done. apply option_fmap_id.
Qed.

Lemma inv_Reacquire l :
  f = Reacquire l → lock_acquire l (popped fs k) = Ok (tt, k') → inv k'.
Proof.
  intros -> H. eapply (inv_lock_acquire k (popped fs k) [Reacquire l] fs []); try done.
  - intros p Hp. by apply stack_popped_ne.
  - apply stack_popped_cur.
  - not_idle.
  - by eapply rest_ok.
Qed.

Lemma inv_touch k1 :
  touched (popped fs k) k1 → (∀ l, token l f = 0) → ¬ idle_any f → inv k1.
Proof.
  intros T Ht Hni. destruct (touched_same _ _ T) as (S1 & S2 & S3 & S4 & S5 & S6 & S7).
  eapply (inv_quiet k [f] fs []); try done.
  - split; try done; [by eapply touched_alive| |].
    + intros p Hp. unfold stack_of. rewrite S2. by apply (stack_popped_ne fs k p).
    + unfold stack_of. rewrite S2. apply (stack_popped_cur fs k).
  - intros l. cbn [tokens]. rewrite Ht. done.
  - by eapply rest_ok.
  - intros Hi. exfalso. by apply (not_idle k f fs Hinv Hst Hni).
  - split; [done|]. intros l. unfold val. by rewrite S4.
Qed.

Lemma inv_TimerSleep start n :
  f = TimerSleep start n → timer_sleep_tail start n (popped fs k) = Ok (tt, k') → inv k'.
Proof.
  intros -> H. assert (idle_thread k ≠ Some (cur k)) as Hid by not_idle.
  unfold timer_sleep_tail, intr_get_level in H. reads H.
  bind_in H o k1 E1. injection E1 as <- <-. unfold thread_sleep in H.
  assert (alive (set_intr_on false (popped fs k))) as Hai by eauto with sched.
  destruct (alive_cur _ Hai) as (th & Hth & Hrun). simpl in Hth.
  pose proof (c_thread _ (a_core _ Hai) _ _ Hth) as Hok.
  bind_in H u k1 E1. rewrite (st_run _ _ _ _ _ (thread_current_ok _ Hai)) in E1. injection E1 as _ <-.
  simpl in H. erewrite st_run in H by (apply (thread_current_run _ th); done).
  erewrite st_run in H by (apply update_thread_ok; exact Hth).
  bind_in H u1 k1 E1. injection E1 as _ <-.
  erewrite thread_block_run in H;
    [|simpl; by rewrite lookup_insert_eq|by destruct Hok|done|done|apply Hinv].
  simpl in H. rewrite insert_insert_eq in H.
  set (th' := set_status THREAD_BLOCKED (set_wake_time (i64 (start + n)) th)) in H.
  set (k1 := set_threads (<[cur k := th']> (threads k))
    (set_sleeping_list (sleeping_list k ++ [cur k]) (set_intr_on false (popped fs k)))).
  destruct (stop_schedule (popped fs k) k1 (IntrSetLevel (intr_on k)) th' (Some AtSleep))
    as (k2 & Hk2 & Ha2 & Hkept & _); try done.
  - apply moved_to; [apply Hap|apply nowhere_running; apply Hap| |done]. intros []; done.
  - by destruct Hok.
  - change (schedule (pushed (IntrSetLevel (intr_on k)) k1) = Ok (tt, k')) in H.
    assert (k2 = k') as -> by congruence.
    assert (∀ p, stack_of k' p = stack_of (pushed (IntrSetLevel (intr_on k)) k1) p) as Hstk.
    { intros p. apply kept_stack; [done|apply Ha2|]. apply (c_all _ (a_core _ Hap)).
      exists th. split; [done|]. by rewrite Hrun. }
    eapply (inv_quiet k [TimerSleep start n] fs [IntrSetLevel (intr_on k)]); try done.
    + split; [done|apply (k_ext _ _ Hkept)|apply (k_idle _ _ Hkept)| |].
      * intros p Hp. rewrite Hstk, stack_pushed, decide_False by done.
        exact (stack_popped_ne fs k p Hp).
      * rewrite Hstk, stack_pushed, decide_True by done.
        f_equal. exact (stack_popped_cur fs k).
    + by split; [repeat constructor|].
    + exact (rest_ok k _ fs Hinv Hst1).
    + destruct (kept_quiet _ _ Hkept) as [Q1 Q2]. split; [exact Q1|]. intros l. exact (Q2 (LockSema l)).
Qed.

Lemma inv_CondBroadcast c l :
  f = CondBroadcast c l → cond_broadcast c l (popped fs k) = Ok (tt, k') → inv k'.
Proof.
  intros Ef H. unfold cond_broadcast in H. bind_in H ws k1 E1. apply get_cond_Ok in E1 as ->.
  destruct ws as [|w ws].
  - injection H as <-. apply inv_touch; rewrite ?Ef; [|done|by intros [[]|[|]]].
    apply touched_refl. apply Hap.
  - subst f. assert (idle_thread k ≠ Some (cur k)) as Hid by not_idle. push_in H. rewrite pushed_popped in H.
    destruct (cond_signal_outcome c l (popped (CondBroadcast c l :: fs) k) k')
      as [(top & Htop & Ho) Hq]; [|apply Hinv|done|].
    { apply alive_replaced; [apply Hinv|]. by rewrite Hst. }
    simpl in Ho. rewrite stack_popped_cur in Ho.
    apply (inv_tail k [] (CondBroadcast c l :: fs)); try done.
    exists top. split; [done|]. by eapply outcome_popped.
Qed.

Lemma inv_KernelThread g :
  f = KernelThread g → run_frame (KernelThread g) (popped fs k) = Ok (tt, k') → inv k'.
Proof.
  intros -> H. assert (idle_thread k ≠ Some (cur k)) as Hid by not_idle. simpl in H.
  push_in H. rewrite pushed_popped in H.
  destruct (set_level_outcome true (popped (RunFunction g :: fs) k) k') as [(top & Htop & Ho) Hq];
    [|apply Hinv|exact H|].
  { apply alive_replaced; [apply Hinv|]. by rewrite Hst. }
  simpl in Ho. rewrite stack_popped_cur in Ho.
  destruct (i_stacks k Hinv (cur k)) as [Hfo _]. rewrite Hst in Hfo.
  apply Forall_cons in Hfo as [Hg _].
  eapply (inv_quiet k [KernelThread g] fs (top ++ [RunFunction g])); try done.
  - rewrite <- app_assoc. by eapply outcome_popped.
  - split; [|split].
    + apply Forall_app. split; [by apply frame_ok_set_level|]. repeat constructor. by destruct g.
    + intros l. by rewrite tokens_app, tokens_set_level.
    + by rewrite embryos_app, embryos_set_level.
  - rewrite <- app_assoc. apply waits_ok_app; [done|]. exact (rest_ok k _ fs Hinv Hst1).
  - by apply quiet_lock.
Qed.

Lemma inv_IdleLoop :
  f = IdleLoop → run_frame IdleLoop (popped fs k) = Ok (tt, k') → inv k'.
Proof.
  intros -> H. simpl in H. erewrite st_run in H by reflexivity. push_in H.
  set (ki := set_intr_on false (popped fs k)) in H.
  assert (alive ki) as Hai by (unfold ki; eauto with sched).
  destruct (alive_cur _ Hai) as (th & Hth & Hrun).
  pose proof (c_thread _ (a_core _ Hai) _ _ Hth) as Hok.
  rewrite (thread_block_run _ th) in H; [|done|done|done|done|apply Hinv].
  set (k1 := set_threads (<[cur k := set_status THREAD_BLOCKED th]> (threads k)) ki).
  destruct (stop_schedule ki k1 IdleHalt (set_status THREAD_BLOCKED th) None)
    as (k2 & Hk2 & Ha2 & Hkept & _); try done.
  - apply moved_nowhere; [apply Hai|apply nowhere_running; apply Hai|done].
  - by destruct Hok.
  - change (schedule (pushed IdleHalt k1) = Ok (tt, k')) in H.
    assert (k2 = k') as -> by congruence.
    assert (∀ p, stack_of k' p = stack_of (pushed IdleHalt k1) p) as Hstk.
    { intros p. apply kept_stack; [done|apply Ha2|]. apply (c_all _ (a_core _ Hai)).
      exists th. split; [done|]. by rewrite Hrun. }
    eapply (inv_quiet k [IdleLoop] fs [IdleHalt]); try done.
    + split; [done|apply (k_ext _ _ Hkept)|apply (k_idle _ _ Hkept)| |].
      * intros p Hp. rewrite Hstk, stack_pushed, decide_False by done.
        exact (stack_popped_ne fs k p Hp).
      * rewrite Hstk, stack_pushed, decide_True by done.
        f_equal. exact (stack_popped_cur fs k).
    + by split; [repeat constructor|].
    + exact (rest_ok k _ fs Hinv Hst1).
    + intros Hi. apply (i_idle k Hinv) in Hi. rewrite Hst in Hi.
      apply idle_stack_bottom in Hi as ->; [|by left]. exists [], IdleHalt. repeat split; auto.
    + destruct (kept_quiet _ _ Hkept) as [Q1 Q2]. split; [exact Q1|]. intros l. exact (Q2 (LockSema l)).
Qed.

Lemma inv_IdleHalt :
  f = IdleHalt → run_frame IdleHalt (popped fs k) = Ok (tt, k') → inv k'.
Proof.
  intros -> H. simpl in H. push_in H. rewrite pushed_popped in H. injection H as <-.
  eapply (inv_quiet k [IdleHalt] fs [IdleLoop]); try done.
  - split; try done.
    + apply alive_set_intr, alive_replaced; [apply Hinv|]. by rewrite Hst.
    + intros p Hp. exact (stack_popped_ne _ k p Hp).
    + exact (stack_popped_cur _ k).
  - by split; [repeat constructor|].
  - exact (rest_ok k _ fs Hinv Hst1).
  - intros Hi. apply (i_idle k Hinv) in Hi. rewrite Hst in Hi.
    apply idle_stack_bottom in Hi as ->; [|by right]. exists [], IdleLoop. repeat split; auto.
Qed.

Lemma inv_SetTid t n : f = SetTid t n → update_thread t (set_tid n) (popped fs k) = Ok (tt, k') → inv k'.
Proof.
  intros Ef H. apply update_thread_touched in H; [|apply Hap|by intros th _ []].
  apply inv_touch; rewrite ?Ef; [done|done|by intros [[]|[|]]].
Qed.

Lemma inv_RunFunction : f = RunFunction Other → k' = popped fs k → inv k'.
Proof.
  intros Ef ->. apply inv_touch; rewrite ?Ef; [|done|by intros [[]|[|]]].
  apply touched_refl, Hap.
Qed.

Lemma inv_ThreadInited t p g :
  f = ThreadInited t p g → run_frame (ThreadInited t p g) (popped fs k) = Ok (tt, k') → inv k'.
Proof.
  intros -> H. assert (idle_thread k ≠ Some (cur k)) as Hid by not_idle. simpl in H.
  bind_in H u k1 E1. apply update_thread_touched in E1; [|apply Hap|by intros th _ []].
  destruct E1 as (ths & -> & Hths). unfold allocate_tid in H. push_in H. push_in H.
  assert (pushed (AllocateTid t) (pushed (ThreadCreated t g) (set_threads ths (popped fs k))) =
          set_threads ths (popped (AllocateTid t :: ThreadCreated t g :: fs) k)) as E.
  { rewrite <- !pushed_popped. done. }
  rewrite E in H. clear E.
  destruct (i_stacks k Hinv (cur k)) as [Hfo _]. rewrite Hst in Hfo.
  apply Forall_cons in Hfo as [Hg _]. simpl in Hg.
  eapply (inv_lock_acquire k _ [ThreadInited t p g] fs [AllocateTid t; ThreadCreated t g]);
    try exact H; try done.
  - intros q Hq. exact (stack_popped_ne _ k q Hq).
  - exact (stack_popped_cur _ k).
  - apply (touched_alive (popped (AllocateTid t :: ThreadCreated t g :: fs) k)).
    + apply alive_replaced; [apply Hinv|]. by rewrite Hst.
    + exists ths. done.
  - repeat constructor. by destruct g.
  - exact (rest_ok k _ fs Hinv Hst1).
Qed.

Lemma inv_AllocateTid t :
  f = AllocateTid t → run_frame (AllocateTid t) (popped fs k) = Ok (tt, k') → inv k'.
Proof.
  intros -> H. assert (idle_thread k ≠ Some (cur k)) as Hid by not_idle. simpl in H.
  bind_in H n k1 E1. apply gets_Ok in E1 as [-> ->]. bind_in H u k1 E1. injection E1 as _ <-.
  push_in H. change (next_tid (popped fs k)) with (next_tid k) in H. set (n := next_tid k) in H.
  assert (pushed (SetTid t n) (set_next_tid (i32 (n + 1)) (popped fs k)) =
          set_next_tid (i32 (n + 1)) (popped (SetTid t n :: fs) k)) as E.
  { rewrite <- pushed_popped. done. }
  rewrite E in H. clear E.
  eapply (inv_lock_release k _ [AllocateTid t] fs [SetTid t n]); try exact H; try done.
  - intros q Hq. exact (stack_popped_ne _ k q Hq).
  - exact (stack_popped_cur _ k).
  - assert (alive (popped (SetTid t n :: fs) k)) as Hal by (apply alive_replaced; [apply Hinv|by rewrite Hst]).
    apply (alive_ext (popped (SetTid t n :: fs) k)); try done. apply (c_pending _ (a_core _ Hal)).
  - by split; [repeat constructor|].
  - exact (rest_ok k _ fs Hinv Hst1).
Qed.

Lemma inv_ThreadCreated t g :
  f = ThreadCreated t g → thread_create_tail t g (popped fs k) = Ok (tt, k') → inv k'.
Proof.
  intros Ef H. unfold thread_create_tail in H.
  bind_in H s1 k1 E1. apply alloc_frame_touched in E1; [|apply Hap].
  bind_in H s2 k2 E2. apply alloc_frame_touched in E2; [|eauto with sched].
  assert (touched (popped fs k) k2) as T2 by (by eapply touched_trans).
  bind_in H s3 k3 E3. apply alloc_frame_touched in E3; [|eauto with sched].
  assert (touched (popped fs k) k3) as T3 by (by eapply touched_trans). clear E1 E2 E3 T2 k1 k2.
  assert (inv k3) as Hinv3 by (apply inv_touch; rewrite ?Ef; [done|done|by intros [[]|[|]]]).
  bind_in H u k4 E4. injection E4 as _ <-.
  assert (t ∈ queue k (AtEmbryo (cur k))) as Hin.
  { rewrite queue_embryo, Hst, Ef. simpl. left. }
  pose proof (i_alive k Hinv) as Ha. pose proof (a_core k Ha) as Hc.
  destruct (c_status k Hc _ _ Hin) as (th & Ht & Hs). simpl in Hs.
  assert (nowhere (popped fs k) t) as Hn.
  { intros l Hl. assert (t ∈ queue k l) as Hl'.
    { destruct l as [| | |q]; try done. rewrite queue_embryo, stack_popped in Hl.
      rewrite queue_embryo. case_decide; [|done]. subst q. rewrite Hst. unfold embryos. simpl.
      apply elem_of_app. by right. }
    pose proof (c_uniq k Hc _ _ t Hl' Hin) as ->.
    rewrite queue_embryo, stack_popped_cur in Hl. pose proof (c_nodup k Hc (AtEmbryo (cur k))) as Hnd.
    rewrite queue_embryo, Hst, Ef in Hnd. simpl in Hnd. by apply NoDup_cons in Hnd as [? _]. }
  assert (idle_thread k ≠ Some t) as Hid by (intros Hi; by apply (nowhere_idle k t Hc Hi) in Hin).
  destruct T3 as (ths & -> & Hths & Hok).
  specialize (Hths t). simpl in Hths. rewrite Ht in Hths. simpl in Hths.
  destruct (ths !! t) as [th'|] eqn:Ht'; [|done]. injection Hths as Hs'. rewrite Hs in Hs'.
  assert (stack_of k t = []) as Hst0 by (eapply (i_embryo k Hinv (cur k)); exact Hin).
  assert (t ≠ cur k) as Hne.
  { intros ->. destruct (alive_cur k Ha) as (x & Hx & Hxs). congruence. }
  destruct (i_stacks k Hinv (cur k)) as [Hfo _]. rewrite Hst, Ef in Hfo.
  apply Forall_cons in Hfo as [Hg _].
  match type of H with thread_unblock _ ?s = _ => apply (inv_unblock s t th' k') end; try done.
  - eapply inv_born; try done.
    etransitivity; [exact (stack_popped_ne fs k t Hne)|done].
  - intros l Hl. apply (Hn l). destruct l as [| | |q]; try done.
    rewrite queue_embryo in *. unfold stack_of in *. simpl in Hl.
    destruct (decide (q = t)) as [->|]; [rewrite lookup_insert_eq in Hl; by apply elem_of_nil in Hl|].
    by rewrite lookup_insert_ne in Hl.
Qed.

End frames.

(** Resuming the call on top of the stack keeps the invariant. *)
Lemma inv_frame k k' f fs :
  inv k → stack_of k (cur k) = f :: fs → run_frame f (popped fs k) = Ok (tt, k') → inv k'.
Proof.
  intros Hinv Hst H. destruct (i_stacks k Hinv (cur k)) as [Hfo _]. rewrite Hst in Hfo.
  apply Forall_cons in Hfo as [Hg _].
  destruct f; try done.
  - by eapply (inv_IntrSetLevel k k' _ fs Hinv Hst).
  - injection H as <-. by eapply (inv_Iret k _ _ fs Hinv Hst).
  - by eapply (inv_SemaDownLoop k k' _ fs Hinv Hst).
  - by eapply (inv_LockAcquired k k' _ fs Hinv Hst).
  - by eapply (inv_ThreadInited k k' _ fs Hinv Hst).
  - by eapply (inv_AllocateTid k k' _ fs Hinv Hst).
  - by eapply (inv_SetTid k k' _ fs Hinv Hst).
  - by eapply (inv_ThreadCreated k k' _ fs Hinv Hst).
  - by eapply (inv_TimerSleep k k' _ fs Hinv Hst).
  - by eapply (inv_WaitSignal k k' _ fs Hinv Hst).
  - by eapply (inv_Reacquire k k' _ fs Hinv Hst).
  - by eapply (inv_CondBroadcast k k' _ fs Hinv Hst).
  - by eapply (inv_KernelThread k k' _ fs Hinv Hst).
  - destruct f; [done|]. injection H as <-. by eapply (inv_RunFunction k _ _ fs Hinv Hst).
  - by eapply (inv_IdleLoop k k' _ fs Hinv Hst).
  - by eapply (inv_IdleHalt k k' _ fs Hinv Hst).
Qed.
