(* ===== verification/SchedCalls.v ===== *)
(** * The primitives and the timer keep the kernel invariant

    The calls a thread makes, the timer interrupt with the waking of sleepers, and the
    theorems about the scheduler as a whole. *)

From S2P Require Import Vaddr Prelude Arith64 FixedPoint Thread Synch Sched SchedInv SchedOps.

(** ** Calls *)

Lemma same_outcome k k' :
  alive k' → in_external_intr k' = in_external_intr k → idle_thread k' = idle_thread k →
  (∀ p, stack_of k' p = stack_of k p) → outcome k (stack_of k (cur k)) k'.
Proof. intros. split; auto. Qed.

(** A change of state that leaves stacks and locks alone. *)
Lemma inv_same k k' :
  inv k → alive k' → in_external_intr k' = in_external_intr k → idle_thread k' = idle_thread k →
  (∀ p, stack_of k' p = stack_of k p) → lock_quiet k k' → inv k'.
Proof.
  intros Hinv Ha He Hi Hs Hq. apply (inv_tail k [] (stack_of k (cur k)) k'); try done.
  - exists []. split; [constructor|]. by apply same_outcome.
  - intros E. by apply (i_idle k Hinv).
Qed.

(** ** Trying a semaphore *)

Lemma pushes_run fs k :
  foldr (λ f rest, rest;; push_frame f) (mret tt) fs k = Ok (tt, foldr pushed k fs).
Proof.
  induction fs as [|f fs IH]; [done|]. simpl. by rewrite (st_run _ _ _ _ _ IH).
Qed.

Lemma pushes_same fs k :
  cur (foldr pushed k fs) = cur k ∧ semas (foldr pushed k fs) = semas k ∧
  locks (foldr pushed k fs) = locks k ∧ idle_thread (foldr pushed k fs) = idle_thread k ∧
  in_external_intr (foldr pushed k fs) = in_external_intr k ∧
  (∀ p, p ≠ cur k → stack_of (foldr pushed k fs) p = stack_of k p) ∧
  stack_of (foldr pushed k fs) (cur k) = fs ++ stack_of k (cur k).
Proof.
  induction fs as [|f fs (H1 & H2 & H3 & H4 & H5 & H6 & H7)]; [done|]. cbn [foldr].
  split; [exact H1|]. split; [exact H2|]. split; [exact H3|]. split; [exact H4|].
  split; [exact H5|]. split.
  - intros p Hp. rewrite stack_pushed, decide_False by congruence. by apply H6.
  - rewrite stack_pushed, decide_True by done. rewrite H1, H7. done.
Qed.

Lemma sema_try_down_outcome s fs k b k' :
  alive k → in_external_intr k = false → Forall (λ f, embryo f = []) fs →
  sema_try_down_then s fs k = Ok (b, k') →
  ∃ v, val k s = Some v ∧ locks k' = locks k ∧ b = (0 <? v) ∧
  if 0 <? v then
    (∃ top, Forall set_level top ∧ outcome k (top ++ fs ++ stack_of k (cur k)) k') ∧
    add_val s (-1) k k'
  else
    (∃ top, Forall set_level top ∧ outcome k (top ++ stack_of k (cur k)) k') ∧ same_vals k k'.
Proof.
  intros Ha He Hfs H. unfold sema_try_down_then in H. bind_in H o k1 E1. injection E1 as <- <-.
  bind_in H v k1 E1. apply get_sema_Ok in E1 as [-> Hs]. simpl in Hs.
  exists (value v). unfold val at 1. rewrite Hs. split; [done|].
  bind_in H r k1 E1.
  assert (alive (set_intr_on false k)) as Hai by eauto with sched.
  destruct (0 <? value v) eqn:Ev.
  - erewrite st_run in E1 by reflexivity. bind_in E1 u k2 E2. rewrite pushes_run in E2.
    injection E2 as _ <-. injection E1 as <- <-.
    set (k1 := set_semas _ _) in H. destruct (pushes_same fs k1) as (P1 & P2 & P3 & P4 & P5 & P6 & P7).
    assert (alive k1) as Ha1 by exact (alive_sema_value _ s v (Sema (value v - 1) (waiters v)) Hai Hs eq_refl).
    assert (alive (foldr pushed k1 fs)) as Ha2.
    { clear -Ha1 Hfs. induction Hfs; [done|]. simpl. by apply alive_pushed. }
    bind_in H u2 k3 E3. injection H as <- <-. destruct u2.
    destruct (set_level_outcome _ _ _ Ha2 ltac:(rewrite P5; exact He) E3) as [(top & Htop & Ho) Hq].
    destruct Hq as [Q1 Q2]. split; [rewrite Q1, P3; done|]. split; [done|]. split.
    + exists top. split; [done|]. rewrite P1, P7 in Ho. eapply outcome_from; [done..|]. done.
    + intros s'. rewrite Q2. unfold val. rewrite P2. simpl. case_decide.
      * subst. rewrite lookup_insert_eq, Hs. simpl. f_equal. lia.
      * rewrite lookup_insert_ne by done. symmetry. apply option_fmap_id.
  - injection E1 as <- <-. bind_in H u2 k3 E3. injection H as <- <-. destruct u2.
    destruct (set_level_outcome _ _ _ Hai He E3) as [(top & Htop & Ho) [Q1 Q2]].
    split; [done|]. split; [done|]. split; [|done]. exists top. split; [done|].
    by eapply outcome_from.
Qed.

(** ** Creating a thread *)

Definition newborn (t : ptr) (nm : list Z) (prio : Z) : thread :=
  Thread 0 (-1) THREAD_BLOCKED (take 15 nm) (t + PGSIZE) prio (-1) 0 0 [] prio None 0 THREAD_MAGIC.

Definition conceived (t : ptr) (nm : list Z) (prio p : Z) (g : thread_func) (k : kernel) : kernel :=
  set_all_list (all_list k ++ [t])
    (set_intr_on false
      (set_threads (<[t := newborn t nm prio]> (threads k)) (pushed (ThreadInited t p g) k))).

Lemma alive_conceived t nm prio p g k :
  alive k → threads k !! t = None → PRI_MIN ≤ prio ≤ PRI_MAX →
  alive (conceived t nm prio p g k).
Proof.
  intros Ha Hn Hp. destruct (alive_cur k Ha) as (c & Hc & Hcs).
  assert (cur k ≠ t) as Hct by congruence. pose proof Ha as [[H1 H2 H3 H4 H5 H6 [H7 H7'] H8] [_ Hr] Hi].
  assert (Hnw : nowhere k t).
  { intros l Hl. destruct (H3 l t Hl) as (x & Hx & _). congruence. }
  assert (Hq : ∀ l, queue (conceived t nm prio p g k) l =
                    if decide (l = AtEmbryo (cur k)) then t :: queue k l else queue k l).
  { intros l. destruct l as [| | |q]; try (by rewrite decide_False by done).
    rewrite queue_embryo. unfold conceived. change (stack_of _ q) with (stack_of (pushed (ThreadInited t p g) k) q).
    rewrite stack_pushed. do 2 case_decide; simplify_eq; done. }
  split; [|split|done].
  - split.
    + intros l. rewrite Hq. case_decide; [|done]. apply NoDup_cons. split; [apply Hnw|done].
    + assert (∀ l x, x ∈ queue (conceived t nm prio p g k) l →
                (x = t ∧ l = AtEmbryo (cur k)) ∨ x ∈ queue k l) as Hq'.
      { intros l x. rewrite Hq. case_decide; [|by right]. rewrite elem_of_cons. naive_solver. }
      intros l1 l2 x Hx1 Hx2. apply Hq' in Hx1, Hx2.
      destruct Hx1 as [[-> ->]|Hx1], Hx2 as [[? ->]|Hx2]; subst; try done.
      * by apply Hnw in Hx2.
      * by apply Hnw in Hx1.
      * by eapply H2.
    + intros l x. rewrite Hq. simpl. case_decide as E.
      * rewrite elem_of_cons. intros [->|Hx]; [rewrite lookup_insert_eq; subst; eauto|].
        rewrite lookup_insert_ne; [by apply H3|]. intros <-. by apply Hnw in Hx.
      * intros Hx. rewrite lookup_insert_ne; [by apply H3|]. intros <-. by apply Hnw in Hx.
    + intros i E. destruct (H4 i E) as [Hni (x & Hx & Hxs)]. split.
      * intros l. rewrite Hq. case_decide; [|done]. rewrite elem_of_cons. intros [->|?]; [congruence|].
        by eapply Hni.
      * exists x. split; [|done]. simpl. rewrite lookup_insert_ne; [done|congruence].
    + intros x xh Hx Hxs. simpl in Hx. destruct (decide (x = t)) as [->|].
      * rewrite lookup_insert_eq in Hx. injection Hx as <-. done.
      * rewrite lookup_insert_ne in Hx by done. eauto.
    + intros x xh Hx. simpl in Hx. destruct (decide (x = t)) as [->|].
      * rewrite lookup_insert_eq in Hx. injection Hx as <-. by split.
      * rewrite lookup_insert_ne in Hx by done. eauto.
    + simpl. split.
      * apply NoDup_snoc; [|done]. rewrite H7'. intros (x & Hx & _). congruence.
      * intros x. rewrite elem_of_snoc, H7'. destruct (decide (x = t)) as [->|].
        -- rewrite lookup_insert_eq. split; [eauto|by right].
        -- rewrite lookup_insert_ne by done. naive_solver.
    + intros q Hqn. simpl in *. destruct (decide (q = t)) as [->|]; [by rewrite lookup_insert_eq in Hqn|].
      rewrite lookup_insert_ne in Hqn by done. rewrite lookup_insert_ne by congruence. by apply H8.
  - exists c. simpl. by rewrite lookup_insert_ne.
  - intros x xh Hx Hxs. simpl in *. destruct (decide (x = t)) as [->|].
    + rewrite lookup_insert_eq in Hx. by injection Hx as <-.
    + rewrite lookup_insert_ne in Hx by done. eauto.
Qed.

Section calls.
Context (k k' : kernel) (Hinv : inv k) (Hst : stack_of k (cur k) = []).

Let Ha : alive k := i_alive k Hinv.
Let Hid : idle_thread k ≠ Some (cur k) := not_idle_nil k Hinv Hst.
Let He : in_external_intr k = false := i_ext k Hinv.

(** A call that ends like [thread_yield] or with [intr_set_level]. *)
Lemma inv_call_tail :
  (∃ top, Forall set_level top ∧ outcome k (top ++ stack_of k (cur k)) k') →
  lock_quiet k k' → inv k'.
Proof.
  rewrite Hst. intros Ho Hq. by apply (inv_tail k [] []).
Qed.

Lemma inv_CYield : thread_yield k = Ok (tt, k') → inv k'.
Proof.
  intros H. destruct (yield_outcome k k' Ha He H) as [Ho Hq].
  apply inv_call_tail; [done|by apply quiet_lock].
Qed.

Lemma inv_CSemaInit s v :
  semas k !! SemaAt s = None → k' = set_semas (<[SemaAt s := Sema v []]> (semas k)) k → inv k'.
Proof.
  intros Hn ->. apply (inv_same k); try done.
  - apply (alive_ext k); try done; [|apply (c_pending k (a_core k Ha))].
    intros l. rewrite queue_sema. case_decide; [subst|done]. simpl. by rewrite Hn.
  - split; [done|]. intros l. unfold val. simpl. by rewrite lookup_insert_ne.
Qed.

Lemma inv_CSemaUp s : sema_up (SemaAt s) k = Ok (tt, k') → inv k'.
Proof.
  intros H. assert (∃ v, semas k !! SemaAt s = Some v) as [v Hv].
  { unfold sema_up, get_sema, intr_disable, intr_get_level, gets, modify, mbind, st_bind in H.
    simpl in H. destruct (semas k !! SemaAt s); [eauto|done]. }
  destruct (sema_up_outcome _ v k k' Ha He Hv H) as (Ho & Hl & Hval).
  apply inv_call_tail; [done|]. split; [done|]. intros l. by rewrite Hval, decide_False.
Qed.

Lemma inv_CSemaDown s : sema_down (SemaAt s) k = Ok (tt, k') → inv k'.
Proof.
  intros H. destruct (sema_down_outcome _ k k' Ha He Hid H) as (v & Hv & Hl & Ho).
  destruct (v =? 0).
  - destruct Ho as [Ho Hs]. rewrite Hst in Ho.
    apply (inv_quiet k [] [] [SemaDownLoop (SemaAt s) (intr_on k)]); try done.
    by split; [repeat constructor|].
  - destruct Ho as [Ho Hs]. apply inv_call_tail; [done|]. split; [done|]. intros l.
    rewrite Hs, decide_False by done. apply option_fmap_id.
Qed.

Lemma inv_CLockInit l :
  locks k !! l = None →
  k' = set_semas (<[LockSema l := Sema 1 []]> (semas k)) (set_locks (<[l := None]> (locks k)) k) →
  inv k'.
Proof.
  intros Hn ->. pose proof (i_locks k Hinv l) as Hlo. unfold lock_ok in Hlo. rewrite Hn in Hlo.
  destruct Hlo as [Hv _]. unfold val in Hv. apply fmap_None in Hv.
  apply (inv_run k [] [] []); try done.
  - split; try done. apply (alive_ext k); try done; [|apply (c_pending k (a_core k Ha))].
    intros q. etransitivity; [apply (queue_sema (set_locks (<[l := None]> (locks k)) k))|].
    case_decide; [subst|done]. simpl. by rewrite Hv.
  - intros l'. simpl. unfold lock_change. simpl. pose proof (i_locks k Hinv l') as Hlo.
    unfold lock_ok in Hlo. destruct (decide (l' = l)) as [->|].
    + rewrite Hn, lookup_insert_eq. split; [done|]. unfold val. simpl. by rewrite lookup_insert_eq.
    + rewrite lookup_insert_ne by done. unfold val. simpl. rewrite lookup_insert_ne by congruence.
      destruct (locks k !! l') as [h|]; [|done]. destruct Hlo as (v & Hx & Hx0 & _).
      exists v, v. repeat split; try done. lia.
Qed.

Lemma inv_CLockAcquire l : lock_acquire l k = Ok (tt, k') → inv k'.
Proof. intros H. by apply (inv_lock_acquire k k [] [] [] l). Qed.

Lemma inv_CLockRelease l : lock_release l k = Ok (tt, k') → inv k'.
Proof.
  intros H. apply (inv_lock_release k k [] [] [] l); try done.
Qed.

Lemma inv_CCondInit c : k' = set_conds (<[c := []]> (conds k)) k → inv k'.
Proof. intros ->. apply (inv_same k); try done. by apply alive_conds. Qed.

Lemma inv_CCondSignal c l : cond_signal c l k = Ok (tt, k') → inv k'.
Proof. intros H. destruct (cond_signal_outcome c l k k' Ha He H). by apply inv_call_tail. Qed.

Lemma inv_CCondBroadcast c l : cond_broadcast c l k = Ok (tt, k') → inv k'.
Proof.
  intros H. unfold cond_broadcast in H. bind_in H ws k1 E1. apply get_cond_Ok in E1 as ->.
  destruct ws as [|w ws]; [by injection H as <-|]. push_in H.
  destruct (cond_signal_outcome c l (pushed (CondBroadcast c l) k) k') as [(top & Htop & Ho) Hq];
    [eauto with sched|done|done|].
  simpl in Ho. rewrite stack_pushed, decide_True, Hst in Ho by done.
  apply (inv_quiet k [] [] (top ++ [CondBroadcast c l])); try done.
  - rewrite app_nil_r. by eapply outcome_pushed.
  - split; [|split].
    + apply Forall_app. split; [by apply frame_ok_set_level|by repeat constructor].
    + intros l'. by rewrite tokens_app, tokens_set_level.
    + by rewrite embryos_app, embryos_set_level.
  - rewrite app_nil_r. by apply waits_ok_app.
Qed.

(** The semaphore of the waiter is fresh: nobody is in its queue any more. *)
Lemma alive_waiter_init t v : alive (set_semas (<[WaiterSema t := Sema v []]> (semas k)) k).
Proof.
  destruct Ha as [[H1 H2 H3 H4 H5 H6 H7 H8] Hr Hi].
  assert (Hq : ∀ l x, x ∈ queue (set_semas (<[WaiterSema t := Sema v []]> (semas k)) k) l → x ∈ queue k l).
  { intros l x. rewrite queue_sema. case_decide; [by rewrite elem_of_nil|done]. }
  split; [|done|done]. split; try done.
  - intros l. rewrite queue_sema. case_decide; [constructor|apply H1].
  - intros l1 l2 x Hx1 Hx2. eapply H2; by apply Hq.
  - intros l x Hx. by apply (H3 l), Hq.
  - intros i E. destruct (H4 i E) as [Hn Hex]. split; [|done]. intros l Hx. by apply Hq, Hn in Hx.
Qed.

Lemma inv_CCondWait c l : cond_wait c l k = Ok (tt, k') → inv k'.
Proof.
  intros H. unfold cond_wait, intr_context in H. reads H. clear E.
  bind_in H b k1 E1. unfold lock_held_by_current_thread in E1. reads E1. injection E1 as <- <-.
  bind_in H u k1 E1. apply assert_Ok in E1 as [_ ->].
  bind_in H t k1 E1. apply thread_current_Ok in E1 as [-> ->].
  bind_in H u1 k1 E1. injection E1 as _ <-. set (k1 := set_semas _ k) in H.
  assert (alive k1) as Ha1 by apply alive_waiter_init.
  bind_in H ws k2 E2. apply get_cond_Ok in E2 as ->. bind_in H u2 k2 E2. injection E2 as _ <-.
  push_in H.
  match type of H with lock_release _ (pushed _ ?s) = _ => set (k2 := s) in H end.
  assert (alive k2) as Ha2 by (by apply alive_conds).
  eapply (inv_lock_release k (pushed (WaitSignal l) k2) [] [] [WaitSignal l]); try exact H; try done.
  - intros l'. unfold val. simpl. by rewrite lookup_insert_ne.
  - intros p Hp. rewrite stack_pushed, decide_False by done. done.
  - rewrite stack_pushed, decide_True by done. change (stack_of k2 (cur k2)) with (stack_of k (cur k)).
    by rewrite Hst.
  - by apply alive_pushed.
  - by split; [repeat constructor|].
Qed.

Lemma inv_CSemaTryDown s b : sema_try_down (SemaAt s) k = Ok (b, k') → inv k'.
Proof.
  intros H. destruct (sema_try_down_outcome (SemaAt s) [] k b k') as (v & Hv & Hl & _ & Ho); [done..|].
  destruct (0 <? v); destruct Ho as [Ho Hs].
  - apply inv_call_tail; [done|]. split; [done|]. intros l. rewrite Hs, decide_False by done.
    apply option_fmap_id.
  - apply inv_call_tail; [done|]. by split.
Qed.

Lemma inv_CLockTryAcquire l b : lock_try_acquire l k = Ok (b, k') → inv k'.
Proof.
  intros H. unfold lock_try_acquire in H. bind_in H h k1 E1.
  unfold lock_held_by_current_thread in E1. reads E1. injection E1 as <- <-.
  bind_in H u k1 E1. apply assert_Ok in E1 as [_ ->].
  destruct (sema_try_down_outcome (LockSema l) [LockAcquired l] k b k') as (v & Hv & Hl & _ & Ho);
    [done|done|by repeat constructor|done|].
  destruct (0 <? v) eqn:Ev; destruct Ho as [Ho Hs].
  - bools. destruct Ho as (top & Htop & Ho). rewrite Hst in Ho. simpl in Ho.
    apply (inv_run k [] [] (top ++ [LockAcquired l])); try done.
    + by rewrite app_nil_r.
    + apply Forall_app. split; [by apply frame_ok_set_level|by repeat constructor].
    + rewrite app_nil_r. by apply waits_ok_app.
    + intros t. by rewrite embryos_app, embryos_set_level.
    + intros l'. rewrite tokens_app, tokens_set_level by done. cbn [tokens token].
      pose proof (i_locks k Hinv l') as Hlo. unfold lock_change, lock_ok in *. rewrite Hl.
      pose proof (Hs (LockSema l')) as Hs'. destruct (decide (l = l')) as [<-|Hne].
      * rewrite decide_True, Hv in Hs' by done. rewrite Hv in Hlo.
        destruct (locks k !! l) as [h|]; [|by destruct Hlo]. simpl in Hs'.
        exists v, (-1 + v). repeat split; try done; lia.
      * rewrite decide_False in Hs' by congruence.
        destruct (locks k !! l') as [h'|].
        -- destruct Hlo as (w & Hw & _). rewrite Hw in Hs'. exists w, w. repeat split; try done. lia.
        -- destruct Hlo as [Hw _]. rewrite Hw in *. done.
  - apply inv_call_tail; [done|]. by split.
Qed.

Lemma inv_CTimerSleep n : timer_sleep n k = Ok (tt, k') → inv k'.
Proof.
  intros H. unfold timer_sleep in H. bind_in H o k1 E1. injection E1 as <- <-.
  bind_in H start k1 E1. apply gets_Ok in E1 as [-> ->]. push_in H.
  change (pushed (TimerSleep (ticks (set_intr_on false k)) n) (set_intr_on false k))
    with (set_intr_on false (pushed (TimerSleep (ticks k) n) k)) in H.
  destruct (set_level_outcome (intr_on k) (set_intr_on false (pushed (TimerSleep (ticks k) n) k)) k')
    as [(top & Htop & Ho) Hq]; [eauto with sched|done|done|].
  change (stack_of (set_intr_on false (pushed (TimerSleep (ticks k) n) k)) _)
    with (stack_of (pushed (TimerSleep (ticks k) n) k) (cur k)) in Ho.
  rewrite stack_pushed, decide_True, Hst in Ho by done.
  apply (inv_quiet k [] [] (top ++ [TimerSleep (ticks k) n])); try done.
  - rewrite app_nil_r. eapply outcome_pushed. by eapply outcome_from.
  - split; [|split].
    + apply Forall_app. split; [by apply frame_ok_set_level|by repeat constructor].
    + intros l'. by rewrite tokens_app, tokens_set_level.
    + by rewrite embryos_app, embryos_set_level.
  - rewrite app_nil_r. by apply waits_ok_app.
  - apply quiet_lock in Hq as [Q1 Q2]. by split.
Qed.

(** A change to threads followed by a yield. *)
Lemma inv_touch_yield k1 : touched k k1 → thread_yield k1 = Ok (tt, k') → inv k'.
Proof.
  intros T H. destruct (touched_same _ _ T) as (S1 & S2 & S3 & S4 & S5 & S6 & S7).
  destruct (yield_outcome k1 k') as [(top & Htop & Ho) Hq]; [eauto with sched|congruence|done|].
  apply inv_call_tail.
  - exists top. split; [done|]. unfold stack_of in Ho at 1. rewrite S1, S2 in Ho.
    eapply outcome_from; [done..|]. intros p _. unfold stack_of. by rewrite S2.
  - apply quiet_lock in Hq as [Q1 Q2]. split; [congruence|]. intros l. rewrite Q2.
    unfold val. by rewrite S4.
Qed.

Lemma mlfqs_priority_range r n : PRI_MIN ≤ mlfqs_priority r n ≤ PRI_MAX.
Proof. unfold mlfqs_priority, PRI_MIN, PRI_MAX. cbn zeta. repeat zcase; lia. Qed.

Lemma inv_CSetPriority n : PRI_MIN ≤ n ≤ PRI_MAX → thread_set_priority n k = Ok (tt, k') → inv k'.
Proof.
  intros Hn H. unfold thread_set_priority in H. bind_in H t k1 E1. apply thread_current_Ok in E1 as [-> ->].
  bind_in H u k1 E1. apply update_thread_touched in E1; [|apply Ha|by intros th _ []].
  bind_in H th k2 E2. apply get_thread_Ok in E2 as [-> E2]. bind_in H u1 k2 E3.
  assert (touched k k2) as T.
  { eapply touched_trans; [done|].
    assert (∀ u, update_thread (cur k) (set_priority n) k1 = Ok (u, k2) → touched k1 k2) as Hu.
    { intros u' Hu. eapply update_thread_touched; [eauto with sched|done|].
      intros x _ Hok. split; [done|]. by apply priority_ok. }
    destruct (bool_decide _); [by eapply Hu|]. destruct (_ <? n); [by eapply Hu|].
    injection E3 as _ <-. eauto with sched. }
  by eapply inv_touch_yield.
Qed.

Lemma inv_CSetNice n : thread_set_nice n k = Ok (tt, k') → inv k'.
Proof.
  intros H. unfold thread_set_nice in H. bind_in H t k1 E1. apply thread_current_Ok in E1 as [-> ->].
  bind_in H u k1 E1. apply update_thread_touched in E1; [|apply Ha|by intros th _ []].
  bind_in H u1 k2 E2. unfold thread_update_mlfqs_priority in E2. bind_in E2 i0 k3 E3.
  apply gets_Ok in E3 as [-> ->]. assert (touched k k2) as T.
  { eapply touched_trans; [done|]. destruct (bool_decide _); [injection E2 as _ <-; eauto with sched|].
    eapply update_thread_touched; [eauto with sched|done|]. intros x _ Hok. split; [done|].
    apply priority_ok; [done|]. apply mlfqs_priority_range. }
  by eapply inv_touch_yield.
Qed.

Lemma inv_CIntrDisable : k' = set_intr_on false k → inv k'.
Proof. intros ->. apply (inv_same k); try done. eauto with sched. Qed.

Lemma inv_CIntrEnable b : intr_enable k = Ok (b, k') → inv k'.
Proof.
  intros H. destruct (set_level_outcome true k k' Ha He) as [Ho Hq].
  { unfold intr_set_level. by rewrite (st_run _ _ _ _ _ H). }
  apply inv_call_tail; [done|by apply quiet_lock].
Qed.

Lemma inv_CExit : thread_exit k = Ok (tt, k') → inv k'.
Proof.
  intros H. unfold thread_exit, intr_context in H. reads H. clear E.
  bind_in H o k1 E1. injection E1 as _ <-. destruct (alive_cur k Ha) as (th & Ht & Hs).
  assert (alive (set_intr_on false k)) as Hai by eauto with sched.
  rewrite (st_run _ _ _ _ _ (thread_current_ok _ Hai)) in H.
  bind_in H u k1 E1. injection E1 as _ <-. simpl in H.
  erewrite st_run in H by (apply update_thread_ok; exact Ht).
  set (th' := set_status THREAD_DYING th) in H.
  match type of H with schedule ?s = _ => set (k1 := s) in H end.
  pose proof (a_idle k Ha) as [i Hi].
  destruct (stop_current (set_intr_on false k) k1 th' None) as [Hc1 Hs1]; try done.
  - apply moved_nowhere; [apply Hai|apply nowhere_running; apply Hai|done].
  - apply thread_ok_status. eapply c_thread; [apply Ha|done].
  - destruct (schedule_ok k1 i th') as (k2 & Hk2 & Hc2 & Hr2 & Hkept & _); try done.
    { simpl. by rewrite lookup_insert_eq. }
    assert (k2 = k') as -> by congruence.
    apply (inv_quiet k [] [] []); try done.
    + split; [|apply (k_ext _ _ Hkept)|apply (k_idle _ _ Hkept)| |].
      * split; [done|done|]. rewrite (k_idle _ _ Hkept). simpl. eauto.
      * intros p Hp. unfold stack_of. by rewrite (k_pend _ _ Hkept).
      * unfold stack_of. destruct (threads k' !! cur k) as [xh|] eqn:Hx.
        -- pose proof (k_pend_cur _ _ Hkept) as Hp. simpl in Hp. rewrite Hp by (by rewrite Hx). exact Hst.
        -- by rewrite (c_pending k' Hc2).
    + destruct (kept_quiet _ _ Hkept) as [Q1 Q2]. split; [exact Q1|]. intros l. exact (Q2 (LockSema l)).
Qed.

Lemma inv_CCreate t nm prio p x :
  threads k !! t = None →
  (push_frame (ThreadInited t p Other);; init_thread t nm prio;; mret x) k = Ok (Some t, k') → inv k'.
Proof.
  intros Hn H. push_in H. unfold init_thread in H. bind_in H u k1 E1.
  bind_in E1 u1 k2 E2. apply assert_Ok in E2 as [E2 ->]. bools. clear u1.
  erewrite st_run in E1 by reflexivity. erewrite st_run in E1 by reflexivity.
  erewrite st_run in E1 by reflexivity. injection H as _ <-.
  change (intr_set_level (intr_on k) (conceived t nm prio p Other k) = Ok (u, k1)) in E1. destruct u.
  assert (alive (conceived t nm prio p Other k)) as Hac by (by apply alive_conceived).
  destruct (alive_cur k Ha) as (c & Hc & _).
  assert (inv (conceived t nm prio p Other k)) as Hinvc.
  { assert (Hstk : ∀ q, stack_of (conceived t nm prio p Other k) q =
                        stack_of (pushed (ThreadInited t p Other) k) q) by done.
    eapply (inv_step k _ [ThreadInited t p Other]); try done.
    - split; try done.
      + intros q Hq. by rewrite Hstk, stack_pushed, decide_False.
      + rewrite Hstk, stack_pushed, decide_True by done. by rewrite Hst.
    - by repeat constructor.
    - simpl. intros x0. rewrite list_elem_of_singleton. intros ->. split; [congruence|].
      unfold stack_of. by rewrite (c_pending k (a_core k Ha)).
    - intros l. rewrite Hst. by apply lock_same. }
  destruct (set_level_outcome _ _ _ Hac He E1) as [Ho Hq].
  apply (inv_tail _ [] (stack_of (conceived t nm prio p Other k) (cur k)) _ Hinvc); try done.
  - by apply quiet_lock.
Qed.
End calls.

(** Every primitive keeps the invariant. *)
Lemma inv_call c k k' :
  inv k → stack_of k (cur k) = [] → call_ok c k → run_call c k = Ok (tt, k') → inv k'.
Proof.
  intros Hinv Hst Hok H.
  assert (∀ A (m : K A), (m;; mret tt) k = Ok (tt, k') → ∃ a, m k = Ok (a, k')) as Hseq.
  { intros A m Hm. bind_in Hm a k1 E. injection Hm as <-. eauto. }
  destruct c; cbn [run_call call_ok] in *.
  - by eapply inv_CYield.
  - apply Hseq in H as [r H]. destruct page as [t|]; simpl in H; [|by injection H as _ <-].
    assert (r = Some t) as ->.
    { bind_in H u k1 E1. bind_in H u1 k2 E2. by injection H as <- _. }
    by eapply inv_CCreate.
  - injection H as <-. by eapply inv_CSemaInit.
  - by eapply inv_CSemaDown.
  - apply Hseq in H as [r H]. by eapply inv_CSemaTryDown.
  - by eapply inv_CSemaUp.
  - injection H as <-. by eapply inv_CLockInit.
  - by eapply inv_CLockAcquire.
  - apply Hseq in H as [r H]. by eapply inv_CLockTryAcquire.
  - by eapply inv_CLockRelease.
  - injection H as <-. by eapply inv_CCondInit.
  - by eapply inv_CCondWait.
  - by eapply inv_CCondSignal.
  - by eapply inv_CCondBroadcast.
  - by eapply inv_CTimerSleep.
  - by eapply inv_CSetPriority.
  - by eapply inv_CSetNice.
  - apply Hseq in H as [r H]. injection H as _ <-. by eapply inv_CIntrDisable.
  - apply Hseq in H as [r H]. by eapply inv_CIntrEnable.
  - by eapply inv_CExit.
Qed.
