(* ===== verification/SchedTimer.v ===== *)
(** * The timer interrupt, and the theorems about the scheduler *)

From S2P Require Import Prelude Arith64 FixedPoint Thread Synch Sched SchedInv SchedOps SchedCalls.

(** ** Changes outside the scheduler's structures *)

Record calm (k k' : kernel) : Prop := {
  m_cur : cur k' = cur k;
  m_pending : pending k' = pending k;
  m_semas : semas k' = semas k;
  m_locks : locks k' = locks k;
  m_conds : conds k' = conds k;
  m_ready : ready_list k' = ready_list k;
  m_sleep : sleeping_list k' = sleeping_list k;
  m_all : all_list k' = all_list k;
  m_idle : idle_thread k' = idle_thread k;
  m_intr : intr_on k' = intr_on k;
  m_ext : in_external_intr k' = in_external_intr k;
  m_ticks : ticks k' = ticks k;
  m_status : ∀ t, status <$> threads k' !! t = status <$> threads k !! t;
  m_wake : ∀ t, wake_time <$> threads k' !! t = wake_time <$> threads k !! t;
  m_ok : ∀ t th, threads k' !! t = Some th → thread_ok th;
}.

Lemma calm_trans k1 k2 k3 : calm k1 k2 → calm k2 k3 → calm k1 k3.
Proof.
  intros H1 H2. destruct H1, H2. split; try congruence. done.
Qed.

Lemma calm_alive k k' : alive k → calm k k' → alive k'.
Proof.
  intros Ha [M1 M2 M3 M4 M5 M6 M7 M8 M9 M10 M11 M12 M13 M14 M15].
  apply (alive_ext (set_threads (threads k') k)); try done.
  - intros []; simpl; rewrite ?M2, ?M3, ?M6, ?M7; done.
  - intros p Hp. simpl in Hp. rewrite M2. apply (c_pending k (a_core k Ha)).
    specialize (M13 p). rewrite Hp in M13. by destruct (threads k !! p).
  - apply (touched_alive k); [done|]. by exists (threads k').
Qed.

(** Discharge [calm] for an update of fields it does not list. *)
Ltac calm_same Hc := split; try done; exact (c_thread _ Hc).

Lemma calm_put k t th th' :
  core k → threads k !! t = Some th → status th' = status th → wake_time th' = wake_time th →
  thread_ok th' → calm k (set_threads (<[t := th']> (threads k)) k).
Proof.
  intros Hc Ht Hs Hw Hok. split; try done; simpl.
  1, 2: intros x; destruct (decide (x = t)) as [->|];
    [rewrite lookup_insert_eq, Ht; simpl; congruence|by rewrite lookup_insert_ne].
  intros x xh. destruct (decide (x = t)) as [->|].
  - rewrite lookup_insert_eq. by intros [= <-].
  - rewrite lookup_insert_ne by done. eauto with sched.
Qed.

Lemma calm_refl k : core k → calm k k.
Proof. intros Hc. calm_same Hc. Qed.

Lemma calm_core k k' : alive k → calm k k' → core k'.
Proof. intros Ha Hm. by eapply a_core, calm_alive. Qed.

#[local] Hint Resolve calm_refl calm_core calm_alive a_core : sched.

Lemma update_thread_calm t f k u k' :
  core k → update_thread t f k = Ok (u, k') →
  (∀ th, thread_ok th → status (f th) = status th ∧ wake_time (f th) = wake_time th ∧ thread_ok (f th)) →
  calm k k'.
Proof.
  intros Hc H Hf. unfold update_thread in H. bind_in H th k1 E1. apply get_thread_Ok in E1 as [-> E1].
  injection H as _ <-. destruct (Hf th) as (? & ? & ?); [eauto with sched|]. by eapply calm_put.
Qed.

Lemma foreach_calm (func : ptr → K unit) es k u k' :
  alive k → (∀ t k u k', alive k → func t k = Ok (u, k') → calm k k') →
  foreach_loop func es k = Ok (u, k') → calm k k'.
Proof.
  intros Ha Hf. revert k Ha. induction es as [|e es IH]; intros k Ha H; simpl in H.
  - injection H as _ <-. eauto with sched.
  - bind_in H u1 k1 E1. apply Hf in E1; [|done]. eapply calm_trans; [done|]. eapply IH; [|done].
    eauto with sched.
Qed.

Lemma lift_Ok {A} (r : result A) (k : kernel) a k' : lift r k = Ok (a, k') → k' = k.
Proof. unfold lift. destruct r; [|done]. by intros [= _ <-]. Qed.

Lemma update_recent_cpu_calm t k u k' : alive k → update_recent_cpu t k = Ok (u, k') → calm k k'.
Proof.
  intros Ha H. unfold update_recent_cpu in H. bind_in H la k1 E1. apply gets_Ok in E1 as [-> ->].
  bind_in H a k1 E1. apply lift_Ok in E1 as ->. bind_in H th k1 E1. apply get_thread_Ok in E1 as [-> E1].
  bind_in H r k1 E2. apply lift_Ok in E2 as ->. injection H as _ <-.
  eapply calm_put; eauto with sched. by destruct (c_thread k (a_core k Ha) _ _ E1).
Qed.

Lemma mlfqs_priority_calm t k u k' : alive k → thread_update_mlfqs_priority t k = Ok (u, k') → calm k k'.
Proof.
  intros Ha H. unfold thread_update_mlfqs_priority in H. bind_in H i k1 E1. apply gets_Ok in E1 as [-> ->].
  destruct (bool_decide _); [injection H as _ <-; eauto with sched|].
  eapply update_thread_calm; [eauto with sched|done|]. intros th Hok. split; [done|]. split; [done|].
  apply priority_ok; [done|]. apply mlfqs_priority_range.
Qed.

Lemma foreach_all_calm (func : ptr → K unit) k u k' :
  alive k → (∀ t k u k', alive k → func t k = Ok (u, k') → calm k k') →
  thread_foreach func k = Ok (u, k') → calm k k'.
Proof.
  intros Ha Hf H. unfold thread_foreach, intr_get_level in H. bind_in H l k1 E1.
  apply gets_Ok in E1 as [-> ->]. bind_in H u1 k1 E1. apply assert_Ok in E1 as [_ ->].
  bind_in H es k1 E1. apply gets_Ok in E1 as [-> ->]. by eapply foreach_calm.
Qed.

Lemma update_load_avg_calm k u k' : alive k → update_load_avg k = Ok (u, k') → calm k k'.
Proof.
  intros Ha H. unfold update_load_avg in H. bind_in H la k1 E1. apply gets_Ok in E1 as [-> ->].
  bind_in H m k1 E1. apply lift_Ok in E1 as ->. bind_in H t k1 E1. apply thread_current_Ok in E1 as [-> ->].
  bind_in H x k1 E1. apply gets_Ok in E1 as [-> ->]. injection H as _ <-.
  pose proof (a_core k Ha) as Hc. calm_same Hc.
Qed.

Lemma yield_on_return_calm k u k' : alive k → intr_yield_on_return k = Ok (u, k') → calm k k'.
Proof.
  intros Ha H. unfold intr_yield_on_return, intr_context in H. bind_in H l k1 E1.
  apply gets_Ok in E1 as [-> ->]. bind_in H u1 k1 E1. apply assert_Ok in E1 as [_ ->].
  injection H as _ <-. pose proof (a_core k Ha) as Hc. calm_same Hc.
Qed.

Lemma mlfqs_tick_calm t k u k' : alive k → mlfqs_tick t k = Ok (u, k') → calm k k'.
Proof.
  intros Ha H. unfold mlfqs_tick in H. bind_in H u1 k1 E1.
  apply update_thread_calm in E1; [|eauto with sched|by intros th []].
  bind_in H n k2 E2. apply gets_Ok in E2 as [-> ->]. bind_in H u2 k2 E2.
  assert (alive k1) as Ha1 by eauto with sched.
  assert (calm k1 k2) as C2.
  { destruct (Z.rem _ TIMER_FREQ =? 0); [|injection E2 as _ <-; eauto with sched].
    bind_in E2 u3 k3 E3. apply update_load_avg_calm in E3; [|done].
    assert (alive k3) as Ha3 by eauto with sched.
    bind_in E2 la k4 E4. apply gets_Ok in E4 as [-> ->]. bind_in E2 lc k4 E4. apply lift_Ok in E4 as ->.
    bind_in E2 u4 k4 E4. injection E4 as _ <-.
    assert (calm k3 (set_load_coefficient lc k3)) as C4.
    { pose proof (a_core k3 Ha3) as Hc. calm_same Hc. }
    apply foreach_all_calm in E2; [|eauto with sched|apply update_recent_cpu_calm].
    eapply calm_trans; [done|]. by eapply calm_trans. }
  assert (alive k2) as Ha2 by eauto with sched.
  eapply calm_trans; [done|]. eapply calm_trans; [done|].
  destruct (Z.rem _ 4 =? 0); [|injection H as _ <-; eauto with sched].
  bind_in H u3 k3 E3. apply foreach_all_calm in E3; [|done|apply mlfqs_priority_calm].
  apply yield_on_return_calm in H; [|eauto with sched]. by eapply calm_trans.
Qed.

Lemma count_tick_calm t k u k' : alive k → count_tick t k = Ok (u, k') → calm k k'.
Proof.
  intros Ha H. unfold count_tick in H. bind_in H th k1 E1. apply get_thread_Ok in E1 as [-> _].
  bind_in H i k1 E1. apply gets_Ok in E1 as [-> ->]. pose proof (a_core k Ha) as Hc.
  destruct (bool_decide _); [|destruct (negb _)]; injection H as _ <-; calm_same Hc.
Qed.

(** ** Waking sleepers *)

Definition due (k : kernel) (now : Z) (t : ptr) : Prop :=
  match threads k !! t with Some th => wake_time th ≤ now | None => False end.

#[export] Instance due_dec k now t : Decision (due k now t).
Proof. unfold due. destruct (threads k !! t); apply _. Defined.

(** The state after the threads [ws] have been woken. *)
Record woken (k : kernel) (ws : list ptr) (k' : kernel) : Prop := {
  w_alive : alive k';
  w_sleep : sleeping_list k' = filter (λ t, t ∉ ws) (sleeping_list k);
  w_ready : ready_list k' = ready_list k ++ ws;
  w_threads : ∀ t, t ∉ ws → threads k' !! t = threads k !! t;
  w_cur : cur k' = cur k;
  w_pending : pending k' = pending k;
  w_semas : semas k' = semas k;
  w_locks : locks k' = locks k;
  w_conds : conds k' = conds k;
  w_all : all_list k' = all_list k;
  w_idle : idle_thread k' = idle_thread k;
  w_intr : intr_on k' = false;
  w_ext : in_external_intr k' = in_external_intr k;
  w_ticks : ticks k' = ticks k;
  w_yield : yield_on_return k' = yield_on_return k;
}.

(** Waking the first of them. *)
Lemma wake_one k e th :
  alive k → intr_on k = false → e ∈ sleeping_list k → threads k !! e = Some th →
  ∃ k', (update_thread e (set_wake_time (-1));;
         modify (λ k, set_sleeping_list (remove e (sleeping_list k)) k);;
         thread_unblock e) k = Ok (tt, k') ∧ woken k [e] k'.
Proof.
  intros Ha Hi Hin Ht. pose proof (a_core k Ha) as Hc.
  destruct (c_status k Hc AtSleep e Hin) as (x & Hx & Hs). assert (x = th) as -> by congruence.
  simpl in Hs. erewrite st_run by (apply update_thread_ok; exact Ht). erewrite st_run by reflexivity.
  set (th1 := set_wake_time (-1) th).
  set (k1 := set_threads (<[e := th1]> (threads k)) k).
  set (k2 := set_sleeping_list (remove e (sleeping_list k1)) k1).
  assert (alive k1) as Ha1.
  { apply (touched_alive k); [done|]. apply (touched_put k e th); try done.
    by destruct (c_thread k Hc _ _ Ht). }
  assert (moved k1 k2 e None) as Hm.
  { apply (moved_from _ _ _ AtSleep); [apply Ha1|by left| |done]. intros []; done. }
  assert (threads k2 !! e = Some th1) as Ht2 by (simpl; by rewrite lookup_insert_eq).
  assert (idle_thread k2 ≠ Some e) as Hid by (intros E; by apply (nowhere_idle k e Hc E AtSleep)).
  assert (alive k2) as Ha2.
  { destruct Ha1 as [Hc1 Hr1 Hi1]. split; [|done|done].
    assert (status th1 = THREAD_BLOCKED) as Hs1 by done.
    eapply (core_move k1 k2 e th1 th1 None); rewrite ?Hs1; try done.
    - simpl. by rewrite insert_insert_eq.
    - by eapply (c_thread k1 Hc1 e). }
  assert (nowhere k2 e) as Hn.
  { intros l Hl. apply (proj2 Hm) in Hl as [[? _]|[_ ?]]; done. }
  change (modify _ _) with (modify (λ k, set_sleeping_list (remove e (sleeping_list k)) k) k1).
  rewrite (thread_unblock_eq e th1 k2) by done.
  change (intr_on k2) with (intr_on k). rewrite Hi.
  exists (unblocked e th1 k2). split.
  { unfold intr_set_level, intr_disable, intr_get_level, gets, modify, mbind, st_bind. simpl.
    by rewrite (set_intr_false _ (intr_unblocked e th1 k2)). }
  assert (alive (unblocked e th1 k2)) as Hau by (by apply alive_unblocked).
  assert (Hf : ∀ (b : bool) (kk : kernel), alive (if b then set_thread_waiting true kk else kk) →
    kk = set_threads (<[e := set_status THREAD_READY th1]> (threads k2))
           (set_ready_list (ready_list k2 ++ [e]) (set_intr_on false k2)) →
    woken k [e] (if b then set_thread_waiting true kk else kk)).
  { intros b kk Hal ->. assert (Hsl : filter (λ t, t ∉ [e]) (sleeping_list k) = remove e (sleeping_list k)).
    { unfold remove. apply list_filter_iff. intros x. rewrite list_elem_of_singleton. done. }
    assert (Hth : ∀ t, t ∉ [e] → <[e := set_status THREAD_READY th1]> (<[e := th1]> (threads k)) !! t = threads k !! t).
    { intros t. rewrite list_elem_of_singleton. intros Hne. by rewrite !lookup_insert_ne. }
    destruct b; split; try done. }
  by apply (Hf (prio _ _ <? prio _ _)).
Qed.

Lemma woken_trans k ws1 k1 ws2 k2 :
  woken k ws1 k1 → woken k1 ws2 k2 → woken k (ws1 ++ ws2) k2.
Proof.
  intros [] []. split; try congruence; try done.
  - rewrite w_sleep1, w_sleep0, list_filter_filter. apply list_filter_iff. intros x.
    rewrite elem_of_app. tauto.
  - by rewrite w_ready1, w_ready0, app_assoc.
  - intros t. rewrite elem_of_app. intros Ht. rewrite w_threads1, w_threads0; tauto.
Qed.

Lemma woken_refl k : alive k → intr_on k = false → woken k [] k.
Proof.
  intros Ha Hi. split; try done.
  - induction (sleeping_list k) as [|x l IH]; [done|].
    rewrite filter_cons_True by apply not_elem_of_nil. by f_equal.
  - by rewrite app_nil_r.
Qed.

(** The whole scan of the list of sleepers. *)
Lemma wake_loop_ok now es k :
  alive k → intr_on k = false → NoDup es → (∀ e, e ∈ es → e ∈ sleeping_list k) →
  ∃ k', wake_loop now es k = Ok (tt, k') ∧ woken k (filter (due k now) es) k'.
Proof.
  revert k. induction es as [|e es IH]; intros k Ha Hi Hnd Hin; simpl.
  { exists k. split; [done|]. by apply woken_refl. }
  apply NoDup_cons in Hnd as [Hne Hnd].
  assert (e ∈ sleeping_list k) as He by (apply Hin; left).
  destruct (queue_is_Some k AtSleep e (a_core k Ha) He) as [th Ht].
  rewrite (st_run _ _ _ _ _ (get_thread_ok _ _ _ Ht)).
  rewrite filter_cons. destruct (Z.leb_spec (wake_time th) now) as [Hle|Hgt].
  - rewrite decide_True by (unfold due; by rewrite Ht).
    destruct (wake_one k e th Ha Hi He Ht) as (k1 & Hr & Hw). rewrite (st_run _ _ _ _ _ Hr).
    destruct (IH k1) as (k2 & -> & Hw2); [apply Hw|apply Hw|done| |].
    { intros x Hx. rewrite (w_sleep _ _ _ Hw). apply list_elem_of_filter. split.
      - rewrite list_elem_of_singleton. congruence.
      - apply Hin. by right. }
    exists k2. split; [done|]. change (e :: ?l) with ([e] ++ l). eapply woken_trans; [done|].
    replace (filter (due k now) es) with (filter (due k1 now) es); [done|].
    assert (∀ l : list ptr, e ∉ l → filter (due k1 now) l = filter (due k now) l) as Hf; [|by apply Hf].
    intros l. induction l as [|x l IHl]; [done|]. intros [Hx Hl]%not_elem_of_cons.
    assert (due k1 now x ↔ due k now x) as Hd.
    { unfold due. rewrite (w_threads _ _ _ Hw); [done|]. rewrite list_elem_of_singleton. congruence. }
    rewrite !filter_cons. destruct (decide (due k1 now x)), (decide (due k now x)); try tauto.
    by rewrite IHl.
  - rewrite decide_False by (unfold due; rewrite Ht; lia).
    erewrite st_run by reflexivity. apply IH; try done. intros x Hx. apply Hin. by right.
Qed.

Lemma wake_sleeping_threads_ok now k :
  alive k → intr_on k = false →
  ∃ k', wake_sleeping_threads now k = Ok (tt, k') ∧ woken k (filter (due k now) (sleeping_list k)) k'.
Proof.
  intros Ha Hi. unfold wake_sleeping_threads, intr_get_level. erewrite st_run by reflexivity.
  rewrite Hi. erewrite st_run by reflexivity. erewrite st_run by reflexivity.
  apply wake_loop_ok; try done. apply (c_nodup k (a_core k Ha) AtSleep).
Qed.

(** ** The interrupt *)

(** [thread_tick] up to the waking: statistics, priorities, end of the time slice. *)
Lemma thread_tick_split k k' :
  alive k → intr_on k = false → thread_tick k = Ok (tt, k') →
  ∃ k1, calm k k1 ∧ woken k1 (filter (due k1 (ticks k1)) (sleeping_list k1)) k'.
Proof.
  intros Ha Hi H. unfold thread_tick in H. bind_in H t k1 E1. apply thread_current_Ok in E1 as [-> ->].
  bind_in H u1 k1 E1. apply count_tick_calm in E1; [|done]. assert (alive k1) as Ha1 by eauto with sched.
  bind_in H m k2 E2. apply gets_Ok in E2 as [-> ->]. bind_in H u2 k2 E2.
  assert (calm k1 k2) as C2.
  { destruct (thread_mlfqs k1); [by eapply mlfqs_tick_calm|].
    bind_in E2 u3 k3 E3. injection E3 as _ <-.
    assert (calm k1 (set_thread_ticks (u32 (thread_ticks k1 + 1)) k1)) as C3.
    { pose proof (a_core k1 Ha1) as Hc. calm_same Hc. }
    bind_in E2 n k4 E4. apply gets_Ok in E4 as [-> ->]. destruct (TIME_SLICE <=? _).
    - apply yield_on_return_calm in E2; [|eauto with sched]. by eapply calm_trans.
    - by injection E2 as _ <-. }
  assert (calm k k2) as C by (by eapply calm_trans).
  assert (alive k2) as Ha2 by eauto with sched.
  assert (intr_on k2 = false) as Hi2 by (by rewrite (m_intr _ _ C)).
  bind_in H now k3 E3.
  assert (now = ticks k2 ∧ k3 = k2) as [-> ->].
  { unfold timer_ticks, intr_disable, intr_get_level, intr_set_level, gets, modify, mbind, st_bind in E3.
    simpl in E3. rewrite Hi2 in E3. injection E3 as <- <-. by rewrite !(set_intr_false k2 Hi2). }
  destruct (wake_sleeping_threads_ok (ticks k2) k2 Ha2 Hi2) as (k4 & Hr & Hw).
  exists k2. split; [done|]. congruence.
Qed.

(** The timer interrupt keeps the invariant. *)
Lemma inv_timer k k' : inv k → intr_handler_timer k = Ok (tt, k') → inv k'.
Proof.
  intros Hinv H. unfold intr_handler_timer, intr_get_level, intr_context in H. push_in H.
  erewrite st_run in H by reflexivity. bind_in H l k0 E0. apply gets_Ok in E0 as [-> ->].
  bind_in H u k0 E0. apply assert_Ok in E0 as [_ ->]. bind_in H c k0 E0. apply gets_Ok in E0 as [-> ->].
  bind_in H u1 k0 E0. apply assert_Ok in E0 as [_ ->].
  erewrite st_run in H by reflexivity. erewrite st_run in H by reflexivity.
  bind_in H u2 k1 E1. unfold timer_interrupt in E1. erewrite st_run in E1 by reflexivity. destruct u2.
  match type of E1 with thread_tick ?s = _ => set (ks := s) in E1 end.
  assert (alive ks) as Has.
  { assert (alive (pushed Iret k)) as Hap by (apply alive_pushed; [done|apply Hinv]).
    apply (alive_ext (pushed Iret k)); try done. apply (c_pending _ (a_core _ Hap)). }
  destruct (thread_tick_split ks k1 Has eq_refl E1) as (kt & Ct & Wt).
  bind_in H l k2 E2. apply gets_Ok in E2 as [-> ->]. bind_in H u2 k2 E2. apply assert_Ok in E2 as [_ ->].
  bind_in H c k2 E2. apply gets_Ok in E2 as [-> ->]. bind_in H u3 k2 E2. apply assert_Ok in E2 as [_ ->].
  erewrite st_run in H by reflexivity. bind_in H y k2 E2. apply gets_Ok in E2 as [-> ->].
  set (k2 := set_in_external_intr false k1) in H.
  assert (alive k2) as Ha2.
  { apply (alive_ext k1); try done; [|apply Wt]. apply (c_pending _ (a_core _ (w_alive _ _ _ Wt))). }
  assert (Hstk : ∀ p, stack_of k2 p = stack_of (pushed Iret k) p).
  { intros p. unfold stack_of. change (pending k2) with (pending k1).
    by rewrite (w_pending _ _ _ Wt), (m_pending _ _ Ct). }
  assert (cur k2 = cur k) as Hcur by (change (cur k2) with (cur k1); by rewrite (w_cur _ _ _ Wt), (m_cur _ _ Ct)).
  assert (inv k2) as Hinv2.
  { eapply (inv_quiet k [] (stack_of k (cur k)) [Iret]); try done.
    - split; try done.
      + symmetry. apply Hinv.
      + change (idle_thread k1 = idle_thread k). by rewrite (w_idle _ _ _ Wt), (m_idle _ _ Ct).
      + intros p Hp. rewrite Hstk, stack_pushed. by rewrite decide_False.
      + by rewrite Hstk, stack_pushed, decide_True.
    - by split; [repeat constructor|].
    - exact (proj2 (i_stacks k Hinv (cur k))).
    - intros Hi. apply (i_idle k Hinv) in Hi. destruct Hi as (top & b & -> & Ht & Hb).
      exists (Iret :: top), b. split; [done|]. split; [by constructor|done].
    - split; [change (locks k1 = locks k); by rewrite (w_locks _ _ _ Wt), (m_locks _ _ Ct)|].
      intros l'. unfold val. change (semas k2) with (semas k1).
      by rewrite (w_semas _ _ _ Wt), (m_semas _ _ Ct). }
  destruct (yield_on_return _); [|by injection H as <-].
  destruct (yield_outcome k2 k' Ha2 eq_refl H) as [Ho Hq].
  apply (inv_tail k2 [] (stack_of k2 (cur k2))); try done.
  - by apply quiet_lock.
  - intros Hi. by apply (i_idle k2 Hinv2).
Qed.
