(* ===== verification/Donation.v ===== *)
(** * The chain of priority donations

    [thread_donate_priority] follows the chain lock, holder, lock the holder needs, and
    so on.  The walk ends exactly when the chain does: if it ends at all it visits no lock
    twice, so a bound of the number of locks is enough.  Since [lock_needed] is not
    cleared when the lock is obtained, the chain can be a cycle, and then the loop runs
    for ever. *)

From S2P Require Import Prelude Arith64 FixedPoint Thread Synch Sched SchedInv.

(** ** The chain *)

Definition holder_of (k : kernel) (l : ptr) : option ptr := mjoin (locks k !! l).

Definition chain (k : kernel) (l : ptr) : option ptr :=
  h ← holder_of k l; th ← threads k !! h; lock_needed th.

(** The locks visited, when the walk ends within the fuel. *)
Fixpoint walk (fuel : nat) (k : kernel) (next_lock : option ptr) : option (list ptr) :=
  match next_lock with
  | None => Some []
  | Some l =>
      match fuel with
      | O => None
      | S fuel => ls ← walk fuel k (chain k l); Some (l :: ls)
      end
  end.

Lemma walk_length n k nl ls : walk n k nl = Some ls → walk (length ls) k nl = Some ls.
Proof.
  revert nl ls. induction n as [|n IH]; intros [l|] ls H; simpl in H; simplify_eq; try done.
  apply bind_Some in H as (ls' & H & [= <-]). simpl. by rewrite (IH _ _ H).
Qed.

Lemma walk_mono n m k nl ls : walk n k nl = Some ls → (n ≤ m)%nat → walk m k nl = Some ls.
Proof.
  revert m nl ls. induction n as [|n IH]; intros m [l|] ls H Hm; simpl in H; simplify_eq.
  1, 3: by destruct m. apply bind_Some in H as (ls' & H & [= <-]).
  destruct m as [|m]; [lia|]. simpl. by rewrite (IH m _ _ H) by lia.
Qed.

(** The walk from a visited lock is a suffix of the walk. *)
Lemma walk_suffix n k nl ls l :
  walk n k nl = Some ls → l ∈ ls →
  ∃ ls', walk n k (Some l) = Some ls' ∧ (length ls' ≤ length ls)%nat.
Proof.
  revert nl ls. induction n as [|n IH]; intros [l0|] ls H Hl; simpl in H; simplify_eq;
    try by apply elem_of_nil in Hl.
  apply bind_Some in H as (ls' & H & [= <-]). apply elem_of_cons in Hl as [->|Hl].
  - exists (l0 :: ls'). split; [simpl; by rewrite H|done].
  - destruct (IH _ _ H Hl) as (ls2 & H2 & Hlen). exists ls2. split; [|simpl; lia].
    eapply walk_mono; [exact H2|lia].
Qed.

Lemma walk_NoDup n k nl ls : walk n k nl = Some ls → NoDup ls.
Proof.
  revert nl ls. induction n as [|n IH]; intros [l|] ls H; simpl in H; simplify_eq; try constructor.
  apply bind_Some in H as (ls' & H & [= <-]). constructor; [|by eapply IH].
  intros Hl. destruct (walk_suffix _ _ _ _ _ H Hl) as (ls2 & H2 & Hlen).
  assert (walk (S n) k (Some l) = Some (l :: ls')) as H3 by (simpl; by rewrite H).
  apply (walk_mono _ (S n)) in H2; [|lia]. rewrite H2 in H3. injection H3 as ->. simpl in Hlen. lia.
Qed.

(** ** The loop walks the chain *)

Definition same_chain (k k1 : kernel) : Prop :=
  locks k1 = locks k ∧ ∀ t, lock_needed <$> threads k1 !! t = lock_needed <$> threads k !! t.

Lemma chain_same k k1 l : same_chain k k1 → chain k1 l = chain k l.
Proof.
  intros [Hl Ht]. unfold chain, holder_of. rewrite Hl. destruct (mjoin (locks k !! l)) as [h|]; [|done].
  simpl. specialize (Ht h). destruct (threads k1 !! h), (threads k !! h); simpl in *; congruence.
Qed.

Lemma walk_same k k1 n nl : same_chain k k1 → walk n k1 nl = walk n k nl.
Proof.
  intros Hs. revert nl. induction n as [|n IH]; intros [l|]; simpl; try done.
  by rewrite (chain_same k k1 l Hs), IH.
Qed.

Lemma donate_loop_step n l c k u k' :
  donate_loop (S n) (Some l) c k = Ok (u, k') →
  ∃ h k1, locks k !! l = Some (Some h) ∧ same_chain k k1 ∧
    (∀ m, donate_loop (S m) (Some l) c k = donate_loop m (chain k l) h k1).
Proof.
  simpl. intros H. bind_in H oh k1 E1. apply get_holder_Ok in E1 as [-> E1].
  destruct oh as [h|]; [|done]. bind_in H cth k1 E2. apply get_thread_Ok in E2 as [-> E2].
  bind_in H u1 k1 E3. bind_in H hth k2 E4. apply get_thread_Ok in E4 as [-> E4].
  assert (E3' := E3). unfold update_thread in E3. bind_in E3 x k3 E5. apply get_thread_Ok in E5 as [-> E5].
  injection E3 as _ <-. simpl in E4. rewrite lookup_insert_eq in E4. injection E4 as <-.
  set (k1 := set_threads (<[h := set_priority (priority cth) x]> (threads k)) k) in *.
  exists h, k1. split; [done|]. split.
  - split; [done|]. intros t. simpl. destruct (decide (t = h)) as [->|].
    + by rewrite lookup_insert_eq, E5.
    + by rewrite lookup_insert_ne.
  - intros m. assert (get_holder l k = Ok (Some h, k)) as Hg by (unfold get_holder; by rewrite E1).
    rewrite (st_run _ _ _ _ _ Hg), (st_run _ _ _ _ _ (get_thread_ok _ _ _ E2)), (st_run _ _ _ _ _ E3').
    assert (threads k1 !! h = Some (set_priority (priority cth) x)) as Hh
      by (simpl; by rewrite lookup_insert_eq).
    rewrite (st_run _ _ _ _ _ (get_thread_ok _ _ _ Hh)). simpl.
    unfold chain, holder_of. rewrite E1. simpl. by rewrite E5.
Qed.

Lemma donate_walk n nl c k u k' :
  donate_loop n nl c k = Ok (u, k') →
  ∃ ls, walk n k nl = Some ls ∧ ∀ l, l ∈ ls → is_Some (locks k !! l).
Proof.
  revert nl c k. induction n as [|n IH]; intros [l|] c k H; try done.
  1, 3: exists []; split; [done|]; intros l Hl; by apply elem_of_nil in Hl.
  destruct (donate_loop_step _ _ _ _ _ _ H) as (h & k1 & Hl & Hs & Hstep). rewrite Hstep in H.
  destruct (IH _ _ _ H) as (ls & Hw & Hls). rewrite (walk_same k k1) in Hw by done.
  exists (l :: ls). simpl. rewrite Hw. split; [done|]. intros x Hx.
  apply elem_of_cons in Hx as [->|Hx]; [eauto|]. rewrite <- (proj1 Hs). by apply Hls.
Qed.

Lemma donate_fuel n m nl c k u k' ls :
  donate_loop n nl c k = Ok (u, k') → walk m k nl = Some ls → donate_loop m nl c k = Ok (u, k').
Proof.
  revert m nl c k ls. induction n as [|n IH]; intros m [l|] c k ls H Hw; try done.
  1, 3: by destruct m.
  destruct (donate_loop_step _ _ _ _ _ _ H) as (h & k1 & Hl & Hs & Hstep). rewrite Hstep in H.
  destruct m as [|m]; [done|]. simpl in Hw. apply bind_Some in Hw as (ls' & Hw & [= <-]).
  rewrite Hstep. rewrite <- (walk_same k k1) in Hw by done. by eapply IH.
Qed.

Lemma NoDup_size (ls : list ptr) (m : gmap ptr (option ptr)) :
  NoDup ls → (∀ l, l ∈ ls → is_Some (m !! l)) → (length ls ≤ size m)%nat.
Proof.
  intros Hnd Hin. rewrite <- size_dom. rewrite <- (size_list_to_set (C := gset ptr) ls) by done.
  apply subseteq_size. intros x Hx. apply elem_of_dom, Hin. by apply elem_of_list_to_set in Hx.
Qed.

(** The bound on the walk is enough.  If the loop of [thread_donate_priority] ends
    with any number of iterations, it ends, with the same result, within the number of
    locks in the system: it never visits a lock twice. *)
Theorem donation_bound n nl c k u k' :
  donate_loop n nl c k = Ok (u, k') →
  donate_loop (size (locks k)) nl c k = Ok (u, k') ∧
  ∀ m, (size (locks k) ≤ m)%nat → donate_loop m nl c k = Ok (u, k').
Proof.
  intros H. destruct (donate_walk _ _ _ _ _ _ H) as (ls & Hw & Hls).
  assert (length ls ≤ size (locks k))%nat as Hlen.
  { apply NoDup_size; [by eapply walk_NoDup|done]. }
  apply walk_length in Hw. split; [|intros m Hm]; eapply donate_fuel; try exact H;
    eapply walk_mono; try exact Hw; lia.
Qed.

(** Thread 1 gives to thread 2, which needs lock 20, held by thread 3. *)
Definition two_links : kernel :=
  let th n l := Thread n (-1) THREAD_READY [] 0 n (-1) 0 0 [] n l 0 THREAD_MAGIC in
  Kernel (<[1 := th 9 None]> (<[2 := th 5 (Some 20)]> (<[3 := th 4 None]> ∅))) ∅ ∅
         (<[10 := Some 2]> (<[20 := Some 3]> ∅)) ∅ [] [] [] 1 None 1 4
         true false false false false 0 0 0 0 0 0 0.

Lemma donation_bound_witness :
  ∃ k', donate_loop 7 (Some 10) 1 two_links = Ok (tt, k') ∧
        donate_loop (size (locks two_links)) (Some 10) 1 two_links = Ok (tt, k') ∧
        (priority <$> threads k' !! 3) = Some 9.
Proof.
  destruct (donate_loop 7 (Some 10) 1 two_links) as [[[] k']|] eqn:E; [|by vm_compute in E].
  exists k'. split; [done|]. split; [exact (proj1 (donation_bound _ _ _ _ _ _ E))|].
  vm_compute in E. injection E as <-. vm_compute. reflexivity.
Defined.

(** A holder that still carries the lock it holds as the one it needs makes the chain a
    cycle, and the loop does not end. *)
Lemma donate_loop_cycle n l h c k th cth :
  locks k !! l = Some (Some h) → threads k !! h = Some th → lock_needed th = Some l →
  threads k !! c = Some cth → donate_loop n (Some l) c k = Err OutOfFuel.
Proof.
  revert c k th cth. induction n as [|n IH]; intros c k th cth Hl Hh Hn Hc; [done|]. simpl.
  assert (get_holder l k = Ok (Some h, k)) as Hg by (unfold get_holder; by rewrite Hl).
  rewrite (st_run _ _ _ _ _ Hg), (st_run _ _ _ _ _ (get_thread_ok _ _ _ Hc)).
  assert (update_thread h (set_priority (priority cth)) k =
          Ok (tt, set_threads (<[h := set_priority (priority cth) th]> (threads k)) k)) as Hu.
  { unfold update_thread. rewrite (st_run _ _ _ _ _ (get_thread_ok _ _ _ Hh)). done. }
  rewrite (st_run _ _ _ _ _ Hu).
  set (k1 := set_threads _ k).
  assert (threads k1 !! h = Some (set_priority (priority cth) th)) as Hh1
    by (simpl; by rewrite lookup_insert_eq).
  rewrite (st_run _ _ _ _ _ (get_thread_ok _ _ _ Hh1)). simpl. rewrite Hn. by eapply IH.
Qed.
