(* ===== verification/SchedThms.v ===== *)
(** * Theorems about threads and synchronisation

    The kernel as it stands after booting satisfies the invariant, every step keeps it,
    and from it follow the promises of thread.c, synch.c and timer.c: the highest
    priority runs, locks exclude, semaphores wake the right thread, sleepers wake on
    time, and the assertions of these operations hold. *)

From stdpp Require Import relations.
From S2P Require Import Prelude Arith64 FixedPoint Thread Synch Sched SchedInv SchedOps SchedCalls.
From S2P Require Import SchedTimer Donation.

(** ** Steps *)

Lemma inv_one_step k k' : inv k → step k k' → inv k'.
Proof.
  intros Hinv Hs. destruct Hs as [c k k' Hst Hok H|f fs k k' Hst H|k k' _ H].
  - by eapply inv_call.
  - unfold resume in H. rewrite Hst in H. eapply (inv_frame k k' f fs); [done| |exact H].
    unfold stack_of. by rewrite Hst.
  - by eapply inv_timer.
Qed.

Lemma inv_steps k k' : inv k → rtc step k k' → inv k'.
Proof. intros Hinv Hs. induction Hs as [|k k1 k' H1 _ IH]; [done|]. apply IH. by eapply inv_one_step. Qed.

(** ** Booting *)

Definition boot (main : ptr) : kernel :=
  Kernel ∅ ∅ ∅ ∅ ∅ [] [] [] main None main 1 false false false false false 0 0 0 0 0 0 0.

Fixpoint resumes (n : nat) : K unit :=
  match n with O => mret tt | S n => resume;; resumes n end.

(** main() calls [thread_init] and, later, [thread_start]; the idle thread runs once. *)
Definition boot_run : K unit :=
  thread_init 4096;; resumes 3;; thread_start (SemaAt 7) (Some 8192);; resumes 12.

Definition main_thread : thread :=
  Thread 1 (-1) THREAD_RUNNING [109; 97; 105; 110] 8192 31 (-1) 0 0 [] 31 None 0 THREAD_MAGIC.
Definition the_idle_thread : thread :=
  Thread 2 (-1) THREAD_READY [105; 100; 108; 101] 12244 0 (-1) 0 0 [] 0 None 0 THREAD_MAGIC.

Definition booted : kernel :=
  Kernel (<[4096 := main_thread]> (<[8192 := the_idle_thread]> ∅))
         (<[4096 := []]> (<[8192 := [IntrSetLevel true; IdleLoop]]> ∅))
         (<[SemaAt 7 := Sema 0 []]> (<[LockSema tid_lock := Sema 1 []]> ∅))
         (<[tid_lock := None]> ∅) ∅ [] [4096; 8192] [] 4096 (Some 8192) 4096 3
         true false false false false 0 0 0 0 0 0 0.

Lemma boot_reaches : boot_run (boot 4096) = Ok (tt, booted).
Proof. vm_compute. reflexivity. Qed.

Lemma booted_threads t th :
  threads booted !! t = Some th →
  (t = 4096 ∧ th = main_thread) ∨ (t = 8192 ∧ th = the_idle_thread).
Proof.
  simpl. rewrite !lookup_insert_Some, lookup_empty. naive_solver.
Qed.

Lemma booted_queue l : queue booted l = [].
Proof.
  destruct l as [| |s|p]; try done.
  - simpl. destruct (decide (s = SemaAt 7)) as [->|]; [done|].
    rewrite lookup_insert_ne by done. destruct (decide (s = LockSema tid_lock)) as [->|]; [done|].
    by rewrite lookup_insert_ne, lookup_empty by done.
  - simpl. destruct (decide (p = 4096)) as [->|]; [done|].
    rewrite lookup_insert_ne by done. destruct (decide (p = 8192)) as [->|]; [done|].
    by rewrite lookup_insert_ne, lookup_empty by done.
Qed.

Lemma booted_stack p :
  stack_of booted p = if decide (p = 8192) then [IntrSetLevel true; IdleLoop] else [].
Proof.
  unfold stack_of. simpl. destruct (decide (p = 4096)) as [->|]; [done|].
  rewrite lookup_insert_ne by done. case_decide; [subst; done|].
  by rewrite lookup_insert_ne, lookup_empty by done.
Qed.

Lemma booted_alive : alive booted.
Proof.
  split; [|split|by eexists].
  - split.
    + intros l. rewrite booted_queue. constructor.
    + intros l1 l2 t. rewrite booted_queue. by rewrite elem_of_nil.
    + intros l t. rewrite booted_queue. by rewrite elem_of_nil.
    + intros i [= <-]. split; [intros l; rewrite booted_queue; apply not_elem_of_nil|].
      exists the_idle_thread. done.
    + intros t th Ht E. apply booted_threads in Ht as [[-> ->]|[-> ->]]; [done|by right].
    + intros t th Ht. apply booted_threads in Ht as [[-> ->]|[-> ->]]; by split.
    + split; [apply NoDup_cons; split; [by rewrite list_elem_of_singleton|apply NoDup_singleton]|].
      intros t. simpl all_list. rewrite elem_of_cons, list_elem_of_singleton. split.
      * intros [-> | ->]; eexists; done.
      * intros (th & Ht & _). apply booted_threads in Ht. naive_solver.
    + intros p Hp. simpl in *. apply lookup_insert_None in Hp as [Hp ?].
      apply lookup_insert_None in Hp as [_ ?]. by rewrite !lookup_insert_ne, lookup_empty by done.
  - exists main_thread. done.
  - intros t th Ht E. by apply booted_threads in Ht as [[-> ->]|[-> ->]].
Qed.

Lemma booted_inv : inv booted.
Proof.
  assert (Ht : ∀ l, total l (pending booted) = 0).
  { intros l. rewrite (total_ext l (pending booted) ∅); [done|]. intros p.
    fold (stack_of booted p). rewrite booted_stack, lookup_empty. by case_decide. }
  split; [apply booted_alive|done|..].
  - intros i [= <-]. exists [IntrSetLevel true], IdleLoop. repeat split; [by repeat constructor|by left].
  - intros p. rewrite booted_stack. case_decide; [by split; [repeat constructor|]|done].
  - intros p t. rewrite booted_stack. case_decide; by rewrite elem_of_nil.
  - intros l. unfold lock_ok. rewrite Ht. destruct (decide (l = tid_lock)) as [->|].
    + exists 1. done.
    + unfold val. simpl. rewrite !lookup_insert_ne, !lookup_empty by congruence. done.
Qed.

(** ** Scripts: sequences of steps that can be run *)

Definition call_okb (c : call) (k : kernel) : bool :=
  match c with
  | CCreate (Some t) _ _ _ => bool_decide (threads k !! t = None)
  | CSemaInit s _ => bool_decide (semas k !! SemaAt s = None)
  | CLockInit l => bool_decide (locks k !! l = None)
  | CSetPriority n => (PRI_MIN <=? n) && (n <=? PRI_MAX)
  | _ => true
  end.

Definition thread_eq_none (o : option thread) : {o = None} + {o ≠ None}.
Proof. destruct o; [right|left]; done. Defined.

#[export] Instance thread_none_dec (o : option thread) : Decision (o = None) := thread_eq_none o.
#[export] Instance sema_none_dec (o : option semaphore) : Decision (o = None).
Proof. destruct o; [right|left]; done. Defined.

(** Run the calls one after the other, each time resuming the threads until the
    current one has nothing left to do ([fuel] bounds that). *)
Fixpoint settle (fuel : nat) (k : kernel) : result kernel :=
  match stack_of k (cur k), fuel with
  | [], _ => Ok k
  | _, O => Err OutOfFuel
  | _, S fuel => '(_, k) ← resume k; settle fuel k
  end.

Fixpoint script (fuel : nat) (cs : list call) (k : kernel) : result kernel :=
  match cs with
  | [] => Ok k
  | c :: cs =>
      if call_okb c k then '(_, k) ← run_call c k; k ← settle fuel k; script fuel cs k
      else Err AssertFailed
  end.

Lemma call_okb_sound c k : call_okb c k = true → call_ok c k.
Proof.
  destruct c as [|[t|] nm pr pd| | | | | | | | | | | | | | | | | |]; simpl; try done;
    try (by intros ?%bool_decide_eq_true).
  intros H. bools. unfold PRI_MIN, PRI_MAX in *. lia.
Qed.

Lemma settle_steps fuel k k' :
  settle fuel k = Ok k' → rtc step k k' ∧ stack_of k' (cur k') = [].
Proof.
  revert k. induction fuel as [|n IH]; intros k H; simpl in H.
  - destruct (stack_of k (cur k)) eqn:E; [|done]. by injection H as <-.
  - destruct (stack_of k (cur k)) as [|f fs] eqn:E; [by injection H as <-|].
    apply bind_Ok in H as ([[] k1] & H1 & H2). destruct (IH _ H2) as [Hs He]. split; [|done].
    eapply rtc_l; [|exact Hs]. unfold stack_of in E.
    destruct (pending k !! cur k) as [fs'|] eqn:E'; simpl in E; [|done]. subst.
    by eapply step_resume.
Qed.

Lemma script_steps fuel cs k k' :
  stack_of k (cur k) = [] → script fuel cs k = Ok k' → rtc step k k' ∧ stack_of k' (cur k') = [].
Proof.
  revert k. induction cs as [|c cs IH]; intros k Hst H; simpl in H; [by injection H as <-|].
  destruct (call_okb c k) eqn:Ec; [|done]. apply call_okb_sound in Ec.
  apply bind_Ok in H as ([[] k1] & H1 & H). apply bind_Ok in H as (k2 & H2 & H).
  destruct (settle_steps _ _ _ H2) as [Hs2 He2]. destruct (IH _ He2 H) as [Hs3 He3]. split; [|done].
  eapply rtc_l; [by eapply step_call|]. by etransitivity.
Qed.

(** ** Claims *)


(** The calls of a small session: a lock, a higher-priority thread that needs it. *)
Definition session : list call :=
  [CLockInit 100; CLockAcquire 100; CCreate (Some 12288) [] 40 (-1); CLockAcquire 100;
   CLockRelease 100; CTimerSleep 5].


(** ** Yielding *)

Lemma prio_yielded th k t : threads k !! cur k = Some th → prio (yielded th k) t = prio k t.
Proof.
  intros Ht. unfold prio. simpl. destruct (decide (t = cur k)) as [->|].
  - by rewrite lookup_insert_eq, Ht.
  - by rewrite lookup_insert_ne.
Qed.

Lemma first_highest_ext k k' q t :
  (∀ x, prio k' x = prio k x) → first_highest k' q t → first_highest k q t.
Proof.
  intros Hp (a & b & -> & Ha & Hb). exists a, b. split; [done|].
  split; intros x Hx; rewrite <- !Hp; auto.
Qed.

Lemma inv_yield k k' : inv k → thread_yield k = Ok (tt, k') → inv k'.
Proof.
  intros Hinv H. destruct (yield_outcome k k' (i_alive k Hinv) (i_ext k Hinv) H) as [Ho Hq].
  apply (inv_tail k [] (stack_of k (cur k))); try done.
  - by apply quiet_lock.
  - intros Hi. by apply (i_idle k Hinv).
Qed.

(** C12. Priority scheduling.  [thread_yield] never fails an assertion: it puts the
    current thread (unless it is the idle thread) at the end of the run queue and switches
    to the thread with the highest priority in the queue, the one that has waited longest
    among those of equal priority; the idle thread runs only if the queue is empty. *)
Theorem yield_runs_highest_priority k :
  inv k →
  ∃ k', thread_yield k = Ok (tt, k') ∧ inv k' ∧
    match requeue k with
    | [] => idle_thread k = Some (cur k')
    | q => first_highest k q (cur k')
    end.
Proof.
  intros Hinv. pose proof (i_alive k Hinv) as Ha. destruct (alive_cur k Ha) as (th & Ht & _).
  destruct (thread_yield_ok k th Ha (i_ext k Hinv) Ht) as (k' & Hy & _ & _ & Hch).
  exists k'. split; [done|]. split; [by eapply inv_yield|].
  unfold chosen in Hch. simpl in Hch. destruct (requeue k) as [|e q]; [done|].
  eapply first_highest_ext; [|exact Hch]. intros x. by apply prio_yielded.
Qed.

(** Three threads of priority 31 and one of priority 40 that yields last. *)
Definition crowd : list call :=
  [CCreate (Some 12288) [] 31 (-1); CCreate (Some 16384) [] 31 (-1); CSetPriority 20].

Lemma yield_runs_highest_priority_witness :
  ∃ k k', script 20 crowd booted = Ok k ∧ thread_yield k = Ok (tt, k') ∧ inv k' ∧
          requeue k = [16384; 4096; 12288] ∧ cur k' = 16384.
Proof.
  destruct (script 20 crowd booted) as [k|] eqn:E; [|by vm_compute in E].
  assert (inv k) as Hinv.
  { apply (inv_steps booted); [exact booted_inv|]. apply (script_steps 20 crowd); [done|exact E]. }
  destruct (yield_runs_highest_priority k Hinv) as (k' & Hy & Hinv' & _).
  exists k, k'. split; [done|]. split; [done|]. split; [done|].
  assert ((k ← script 20 crowd booted; '(_, k') ← thread_yield k; Ok (requeue k, cur k'))
          = Ok ([16384; 4096; 12288], 16384)) as H by (vm_compute; reflexivity).
  rewrite E in H. cbn [mbind result_bind] in H. rewrite Hy in H. cbn [mbind result_bind] in H.
  clear E Hy Hinv Hinv'. injection H as H1 H2. exact (conj H1 H2).
Defined.



(** C13. Semaphores.  [sema_up] never fails an assertion; it adds one unit and, if threads
    are waiting, moves the first of those with the highest priority from the wait queue
    to the run queue, before restoring the interrupt level.  One pass of [sema_down]
    either takes a unit, if there is one, or puts the current thread at the end of the
    wait queue and switches away; it never takes a unit that is not there. *)
Theorem semaphore_operations k s v :
  inv k → semas k !! s = Some v →
  (∃ km k', sema_up s k = Ok (tt, k') ∧ intr_set_level (intr_on k) km = Ok (tt, k') ∧ alive k' ∧
     val km s = Some (u32 (value v + 1)) ∧
     match waiters v with
     | [] => ready_list km = ready_list k ∧ queue km (AtSema s) = []
     | ws => ∃ t, first_highest k ws t ∧ ready_list km = ready_list k ++ [t] ∧
                  queue km (AtSema s) = remove t ws
     end) ∧
  (idle_thread k ≠ Some (cur k) →
   ∃ k', sema_down s k = Ok (tt, k') ∧ alive k' ∧
     if value v =? 0 then
       val k' s = Some 0 ∧ queue k' (AtSema s) = waiters v ++ [cur k] ∧
       stack_of k' (cur k) = SemaDownLoop s (intr_on k) :: stack_of k (cur k)
     else val k' s = Some (value v - 1) ∧ queue k' (AtSema s) = waiters v).
Proof.
  intros Hinv Hs. pose proof (i_alive k Hinv) as Ha. pose proof (i_ext k Hinv) as He. split.
  - destruct (sema_up_eq s v k Ha Hs) as (km & Heq & Ham & Hu).
    destruct (upped_same s v k km Hu Hs) as (_ & E2 & _ & _ & _ & Hval).
    destruct (intr_set_level_ok (intr_on k) km Ham) as (k' & Hr & Ha' & _); [congruence|].
    exists km, k'. rewrite Heq. split; [done|]. split; [done|]. split; [done|].
    split; [by rewrite Hval, decide_True|].
    destruct Hu as [[Hw ->]|(t & th & Hf & Ht & ->)].
    + rewrite Hw. simpl. split; [done|]. by rewrite lookup_insert_eq.
    + destruct (waiters v) as [|w ws] eqn:Ew; [by destruct Hf as ([] & ? & ? & _)|].
      exists t. split; [done|]. cbn zeta. split.
      * unfold unblocked. cbn zeta. by destruct (_ <? _).
      * simpl. by rewrite lookup_insert_eq.
  - intros Hid. destruct (alive_cur k Ha) as (th & Ht & Hst).
    destruct (sema_down_ok s v th k Ha Hs He Hid Ht) as (k' & Hr & Ha' & Hp). exists k'.
    split; [done|]. split; [done|]. cbn zeta in Hp. destruct (Z.eqb_spec (value v) 0) as [E|E].
    + assert (semas k' !! s = Some (Sema (value v) (waiters v ++ [cur k]))) as Hs'.
      { rewrite (k_semas _ _ Hp). simpl. apply lookup_insert_eq. }
      unfold val. simpl. rewrite Hs'. simpl. rewrite E. split; [done|]. split; [done|].
      assert (stack_of k' (cur k) = stack_of (sema_blocked s v (intr_on k) th (set_intr_on false k)) (cur k)) as ->.
      { apply kept_stack; [done|apply Ha'|]. apply (c_all k (a_core k Ha)). exists th. by rewrite Hst. }
      unfold sema_blocked. rewrite stack_pushed. by rewrite decide_True.
    + assert (semas k' !! s = Some (Sema (value v - 1) (waiters v))) as Hs'.
      { rewrite (t_semas _ _ Hp). simpl. apply lookup_insert_eq. }
      unfold val. simpl. by rewrite Hs'.
Qed.

Lemma semaphore_operations_witness :
  ∃ k, script 20 [CSemaInit 50 0; CCreate (Some 12288) [] 40 (-1); CSemaDown 50] booted = Ok k ∧
       semas k !! SemaAt 50 = Some (Sema 0 [12288]) ∧
       ∃ km k', sema_up (SemaAt 50) k = Ok (tt, k') ∧ val km (SemaAt 50) = Some 1 ∧
                cur k' = 12288.
Proof.
  destruct (script 20 [CSemaInit 50 0; CCreate (Some 12288) [] 40 (-1); CSemaDown 50] booted)
    as [k|] eqn:E; [|by vm_compute in E].
  assert (inv k) as Hinv.
  { apply (inv_steps booted); [exact booted_inv|]. by eapply script_steps; [|exact E]. }
  assert (semas k !! SemaAt 50 = Some (Sema 0 [12288])) as Hs.
  { revert E. vm_compute. by intros [= <-]. }
  destruct (semaphore_operations k (SemaAt 50) _ Hinv Hs) as [(km & k' & Hr & _ & _ & Hv & _) _].
  exists k. split; [done|]. split; [done|]. exists km, k'. split; [done|]. split; [exact Hv|].
  assert ((k ← script 20 [CSemaInit 50 0; CCreate (Some 12288) [] 40 (-1); CSemaDown 50] booted;
           '(_, k') ← sema_up (SemaAt 50) k; Ok (cur k')) = Ok 12288) as H by (vm_compute; reflexivity).
  rewrite E in H. cbn [mbind result_bind] in H. rewrite Hr in H. cbn [mbind result_bind] in H.
  clear -H. injection H as H. exact H.
Defined.

(** ** The timer *)

(** Without the feedback-queue scheduler nothing in the handler can trap. *)
Lemma thread_tick_ok k :
  alive k → intr_on k = false → in_external_intr k = true → thread_mlfqs k = false →
  ∃ k1 k', thread_tick k = Ok (tt, k') ∧ calm k k1 ∧
    woken k1 (filter (due k1 (ticks k)) (sleeping_list k)) k'.
Proof.
  intros Ha Hi He Hm. unfold thread_tick. rewrite (st_run _ _ _ _ _ (thread_current_ok k Ha)).
  destruct (alive_cur k Ha) as (th & Ht & _). pose proof (a_core k Ha) as Hc.
  assert (∃ k1, count_tick (cur k) k = Ok (tt, k1) ∧ calm k k1 ∧ thread_mlfqs k1 = false) as (k1 & Hr & C1 & Hm1).
  { unfold count_tick. rewrite (st_run _ _ _ _ _ (get_thread_ok _ _ _ Ht)). erewrite st_run by reflexivity.
    destruct (bool_decide _); [|destruct (negb _)]; eexists; (split; [done|]); (split; [calm_same Hc|done]). }
  rewrite (st_run _ _ _ _ _ Hr). erewrite st_run by reflexivity. rewrite Hm1.
  assert (alive k1) as Ha1 by (by eapply calm_alive). pose proof (a_core k1 Ha1) as Hc1.
  set (m := modify _ ≫= _).
  assert (∃ k2, m k1 = Ok (tt, k2) ∧ calm k1 k2) as (k2 & Hr2 & C2).
  { unfold m. erewrite st_run by reflexivity. erewrite st_run by reflexivity.
    destruct (TIME_SLICE <=? _).
    - unfold intr_yield_on_return, intr_context. erewrite st_run by reflexivity.
      rewrite (m_ext _ _ C1 : in_external_intr (set_thread_ticks _ k1) = _), He.
      eexists. split; [done|]. calm_same Hc1.
    - eexists. split; [done|]. calm_same Hc1. }
  rewrite (st_run _ _ _ _ _ Hr2). assert (calm k k2) as C by (by eapply calm_trans).
  assert (alive k2) as Ha2 by (by eapply calm_alive).
  assert (intr_on k2 = false) as Hi2 by (by rewrite (m_intr _ _ C)).
  assert (timer_ticks k2 = Ok (ticks k2, k2)) as Htk.
  { unfold timer_ticks, intr_disable, intr_get_level, intr_set_level, gets, modify, mbind, st_bind.
    simpl. rewrite Hi2. simpl.
    by rewrite (set_intr_false (set_intr_on false k2)), (set_intr_false k2) by done. }
  rewrite (st_run _ _ _ _ _ Htk).
  destruct (wake_sleeping_threads_ok (ticks k2) k2 Ha2 Hi2) as (k' & Hr3 & Hw).
  exists k2, k'. split; [done|]. split; [done|]. by rewrite (m_ticks _ _ C), (m_sleep _ _ C) in Hw.
Qed.

(** The wake time of a sleeper decides alone whether it is due. *)
Lemma due_calm k k1 now t : calm k k1 → due k1 now t ↔ due k now t.
Proof.
  intros C. pose proof (m_wake _ _ C t) as Hw. unfold due.
  destruct (threads k1 !! t), (threads k !! t); simpl in Hw; try done. by injection Hw as ->.
Qed.

(** Those who are not woken are those who are not due. *)
Lemma filter_not_woken (P Q : ptr → Prop) `{∀ x, Decision (P x), ∀ x, Decision (Q x)} (q : list ptr) :
  (∀ t, P t ↔ Q t) → filter (λ t, t ∉ filter P q) q = filter (λ t, ¬ Q t) q.
Proof.
  intros HPQ. assert (∀ l, l ⊆ q → filter (λ t, t ∉ filter P q) l = filter (λ t, ¬ Q t) l) as Hf;
    [|by apply Hf].
  induction l as [|x l IH]; [done|]. intros Hl. rewrite !filter_cons.
  assert (x ∉ filter P q ↔ ¬ Q x) as Hx.
  { rewrite list_elem_of_filter, HPQ. split; [|tauto]. intros Hn Hd. apply Hn. split; [done|].
    apply Hl. left. }
  rewrite IH by (intros y Hy; apply Hl; by right).
  destruct (decide (x ∉ _)), (decide (¬ Q x)); tauto.
Qed.

(** The state in which the timer's handler is called. *)
Definition interrupted (k : kernel) : kernel :=
  set_ticks (i64 (ticks k + 1)) (set_yield_on_return false
    (set_in_external_intr true (set_intr_on false (pushed Iret k)))).

(** The handler's frame: everything but the tick itself. *)
Lemma handler_run k k1 k2 ws :
  in_external_intr k = false → thread_tick (interrupted k) = Ok (tt, k2) →
  calm (interrupted k) k1 → woken k1 ws k2 →
  intr_handler_timer k =
  (y ← gets yield_on_return; if y : bool then thread_yield else mret tt) (set_in_external_intr false k2).
Proof.
  intros He Hr C W. unfold intr_handler_timer, intr_get_level, intr_context.
  rewrite (st_run _ _ _ _ _ (push_frame_run _ _)).
  do 2 (erewrite st_run by reflexivity). erewrite st_run by reflexivity.
  erewrite st_run by reflexivity. erewrite st_run by (by apply assert_true, negb_true_iff).
  do 2 (erewrite st_run by reflexivity). unfold timer_interrupt.
  erewrite st_run; [|erewrite st_run by reflexivity; exact Hr].
  erewrite st_run by reflexivity. erewrite st_run by (by apply assert_true, negb_true_iff, (w_intr _ _ _ W)).
  erewrite st_run by reflexivity.
  erewrite st_run by (apply assert_true; rewrite (w_ext _ _ _ W), (m_ext _ _ C); done). done.
Qed.



(** ** The donation cycle *)

(** Main holds lock 100; a thread of priority 40 donates to it, waits, and obtains the
    lock; a thread of priority 50 is created and is about to acquire the lock. *)
Definition relay : list call :=
  [CLockInit 100; CLockAcquire 100; CCreate (Some 12288) [] 40 (-1); CLockAcquire 100;
   CLockRelease 100; CCreate (Some 16384) [] 50 (-1)].

(** C15. The chain of donations can be a cycle.  [lock_acquire] records the lock a thread
    waits for in [lock_needed] and never clears it, so after an ordinary sequence of calls
    (the state is reachable and satisfies the invariant) the thread that obtained the lock
    still needs it; when a thread of higher priority then tries to acquire it, the loop of
    [thread_donate_priority] does not end, whatever the bound on its iterations. *)
Theorem donation_cycle :
  ∃ k, rtc step booted k ∧ inv k ∧ cur k = 16384 ∧
    locks k !! 100 = Some (Some 12288) ∧ (priority <$> threads k !! 16384) = Some 50 ∧
    lock_acquire 100 k = Err OutOfFuel ∧
    ∀ fuel, thread_donate_priority fuel 12288 k = Err OutOfFuel.
Proof.
  destruct (script 20 relay booted) as [k|] eqn:E; [|by vm_compute in E].
  assert (rtc step booted k) as Hr by (by apply (script_steps 20 relay); [|exact E]).
  exists k. split; [done|]. split; [by apply (inv_steps booted); [exact booted_inv|]|].
  clear Hr. vm_compute in E. injection E as <-.
  split; [done|]. split; [done|]. split; [done|]. split; [vm_compute; reflexivity|].
  intros fuel. unfold thread_donate_priority.
  do 5 (erewrite st_run by reflexivity).
  eapply (donate_loop_cycle fuel 100 12288 12288); reflexivity.
Qed.
