(* ===== verification/RwLock.v ===== *)
(** * filesys/cache.c: the reader/writer lock of a cache block

    [struct rw_lock] and the seven functions on it, one step for each operation on a lock,
    semaphore or counter, so that any number of threads interleave between any two of
    them.  A thread is where it is in one of the functions ([pc]); [acts] executes its next
    operation, unless the operation has to wait.

    Shown: a writer excludes readers and other writers, the assertion of [cache_downgrade]
    never fails, and [cache_downgrade] can deadlock with [cache_read_begin]. *)

From stdpp Require Import relations.
From S2P Require Import Prelude.

(** Where a thread is, named after the operation it is about to do. *)
Inductive pc : Type :=
  | RB_r | RB_inc | RB_extra | RB_g | RB_rel_extra | RB_rel_r      (* cache_read_begin *)
  | RT_r | RT_inc | RT_g | RT_undo | RT_rel | RT_rel_r             (* cache_read_try *)
  | WB_extra | WB_g | WB_rel_extra                                 (* cache_write_begin *)
  | WT_g                                                           (* cache_write_try *)
  | UP_r | UP_dec | UP_fast | UP_extra | UP_rel_r | UP_g | UP_rel_extra (* cache_upgrade *)
  | DG_r | DG_inc | DG_rel_r                                       (* cache_downgrade *)
  | RE_r | RE_dec | RE_up | RE_rel                                 (* cache_read_end *)
  | WE_up                                                          (* cache_write_end *)
  | Reading | Writing.                                             (* between calls *)

Record rw_lock : Type := RwLock {
  r : option Z;        (* the holder of lock r *)
  extra : option Z;    (* the holder of lock extra *)
  g : Z;               (* the value of semaphore g *)
  b : Z;               (* the number of accessors *)
  pcs : gmap Z pc;     (* the threads inside one of the functions *)
}.

Definition rw_init : rw_lock := RwLock None None 1 0 ∅.

(** One operation: it waits, an assertion fails, or the lock changes and the thread goes on
    to another operation, or out of the lock ([None]). *)
Inductive effect : Type :=
  | Waits
  | Fails
  | Goes (r' extra' : option Z) (g' b' : Z) (p : option pc).

Definition acquire (l : option Z) (t : Z) (next : option Z → effect) : effect :=
  match l with None => next (Some t) | Some _ => Waits end.
Definition release (l : option Z) (t : Z) (next : option Z → effect) : effect :=
  if bool_decide (l = Some t) then next None else Fails.
Definition down (v : Z) (next : Z → effect) : effect := if v =? 0 then Waits else next (v - 1).

(** The next operation of thread [t], at [p] in the function. *)
Definition cache_read_begin (t : Z) (p : pc) '(RwLock r e g b _) : effect :=
  match p with
  | RB_r => acquire r t (λ r, Goes r e g b (Some RB_inc))
  | RB_inc => Goes r e g (b + 1) (Some (if b + 1 =? 1 then RB_extra else RB_rel_r))
  | RB_extra => acquire e t (λ e, Goes r e g b (Some RB_g))
  | RB_g => down g (λ g, Goes r e g b (Some RB_rel_extra))
  | RB_rel_extra => release e t (λ e, Goes r e g b (Some RB_rel_r))
  | RB_rel_r => release r t (λ r, Goes r e g b (Some Reading))
  | _ => Waits
  end.

Definition cache_read_try (t : Z) (p : pc) '(RwLock r e g b _) : effect :=
  match p with
  | RT_r => match r with None => Goes (Some t) e g b (Some RT_inc) | Some _ => Goes r e g b None end
  | RT_inc => Goes r e g (b + 1) (Some (if b + 1 =? 1 then RT_g else RT_rel_r))
  | RT_g => if 0 <? g then Goes r e (g - 1) b (Some RT_rel_r) else Goes r e g b (Some RT_undo)
  | RT_undo => Goes r e g (b - 1) (Some RT_rel)
  | RT_rel => release r t (λ r, Goes r e g b None)
  | RT_rel_r => release r t (λ r, Goes r e g b (Some Reading))
  | _ => Waits
  end.

Definition cache_write_begin (t : Z) (p : pc) '(RwLock r e g b _) : effect :=
  match p with
  | WB_extra => acquire e t (λ e, Goes r e g b (Some WB_g))
  | WB_g => down g (λ g, Goes r e g b (Some WB_rel_extra))
  | WB_rel_extra => release e t (λ e, Goes r e g b (Some Writing))
  | _ => Waits
  end.

Definition cache_write_try (p : pc) '(RwLock r e g b _) : effect :=
  match p with
  | WT_g => if 0 <? g then Goes r e (g - 1) b (Some Writing) else Goes r e g b None
  | _ => Waits
  end.

Definition cache_upgrade (t : Z) (p : pc) '(RwLock r e g b _) : effect :=
  match p with
  | UP_r => acquire r t (λ r, Goes r e g b (Some UP_dec))
  | UP_dec => Goes r e g (b - 1) (Some (if b - 1 =? 0 then UP_fast else UP_extra))
  | UP_fast => release r t (λ r, Goes r e g b (Some Writing))
  | UP_extra => acquire e t (λ e, Goes r e g b (Some UP_rel_r))
  | UP_rel_r => release r t (λ r, Goes r e g b (Some UP_g))
  | UP_g => down g (λ g, Goes r e g b (Some UP_rel_extra))
  | UP_rel_extra => release e t (λ e, Goes r e g b (Some Writing))
  | _ => Waits
  end.

Definition cache_downgrade (t : Z) (p : pc) '(RwLock r e g b _) : effect :=
  match p with
  | DG_r => acquire r t (λ r, Goes r e g b (Some DG_inc))
  | DG_inc => if b =? 0 then Goes r e g (b + 1) (Some DG_rel_r) else Fails
  | DG_rel_r => release r t (λ r, Goes r e g b (Some Reading))
  | _ => Waits
  end.

Definition cache_read_end (t : Z) (p : pc) '(RwLock r e g b _) : effect :=
  match p with
  | RE_r => acquire r t (λ r, Goes r e g b (Some RE_dec))
  | RE_dec => Goes r e g (b - 1) (Some (if b - 1 =? 0 then RE_up else RE_rel))
  | RE_up => Goes r e (g + 1) b (Some RE_rel)
  | RE_rel => release r t (λ r, Goes r e g b None)
  | _ => Waits
  end.

Definition cache_write_end (p : pc) '(RwLock r e g b _) : effect :=
  match p with
  | WE_up => Goes r e (g + 1) b None
  | _ => Waits
  end.

(** A thread in one of the functions does its next operation; a reader or a writer has
    nothing to do before its next call. *)
Definition acts (t : Z) (p : pc) (s : rw_lock) : effect :=
  match p with
  | RB_r | RB_inc | RB_extra | RB_g | RB_rel_extra | RB_rel_r => cache_read_begin t p s
  | RT_r | RT_inc | RT_g | RT_undo | RT_rel | RT_rel_r => cache_read_try t p s
  | WB_extra | WB_g | WB_rel_extra => cache_write_begin t p s
  | WT_g => cache_write_try p s
  | UP_r | UP_dec | UP_fast | UP_extra | UP_rel_r | UP_g | UP_rel_extra => cache_upgrade t p s
  | DG_r | DG_inc | DG_rel_r => cache_downgrade t p s
  | RE_r | RE_dec | RE_up | RE_rel => cache_read_end t p s
  | WE_up => cache_write_end p s
  | Reading | Writing => Waits
  end.

Definition goto (t : Z) (p : option pc) (m : gmap Z pc) : gmap Z pc :=
  match p with Some p => <[t := p]> m | None => delete t m end.

(** A thread calls a function: a reader may end or upgrade, a writer end or downgrade, and
    any other thread may ask for the lock. *)
Definition may_call (now : option pc) (p : pc) : bool :=
  match now, p with
  | None, (RB_r | RT_r | WB_extra | WT_g) => true
  | Some Reading, (RE_r | UP_r) => true
  | Some Writing, (WE_up | DG_r) => true
  | _, _ => false
  end.

Inductive rw_step : rw_lock → rw_lock → Prop :=
  | rw_call t p s :
      may_call (pcs s !! t) p = true →
      rw_step s (RwLock (r s) (extra s) (g s) (b s) (<[t := p]> (pcs s)))
  | rw_run t p s r' e' g' b' q :
      pcs s !! t = Some p → acts t p s = Goes r' e' g' b' q →
      rw_step s (RwLock r' e' g' b' (goto t q (pcs s))).

(** ** Counting threads *)

Definition sum (f : pc → Z) (m : gmap Z pc) : Z := map_fold (λ _ p n, f p + n) 0 m.

Definition at_ (f : pc → Z) (m : gmap Z pc) (t : Z) : Z := from_option f 0 (m !! t).

Lemma sum_fresh f m t p : m !! t = None → sum f (<[t := p]> m) = f p + sum f m.
Proof. intros Ht. unfold sum. rewrite map_fold_insert_L; [done|lia|done]. Qed.

Lemma sum_delete f m t : sum f m = at_ f m t + sum f (delete t m).
Proof.
  unfold at_. destruct (m !! t) as [p|] eqn:Et; simpl.
  - rewrite <- (insert_delete_id m t p Et) at 1. by rewrite sum_fresh by apply lookup_delete_eq.
  - by rewrite delete_id.
Qed.

Lemma sum_goto f m t q : sum f (goto t q m) = sum f m - at_ f m t + from_option f 0 q.
Proof.
  rewrite (sum_delete f m t). destruct q as [p|]; simpl; [|lia].
  rewrite (sum_delete f (<[t := p]> m) t), delete_insert_eq. unfold at_ at 1.
  rewrite lookup_insert_eq. simpl. lia.
Qed.

Lemma sum_nonneg f m : (∀ p, 0 ≤ f p) → 0 ≤ sum f m.
Proof.
  intros Hf. unfold sum. apply (map_fold_weak_ind (λ n _, 0 ≤ n)); [lia|].
  intros t p m' n _ Hn. specialize (Hf p). lia.
Qed.

(** A thread contributes to the sum. *)
Lemma sum_ge f m t : (∀ p, 0 ≤ f p) → at_ f m t ≤ sum f m.
Proof. intros Hf. rewrite (sum_delete f m t). pose proof (sum_nonneg f (delete t m) Hf). lia. Qed.

Lemma sum_ge2 f m t u : (∀ p, 0 ≤ f p) → t ≠ u → at_ f m t + at_ f m u ≤ sum f m.
Proof.
  intros Hf Hne. rewrite (sum_delete f m t). pose proof (sum_ge f (delete t m) u Hf) as Hu.
  unfold at_ in *. rewrite lookup_delete_ne in Hu by done. lia.
Qed.

Lemma sum_sub f h m : sum (λ p, f p - h p) m = sum f m - sum h m.
Proof.
  induction m as [|t p m Ht IH] using map_ind; [done|]. rewrite !sum_fresh by done. lia.
Qed.

Lemma sum_zero m : sum (λ _, 0) m = 0.
Proof. induction m as [|t p m Ht IH] using map_ind; [done|]. by rewrite sum_fresh. Qed.

(** ** The invariant *)

(** Who holds lock r, lock extra; who is counted in b; whose read is not granted yet (it
    waits for g); who holds the semaphore alone, as a writer. *)
Definition holds_r (p : pc) : Z :=
  match p with
  | RB_inc | RB_extra | RB_g | RB_rel_extra | RB_rel_r | RT_inc | RT_g | RT_undo | RT_rel | RT_rel_r
  | UP_dec | UP_fast | UP_extra | UP_rel_r | DG_inc | DG_rel_r | RE_dec | RE_up | RE_rel => 1
  | _ => 0
  end.
Definition holds_extra (p : pc) : Z :=
  match p with RB_g | RB_rel_extra | WB_g | WB_rel_extra | UP_rel_r | UP_g | UP_rel_extra => 1 | _ => 0 end.
Definition counted (p : pc) : Z :=
  match p with
  | RB_extra | RB_g | RB_rel_extra | RB_rel_r | RT_rel_r | Reading | RT_g | RT_undo | RE_r | RE_dec | UP_r | UP_dec
  | DG_rel_r => 1
  | _ => 0
  end.
Definition waiting (p : pc) : Z := match p with RB_extra | RB_g | RT_g | RT_undo => 1 | _ => 0 end.
Definition writer (p : pc) : Z :=
  match p with UP_fast | UP_rel_extra | WB_rel_extra | Writing | DG_r | DG_inc | WE_up | RE_up => 1 | _ => 0 end.

(** The threads that read, or are entitled to. *)
Definition readers (m : gmap Z pc) : Z := sum counted m - sum waiting m.

Definition held_by (l : option Z) (f : pc → Z) (m : gmap Z pc) : Prop :=
  match l with None => sum f m = 0 | Some t => at_ f m t = 1 ∧ sum f m = 1 end.

(** The semaphore has one unit: free, with a writer, or with the readers as a group. *)
Record rw_ok (s : rw_lock) : Prop := {
  rw_r : held_by (r s) holds_r (pcs s);
  rw_extra : held_by (extra s) holds_extra (pcs s);
  rw_b : b s = sum counted (pcs s);
  rw_g : 0 ≤ g s;
  rw_unit : g s + sum writer (pcs s) + (if 0 <? readers (pcs s) then 1 else 0) = 1;
  rw_wait : 0 < sum waiting (pcs s) → readers (pcs s) = 0;
}.

Ltac pc_cases := intros []; simpl; lia.

Lemma holds_r_nonneg p : 0 ≤ holds_r p. Proof. revert p. pc_cases. Qed.
Lemma holds_extra_nonneg p : 0 ≤ holds_extra p. Proof. revert p. pc_cases. Qed.
Lemma counted_nonneg p : 0 ≤ counted p. Proof. revert p. pc_cases. Qed.
Lemma waiting_nonneg p : 0 ≤ waiting p. Proof. revert p. pc_cases. Qed.
Lemma writer_nonneg p : 0 ≤ writer p. Proof. revert p. pc_cases. Qed.
Lemma waiting_counted p : 0 ≤ counted p - waiting p. Proof. revert p. pc_cases. Qed.
Lemma waiting_holds p : 0 ≤ holds_r p - waiting p. Proof. revert p. pc_cases. Qed.

Create HintDb rw.
#[export] Hint Resolve holds_r_nonneg holds_extra_nonneg counted_nonneg waiting_nonneg
  writer_nonneg waiting_counted waiting_holds : rw.

Lemma held_holder l f m t :
  (∀ p, 0 ≤ f p) → held_by l f m → at_ f m t = 1 → l = Some t.
Proof.
  intros Hf Hl Ht. destruct l as [u|]; simpl in Hl.
  - destruct Hl as [Hu Hs]. destruct (decide (u = t)) as [->|Hne]; [done|].
    pose proof (sum_ge2 f m u t Hf Hne). lia.
  - pose proof (sum_ge f m t Hf). lia.
Qed.

(** What the sums say of thread [t] at [p]. *)
Lemma pc_bounds m t p :
  m !! t = Some p →
  writer p ≤ sum writer m ∧ counted p - waiting p ≤ readers m ∧ waiting p ≤ sum waiting m
  ∧ holds_r p - waiting p ≤ sum holds_r m - sum waiting m ∧ counted p ≤ sum counted m.
Proof.
  intros Et. assert (Ha : ∀ f, (∀ q, 0 ≤ f q) → f p ≤ sum f m).
  { intros f Hf. pose proof (sum_ge f m t Hf) as H. unfold at_ in H. by rewrite Et in H. }
  unfold readers. rewrite <- !sum_sub.
  split_and!; [|apply (Ha (λ p, counted p - waiting p))| |apply (Ha (λ p, holds_r p - waiting p))|];
    auto with rw.
Qed.

Lemma sums_nonneg m :
  0 ≤ sum writer m ∧ 0 ≤ sum waiting m ∧ 0 ≤ readers m ∧ sum waiting m ≤ sum holds_r m.
Proof.
  pose proof (sum_nonneg writer m writer_nonneg). pose proof (sum_nonneg waiting m waiting_nonneg).
  pose proof (sum_nonneg _ m waiting_counted) as Hc. pose proof (sum_nonneg _ m waiting_holds) as Hh.
  rewrite sum_sub in Hc, Hh. unfold readers. lia.
Qed.

(** How a move of [t] changes who holds a lock. *)
Lemma held_goto l l' f m t q :
  (∀ p, 0 ≤ f p) → held_by l f m →
  (from_option f 0 q = at_ f m t ∧ l' = l)
  ∨ (at_ f m t = 0 ∧ from_option f 0 q = 1 ∧ l = None ∧ l' = Some t)
  ∨ (at_ f m t = 1 ∧ from_option f 0 q = 0 ∧ l' = None) →
  held_by l' f (goto t q m).
Proof.
  intros Hf Hl Hd.
  assert (Hself : at_ f (goto t q m) t = from_option f 0 q).
  { unfold at_. destruct q; simpl; by rewrite ?lookup_insert_eq, ?lookup_delete_eq. }
  assert (Hother : ∀ u, u ≠ t → at_ f (goto t q m) u = at_ f m u).
  { intros u Hu. unfold at_. destruct q; simpl; by rewrite ?lookup_insert_ne, ?lookup_delete_ne by done. }
  assert (Hsum := sum_goto f m t q).
  destruct Hd as [[Hq ->]|[(Ha & Hq & -> & ->)|(Ha & Hq & ->)]].
  - destruct l as [u|]; simpl in *; [|lia]. destruct Hl as [Hu Hs]. split; [|lia].
    destruct (decide (u = t)) as [->|Hne]; [lia|]. rewrite Hother by done. done.
  - simpl in *. lia.
  - rewrite (held_holder l f m t Hf Hl Ha) in Hl. simpl in *. lia.
Qed.

(** The part of the invariant about the counts, as arithmetic. *)
Lemma rw_ok_goto r0 e0 g0 b0 m t r' e' g' b' q :
  rw_ok (RwLock r0 e0 g0 b0 m) →
  held_by r' holds_r (goto t q m) → held_by e' holds_extra (goto t q m) →
  (let d f := from_option f 0 q - at_ f m t in
   let n := readers m + d counted - d waiting in
   b' = b0 + d counted ∧ 0 ≤ g'
   ∧ g' + (sum writer m + d writer) + (if 0 <? n then 1 else 0) = 1
   ∧ (0 < sum waiting m + d waiting → n = 0)) →
  rw_ok (RwLock r' e' g' b' (goto t q m)).
Proof.
  intros Hok Hr He Hd. cbv zeta in Hd. destruct Hd as (Hb & Hg & Hu & Hw).
  assert (En : readers (goto t q m)
    = readers m + (from_option counted 0 q - at_ counted m t)
      - (from_option waiting 0 q - at_ waiting m t)).
  { unfold readers. rewrite !sum_goto. lia. }
  constructor; cbn [r extra g b pcs]; try done.
  - rewrite sum_goto, Hb. pose proof (rw_b _ Hok). simpl in *. lia.
  - rewrite En, sum_goto. rewrite Z.add_assoc in Hu. rewrite Z.add_sub_assoc in Hu. destruct (0 <? _); lia.
  - rewrite En, sum_goto. intros H. apply Hw. lia.
Qed.

Lemma at_Some f m t p : m !! t = Some p → at_ f m t = f p.
Proof. intros E. unfold at_. by rewrite E. Qed.

(** Lock operations, inverted. *)
Lemma acquire_inv l t k r e g b q :
  acquire l t k = Goes r e g b q → l = None ∧ k (Some t) = Goes r e g b q.
Proof. by destruct l. Qed.
Lemma release_inv l t k r e g b q :
  release l t k = Goes r e g b q → l = Some t ∧ k None = Goes r e g b q.
Proof. unfold release. by case_bool_decide. Qed.
Lemma down_inv v k r e g b q : down v k = Goes r e g b q → v ≠ 0 ∧ k (v - 1) = Goes r e g b q.
Proof. unfold down. by destruct (Z.eqb_spec v 0). Qed.

Ltac op_inv H :=
  first [ apply acquire_inv in H as [? H] | apply release_inv in H as [? H]
        | apply down_inv in H as [? H] | idtac ].

(** A move that keeps, takes or gives up a lock. *)
Ltac held_case Hat :=
  rewrite !Hat; simpl;
  first [ left; by split | right; left; by split_and! | right; right; by split_and!
        | destruct (_ =? _); left; by split ].

Lemma rw_ok_run s t p r' e' g' b' q :
  rw_ok s → pcs s !! t = Some p → acts t p s = Goes r' e' g' b' q →
  rw_ok (RwLock r' e' g' b' (goto t q (pcs s))).
Proof.
  intros Hok Ep Ha. destruct s as [r0 e0 g0 b0 m]. cbn [pcs] in *.
  pose proof (λ f, at_Some f m t p Ep) as Hat. pose proof (pc_bounds m t p Ep) as Hp. pose proof (sums_nonneg m) as Hn.
  destruct (Hok) as [Hr He Hb Hg Hu Hw]. cbn [r extra g b pcs] in *.
  assert (Hh : holds_r p = 1 → sum holds_r m = 1).
  { intros H. rewrite <- (at_Some _ m t p Ep) in H.
    pose proof (held_holder _ _ _ _ holds_r_nonneg Hr H) as ->. apply Hr. }
  assert (Hc : sum counted m = readers m + sum waiting m) by (unfold readers; lia).
  destruct p; simpl in Ha; op_inv Ha; simplify_eq;
    repeat (case_match; simplify_eq); apply (rw_ok_goto _ _ _ _ _ _ _ _ _ _ _ Hok);
    try (apply (held_goto _ _ _ _ _ _ holds_r_nonneg Hr); held_case Hat);
    try (apply (held_goto _ _ _ _ _ _ holds_extra_nonneg He); held_case Hat).
  all: cbv beta zeta; rewrite ?Hat; simpl in *; repeat (case_match; simpl in *); lia.
Qed.

Lemma rw_ok_call s t p :
  rw_ok s → may_call (pcs s !! t) p = true →
  rw_ok (RwLock (r s) (extra s) (g s) (b s) (<[t := p]> (pcs s))).
Proof.
  intros Hok Hc. destruct s as [r0 e0 g0 b0 m]. cbn [r extra g b pcs] in *.
  assert (Hd : ∀ f, f ∈ [holds_r; holds_extra; counted; waiting; writer] → f p = at_ f m t).
  { intros f Hf. unfold at_. destruct (m !! t) as [[]|], p; try done;
      repeat (apply elem_of_cons in Hf as [->|Hf]); try done; by apply elem_of_nil in Hf. }
  destruct (Hok) as [Hr He Hb Hg Hu Hw]. cbn [r extra g b pcs] in *.
  apply (rw_ok_goto _ _ _ _ _ _ _ _ _ _ (Some p) Hok).
  - apply (held_goto _ _ _ _ _ _ holds_r_nonneg Hr). left. simpl. rewrite Hd; set_solver.
  - apply (held_goto _ _ _ _ _ _ holds_extra_nonneg He). left. simpl. rewrite Hd; set_solver.
  - cbv beta zeta. simpl. rewrite !Hd by set_solver. rewrite !Z.sub_diag, !Z.add_0_r, Z.sub_0_r. done.
Qed.

Lemma rw_ok_step s s' : rw_ok s → rw_step s s' → rw_ok s'.
Proof. intros Hok Hs. destruct Hs; [by apply rw_ok_call|by eapply rw_ok_run]. Qed.

Lemma rw_ok_init : rw_ok rw_init.
Proof. by constructor. Qed.

Lemma rw_ok_reachable s : rtc rw_step rw_init s → rw_ok s.
Proof.
  intros H. pose proof rw_ok_init as Hok. induction H as [|s s' s'' Hs _ IH]; [done|].
  apply IH. by apply (rw_ok_step s).
Qed.

(** A writer is the only one in. *)
Lemma writer_alone s t u p q :
  rw_ok s → t ≠ u → pcs s !! t = Some p → pcs s !! u = Some q → writer p = 1 →
  writer q = 0 ∧ counted q = waiting q.
Proof.
  intros Hok Hne Ep Eq Hp. pose proof (rw_unit _ Hok) as Hu. pose proof (rw_g _ Hok) as Hg.
  pose proof (sum_ge2 _ _ _ _ writer_nonneg Hne : at_ writer (pcs s) t + _ ≤ _) as Hw.
  rewrite (at_Some _ _ _ _ Ep), (at_Some _ _ _ _ Eq) in Hw.
  destruct (pc_bounds _ _ _ Eq) as (_ & Hr & _). pose proof (writer_nonneg q).
  pose proof (waiting_counted q). destruct (Z.ltb_spec 0 (readers (pcs s))); lia.
Qed.

(** No assertion fails: a lock is released by its holder, and [cache_downgrade] finds no
    accessors. *)
Lemma acts_safe s t p : rw_ok s → pcs s !! t = Some p → acts t p s ≠ Fails.
Proof.
  intros Hok Ep. destruct s as [r0 e0 g0 b0 m]. cbn [pcs] in Ep.
  destruct (pc_bounds m t p Ep) as (Hw & _ & _ & Hh & _). pose proof (sums_nonneg m) as Hn.
  destruct Hok as [Hr He Hb Hg Hu _]. cbn [r extra g b pcs] in *.
  assert (Er : holds_r p = 1 → r0 = Some t ∧ sum holds_r m = 1).
  { intros H. rewrite <- (at_Some _ m t p Ep) in H.
    pose proof (held_holder _ _ _ _ holds_r_nonneg Hr H) as ->. split; [done|apply Hr]. }
  assert (Ee : holds_extra p = 1 → e0 = Some t).
  { intros H. rewrite <- (at_Some _ m t p Ep) in H. by apply (held_holder _ _ _ _ holds_extra_nonneg He H). }
  destruct p; simpl; unfold acquire, release, down; repeat case_match; try done;
    try case_bool_decide; try done; simpl in *; try (destruct Er; [done|congruence]);
    try (rewrite Ee in *; done).
  all: assert (sum counted m = readers m + sum waiting m) by (unfold readers; lia).
  all: destruct Er as [_ Er]; [done|]; lia.
Qed.

(** ** Threads that wait for each other *)

(** Each thread of [k] is at the given operation, which has to wait. *)
Definition knot (k : list (Z * pc)) (s : rw_lock) : Prop :=
  Forall (λ '(t, p), pcs s !! t = Some p ∧ acts t p s = Waits ∧ p ≠ Reading ∧ p ≠ Writing) k.

Lemma goto_other t u q m : u ≠ t → goto t q m !! u = m !! u.
Proof. intros Hne. destruct q; simpl; by rewrite ?lookup_insert_ne, ?lookup_delete_ne by done. Qed.

(** A step leaves the threads of a knot where they are. *)
Lemma knot_step k s s' t p :
  knot k s → (t, p) ∈ k → rw_step s s' → pcs s' !! t = Some p.
Proof.
  intros Hk Hin Hs. apply (proj1 (Forall_forall _ _) Hk) in Hin as (Ep & Ha & Hr & Hw).
  destruct Hs as [u q s Hc|u q s r' e' g' b' q' Eq Hq]; cbn [pcs].
  - destruct (decide (t = u)) as [->|Hne]; [|by rewrite lookup_insert_ne by done].
    rewrite Ep in Hc. by destruct p.
  - rewrite goto_other; [done|]. intros ->. congruence.
Qed.

(** A knot that the invariant keeps tied is never untied. *)
Lemma knot_forever k s s' :
  (∀ s, rw_ok s → Forall (λ '(t, p), pcs s !! t = Some p) k → knot k s) →
  rw_ok s → knot k s → rtc rw_step s s' → knot k s'.
Proof.
  intros Hinv Hok Hk Hs. induction Hs as [|s s1 s2 Hs _ IH]; [done|].
  assert (rw_ok s1) by by apply (rw_ok_step s). apply IH; [done|]. apply Hinv; [done|].
  apply Forall_forall. intros [t p] Hin. by apply (knot_step k s s1 t p).
Qed.

(** Thread 1 has claimed the block with [cache_write_try] and downgrades; thread 2 looks the
    block up meanwhile. *)
Definition downgrade_knot : list (Z * pc) := [(1, DG_r); (2, RB_g)].

Lemma downgrade_tied s :
  rw_ok s → Forall (λ '(t, p), pcs s !! t = Some p) downgrade_knot → knot downgrade_knot s.
Proof.
  intros Hok Hp. inversion_clear Hp as [|? ? H1 Hp']. inversion_clear Hp' as [|? ? H2 _].
  pose proof (at_Some holds_r _ _ _ H2) as Hr.
  apply (held_holder _ _ _ _ holds_r_nonneg (rw_r _ Hok)) in Hr.
  pose proof (rw_unit _ Hok). pose proof (rw_g _ Hok). pose proof (pc_bounds _ _ _ H1) as (Hw & _).
  assert (Eg : g s = 0) by (simpl in Hw; destruct (0 <? readers _); lia).
  destruct s. cbn [r g pcs] in *. subst. repeat constructor; done.
Qed.

(** Threads 1, 2 and 3 read; 1 and 2 upgrade and 3 ends its read. *)
Definition upgrade_knot : list (Z * pc) := [(1, UP_g); (2, UP_extra); (3, RE_r)].

Lemma upgrade_tied s :
  rw_ok s → Forall (λ '(t, p), pcs s !! t = Some p) upgrade_knot → knot upgrade_knot s.
Proof.
  intros Hok Hp. inversion_clear Hp as [|? ? H1 Hp']. inversion_clear Hp' as [|? ? H2 Hp''].
  inversion_clear Hp'' as [|? ? H3 _].
  pose proof (at_Some holds_r _ _ _ H2) as Hr. pose proof (at_Some holds_extra _ _ _ H1) as He.
  apply (held_holder _ _ _ _ holds_r_nonneg (rw_r _ Hok)) in Hr.
  apply (held_holder _ _ _ _ holds_extra_nonneg (rw_extra _ Hok)) in He.
  pose proof (rw_unit _ Hok). pose proof (rw_g _ Hok). pose proof (pc_bounds _ _ _ H3) as (_ & Hc & _).
  pose proof (sums_nonneg (pcs s)).
  assert (Eg : g s = 0) by (simpl in Hc; destruct (Z.ltb_spec 0 (readers (pcs s))); lia).
  destruct s. cbn [r extra g pcs] in *. subst. repeat constructor; done.
Qed.

(** Schedules: a call, or one operation of a thread. *)
Inductive move := Call (t : Z) (p : pc) | Run (t : Z).

Definition do_move (v : move) (s : rw_lock) : option rw_lock :=
  match v with
  | Call t p =>
      if may_call (pcs s !! t) p then Some (RwLock (r s) (extra s) (g s) (b s) (<[t := p]> (pcs s)))
      else None
  | Run t =>
      match pcs s !! t with
      | Some p => match acts t p s with
                  | Goes r' e' g' b' q => Some (RwLock r' e' g' b' (goto t q (pcs s)))
                  | _ => None
                  end
      | None => None
      end
  end.

Fixpoint schedule (l : list move) (s : rw_lock) : option rw_lock :=
  match l with
  | [] => Some s
  | v :: l => match do_move v s with Some s => schedule l s | None => None end
  end.

Lemma schedule_steps l s s' : schedule l s = Some s' → rtc rw_step s s'.
Proof.
  revert s. induction l as [|v l IH]; simpl; intros s H; [by simplify_eq|].
  destruct (do_move v s) as [s1|] eqn:Ev; [|done]. apply rtc_l with s1; [|by apply IH].
  destruct v as [t p|t]; simpl in Ev.
  - destruct (may_call _ _) eqn:Ec; [|done]. simplify_eq. by constructor.
  - destruct (pcs s !! t) as [p|] eqn:Ep; [|done]. destruct (acts t p s) eqn:Ea; try done.
    simplify_eq. by econstructor.
Qed.

Definition to_downgrade_knot : list move :=
  [Call 1 WT_g; Run 1; Call 2 RB_r; Run 2; Run 2; Run 2; Call 1 DG_r].

Definition reads (t : Z) (first : bool) : list move :=
  Call t RB_r :: replicate (if first then 6 else 3)%nat (Run t).
Definition to_upgrade_knot : list move :=
  reads 1 true ++ reads 2 false ++ reads 3 false
  ++ [Call 1 UP_r; Run 1; Run 1; Run 1; Run 1; Call 2 UP_r; Run 2; Run 2; Call 3 RE_r].

(** ** The claims *)

(** C39.  Whatever the interleaving, while a thread has the block for writing no other thread
    has it for reading or writing, no lock is released by a thread that does not hold it, and
    the assertion of cache_downgrade that there are no accessors holds. *)
Theorem rw_exclusion s :
  rtc rw_step rw_init s →
  (∀ t u q, pcs s !! t = Some Writing → pcs s !! u = Some q → t ≠ u → q ≠ Reading ∧ q ≠ Writing)
  ∧ (∀ t p, pcs s !! t = Some p → acts t p s ≠ Fails).
Proof.
  intros Hs%rw_ok_reachable. split.
  - intros t u q Et Eu Hne. pose proof (writer_alone s t u _ q Hs Hne Et Eu eq_refl) as Ha.
    split; intros ->; simpl in Ha; lia.
  - intros t p. by apply acts_safe.
Qed.

Lemma rw_exclusion_witness :
  ∃ s, rtc rw_step rw_init s ∧ pcs s !! 1 = Some Writing ∧ pcs s !! 2 = Some RB_g
  ∧ acts 1 Writing s ≠ Fails ∧ RB_g ≠ Reading.
Proof.
  set (l := [Call 1 WT_g; Run 1; Call 2 RB_r; Run 2; Run 2; Run 2]).
  assert (Hs : ∃ s, schedule l rw_init = Some s ∧ pcs s !! 1 = Some Writing ∧ pcs s !! 2 = Some RB_g).
  { vm_compute. eexists. split_and!; reflexivity. }
  destruct Hs as (s & Hs & H1 & H2). exists s. apply schedule_steps in Hs.
  destruct (rw_exclusion s Hs) as [He Ha]. split_and!; try assumption.
  - exact (Ha 1 Writing H1).
  - refine (proj1 (He 1 2 RB_g H1 H2 _)). discriminate.
Defined.

(** C40.  The lock can deadlock in two ways.  A thread that downgrades a block it claimed with
    cache_write_try, while another looks the block up with cache_read_begin; and two readers
    that upgrade while a third ends its read.  From a reachable state on, whatever the other
    threads do, none of these threads runs again. *)
Theorem rw_deadlock :
  (∃ s, rtc rw_step rw_init s ∧ ∀ s', rtc rw_step s s' → knot [(1, DG_r); (2, RB_g)] s')
  ∧ (∃ s, rtc rw_step rw_init s
      ∧ ∀ s', rtc rw_step s s' → knot [(1, UP_g); (2, UP_extra); (3, RE_r)] s').
Proof.
  assert (Hgo : ∀ l k, (∀ s, rw_ok s → Forall (λ '(t, p), pcs s !! t = Some p) k → knot k s) →
    match schedule l rw_init with
    | Some s => Forall (λ '(t, p), pcs s !! t = Some p) k
    | None => False
    end → ∃ s, rtc rw_step rw_init s ∧ ∀ s', rtc rw_step s s' → knot k s').
  { intros l k Hk H. destruct (schedule l rw_init) as [s|] eqn:Es; [|done].
    apply schedule_steps in Es. exists s. split; [done|]. intros s' Hs'.
    pose proof (rw_ok_reachable s Es). apply (knot_forever k s); auto. }
  split.
  - apply (Hgo to_downgrade_knot _ downgrade_tied). vm_compute. by repeat constructor.
  - apply (Hgo to_upgrade_knot _ upgrade_tied). vm_compute. by repeat constructor.
Qed.
