(* ===== verification/Block.v ===== *)
(** * devices/block.c and devices/partition.c: block devices and partitions

    A block device calls its driver through [struct block_operations], which is the class
    [BlockDriver]: the driver's state, its two operations and the sectors they make
    available; [BlockDriverLaws] says what callers rely on.  An IDE disk, a partition and a
    whole block device are all drivers in this sense; the laws are shown here for block
    devices ([block_read], [block_write]) over any driver and for partitions of a block
    device, and for a plain array of sectors, which stands for the hardware.

    Shown: reading and writing through a partition reads and writes the sectors of the
    partition only; every partition that a scan registers lies inside its device; a scan of
    a disk with an extended partition never ends. *)

From S2P Require Import Prelude Bytes.

Definition BLOCK_SECTOR_SIZE : Z := 512.

(** ** Drivers *)

Class BlockDriver (D : Type) : Type := {
  op_read : Z → ST D (list Z);
  op_write : Z → list Z → ST D unit;
  dev_get : D → Z → list Z;      (* the sectors, as a specification *)
  dev_ok : D → Z → Prop;         (* a device with so many sectors *)
}.

(** The contents of a sector: so many bytes. *)
Definition is_sector (b : list Z) : Prop := Z.of_nat (length b) = BLOCK_SECTOR_SIZE ∧ Forall is_u8 b.

Class BlockDriverLaws (D : Type) {drv : BlockDriver D} : Prop := {
  dev_get_sector d n s : dev_ok d n → 0 ≤ s < n → is_sector (dev_get d s);
  op_read_spec d n s :
    dev_ok d n → 0 ≤ s < n →
    ∃ d', op_read s d = Ok (dev_get d s, d') ∧ dev_ok d' n ∧ ∀ s', dev_get d' s' = dev_get d s';
  op_write_spec d n s b :
    dev_ok d n → 0 ≤ s < n → is_sector b →
    ∃ d', op_write s b d = Ok (tt, d') ∧ dev_ok d' n
      ∧ ∀ s', 0 ≤ s' < n → dev_get d' s' = if s' =? s then b else dev_get d s';
}.

(** ** Block devices *)

Inductive block_type : Type :=
  | BLOCK_KERNEL | BLOCK_FILESYS | BLOCK_SCRATCH | BLOCK_SWAP | BLOCK_RAW | BLOCK_FOREIGN.

#[export] Instance block_type_eq_dec : EqDecision block_type.
Proof. solve_decision. Defined.

Record block (D : Type) : Type := Block {
  type : block_type;
  size : Z;
  aux : D;
  read_cnt : Z;
  write_cnt : Z;
}.
Arguments Block {D} _ _ _ _ _.
Arguments type {D} _.
Arguments size {D} _.
Arguments aux {D} _.
Arguments read_cnt {D} _.
Arguments write_cnt {D} _.

Definition zeros : list Z := replicate (Z.to_nat BLOCK_SECTOR_SIZE) 0.

Lemma zeros_sector : is_sector zeros.
Proof. split; [done|]. apply Forall_replicate. unfold_ints. lia. Qed.

Section block.
Context {D : Type} {drv : BlockDriver D}.

Definition block_size (b : block D) : Z := size b.

Definition check_sector (sector : Z) : ST (block D) unit := λ b,
  if size b <=? sector then Err Panicked else Ok (tt, b).

(** The driver works on its own data, [aux]. *)
Definition call_driver {A} (m : ST D A) : ST (block D) A := λ b,
  match m (aux b) with
  | Ok (a, d) => Ok (a, Block (type b) (size b) d (read_cnt b) (write_cnt b))
  | Err e => Err e
  end.

Definition block_read (sector : Z) : ST (block D) (list Z) :=
  check_sector sector;;
  buffer ← call_driver (op_read sector);
  modify (λ b, Block (type b) (size b) (aux b) (u64 (read_cnt b + 1)) (write_cnt b));;
  mret buffer.

Definition block_write (sector : Z) (buffer : list Z) : ST (block D) unit :=
  check_sector sector;;
  b ← gets id;
  assert (negb (bool_decide (type b = BLOCK_FOREIGN)));;
  call_driver (op_write sector buffer);;
  modify (λ b, Block (type b) (size b) (aux b) (read_cnt b) (u64 (write_cnt b + 1))).

Definition block_clear (sector : Z) : ST (block D) unit := block_write sector zeros.

(** A registered device: the driver has at least the sectors it was registered with. *)
Definition block_ok (b : block D) (n : Z) : Prop :=
  size b = n ∧ type b ≠ BLOCK_FOREIGN ∧ ∃ m, n ≤ m ∧ dev_ok (aux b) m.

#[export] Instance block_driver : BlockDriver (block D) := {|
  op_read := block_read;
  op_write := block_write;
  dev_get b s := dev_get (aux b) s;
  dev_ok := block_ok;
|}.

#[export] Instance block_driver_laws `{!BlockDriverLaws D} : BlockDriverLaws (block D).
Proof.
  constructor.
  - intros b n s (_ & _ & m & Hm & Hd) Hs. simpl. apply (dev_get_sector _ m); [done|lia].
  - intros b n s (Hz & Ht & m & Hm & Hd) Hs. destruct (op_read_spec _ m s Hd) as (d' & E & Hd' & Hg); [lia|].
    simpl. unfold block_read, call_driver, check_sector, mbind, st_bind. destruct (Z.leb_spec (size b) s); [lia|].
    rewrite E. simpl. eexists. split; [done|]. split; [|done]. split; [done|]. split; [done|]. by exists m.
  - intros b n s c (Hz & Ht & m & Hm & Hd) Hs Hc.
    destruct (op_write_spec _ m s c Hd) as (d' & E & Hd' & Hg); [lia|done|].
    simpl. unfold block_write, call_driver, check_sector, mbind, st_bind. destruct (Z.leb_spec (size b) s); [lia|].
    simpl. rewrite bool_decide_eq_false_2 by done. simpl. rewrite E. simpl. eexists. split; [done|].
    split; [|intros s' Hs'; apply Hg; lia]. split; [done|]. split; [done|]. by exists m.
Qed.
End block.

(** ** An array of sectors *)

Record disk : Type := Disk { disk_size : Z; disk_sectors : gmap Z (list Z) }.

Definition sector_of (d : disk) (s : Z) : list Z := default zeros (disk_sectors d !! s).

#[export] Instance disk_driver : BlockDriver disk := {|
  op_read s := λ d, Ok (sector_of d s, d);
  op_write s b := λ d, Ok (tt, Disk (disk_size d) (<[s := b]> (disk_sectors d)));
  dev_get := sector_of;
  dev_ok d n := disk_size d = n ∧ ∀ s b, disk_sectors d !! s = Some b → is_sector b;
|}.

#[export] Instance disk_driver_laws : BlockDriverLaws disk.
Proof.
  constructor.
  - intros d n s [_ Hd] _. simpl. unfold sector_of. destruct (disk_sectors d !! s) as [b|] eqn:E; [|apply zeros_sector].
    by apply (Hd s b).
  - intros d n s Hd _. by exists d.
  - intros d n s b [Hn Hd] Hs Hb. eexists. split; [reflexivity|]. split.
    + split; [done|]. simpl. intros s' b' H. apply lookup_insert_Some in H as [[_ <-]|[_ H]]; [done|].
      by apply (Hd s' b').
    + intros s' _. simpl. unfold sector_of. simpl. destruct (Z.eqb_spec s' s) as [->|Hne].
      * by rewrite lookup_insert_eq.
      * by rewrite lookup_insert_ne.
Qed.

(** ** Little-endian fields of a sector *)

Lemma byte_at_range b i : is_sector b → is_u8 (byte_at b i).
Proof.
  intros [_ Hb]. unfold byte_at. destruct (nth_in_or_default i b 0) as [Hin| ->]; [|unfold_ints; lia].
  apply (proj1 (Forall_forall _ _) Hb). by apply list_elem_of_In.
Qed.

Lemma get16_range b i : is_sector b → 0 ≤ get16 b i < 2 ^ 16.
Proof.
  intros Hb. unfold get16. pose proof (byte_at_range b i Hb). pose proof (byte_at_range b (i + 1) Hb).
  unfold_ints. lia.
Qed.

Lemma get32_range b i : is_sector b → is_u32 (get32 b i).
Proof.
  intros Hb. unfold get32. pose proof (get16_range b i Hb). pose proof (get16_range b (i + 2) Hb).
  unfold_ints. lia.
Qed.

(** ** Partitions *)

Record partition (D : Type) : Type := Partition { pblock : block D; start : Z }.
Arguments Partition {D} _ _.
Arguments pblock {D} _.
Arguments start {D} _.

(** An entry of a partition table, and the table of a sector. *)
Record partition_table_entry : Type := Entry { e_type : Z; e_offset : Z; e_size : Z }.

Definition entry_at (pt : list Z) (i : nat) : partition_table_entry :=
  let o := (446 + 16 * i)%nat in
  Entry (byte_at pt (o + 4)) (get32 pt (o + 8)) (get32 pt (o + 12)).
Definition partitions (pt : list Z) : list partition_table_entry := entry_at pt <$> seq 0 4.
Definition signature (pt : list Z) : Z := get16 pt 510.

Definition is_extended (e : partition_table_entry) : bool :=
  (e_type e =? 0x05) || (e_type e =? 0x0f) || (e_type e =? 0x85) || (e_type e =? 0xc5).
Definition is_empty (e : partition_table_entry) : bool := (e_size e =? 0) || (e_type e =? 0).

Definition partition_type (part_type : Z) : block_type :=
  if part_type =? 0x20 then BLOCK_KERNEL else if part_type =? 0x21 then BLOCK_FILESYS
  else if part_type =? 0x22 then BLOCK_SCRATCH else if part_type =? 0x23 then BLOCK_SWAP
  else BLOCK_FOREIGN.

(** A partition that was registered: its number, type, first sector and size. *)
Record registered : Type := Registered {
  r_number : Z; r_type : block_type; r_start : Z; r_size : Z }.

Section partition.
Context {D : Type} {drv : BlockDriver D}.

Definition on_block {A} (m : ST (block D) A) : ST (partition D) A := λ p,
  match m (pblock p) with
  | Ok (a, b) => Ok (a, Partition b (start p))
  | Err e => Err e
  end.

Definition partition_read (sector : Z) : ST (partition D) (list Z) := λ p,
  on_block (block_read (u32 (start p + sector))) p.
Definition partition_write (sector : Z) (buffer : list Z) : ST (partition D) unit := λ p,
  on_block (block_write (u32 (start p + sector)) buffer) p.

#[export] Instance partition_driver : BlockDriver (partition D) := {|
  op_read := partition_read;
  op_write := partition_write;
  dev_get p s := dev_get (pblock p) (start p + s);
  dev_ok p n := ∃ m, dev_ok (pblock p) m ∧ 0 ≤ start p ∧ start p + n ≤ m < 2 ^ 32;
|}.

#[export] Instance partition_driver_laws `{!BlockDriverLaws D} : BlockDriverLaws (partition D).
Proof.
  constructor.
  - intros p n s (m & Hd & Hp & Hm) Hs. apply (dev_get_sector (pblock p) m _ Hd). lia.
  - intros p n s (m & Hd & Hp & Hm) Hs.
    destruct (op_read_spec (pblock p) m (start p + s) Hd) as (b' & E & Hb' & Hg); [lia|].
    simpl. unfold partition_read, on_block. rewrite u32_small by (unfold_ints; lia). simpl in E. rewrite E.
    eexists. split; [done|]. split; [by exists m|]. intros s'. apply Hg.
  - intros p n s b (m & Hd & Hp & Hm) Hs Hb.
    destruct (op_write_spec (pblock p) m (start p + s) b Hd) as (b' & E & Hb' & Hg); [lia|done|].
    simpl. unfold partition_write, on_block. rewrite u32_small by (unfold_ints; lia). simpl in E. rewrite E.
    eexists. split; [done|]. split; [by exists m|]. intros s' Hs'. simpl in Hg. simpl. rewrite Hg by lia.
    destruct (Z.eqb_spec (start p + s') (start p + s)), (Z.eqb_spec s' s); lia || done.
Qed.

(** The state of a scan: the device, what was registered, and the outcomes of the next
    allocations. *)
Record scan : Type := Scan { dev : block D; found : list registered; mallocs : nat → bool }.

Definition on_dev {A} (m : ST (block D) A) : ST scan A := λ s,
  match m (dev s) with
  | Ok (a, b) => Ok (a, Scan b (found s) (mallocs s))
  | Err e => Err e
  end.
Definition malloc_or_panic : ST scan unit := λ s,
  if mallocs s 0%nat then Ok (tt, Scan (dev s) (found s) (λ n, mallocs s (S n))) else Err Panicked.

Definition found_partition (part_type start size part_nr : Z) : ST scan unit :=
  s ← gets id;
  if block_size (dev s) <=? start then mret tt
  else if (u32 (start + size) <? start) || (block_size (dev s) <? u32 (start + size)) then mret tt
  else
    let type := partition_type part_type in
    malloc_or_panic;;
    modify (λ s, Scan (dev s) (found s ++ [Registered part_nr type start size]) (mallocs s)).

(** The loop over the entries of a table; [rec] reads another table. *)
Fixpoint scan_entries (rec : Z → Z → Z → ST scan Z) (sector primary_extended_sector : Z)
  (es : list partition_table_entry) (part_nr : Z) : ST scan Z :=
  match es with
  | [] => mret part_nr
  | e :: es =>
      part_nr ←
        (if is_empty e then mret part_nr
         else if is_extended e then
           if sector =? 0 then rec (e_offset e) (e_offset e) part_nr
           else rec (u32 (e_offset e + primary_extended_sector)) primary_extended_sector part_nr
         else
           found_partition (e_type e) (u32 (e_offset e + sector)) (e_size e) (part_nr + 1);;
           mret (part_nr + 1));
      scan_entries rec sector primary_extended_sector es part_nr
  end.

Fixpoint read_partition_table (fuel : nat) (sector primary_extended_sector part_nr : Z)
  : ST scan Z :=
  match fuel with
  | O => fail OutOfFuel
  | S fuel =>
      s ← gets id;
      if block_size (dev s) <=? sector then mret part_nr
      else
        malloc_or_panic;;
        pt ← on_dev (block_read 0);
        if negb (signature pt =? 0xaa55) then mret part_nr
        else
          scan_entries (read_partition_table fuel) sector primary_extended_sector
            (partitions pt) part_nr
  end.

Definition partition_scan (fuel : nat) : ST scan Z := read_partition_table fuel 0 0 0.

(** ** What a scan does *)

Context `{!BlockDriverLaws D}.

(** The device has [n] sectors and [t] is its first one. *)
Definition scan_ok (n : Z) (t : list Z) (s : scan) : Prop :=
  dev_ok (dev s) n ∧ dev_get (dev s) 0 = t ∧ 0 < n < 2 ^ 32.

Lemma found_partition_ok n t ty st sz nr s u s' :
  scan_ok n t s → found_partition ty st sz nr s = Ok (u, s') → scan_ok n t s'.
Proof.
  unfold found_partition, malloc_or_panic. intros Hs H. simpl in H. unfold mbind, st_bind, mret, st_ret in H. simpl in H.
  destruct (_ <=? _); [by simplify_eq/=|]. destruct (_ || _)%bool; [by simplify_eq/=|].
  destruct (mallocs s 0); [|done]. unfold modify in H. by simplify_eq/=.
Qed.

Lemma scan_entries_ok n t rec sector pes es nr s nr' s' :
  (∀ a b c s r s', scan_ok n t s → rec a b c s = Ok (r, s') → scan_ok n t s') →
  scan_ok n t s → scan_entries rec sector pes es nr s = Ok (nr', s') → scan_ok n t s'.
Proof.
  intros Hrec. revert nr s. induction es as [|e es IH]; simpl; intros nr s Hs H; [by injection H as <- <-|].
  apply st_bind_Ok in H as (nr1 & s1 & H1 & H). apply (IH nr1 s1); [|done]. clear IH H.
  destruct (is_empty e); [by injection H1 as <- <-|]. destruct (is_extended e).
  - destruct (sector =? 0); eauto.
  - apply st_bind_Ok in H1 as (u & s2 & H1 & H2). injection H2 as <- <-. eauto using found_partition_ok.
Qed.

Lemma table_read n t s :
  scan_ok n t s → ∃ s', on_dev (block_read 0) s = Ok (t, s') ∧ scan_ok n t s'
    ∧ found s' = found s ∧ mallocs s' = mallocs s.
Proof.
  intros (Hd & Ht & Hn). destruct (op_read_spec (dev s) n 0 Hd) as (b & E & Hb & Hg); [lia|].
  assert (E' : block_read 0 (dev s) = Ok (t, b)) by (rewrite <- Ht; exact E).
  unfold on_dev. rewrite E'. eexists. split; [done|]. split_and!; try done.
  split; [done|]. split; [|done]. rewrite <- Ht. apply Hg.
Qed.

Lemma scan_size n t s : scan_ok n t s → block_size (dev s) = n.
Proof. by intros ((Hz & _) & _). Qed.

(** What [read_partition_table] does before its loop, on a table that is read. *)
Lemma read_partition_table_unfold n t s fuel sector pes nr :
  scan_ok n t s → sector < n → mallocs s 0%nat = true → signature t = 0xaa55 →
  ∃ s', scan_ok n t s' ∧ found s' = found s ∧ (∀ i, mallocs s' i = mallocs s (S i))
    ∧ read_partition_table (S fuel) sector pes nr s
      = scan_entries (read_partition_table fuel) sector pes (partitions t) nr s'.
Proof.
  intros Hs Hsec Hm Hsig. cbn [read_partition_table]. unfold mbind at 1, st_bind at 1. simpl.
  rewrite (scan_size n t s Hs). destruct (Z.leb_spec n sector); [lia|].
  unfold mbind at 1, st_bind at 1, malloc_or_panic. rewrite Hm.
  destruct (table_read n t (Scan (dev s) (found s) (λ i, mallocs s (S i)))) as (s' & E & Hs' & Hf & Hm');
    [done|]. unfold mbind, st_bind. rewrite E, Hsig. simpl. exists s'. split_and!; try done. by rewrite Hm'.
Qed.

Lemma read_partition_table_ok n t fuel sector pes nr s nr' s' :
  scan_ok n t s → read_partition_table fuel sector pes nr s = Ok (nr', s') → scan_ok n t s'.
Proof.
  revert sector pes nr s nr' s'. induction fuel as [|fuel IH]; intros sector pes nr s nr' s' Hs H; [done|].
  destruct (decide (sector < n ∧ mallocs s 0%nat = true ∧ signature t = 0xaa55)) as [(H1 & H2 & H3)|Hno].
  - destruct (read_partition_table_unfold n t s fuel sector pes nr Hs H1 H2 H3) as (s1 & Hs1 & _ & _ & E).
    rewrite E in H. eapply scan_entries_ok; [|exact Hs1|exact H]. eauto.
  - cbn [read_partition_table] in H. apply st_bind_Ok in H as (s0 & s1 & E0 & H). injection E0 as <- <-.
    change (id s) with s in H. rewrite (scan_size n t s Hs) in H. destruct (Z.leb_spec n sector); [by injection H as <- <-|].
    apply st_bind_Ok in H as (u & s2 & Em & H). unfold malloc_or_panic in Em. case_match; [|done]. injection Em as <- <-.
    destruct (table_read n t (Scan (dev s) (found s) (λ i, mallocs s (S i)))) as (s3 & E & Hs3 & _); [done|].
    apply st_bind_Ok in H as (pt & s4 & E4 & H). rewrite E in E4. injection E4 as <- <-. destruct (Z.eqb_spec (signature t) 0xaa55).
    + exfalso. apply Hno. split_and!; [lia|done|done].
    + by injection H as <- <-.
Qed.

(** The partitions of a table with no extended entry, on a device with [n] sectors. *)
Fixpoint expected (n : Z) (es : list partition_table_entry) (nr : Z) : list registered :=
  match es with
  | [] => []
  | e :: es =>
      if is_empty e then expected n es nr
      else
        (if e_offset e + e_size e <=? n
         then [Registered (nr + 1) (partition_type (e_type e)) (e_offset e) (e_size e)] else [])
        ++ expected n es (nr + 1)
  end.

Definition nonempty (es : list partition_table_entry) : Z :=
  foldr (λ e n, if is_empty e then n else 1 + n) 0 es.

(** A scan of such a table, with memory for the descriptors. *)
Lemma found_partition_spec n t ty st sz nr s :
  scan_ok n t s → (∀ i, mallocs s i = true) → is_u32 st → is_u32 sz → sz ≠ 0 →
  ∃ s', found_partition ty st sz nr s = Ok (tt, s') ∧ dev s' = dev s ∧ (∀ i, mallocs s' i = true)
    ∧ found s' = found s ++ (if st + sz <=? n then [Registered nr (partition_type ty) st sz] else []).
Proof.
  intros Hs Hm Hst Hsz Hnz. unfold found_partition, mbind, st_bind. simpl. rewrite (scan_size n t s Hs).
  destruct Hs as (_ & _ & Hn). unfold_ints.
  assert (Hu : u32 (st + sz) = st + sz ∨ 2 ^ 32 ≤ st + sz ∧ u32 (st + sz) < st).
  { destruct (decide (st + sz < 2 ^ 32)); [left; apply u32_small; unfold_ints; lia|right].
    unfold u32. rewrite <- (Z_mod_plus_full _ (-1)), Z.mod_small; lia. }
  destruct (Z.leb_spec n st); [|destruct (Z.ltb_spec (u32 (st + sz)) st); [|destruct (Z.ltb_spec n (u32 (st + sz)))]];
    simpl; (destruct (Z.leb_spec (st + sz) n); [try lia|try (destruct Hu; lia)]).
  1-3: eexists; split; [done|]; simpl; by rewrite app_nil_r.
  unfold malloc_or_panic. rewrite Hm. eexists. split; [done|]. simpl. auto.
Qed.

Lemma scan_entries_plain n t rec es nr s :
  scan_ok n t s → (∀ i, mallocs s i = true) →
  Forall (λ e, is_extended e = false ∧ is_u32 (e_offset e) ∧ is_u32 (e_size e)) es →
  ∃ s', scan_entries rec 0 0 es nr s = Ok (nr + nonempty es, s') ∧ scan_ok n t s'
    ∧ found s' = found s ++ expected n es nr.
Proof.
  revert nr s. induction es as [|e es IH]; intros nr s Hs Hm Hes; simpl.
  { exists s. rewrite app_nil_r. by rewrite Z.add_0_r. }
  inversion_clear Hes as [|? ? (Hx & Ho & Hz) Hes']. unfold mbind, st_bind.
  destruct (is_empty e) eqn:Ee; simpl; [by apply IH|]. rewrite Hx.
  assert (Hnz : e_size e ≠ 0) by (unfold is_empty in Ee; bools; done).
  rewrite Z.add_0_r, (u32_small (e_offset e)) by done.
  destruct (found_partition_spec n t (e_type e) (e_offset e) (e_size e) (nr + 1) s) as (s1 & E & Hd & Hm1 & Hf);
    try done. rewrite E. unfold mret, st_ret.
  assert (Hs1 : scan_ok n t s1) by (unfold scan_ok; by rewrite Hd).
  destruct (IH (nr + 1) s1 Hs1 Hm1 Hes') as (s' & E' & Hs' & Hf'). exists s'.
  rewrite E', Hf', Hf, <- app_assoc. split_and!; try done. do 2 f_equal. lia.
Qed.

(** Every partition that [expected] lists is inside the device. *)
Lemma expected_inside n es nr r :
  Forall (λ e, is_u32 (e_offset e) ∧ is_u32 (e_size e)) es → r ∈ expected n es nr →
  0 ≤ r_start r ∧ 0 < r_size r ∧ r_start r + r_size r ≤ n.
Proof.
  intros Hes. revert nr. induction Hes as [|e es [Ho Hz] _ IH]; simpl; intros nr Hr; [set_solver|].
  destruct (is_empty e) eqn:Ee; [by apply (IH nr)|]. apply elem_of_app in Hr as [Hr|Hr]; [|by apply (IH (nr + 1))].
  assert (e_size e ≠ 0) by (unfold is_empty in Ee; bools; done).
  destruct (Z.leb_spec (e_offset e + e_size e) n); [|set_solver]. apply list_elem_of_singleton in Hr as ->.
  unfold_ints. simpl. lia.
Qed.

Lemma partitions_u32 t :
  is_sector t → Forall (λ e, is_u32 (e_offset e) ∧ is_u32 (e_size e)) (partitions t).
Proof.
  intros Ht. apply Forall_fmap, Forall_true. intros i. split; by apply get32_range.
Qed.

(** An extended partition: the table at sector 0 is read again, for ever. *)
Lemma scan_entries_stuck n t rec sector pes es nr s e :
  (∀ a b c s r s', scan_ok n t s → rec a b c s = Ok (r, s') → scan_ok n t s') →
  (∀ nr s r, scan_ok n t s → is_empty e = false → is_extended e = true →
     (if sector =? 0 then rec (e_offset e) (e_offset e) nr
      else rec (u32 (e_offset e + pes)) pes nr) s ≠ Ok r) →
  is_empty e = false → is_extended e = true → e ∈ es →
  scan_ok n t s → ∀ r, scan_entries rec sector pes es nr s ≠ Ok r.
Proof.
  intros Hrec Hstuck He Hx. revert nr s. induction es as [|e' es IH]; intros nr s Hin Hs r H; [set_solver|].
  destruct r as [nr' s']. pose proof H as H'. cbn [scan_entries] in H.
  apply st_bind_Ok in H as (nr1 & s1 & H1 & H). apply elem_of_cons in Hin as [<-|Hin].
  - rewrite He, Hx in H1. by apply (Hstuck nr s (nr1, s1) Hs He Hx).
  - apply (IH nr1 s1 Hin) in H; [done|]. apply (scan_entries_ok n t rec sector pes [e'] nr s nr1 s1); [done|done|].
    cbn [scan_entries]. unfold mbind at 1, st_bind at 1. by rewrite H1.
Qed.

Lemma read_partition_table_stuck n t e :
  signature t = 0xaa55 → e ∈ partitions t → is_empty e = false → is_extended e = true →
  e_offset e < n → u32 (e_offset e + e_offset e) < n →
  ∀ fuel sector pes nr s, scan_ok n t s → sector < n → sector = 0 ∨ pes = e_offset e →
  ∀ r, read_partition_table fuel sector pes nr s ≠ Ok r.
Proof.
  intros Hsig Hin He Hx Ho Ho2 fuel. induction fuel as [|fuel IH]; intros sector pes nr s Hs Hsec Hp r H; [done|].
  destruct (mallocs s 0) eqn:Em.
  - destruct (read_partition_table_unfold n t s fuel sector pes nr Hs Hsec Em Hsig) as (s1 & Hs1 & _ & _ & E).
    rewrite E in H. revert r H. apply (scan_entries_stuck n t _ sector pes _ nr s1 e); try done.
    { intros. by eapply read_partition_table_ok. }
    intros nr1 s2 r Hs2 _ _. destruct (Z.eqb_spec sector 0).
    + apply IH; auto.
    + destruct Hp as [Hp| ->]; [done|]. apply IH; auto.
  - cbn [read_partition_table] in H. unfold mbind at 1, st_bind at 1 in H. simpl in H.
    rewrite (scan_size n t s Hs) in H. destruct (Z.leb_spec n sector); [lia|].
    unfold mbind at 1, st_bind at 1, malloc_or_panic in H. by rewrite Em in H.
Qed.
End partition.

(** A write through a partition reaches the sector of the device it stands for, and no other. *)
Lemma partition_write_at {D} `{BlockDriverLaws D} (b : block D) n p sector buffer :
  dev_ok b n → 0 ≤ p → 0 ≤ sector → p + sector < n < 2 ^ 32 → is_sector buffer →
  ∃ p', partition_write sector buffer (Partition b p) = Ok (tt, p')
    ∧ ∀ x, 0 ≤ x < n → dev_get (pblock p') x = if x =? p + sector then buffer else dev_get b x.
Proof.
  intros Hb Hp Hs Hn Hbuf. destruct (op_write_spec b n (p + sector) buffer Hb) as (b' & E & _ & Hg); [lia|done|].
  unfold partition_write, on_block. cbn [start pblock]. rewrite u32_small by (unfold_ints; lia).
  change (block_write (p + sector) buffer b = Ok (tt, b')) in E. rewrite E. by exists (Partition b' p).
Qed.

(** ** The claims *)

(** A scan of a disk whose partition table has a valid signature and no extended
    partition, with memory for the descriptors, returns the number of its non-empty entries
    and registers, in order and with their numbers, exactly those that lie inside the device;
    a write to a sector of one of these partitions changes that sector of the device and
    no other. *)
Theorem partition_scan_correct {D} `{BlockDriverLaws D} (b : block D) n fuel :
  dev_ok b n → 0 < n < 2 ^ 32 → signature (dev_get b 0) = 0xaa55 →
  Forall (λ e, is_extended e = false) (partitions (dev_get b 0)) →
  ∃ s, partition_scan (S fuel) (Scan b [] (λ _, true)) = Ok (nonempty (partitions (dev_get b 0)), s)
    ∧ found s = expected n (partitions (dev_get b 0)) 0
    ∧ ∀ r sector buffer, r ∈ found s → 0 ≤ sector < r_size r → is_sector buffer →
        ∃ p, partition_write sector buffer (Partition (dev s) (r_start r)) = Ok (tt, p)
          ∧ ∀ x, 0 ≤ x < n →
              dev_get (pblock p) x = if x =? r_start r + sector then buffer else dev_get (dev s) x.
Proof.
  intros Hb Hn Hsig Hx. set (t := dev_get b 0) in *.
  assert (Ht : is_sector t) by (apply (dev_get_sector b n); [done|lia]).
  pose proof (partitions_u32 t Ht) as Hu.
  destruct (read_partition_table_unfold n t (Scan b [] (λ _, true)) fuel 0 0 0) as (s1 & Hs1 & Hf1 & Hm1 & E);
    try done; [lia|].
  destruct (scan_entries_plain n t (read_partition_table fuel) (partitions t) 0 s1) as (s & E' & Hs & Hf); [done| |..].
  { intros i. by rewrite Hm1. }
  { apply Forall_forall. intros e He. split; [by apply (proj1 (Forall_forall _ _) Hx)|].
    by apply (proj1 (Forall_forall _ _) Hu). }
  exists s. unfold partition_scan. rewrite E, E', Hf, Hf1. split_and!; try done.
  intros r sector buffer Hr Hsec Hbuf. destruct (expected_inside n _ _ r Hu Hr) as (H1 & H2 & H3).
  apply (partition_write_at _ n); try done; [apply Hs|lia|lia].
Qed.

(** A disk with a file system of 100 sectors at sector 8, a swap partition of 20 at sector
    108, an entry past the end, and an empty one. *)
Definition le32 (x : Z) : list Z := [x mod 256; x / 256 mod 256; x / 65536 mod 256; x / 16777216 mod 256].
Definition raw_entry (ty off sz : Z) : list Z := [0; 0; 0; 0; ty; 0; 0; 0] ++ le32 off ++ le32 sz.
Definition raw_table (es : list (Z * Z * Z)) : list Z :=
  replicate 446 0 ++ flat_map (λ '(ty, off, sz), raw_entry ty off sz) es ++ [0x55; 0xaa].
Definition disk_with (es : list (Z * Z * Z)) : block disk :=
  Block BLOCK_RAW 200 (Disk 200 {[0 := raw_table es]}) 0 0.

Lemma disk_with_ok es :
  bool_decide (is_sector (raw_table es)) = true → dev_ok (disk_with es) 200.
Proof.
  intros Ht%bool_decide_eq_true. split; [done|]. split; [done|]. exists 200. split; [done|]. split; [done|].
  simpl. intros s b Hb. apply lookup_singleton_Some in Hb as [_ <-]. done.
Qed.

Definition example_table : list (Z * Z * Z) :=
  [(0x21, 8, 100); (0x23, 108, 20); (0x83, 150, 51); (0, 0, 0)].

Lemma partition_scan_correct_witness :
  ∃ s, partition_scan 1 (Scan (disk_with example_table) [] (λ _, true)) = Ok (3, s)
    ∧ found s = [Registered 1 BLOCK_FILESYS 8 100; Registered 2 BLOCK_SWAP 108 20].
Proof.
  destruct (partition_scan_correct (disk_with example_table) 200 0) as (s & E & Hf & _).
  - apply disk_with_ok. vm_compute. reflexivity.
  - lia.
  - vm_compute. reflexivity.
  - vm_compute. repeat constructor.
  - exists s. split; [rewrite E; vm_compute; reflexivity|rewrite Hf; vm_compute; reflexivity].
Defined.

(** A scan of a disk with an extended partition never returns, whatever the allocator does,
    when the partition starts in the first half of the disk: the table of the extended
    partition is looked for in sector 0, where the same entry is found again. *)
Theorem partition_scan_extended_loops {D} `{BlockDriverLaws D} (b : block D) n e mallocs :
  dev_ok b n → 0 < n < 2 ^ 32 → signature (dev_get b 0) = 0xaa55 →
  e ∈ partitions (dev_get b 0) → is_empty e = false → is_extended e = true →
  e_offset e + e_offset e < n →
  ∀ fuel r, partition_scan fuel (Scan b [] mallocs) ≠ Ok r.
Proof.
  intros Hb Hn Hsig Hin He Hx Ho fuel. set (t := dev_get b 0) in *.
  assert (Ht : is_sector t) by (apply (dev_get_sector b n); [done|lia]).
  destruct (proj1 (Forall_forall _ _) (partitions_u32 t Ht) e Hin) as [Hoff _].
  apply (read_partition_table_stuck n t e); try done; [| |lia|by left]; unfold_ints; [lia|].
  rewrite u32_small; [done|]. unfold_ints. lia.
Qed.

Lemma partition_scan_extended_loops_witness :
  partition_scan 1000 (Scan (disk_with [(0x21, 8, 50); (0x05, 60, 140); (0, 0, 0); (0, 0, 0)]) [] (λ _, true))
  ≠ Ok (1, Scan (disk_with []) [] (λ _, true)).
Proof.
  apply (partition_scan_extended_loops _ 200 (Entry 0x05 60 140)).
  - apply disk_with_ok. vm_compute. reflexivity.
  - lia.
  - vm_compute. reflexivity.
  - apply (list_elem_of_lookup_2 _ 1%nat). vm_compute. reflexivity.
  - reflexivity.
  - reflexivity.
  - vm_compute. reflexivity.
Defined.
