(* ===== verification/Cache.v ===== *)
(** * filesys/cache.c: the buffer cache

    Sixty-four blocks in front of a block device.  The state is the array [buffer], the
    request to the read-ahead thread and the device; the operations are the functions of the
    file, run by one thread at a time.  The lock of a block appears by its semaphore [g] and
    its count [b]: between the operations of the file the locks r and extra are free, and an
    operation that finds g taken waits for a thread that does not run, which is the fault
    [Blocked].  RwLock shows what happens when the threads do interleave.

    Shown: the cache is transparent (reads and writes of sectors through it are reads and
    writes of an array of sectors, whatever is loaded, evicted, flushed or aged meanwhile),
    a block is evicted only if no unlocked block was used less recently, and a flush leaves
    nothing dirty; and that the read-ahead thread leaves a block locked for ever. *)

From S2P Require Import Prelude Bytes Block.

Definition CACHE_BLOCKS : nat := 64.

Record cache_block : Type := CacheBlock {
  valid : bool;
  data : list Z;
  sector : Z;
  recent_accesses : Z;
  dirty : bool;
  accessed : bool;
  lock_g : Z;
  lock_b : Z;
}.

Record cache (D : Type) : Type := Cache {
  buffer : list cache_block;
  read_ahead : bool;
  next_block : Z;
  fs_device : block D;
}.
Arguments Cache {D} _ _ _ _.
Arguments buffer {D} _.
Arguments read_ahead {D} _.
Arguments next_block {D} _.
Arguments fs_device {D} _.

(** Assignments to the fields of a block. *)
Definition set_valid v '(CacheBlock _ d s a di ac g b) := CacheBlock v d s a di ac g b.
Definition set_data d '(CacheBlock v _ s a di ac g b) := CacheBlock v d s a di ac g b.
Definition set_sector s '(CacheBlock v d _ a di ac g b) := CacheBlock v d s a di ac g b.
Definition set_recent a '(CacheBlock v d s _ di ac g b) := CacheBlock v d s a di ac g b.
Definition set_dirty di '(CacheBlock v d s a _ ac g b) := CacheBlock v d s a di ac g b.
Definition set_accessed ac '(CacheBlock v d s a di _ g b) := CacheBlock v d s a di ac g b.
Definition set_lock g b '(CacheBlock v d s a di ac _ _) := CacheBlock v d s a di ac g b.

Lemma u64_log2 x : is_u64 x → Z.log2 x < 64.
Proof.
  unfold_ints. intros H. destruct (decide (x = 0)) as [->|]; [simpl; lia|]. apply Z.log2_lt_pow2; lia.
Qed.

Lemma lor_u64 x y : is_u64 x → is_u64 y → is_u64 (Z.lor x y).
Proof.
  intros Hx Hy. pose proof (u64_log2 x Hx). pose proof (u64_log2 y Hy). unfold_ints.
  split; [apply Z.lor_nonneg; lia|]. apply Z.log2_lt_cancel.
  rewrite Z.log2_lor, Z.log2_pow2 by lia. by apply Z.max_lub_lt.
Qed.

Section cache.
Context {D : Type} {drv : BlockDriver D}.

Abbreviation M := (ST (cache D)).

Definition get_block (i : nat) : M cache_block := λ c, lift (deref (buffer c !! i)) c.
Definition put_block (i : nat) (b : cache_block) : M unit := λ c,
  match buffer c !! i with
  | Some _ => Ok (tt, Cache (<[i := b]> (buffer c)) (read_ahead c) (next_block c) (fs_device c))
  | None => Err MemoryFault
  end.
Definition upd_block (i : nat) (f : cache_block → cache_block) : M unit :=
  b ← get_block i; put_block i (f b).

Definition on_device {A} (m : ST (block D) A) : M A := λ c,
  match m (fs_device c) with
  | Ok (a, d) => Ok (a, Cache (buffer c) (read_ahead c) (next_block c) d)
  | Err e => Err e
  end.

(** ** The lock of a block *)

Definition cache_read_begin (i : nat) : M unit :=
  b ← get_block i;
  if lock_b b + 1 =? 1 then
    if lock_g b =? 0 then fail Blocked else upd_block i (set_lock (lock_g b - 1) (lock_b b + 1))
  else upd_block i (set_lock (lock_g b) (lock_b b + 1)).

Definition cache_read_try (i : nat) : M bool :=
  b ← get_block i;
  if lock_b b + 1 =? 1 then
    if lock_g b =? 0 then mret false
    else upd_block i (set_lock (lock_g b - 1) (lock_b b + 1));; mret true
  else upd_block i (set_lock (lock_g b) (lock_b b + 1));; mret true.

Definition cache_write_try (i : nat) : M bool :=
  b ← get_block i;
  if 0 <? lock_g b then upd_block i (set_lock (lock_g b - 1) (lock_b b));; mret true
  else mret false.

Definition cache_upgrade (i : nat) : M unit :=
  b ← get_block i;
  upd_block i (set_lock (lock_g b) (lock_b b - 1));;
  if lock_b b - 1 =? 0 then mret tt
  else if lock_g b =? 0 then fail Blocked
  else upd_block i (set_lock (lock_g b - 1) (lock_b b - 1)).

Definition cache_downgrade (i : nat) : M unit :=
  b ← get_block i;
  assert (lock_b b =? 0);;
  upd_block i (set_lock (lock_g b) (lock_b b + 1)).

Definition cache_read_end (i : nat) : M unit :=
  b ← get_block i;
  if lock_b b - 1 =? 0 then upd_block i (set_lock (lock_g b + 1) (lock_b b - 1))
  else upd_block i (set_lock (lock_g b) (lock_b b - 1)).

Definition cache_write_end (i : nat) : M unit :=
  b ← get_block i;
  upd_block i (λ b', set_dirty true (set_lock (lock_g b + 1) (lock_b b) b')).

(** ** Looking a sector up *)

Definition all_blocks : list nat := seq 0 CACHE_BLOCKS.

Fixpoint match_loop (ks : list nat) (s : Z) : M (option nat) :=
  match ks with
  | [] => mret None
  | i :: ks =>
      b ← get_block i;
      if sector b =? s then
        cache_read_begin i;;
        b ← get_block i;
        assert (sector b =? s);;
        mret (Some i)
      else match_loop ks s
  end.

Fixpoint free_loop (ks : list nat) : M (option nat) :=
  match ks with
  | [] => mret None
  | i :: ks =>
      ok ← cache_write_try i;
      if negb ok then free_loop ks
      else
        b ← get_block i;
        if negb (valid b) then upd_block i (set_valid true);; mret (Some i)
        else cache_write_end i;; free_loop ks
  end.

Fixpoint evict_loop (ks : list nat) (victim : option nat) (oldest : Z) : M (option nat) :=
  match ks with
  | [] => mret victim
  | i :: ks =>
      ok ← cache_write_try i;
      if negb ok then evict_loop ks victim oldest
      else
        b ← get_block i;
        assert (valid b);;
        if recent_accesses b <=? oldest then
          match victim with Some v => cache_write_end v | None => mret tt end;;
          evict_loop ks (Some i) (recent_accesses b)
        else cache_write_end i;; evict_loop ks victim oldest
  end.

Definition cache_evict : M nat :=
  victim ← evict_loop all_blocks None (2 ^ 64 - 1);
  match victim with
  | Some v =>
      b ← get_block v;
      (if dirty b then on_device (block_write (sector b) (data b)) else mret tt);;
      mret v
  | None => fail Panicked
  end.

(** A block for a sector that is in none: read the sector into it. *)
Definition import_block (s : Z) : M nat :=
  o ← free_loop all_blocks;
  i ← match o with Some i => mret i | None => cache_evict end;
  d ← on_device (block_read s);
  upd_block i (set_data d);;
  upd_block i (set_sector s);;
  upd_block i (set_dirty false);;
  upd_block i (set_recent 0);;
  cache_downgrade i;;
  mret i.

Definition find_block (s : Z) : M nat :=
  c ← gets id;
  assert (s <? block_size (fs_device c));;
  o ← match_loop all_blocks s;
  i ← match o with Some i => mret i | None => import_block s end;
  modify (λ c, Cache (buffer c) true (u32 (s + 1)) (fs_device c));;
  upd_block i (set_accessed true);;
  upd_block i (λ b, set_recent (Z.lor (recent_accesses b) (2 ^ 63)) b);;
  mret i.

Definition cache_read_block (s : Z) : M nat := find_block s.

Definition cache_write_block (s : Z) : M nat :=
  i ← find_block s;
  cache_upgrade i;;
  mret i.

(** One turn of the read-ahead thread. *)
Definition cache_read_ahead : M unit :=
  c ← gets id;
  if read_ahead c then
    find_block (next_block c);;
    modify (λ c, Cache (buffer c) false (next_block c) (fs_device c))
  else mret tt.

Fixpoint refresh_loop (ks : list nat) : M unit :=
  match ks with
  | [] => mret tt
  | i :: ks =>
      b ← get_block i;
      if negb (valid b) then refresh_loop ks
      else
        ok ← cache_read_try i;
        if negb ok then refresh_loop ks
        else
          b ← get_block i;
          (if dirty b then
             on_device (block_write (sector b) (data b));; upd_block i (set_dirty false)
           else mret tt);;
          cache_read_end i;;
          refresh_loop ks
  end.

Definition refresh_cache : M unit := refresh_loop all_blocks.

(** One turn of the thread that ages the blocks. *)
Fixpoint accesses_loop (ks : list nat) : M unit :=
  match ks with
  | [] => mret tt
  | i :: ks =>
      b ← get_block i;
      if negb (valid b) then accesses_loop ks
      else
        ok ← cache_read_try i;
        if negb ok then accesses_loop ks
        else
          upd_block i (λ b, set_recent (Z.shiftr (recent_accesses b) 1) b);;
          upd_block i (λ b, set_recent (Z.lor (recent_accesses b)
                              (Z.shiftl (if accessed b then 1 else 0) 63)) b);;
          b ← get_block i;
          (if 0 <? lock_b b then upd_block i (set_accessed false) else mret tt);;
          cache_read_end i;;
          accesses_loop ks
  end.

Definition update_accesses : M unit := accesses_loop all_blocks.

(** The cache of a device, before any access; [old] is what the blocks hold. *)
Definition cache_init (old : list cache_block) (d : block D) : cache D :=
  Cache ((λ b, set_lock 1 0 (set_sector 0 (set_valid false b))) <$> old) false 0 d.

(** ** Single steps *)

Definition with_block (i : nat) (b : cache_block) (c : cache D) : cache D :=
  Cache (<[i := b]> (buffer c)) (read_ahead c) (next_block c) (fs_device c).
Definition with_device (d : block D) (c : cache D) : cache D :=
  Cache (buffer c) (read_ahead c) (next_block c) d.

Lemma get_block_eq c i b : buffer c !! i = Some b → get_block i c = Ok (b, c).
Proof. intros H. unfold get_block. by rewrite H. Qed.

Lemma upd_block_eq c i b f : buffer c !! i = Some b → upd_block i f c = Ok (tt, with_block i (f b) c).
Proof.
  intros H. unfold upd_block, mbind, st_bind. rewrite (get_block_eq c i b H). unfold put_block. by rewrite H.
Qed.

Lemma with_block_same c i b b' : buffer c !! i = Some b → buffer (with_block i b' c) !! i = Some b'.
Proof. intros H. simpl. apply list_lookup_insert_eq. by eapply lookup_lt_Some. Qed.

Lemma with_block_other c i j b : i ≠ j → buffer (with_block i b c) !! j = buffer c !! j.
Proof. intros H. simpl. by apply list_lookup_insert_ne. Qed.

Lemma with_block_twice c i b b' : with_block i b' (with_block i b c) = with_block i b' c.
Proof. unfold with_block. simpl. by rewrite list_insert_insert_eq. Qed.

Lemma with_block_id c i b : buffer c !! i = Some b → with_block i b c = c.
Proof. intros H. unfold with_block. rewrite list_insert_id by done. by destruct c. Qed.

Lemma with_block_commute c i j b b' :
  i ≠ j → with_block i b (with_block j b' c) = with_block j b' (with_block i b c).
Proof. intros H. unfold with_block. simpl. by rewrite list_insert_insert_ne. Qed.

(** ** The invariant *)

Definition idle (b : cache_block) : Prop := lock_g b = 1 ∧ lock_b b = 0.
Definition locked (b : cache_block) : Prop := lock_g b = 0 ∧ 0 ≤ lock_b b.
Definition writing (b : cache_block) : Prop := lock_g b = 0 ∧ lock_b b = 0.

Record cblock_ok (n : Z) (d : block D) (b : cache_block) : Prop := {
  bo_lock : idle b ∨ locked b;
  bo_data : is_sector (data b);
  bo_recent : is_u64 (recent_accesses b);
  bo_valid : valid b = true → 0 ≤ sector b < n;
  bo_invalid : valid b = false → sector b = 0;
  bo_clean : valid b = true → dirty b = false → ¬ writing b → data b = dev_get d (sector b);
}.

Record cache_ok (n : Z) (c : cache D) : Prop := {
  co_length : length (buffer c) = CACHE_BLOCKS;
  co_device : dev_ok (fs_device c) n;
  co_block i b : buffer c !! i = Some b → cblock_ok n (fs_device c) b;
  co_unique i j b b' : buffer c !! i = Some b → buffer c !! j = Some b' →
    valid b = true → valid b' = true → sector b = sector b' → i = j;
}.

(** What the sectors hold, seen through the cache. *)
Definition contents (c : cache D) (s : Z) : list Z :=
  match List.find (λ b, valid b && (sector b =? s)) (buffer c) with
  | Some b => data b
  | None => dev_get (fs_device c) s
  end.

Lemma contents_cached n c i b :
  cache_ok n c → buffer c !! i = Some b → valid b = true → contents c (sector b) = data b.
Proof.
  intros Hok Hb Hv. unfold contents.
  destruct (List.find _ (buffer c)) as [b'|] eqn:E.
  - apply find_some in E as [Hin%list_elem_of_In Hp]. apply list_elem_of_lookup in Hin as [j Hj].
    bools. rewrite (co_unique n c Hok i j b b' Hb Hj) in Hb; congruence.
  - apply (List.find_none _ _) with (x := b) in E; [|apply list_elem_of_In; by eapply list_elem_of_lookup_2].
    rewrite Hv, Z.eqb_refl in E. done.
Qed.

Lemma contents_uncached c s :
  (∀ i b, buffer c !! i = Some b → valid b = true → sector b ≠ s) →
  contents c s = dev_get (fs_device c) s.
Proof.
  intros H. unfold contents. destruct (List.find _ (buffer c)) as [b|] eqn:E; [|done].
  apply find_some in E as [Hin%list_elem_of_In Hp]. apply list_elem_of_lookup in Hin as [j Hj].
  bools. by destruct (H j b Hj).
Qed.

(** Either of the two. *)
Lemma contents_cases (c : cache D) s :
  (∃ i b, buffer c !! i = Some b ∧ valid b = true ∧ sector b = s)
  ∨ (∀ i b, buffer c !! i = Some b → valid b = true → sector b ≠ s).
Proof.
  destruct (List.find (λ b, valid b && (sector b =? s)) (buffer c)) as [b|] eqn:E.
  - left. apply find_some in E as [Hin%list_elem_of_In Hp]. apply list_elem_of_lookup in Hin as [j Hj].
    bools. eauto.
  - right. intros i b Hb Hv Hs. apply (List.find_none _ _) with (x := b) in E.
    + rewrite Hv, Hs, Z.eqb_refl in E. done.
    + apply list_elem_of_In. by eapply list_elem_of_lookup_2.
Qed.

(** A block replaced by one in the same place. *)
Lemma cache_ok_insert n c i b b' :
  cache_ok n c → buffer c !! i = Some b → cblock_ok n (fs_device c) b' →
  (∀ j b0, j ≠ i → buffer c !! j = Some b0 → valid b0 = true → valid b' = true → sector b0 ≠ sector b') →
  cache_ok n (with_block i b' c).
Proof.
  intros Hok Hb Hb' Hu. constructor.
  - simpl. rewrite length_insert. apply Hok.
  - apply Hok.
  - intros j b0 Hj. destruct (decide (i = j)) as [<-|Hne].
    + rewrite (with_block_same _ _ _ _ Hb) in Hj. by simplify_eq.
    + rewrite with_block_other in Hj by done. by apply (co_block n c Hok j).
  - intros j k b0 b1 Hj Hk Hv0 Hv1 Hs.
    destruct (decide (i = j)) as [<-|Hij], (decide (i = k)) as [<-|Hik]; [done|..].
    + rewrite (with_block_same _ _ _ _ Hb) in Hj. rewrite with_block_other in Hk by done. simplify_eq.
      by destruct (Hu k b1).
    + rewrite (with_block_same _ _ _ _ Hb) in Hk. rewrite with_block_other in Hj by done. simplify_eq.
      by destruct (Hu j b0).
    + rewrite with_block_other in Hj, Hk by done. by apply (co_unique n c Hok j k b0 b1).
Qed.

Lemma cache_ok_same_place n c i b b' :
  cache_ok n c → buffer c !! i = Some b → cblock_ok n (fs_device c) b' →
  valid b' = valid b → sector b' = sector b → cache_ok n (with_block i b' c).
Proof.
  intros Hok Hb Hb' Hv Hs. apply (cache_ok_insert n c i b b' Hok Hb Hb').
  intros j b0 Hne Hj Hv0 Hvb. rewrite Hs. intros Heq. apply Hne.
  apply (co_unique n c Hok j i b0 b); congruence.
Qed.

Lemma contents_same_place n c i b b' s :
  cache_ok n c → cache_ok n (with_block i b' c) → buffer c !! i = Some b →
  valid b' = valid b → sector b' = sector b →
  contents (with_block i b' c) s = if valid b && (sector b =? s) then data b' else contents c s.
Proof.
  intros Hok Hok' Hb Hv Hs. pose proof (with_block_same c i b b' Hb) as Hb'.
  destruct (valid b && (sector b =? s))%bool eqn:E.
  - bools. subst s. rewrite <- Hs. apply (contents_cached n _ i b' Hok' Hb'). congruence.
  - destruct (contents_cases c s) as [(j & b0 & Hj & Hv0 & Hs0)|Hnone].
    + assert (i ≠ j). { intros <-. simplify_eq. rewrite Hv0, Z.eqb_refl in E. done. }
      rewrite <- Hs0, (contents_cached n c j b0 Hok Hj Hv0).
      apply (contents_cached n _ j b0 Hok'); [|done]. by rewrite with_block_other.
    + rewrite (contents_uncached c s Hnone), contents_uncached; [done|].
      intros j b0 Hj Hv0. destruct (decide (i = j)) as [<-|Hne].
      * rewrite Hb' in Hj. simplify_eq. rewrite Hs. apply (Hnone i b Hb). congruence.
      * rewrite with_block_other in Hj by done. by apply (Hnone j).
Qed.

(** ** Scans

    The two scans for a block take and release the write lock of unlocked blocks, which
    marks them dirty and changes nothing else. *)

Definition locks (c : cache D) : list (Z * Z) := (λ b, (lock_g b, lock_b b)) <$> buffer c.

Record dirtied (c c' : cache D) : Prop := {
  di_length : length (buffer c') = length (buffer c);
  di_device : fs_device c' = fs_device c;
  di_block i b : buffer c !! i = Some b →
    buffer c' !! i = Some b ∨ idle b ∧ valid b = true ∧ buffer c' !! i = Some (set_dirty true b);
}.

Lemma dirtied_refl c : dirtied c c.
Proof. constructor; auto. Qed.

Lemma dirtied_trans c1 c2 c3 : dirtied c1 c2 → dirtied c2 c3 → dirtied c1 c3.
Proof.
  intros [L1 D1 B1] [L2 D2 B2]. constructor; [congruence|congruence|].
  intros i b Hb. destruct (B1 i b Hb) as [H|(Hi & Hv & H)].
  - destruct (B2 i b H) as [H'|H']; [by left|by right].
  - right. split_and!; [done|done|]. destruct (B2 i _ H) as [H'|(_ & _ & H')]; rewrite H'; by destruct b.
Qed.

Lemma dirtied_step c i b :
  buffer c !! i = Some b → idle b → valid b = true → dirtied c (with_block i (set_dirty true b) c).
Proof.
  intros Hb Hi Hv. constructor; [apply length_insert|done|].
  intros j b0 Hj. destruct (decide (i = j)) as [<-|Hne].
  - simplify_eq. right. split_and!; [done|done|]. by eapply with_block_same.
  - left. by rewrite with_block_other.
Qed.

(** Backwards: each block comes from one that differs at most in being dirty. *)
Lemma dirtied_back c c' i b' :
  dirtied c c' → buffer c' !! i = Some b' →
  ∃ b, buffer c !! i = Some b ∧ (b' = b ∨ idle b ∧ valid b = true ∧ b' = set_dirty true b).
Proof.
  intros Hd Hb'. assert (is_Some (buffer c !! i)) as [b Hb].
  { apply lookup_lt_is_Some. rewrite <- (di_length c c' Hd). by eapply lookup_lt_Some. }
  exists b. split; [done|]. destruct (di_block c c' Hd i b Hb) as [H|(? & ? & H)]; rewrite H in Hb'; simplify_eq; auto.
Qed.

Lemma set_dirty_ok n d b : cblock_ok n d b → cblock_ok n d (set_dirty true b).
Proof. intros []. destruct b. by constructor. Qed.

Lemma dirtied_ok n c c' : cache_ok n c → dirtied c c' → cache_ok n c'.
Proof.
  intros Hok Hd. assert (Hback := λ i b', dirtied_back c c' i b' Hd). constructor.
  - rewrite (di_length c c' Hd). apply Hok.
  - rewrite (di_device c c' Hd). apply Hok.
  - intros i b' (b & Hb & H)%Hback. rewrite (di_device c c' Hd). pose proof (co_block n c Hok i b Hb).
    destruct H as [->|(_ & _ & ->)]; [done|by apply set_dirty_ok].
  - intros i j b1 b2 (b1' & H1 & E1)%Hback (b2' & H2 & E2)%Hback Hv1 Hv2 Hs.
    apply (co_unique n c Hok i j b1' b2' H1 H2);
      destruct E1 as [->|(_ & _ & ->)], E2 as [->|(_ & _ & ->)], b1', b2'; done.
Qed.

Lemma dirtied_contents n c c' s : cache_ok n c → dirtied c c' → contents c' s = contents c s.
Proof.
  intros Hok Hd. pose proof (dirtied_ok n c c' Hok Hd) as Hok'.
  destruct (contents_cases c s) as [(i & b & Hb & Hv & <-)|Hnone].
  - rewrite (contents_cached n c i b Hok Hb Hv).
    destruct (di_block c c' Hd i b Hb) as [H|(_ & _ & H)].
    + by apply (contents_cached n c' i b).
    + destruct b. by apply (contents_cached n c' i _ Hok' H).
  - rewrite (contents_uncached c s Hnone), contents_uncached; [by rewrite (di_device c c' Hd)|].
    intros i b' Hb' Hv. apply (dirtied_back c c' i b' Hd) in Hb' as (b & Hb & H).
    destruct H as [->|(_ & _ & ->)]; [by apply (Hnone i)|]. destruct b. by apply (Hnone i _ Hb).
Qed.

Lemma dirtied_locks c c' : dirtied c c' → locks c' = locks c.
Proof.
  intros Hd. apply list_eq. intros i. unfold locks. rewrite !list_lookup_fmap.
  destruct (buffer c !! i) as [b|] eqn:Hb.
  - destruct (di_block c c' Hd i b Hb) as [->|(_ & _ & ->)]; [done|]. by destruct b.
  - apply lookup_ge_None in Hb. rewrite (lookup_ge_None_2 (buffer c')); [done|]. by rewrite (di_length c c' Hd).
Qed.

(** Taking and releasing the write lock. *)
Lemma write_try_idle c i b :
  buffer c !! i = Some b → idle b → cache_write_try i c = Ok (true, with_block i (set_lock 0 0 b) c).
Proof.
  intros Hb [Hg Hl]. unfold cache_write_try, mbind, st_bind. rewrite (get_block_eq c i b Hb), Hg, Hl. simpl.
  by rewrite (upd_block_eq c i b _ Hb).
Qed.

Lemma write_try_locked c i b :
  buffer c !! i = Some b → locked b → cache_write_try i c = Ok (false, c).
Proof. intros Hb [Hg _]. unfold cache_write_try, mbind, st_bind. by rewrite (get_block_eq c i b Hb), Hg. Qed.

Lemma write_end_held c i b :
  buffer c !! i = Some b → writing b → cache_write_end i c = Ok (tt, with_block i (set_dirty true (set_lock 1 0 b)) c).
Proof.
  intros Hb [Hg Hl]. unfold cache_write_end, mbind, st_bind.
  rewrite (get_block_eq c i b Hb), Hg, Hl. simpl. by rewrite (upd_block_eq c i b _ Hb).
Qed.

Lemma set_lock_writing b : writing (set_lock 0 0 b).
Proof. by destruct b. Qed.
Lemma relock_idle b : idle b → set_lock 1 0 (set_lock 0 0 b) = b.
Proof. destruct b. by intros [[=->] [=->]]. Qed.

(** Release of a lock just taken. *)
Lemma write_end_taken c i b :
  buffer c !! i = Some b → idle b →
  cache_write_end i (with_block i (set_lock 0 0 b) c) = Ok (tt, with_block i (set_dirty true b) c).
Proof.
  intros Hb Hi. rewrite (write_end_held _ i (set_lock 0 0 b)).
  - by rewrite with_block_twice, relock_idle.
  - by eapply with_block_same.
  - apply set_lock_writing.
Qed.

Lemma block_exists n c k : cache_ok n c → (k < CACHE_BLOCKS)%nat → ∃ b, buffer c !! k = Some b.
Proof. intros Hok Hk. apply lookup_lt_is_Some. by rewrite (co_length n c Hok). Qed.

(** The scan for an unused block. *)
Lemma free_loop_spec n ks c :
  cache_ok n c → Forall (λ k, k < CACHE_BLOCKS)%nat ks →
  ∃ o c', free_loop ks c = Ok (o, c') ∧
    match o with
    | None => dirtied c c' ∧ ∀ k b, k ∈ ks → buffer c !! k = Some b → valid b = true ∨ locked b
    | Some i => ∃ c1 b, dirtied c c1 ∧ buffer c1 !! i = Some b ∧ idle b ∧ valid b = false
                ∧ c' = with_block i (set_valid true (set_lock 0 0 b)) c1
    end.
Proof.
  revert c. induction ks as [|i ks IH]; intros c Hok Hks.
  { exists None, c. split; [done|]. split; [apply dirtied_refl|set_solver]. }
  inversion_clear Hks as [|? ? Hi Hks']. destruct (block_exists n c i Hok Hi) as [b Hb]. cbn [free_loop].
  unfold mbind at 1, st_bind at 1. destruct (bo_lock _ _ _ (co_block n c Hok i b Hb)) as [Hid|Hl].
  - rewrite (write_try_idle c i b Hb Hid). cbn [negb]. unfold mbind at 1, st_bind at 1.
    pose proof (with_block_same c i b (set_lock 0 0 b) Hb) as Hb'.
    rewrite (get_block_eq _ i _ Hb'). destruct (valid b) eqn:Hv.
    + replace (valid (set_lock 0 0 b)) with true by (by destruct b). cbn [negb]. unfold mbind, st_bind.
      rewrite (write_end_taken c i b Hb Hid). pose proof (dirtied_step c i b Hb Hid Hv) as Hst.
      destruct (IH _ (dirtied_ok n _ _ Hok Hst) Hks') as (o & c' & E & Ho). exists o, c'. split; [done|].
      destruct o as [j|].
      * destruct Ho as (c1 & b1 & Hd & H). exists c1, b1. split; [by eapply dirtied_trans|done].
      * destruct Ho as [Hd Hall]. split; [by eapply dirtied_trans|]. intros k b0 Hk Hk0.
        apply elem_of_cons in Hk as [->|Hk]; [left; congruence|].
        destruct (di_block _ _ Hst k b0 Hk0) as [H|(_ & Hvk & _)]; [by apply (Hall k)|by left].
    + replace (valid (set_lock 0 0 b)) with false by (by destruct b). cbn [negb]. unfold mbind, st_bind.
      rewrite (upd_block_eq _ i _ _ Hb'), with_block_twice. exists (Some i), (with_block i (set_valid true (set_lock 0 0 b)) c).
      split; [done|]. exists c, b. split_and!; try done. apply dirtied_refl.
  - rewrite (write_try_locked c i b Hb Hl). cbn [negb].
    destruct (IH c Hok Hks') as (o & c' & E & Ho). exists o, c'. split; [done|].
    destruct o as [j|]; [done|]. destruct Ho as [Hd Hall]. split; [done|]. intros k b0 Hk Hk0.
    apply elem_of_cons in Hk as [->|Hk]; [right; congruence|by apply (Hall k)].
Qed.

(** The scan for a block to evict: the candidate is locked, the rest is as before but for
    dirty marks. *)
Definition held (v : option nat) (c : cache D) : cache D :=
  match v with
  | Some i => match buffer c !! i with Some b => with_block i (set_lock 0 0 b) c | None => c end
  | None => c
  end.

(** [v] is the candidate when [oldest] is the smallest value seen. *)
Definition candidate (v : option nat) (oldest : Z) (c : cache D) : Prop :=
  match v with
  | Some i => ∃ b, buffer c !! i = Some b ∧ idle b ∧ valid b = true ∧ recent_accesses b = oldest
  | None => oldest = 2 ^ 64 - 1
  end.

Lemma held_other v c k : v ≠ Some k → buffer (held v c) !! k = buffer c !! k.
Proof.
  intros Hv. destruct v as [i|]; [|done]. simpl. destruct (buffer c !! i); [|done].
  apply with_block_other. congruence.
Qed.

Lemma held_with_block v c k b : v ≠ Some k → with_block k b (held v c) = held v (with_block k b c).
Proof.
  intros Hv. destruct v as [i|]; [|done]. assert (k ≠ i) by congruence.
  unfold held. rewrite with_block_other by done. destruct (buffer c !! i); [|done]. by apply with_block_commute.
Qed.

Lemma candidate_dirtied v o c k b :
  v ≠ Some k → candidate v o c → candidate v o (with_block k b c).
Proof.
  intros Hv. destruct v as [i|]; [|done]. simpl. intros (b0 & Hb & H). exists b0.
  rewrite list_lookup_insert_ne by congruence. done.
Qed.

(** Giving the candidate up, with block [k] just locked. *)
Lemma held_release v o c k bk :
  v ≠ Some k → candidate v o c →
  ∃ c', (match v with Some v => cache_write_end v | None => mret tt end) (with_block k bk (held v c))
      = Ok (tt, with_block k bk c')
    ∧ dirtied c c' ∧ buffer c' !! k = buffer c !! k.
Proof.
  destruct v as [i|]; simpl; intros Hne.
  2: intros _; exists c; split; [done|]; split; [apply dirtied_refl|done].
  intros (b & Hb & Hi & Hv & _). rewrite Hb. assert (k ≠ i) by congruence.
  exists (with_block i (set_dirty true b) c). split; [|split].
  - rewrite with_block_commute by done. rewrite <- (with_block_commute c i k (set_dirty true b)) by done.
    apply write_end_taken; [|done]. by rewrite with_block_other by done.
  - by apply dirtied_step.
  - by apply with_block_other.
Qed.

(** What a scan leaves of the blocks ahead. *)
Lemma dirtied_valid c c1 (ks : list nat) :
  dirtied c c1 → (∀ k b, k ∈ ks → buffer c !! k = Some b → valid b = true ∨ locked b) →
  ∀ k b, k ∈ ks → buffer c1 !! k = Some b → valid b = true ∨ locked b.
Proof.
  intros Hd Hval k b1 Hk Hb1. destruct (dirtied_back c c1 k b1 Hd Hb1) as (b0 & Hb0 & [->|(_ & Hv0 & ->)]);
    [by apply (Hval k b0)|left; by destruct b0].
Qed.

Lemma dirtied_idle c c1 k b0 :
  dirtied c c1 → buffer c !! k = Some b0 → idle b0 →
  ∃ b1, buffer c1 !! k = Some b1 ∧ idle b1 ∧ recent_accesses b1 = recent_accesses b0.
Proof.
  intros Hd Hb0 H. destruct (di_block c c1 Hd k b0 Hb0) as [E|(_ & _ & E)]; [by exists b0|].
  exists (set_dirty true b0). by destruct b0.
Qed.

Lemma evict_loop_spec n ks v o c :
  cache_ok n c → Forall (λ k, k < CACHE_BLOCKS)%nat ks → NoDup ks → candidate v o c →
  (∀ k, k ∈ ks → v ≠ Some k) →
  (∀ k b, k ∈ ks → buffer c !! k = Some b → valid b = true ∨ locked b) →
  ∃ v' o' c', evict_loop ks v o (held v c) = Ok (v', held v' c') ∧ dirtied c c' ∧ candidate v' o' c'
    ∧ o' ≤ o ∧ (v ≠ None → v' ≠ None)
    ∧ ∀ k b, k ∈ ks → buffer c !! k = Some b → idle b → v' ≠ None ∧ o' ≤ recent_accesses b.
Proof.
  revert v o c. induction ks as [|i ks IH]; intros v o c Hok Hks Hnd Hcand Hv Hval.
  { exists v, o, c. split; [done|]. split_and!; try done; [apply dirtied_refl|set_solver]. }
  inversion_clear Hks as [|? ? Hi Hks']. apply NoDup_cons in Hnd as [Hni Hnd].
  destruct (block_exists n c i Hok Hi) as [b Hb].
  assert (Hvi : v ≠ Some i) by (apply Hv; set_solver).
  assert (Hbh : buffer (held v c) !! i = Some b) by (by rewrite held_other).
  cbn [evict_loop]. unfold mbind at 1, st_bind at 1.
  assert (Hrest : ∀ c1, dirtied c c1 → ∀ k b, k ∈ ks → buffer c1 !! k = Some b → valid b = true ∨ locked b).
  { intros c1 Hd. apply (dirtied_valid c c1 ks Hd). intros. apply (Hval k); set_solver. }
  destruct (bo_lock _ _ _ (co_block n c Hok i b Hb)) as [Hid|Hl].
  - rewrite (write_try_idle _ i b Hbh Hid). cbn [negb]. unfold mbind at 1, st_bind at 1.
    rewrite (get_block_eq _ i _ (with_block_same _ i b _ Hbh)).
    destruct (Hval i b) as [Hvb|[Hg _]]; [set_solver|done| |by destruct Hid; congruence].
    assert (Er : recent_accesses (set_lock 0 0 b) = recent_accesses b) by (by destruct b).
    replace (valid (set_lock 0 0 b)) with true by (by destruct b). rewrite Er.
    unfold mbind at 1, st_bind at 1. cbn [assert ASSERT lift]. unfold assert, ASSERT, lift.
    destruct (Z.leb_spec (recent_accesses b) o).
    + destruct (held_release v o c i (set_lock 0 0 b) Hvi Hcand) as (c1 & E & Hd1 & Hk1).
      unfold mbind at 1, st_bind at 1. rewrite E.
      rewrite Hb in Hk1. assert (Eh : with_block i (set_lock 0 0 b) c1 = held (Some i) c1) by (simpl; by rewrite Hk1).
      rewrite Eh. destruct (IH (Some i) (recent_accesses b) c1) as (v' & o' & c' & E' & Hd & Hc & Ho & Hn & Hmin);
        try done; [by eapply dirtied_ok|by exists b|intros k Hk; congruence|by apply Hrest|].
      exists v', o', c'. split; [done|]. split_and!; try done; [by eapply dirtied_trans|lia|intros _; by apply Hn|].
      intros k b0 Hk Hk0 Hid0. apply elem_of_cons in Hk as [->|Hk].
      * simplify_eq. split; [by apply Hn|lia].
      * destruct (dirtied_idle c c1 k b0 Hd1 Hk0 Hid0) as (b1 & H1 & H2 & <-). by apply (Hmin k).
    + unfold mbind at 1, st_bind at 1. rewrite (write_end_taken _ i b Hbh Hid), held_with_block by done.
      pose proof (dirtied_step c i b Hb Hid Hvb) as Hd1.
      destruct (IH v o (with_block i (set_dirty true b) c)) as (v' & o' & c' & E' & Hd & Hc & Ho & Hn & Hmin);
        try done; [by eapply dirtied_ok|by apply candidate_dirtied|intros k Hk; apply Hv; set_solver|by apply Hrest|].
      exists v', o', c'. split; [done|]. split_and!; try done; [by eapply dirtied_trans|].
      intros k b0 Hk Hk0 Hid0. apply elem_of_cons in Hk as [->|Hk].
      * simplify_eq. split; [|lia]. destruct v as [j|]; [by apply Hn|].
        pose proof (bo_recent _ _ _ (co_block n c Hok i b Hb)). unfold_ints. simpl in Hcand. lia.
      * destruct (dirtied_idle c _ k b0 Hd1 Hk0 Hid0) as (b1 & H1 & H2 & <-). by apply (Hmin k).
  - rewrite (write_try_locked _ i b Hbh Hl). cbn [negb].
    destruct (IH v o c) as (v' & o' & c' & E' & Hd & Hc & Ho & Hn & Hmin);
      try done; [intros k Hk; apply Hv; set_solver|apply Hrest, dirtied_refl|].
    exists v', o', c'. split; [done|]. split_and!; try done. intros k b0 Hk Hk0 Hid0.
    apply elem_of_cons in Hk as [->|Hk]; [|by apply (Hmin k)].
    simplify_eq. destruct Hl, Hid0. congruence.
Qed.

(** ** The device under the cache *)

Context `{!BlockDriverLaws D}.

Lemma device_read n c s :
  cache_ok n c → 0 ≤ s < n →
  ∃ d, on_device (block_read s) c = Ok (dev_get (fs_device c) s, with_device d c)
    ∧ dev_ok d n ∧ ∀ s', dev_get d s' = dev_get (fs_device c) s'.
Proof.
  intros Hok Hs. destruct (op_read_spec (fs_device c) n s (co_device n c Hok) Hs) as (d & E & Hd).
  exists d. unfold on_device. change (op_read s) with (block_read s) in E. by rewrite E.
Qed.

Lemma device_write n c s b :
  cache_ok n c → 0 ≤ s < n → is_sector b →
  ∃ d, on_device (block_write s b) c = Ok (tt, with_device d c) ∧ dev_ok d n
    ∧ ∀ s', 0 ≤ s' < n → dev_get d s' = if s' =? s then b else dev_get (fs_device c) s'.
Proof.
  intros Hok Hs Hb. destruct (op_write_spec (fs_device c) n s b (co_device n c Hok) Hs Hb) as (d & E & Hd).
  exists d. unfold on_device. change (op_write s b) with (block_write s b) in E. by rewrite E.
Qed.

(** A device on which the sectors of the cached blocks may only get what the blocks hold. *)
Lemma with_device_ok n c d :
  cache_ok n c → dev_ok d n →
  (∀ i b, buffer c !! i = Some b → valid b = true →
    dev_get d (sector b) = dev_get (fs_device c) (sector b) ∨ dev_get d (sector b) = data b) →
  (∀ s, 0 ≤ s < n → (∀ i b, buffer c !! i = Some b → valid b = true → sector b ≠ s) →
    dev_get d s = dev_get (fs_device c) s) →
  cache_ok n (with_device d c) ∧ ∀ s, 0 ≤ s < n → contents (with_device d c) s = contents c s.
Proof.
  intros Hok Hd Hc Hu. assert (Hok' : cache_ok n (with_device d c)).
  { constructor; [apply Hok|done| |apply Hok]. intros i b Hb. destruct (co_block n c Hok i b Hb).
    constructor; try done. intros Hv Hdi Hw. cbn [with_device fs_device]. destruct (Hc i b Hb Hv) as [->| ->]; auto. }
  split; [done|]. intros s Hs. destruct (contents_cases c s) as [(i & b & Hb & Hv & <-)|Hnone].
  - by rewrite (contents_cached n c i b Hok Hb Hv), (contents_cached n _ i b Hok' Hb Hv).
  - rewrite (contents_uncached c s Hnone), contents_uncached; [by apply Hu|done].
Qed.

(** Writing a block back. *)
Lemma writeback n c i b :
  cache_ok n c → buffer c !! i = Some b → valid b = true →
  ∃ d, on_device (block_write (sector b) (data b)) c = Ok (tt, with_device d c)
    ∧ cache_ok n (with_device d c) ∧ (∀ s, 0 ≤ s < n → contents (with_device d c) s = contents c s)
    ∧ dev_get d (sector b) = data b
    ∧ ∀ s, 0 ≤ s < n → s ≠ sector b → dev_get d s = dev_get (fs_device c) s.
Proof.
  intros Hok Hb Hv. pose proof (co_block n c Hok i b Hb) as Hbk. pose proof (bo_valid _ _ _ Hbk Hv) as Hs.
  destruct (device_write n c (sector b) (data b) Hok Hs (bo_data _ _ _ Hbk)) as (d & E & Hd & Hg).
  exists d. split; [done|].
  assert (Hself : dev_get d (sector b) = data b) by (rewrite Hg, Z.eqb_refl by done; done).
  assert (Hother : ∀ s, 0 ≤ s < n → s ≠ sector b → dev_get d s = dev_get (fs_device c) s).
  { intros s Hr Hne. rewrite Hg by done. by destruct (Z.eqb_spec s (sector b)). }
  destruct (with_device_ok n c d Hok Hd) as [H1 H2]; [| |done].
  - intros j b0 Hj Hv0. destruct (decide (sector b0 = sector b)) as [Es|Hne].
    + right. rewrite Es, Hself. by rewrite (co_unique n c Hok j i b0 b) in Hj; simplify_eq.
    + left. apply Hother; [|done]. by apply (bo_valid _ _ _ (co_block n c Hok j b0 Hj)).
  - intros s Hs' Hno. apply Hother; [done|]. intros ->. by destruct (Hno i b).
Qed.

(** A block that holds nothing of its own is replaced by another sector. *)
Lemma replace_block n c i b b' :
  cache_ok n c → buffer c !! i = Some b →
  (valid b = true → data b = dev_get (fs_device c) (sector b)) →
  (∀ j b0, buffer c !! j = Some b0 → valid b0 = true → sector b0 ≠ sector b') →
  cblock_ok n (fs_device c) b' → valid b' = true → data b' = dev_get (fs_device c) (sector b') →
  cache_ok n (with_block i b' c) ∧ ∀ s, 0 ≤ s < n → contents (with_block i b' c) s = contents c s.
Proof.
  intros Hok Hb Hclean Hno Hb' Hv' Hdata. pose proof (with_block_same c i b b' Hb) as Hbi.
  assert (Hok' : cache_ok n (with_block i b' c)) by (apply (cache_ok_insert n c i b); eauto).
  split; [done|]. intros s Hs. destruct (contents_cases c s) as [(j & b0 & Hj & Hv & <-)|Hnone].
  - rewrite (contents_cached n c j b0 Hok Hj Hv). destruct (decide (i = j)) as [<-|Hne].
    + simplify_eq. rewrite (Hclean Hv). rewrite contents_uncached; [done|].
      intros k b1 Hk Hv1. destruct (decide (i = k)) as [<-|Hne].
      * rewrite Hbi in Hk. simplify_eq. intros Hs1. by apply (Hno i b Hb Hv).
      * rewrite with_block_other in Hk by done. intros Hs1. apply Hne.
        apply (co_unique n c Hok i k b b1); congruence.
    + apply (contents_cached n _ j b0 Hok'); [|done]. by rewrite with_block_other.
  - rewrite (contents_uncached c s Hnone). destruct (decide (sector b' = s)) as [<-|Hne'].
    + by rewrite (contents_cached n _ i b' Hok' Hbi Hv').
    + rewrite contents_uncached; [done|]. intros k b1 Hk Hv1. destruct (decide (i = k)) as [<-|Hne].
      * rewrite Hbi in Hk. by simplify_eq.
      * rewrite with_block_other in Hk by done. by apply (Hnone k).
Qed.

(** ** Lookup *)

Definition place (b : cache_block) : bool * Z * list Z := (valid b, sector b, data b).
Definition lock (b : cache_block) : Z * Z := (lock_g b, lock_b b).

(** The locks of the blocks other than [i] are as they were, and the locked ones hold what they
    held. *)
Definition others (i : nat) (c c' : cache D) : Prop :=
  ∀ j b, j ≠ i → buffer c !! j = Some b →
    ∃ b', buffer c' !! j = Some b' ∧ lock b' = lock b ∧ (¬ idle b → place b' = place b).

Lemma dirtied_others i c c' : dirtied c c' → others i c c'.
Proof.
  intros Hd j b _ Hj. destruct (di_block c c' Hd j b Hj) as [H|(_ & _ & H)]; [by exists b|].
  exists (set_dirty true b). by destruct b.
Qed.

Lemma others_with_block i b c c' : others i c c' → others i c (with_block i b c').
Proof.
  intros H j b0 Hne Hj. destruct (H j b0 Hne Hj) as (b' & Hb' & Hp). exists b'.
  by rewrite with_block_other by done.
Qed.

Lemma on_device_eq {A} (m : ST (block D) A) c c' a d :
  on_device m c = Ok (a, with_device d c) → fs_device c' = fs_device c →
  on_device m c' = Ok (a, with_device d c').
Proof.
  unfold on_device. intros H ->. destruct (m (fs_device c)) as [[a' d']|]; [|done].
  unfold with_device in *. by simplify_eq.
Qed.

Lemma held_some c i b : buffer c !! i = Some b → held (Some i) c = with_block i (set_lock 0 0 b) c.
Proof. intros H. simpl. by rewrite H. Qed.

(** The victim is the least recently used of the unlocked blocks, and its sector has what
    it holds. *)
Lemma cache_evict_spec n c :
  cache_ok n c → (∀ k b, buffer c !! k = Some b → valid b = true ∨ locked b) →
  (∃ k b, buffer c !! k = Some b ∧ idle b) →
  ∃ v b c', cache_evict c = Ok (v, with_block v (set_lock 0 0 b) c') ∧ cache_ok n c'
    ∧ (∀ s, 0 ≤ s < n → contents c' s = contents c s)
    ∧ (∃ c1, dirtied c c1 ∧ buffer c' = buffer c1)
    ∧ buffer c' !! v = Some b ∧ idle b ∧ valid b = true ∧ data b = dev_get (fs_device c') (sector b)
    ∧ ∀ k b0, buffer c !! k = Some b0 → idle b0 → recent_accesses b ≤ recent_accesses b0.
Proof.
  intros Hok Hval (k & bk & Hk & Hidk). unfold cache_evict.
  assert (Hall : ∀ k b, buffer c !! k = Some b → k ∈ all_blocks).
  { intros j b Hj%lookup_lt_Some. rewrite (co_length n c Hok) in Hj. apply elem_of_seq. lia. }
  destruct (evict_loop_spec n all_blocks None (2 ^ 64 - 1) c)
    as (v' & o' & c1 & E & Hd & Hc & _ & _ & Hmin); try done.
  { apply Forall_seq. lia. }
  { apply NoDup_seq. }
  { intros j b _. apply Hval. }
  destruct (Hmin k bk (Hall _ _ Hk) Hk Hidk) as [Hv _]. destruct v' as [v|]; [|done]. clear Hv.
  destruct Hc as (b & Hb & Hid & Hvb & Er). pose proof (dirtied_ok n c c1 Hok Hd) as Hok1.
  unfold mbind, st_bind. cbn [held] in E. rewrite E, Hb. rewrite (get_block_eq _ v _ (with_block_same c1 v b _ Hb)).
  replace (dirty (set_lock 0 0 b)) with (dirty b) by (by destruct b).
  replace (sector (set_lock 0 0 b)) with (sector b) by (by destruct b).
  replace (data (set_lock 0 0 b)) with (data b) by (by destruct b).
  assert (Hmin' : ∀ k b0, buffer c !! k = Some b0 → idle b0 → recent_accesses b ≤ recent_accesses b0).
  { intros j b0 Hj Hidj. rewrite Er. by apply (Hmin j b0 (Hall _ _ Hj)). }
  destruct (dirty b) eqn:Hdi.
  - destruct (writeback n c1 v b Hok1 Hb Hvb) as (d & Ew & Hokd & Hcd & Hself & _).
    rewrite (on_device_eq _ c1 (with_block v (set_lock 0 0 b) c1) tt d Ew eq_refl).
    exists v, b, (with_device d c1). split; [done|]. split_and!; try done; [|by exists c1].
    intros s Hs. rewrite Hcd by done. by apply (dirtied_contents n).
  - exists v, b, c1. split; [done|]. split_and!; try done; [|by exists c1|].
    + intros s Hs. by apply (dirtied_contents n).
    + apply (bo_clean _ _ _ (co_block n c1 Hok1 v b Hb)); [done..|]. intros [Hg _]. destruct Hid. congruence.
Qed.

(** A locked block, loaded with a sector. *)
Definition loaded (s : Z) (d : list Z) (b : cache_block) : cache_block :=
  CacheBlock true d s 0 false (accessed b) 0 1.

(** Loading a sector into a block that holds nothing of its own. *)
Lemma load_block n c c1 i b bx s :
  cache_ok n c1 → 0 ≤ s < n → buffer c1 !! i = Some b →
  (valid b = true → data b = dev_get (fs_device c1) (sector b)) →
  (∀ j b0, buffer c1 !! j = Some b0 → valid b0 = true → sector b0 ≠ s) →
  lock_g bx = 0 → lock_b bx = 0 → valid bx = true → accessed bx = accessed b →
  (∀ s, 0 ≤ s < n → contents c1 s = contents c s) → others i c c1 →
  ∃ c', (d ← on_device (block_read s); upd_block i (set_data d);; upd_block i (set_sector s);;
         upd_block i (set_dirty false);; upd_block i (set_recent 0);; cache_downgrade i;; mret i)
          (with_block i bx c1) = Ok (i, c')
    ∧ cache_ok n c' ∧ (∀ s, 0 ≤ s < n → contents c' s = contents c s)
    ∧ buffer c' !! i = Some (loaded s (contents c s) b) ∧ others i c c'.
Proof.
  intros Hok Hs Hb Hclean Hno Hg Hl Hv Ha Hcon Ho.
  destruct (device_read n c1 s Hok Hs) as (d & Er & Hd & Hsame).
  destruct (with_device_ok n c1 d Hok Hd) as [Hokd Hcd]; [by intros; left|by intros|].
  assert (Edata : dev_get (fs_device c1) s = contents c s) by (by rewrite <- Hcon, (contents_uncached c1 s Hno)).
  rewrite Edata in Er. unfold mbind, st_bind. rewrite (on_device_eq _ c1 (with_block i bx c1) _ _ Er eq_refl).
  change (with_device d (with_block i bx c1)) with (with_block i bx (with_device d c1)).
  set (c2 := with_device d c1) in *. assert (Hb2 : buffer c2 !! i = Some b) by done.
  do 4 (erewrite upd_block_eq by (by eapply with_block_same); rewrite with_block_twice).
  unfold cache_downgrade, mbind, st_bind. erewrite get_block_eq by (by eapply with_block_same).
  destruct bx as [v0 d0 s0 r0 di0 a0 g0 b0]. simpl in Hg, Hl, Hv, Ha. subst. cbn. cbn [assert ASSERT lift].
  unfold assert, ASSERT, lift. erewrite upd_block_eq by (by eapply with_block_same). rewrite with_block_twice.
  eexists. split; [reflexivity|].
  cbn [set_lock]. fold (loaded s (contents c s) b).
  destruct (replace_block n c2 i b (loaded s (contents c s) b)) as [H1 H2]; try done.
  - intros Hv. rewrite (Hclean Hv). symmetry. apply Hsame.
  - constructor; try done; [by right|..].
    + simpl. rewrite <- Edata. by apply (dev_get_sector _ n), Hs; apply Hok.
    + intros _ _ _. change (contents c s = dev_get d s). by rewrite Hsame.
  - change (contents c s = dev_get d s). by rewrite Hsame.
  - split_and!; try done.
    + intros s' Hs'. rewrite H2, Hcd by done. by apply Hcon.
    + by eapply with_block_same.
    + apply others_with_block. done.
Qed.

Lemma uncached_dirtied c c1 s :
  dirtied c c1 → (∀ j b, buffer c !! j = Some b → valid b = true → sector b ≠ s) →
  ∀ j b, buffer c1 !! j = Some b → valid b = true → sector b ≠ s.
Proof.
  intros Hd Hno j b (b0 & Hb0 & H)%(dirtied_back c c1 j b Hd) Hv.
  destruct H as [->|(_ & _ & ->)]; [by apply (Hno j)|]. destruct b0. by apply (Hno j _ Hb0).
Qed.

Lemma all_blocks_range : Forall (λ k, k < CACHE_BLOCKS)%nat all_blocks.
Proof. apply Forall_seq. lia. Qed.

Lemma in_all_blocks n c k b : cache_ok n c → buffer c !! k = Some b → k ∈ all_blocks.
Proof. intros Hok Hk%lookup_lt_Some. rewrite (co_length n c Hok) in Hk. apply elem_of_seq. lia. Qed.

Lemma import_block_spec n c s :
  cache_ok n c → 0 ≤ s < n → (∀ j b, buffer c !! j = Some b → valid b = true → sector b ≠ s) →
  (∃ k b, buffer c !! k = Some b ∧ idle b) →
  ∃ i b c', import_block s c = Ok (i, c') ∧ cache_ok n c'
    ∧ (∀ s, 0 ≤ s < n → contents c' s = contents c s)
    ∧ (∃ b0, buffer c !! i = Some b0 ∧ idle b0)
    ∧ buffer c' !! i = Some (loaded s (contents c s) b) ∧ others i c c'.
Proof.
  intros Hok Hs Hno (k & bk & Hk & Hidk). unfold import_block.
  unfold mbind at 1, st_bind at 1. destruct (free_loop_spec n all_blocks c Hok all_blocks_range) as (o & c1 & -> & Ho).
  destruct o as [i|].
  - destruct Ho as (c2 & b & Hd & Hb & Hid & Hinv & ->). unfold mbind at 1, st_bind at 1, mret at 1, st_ret at 1.
    destruct (load_block n c c2 i b (set_valid true (set_lock 0 0 b)) s) as (c' & E & H1 & H2 & H3 & H4);
      [by eapply dirtied_ok|done|done|congruence|by eapply uncached_dirtied|try by destruct b..| |by apply dirtied_others|].
    { intros s' _. by apply (dirtied_contents n). }
    destruct (dirtied_back c c2 i b Hd Hb) as (b0 & Hb0 & [->|(Hid0 & _)]); exists i; eauto 10.
  - destruct Ho as [Hd Hval]. pose proof (dirtied_ok n c c1 Hok Hd) as Hok1.
    unfold mbind at 1, st_bind at 1. destruct (cache_evict_spec n c1) as (v & b & c2 & E & Hok2 & Hc2 & (c3 & Hd3 & Eb) & Hb & Hid & Hvb & Hclean & _).
    { done. }
    { intros j b Hj. apply (dirtied_valid c c1 all_blocks Hd) with (k := j); try done. by eapply in_all_blocks. }
    { destruct (dirtied_idle c c1 k bk Hd Hk Hidk) as (b1 & H1 & H2 & _). eauto. }
    rewrite E. pose proof (dirtied_trans c c1 c3 Hd Hd3) as Hd'.
    destruct (load_block n c c2 v b (set_lock 0 0 b) s) as (c' & E' & H1 & H2 & H3 & H4);
      [done|done|done|done| |try by destruct b..| | |].
    { intros j b0 Hj. rewrite Eb in Hj. by apply (uncached_dirtied c c3 s Hd' Hno j). }
    { intros s' Hs'. rewrite Hc2 by done. by apply (dirtied_contents n). }
    { intros j b0 Hne Hj. rewrite Eb. by apply (dirtied_others v c c3 Hd' j). }
    rewrite Eb in Hb. destruct (dirtied_back c c3 v b Hd' Hb) as (b0 & Hb0 & [->|(Hid0 & _)]); exists v; eauto 10.
Qed.

(** A sector that is cached. *)
Lemma read_begin_free c i b :
  buffer c !! i = Some b → idle b ∨ locked b → ¬ writing b →
  cache_read_begin i c = Ok (tt, with_block i (set_lock 0 (lock_b b + 1) b) c).
Proof.
  intros Hb Hl Hw. unfold cache_read_begin, mbind, st_bind. rewrite (get_block_eq c i b Hb).
  destruct Hl as [[Hg Hl]|[Hg Hl]].
  - rewrite Hg, Hl. simpl. by rewrite (upd_block_eq c i b _ Hb).
  - rewrite Hg. destruct (Z.eqb_spec (lock_b b + 1) 1); [destruct Hw; split; lia|].
    by rewrite (upd_block_eq c i b _ Hb).
Qed.

Lemma match_loop_none c s ks :
  (∀ i, i ∈ ks → ∃ b, buffer c !! i = Some b ∧ sector b ≠ s) → match_loop ks s c = Ok (None, c).
Proof.
  induction ks as [|i ks IH]; intros H; [done|]. cbn [match_loop].
  destruct (H i) as (b & Hb & Hne); [set_solver|]. unfold mbind, st_bind. rewrite (get_block_eq c i b Hb).
  destruct (Z.eqb_spec (sector b) s); [done|]. apply IH. set_solver.
Qed.

Lemma match_loop_some c s ks i b :
  i ∈ ks → buffer c !! i = Some b → sector b = s → idle b ∨ locked b → ¬ writing b →
  (∀ j, j ∈ ks → ∃ b0, buffer c !! j = Some b0 ∧ (sector b0 = s → j = i)) →
  match_loop ks s c = Ok (Some i, with_block i (set_lock 0 (lock_b b + 1) b) c).
Proof.
  intros Hi Hb Hs Hl Hw. induction ks as [|j ks IH]; intros H; [set_solver|]. cbn [match_loop].
  destruct (H j) as (b0 & Hb0 & Hj); [set_solver|]. unfold mbind at 1, st_bind at 1.
  rewrite (get_block_eq c j b0 Hb0). destruct (Z.eqb_spec (sector b0) s) as [E|Hne].
  - assert (j = i) as -> by auto. unfold mbind at 1, st_bind at 1. rewrite (read_begin_free c i b Hb Hl Hw).
    unfold mbind, st_bind. rewrite (get_block_eq _ i _ (with_block_same c i b _ Hb)).
    replace (sector (set_lock 0 (lock_b b + 1) b)) with s by (by destruct b). by rewrite Z.eqb_refl.
  - apply IH; [|intros k Hk; apply H; set_solver]. apply elem_of_cons in Hi as [->|Hi]; [|done]. by simplify_eq.
Qed.

(** What a lookup of sector [s] does: block [i] holds the sector, with one reader more. *)
Record looked_up (n : Z) (c : cache D) (s : Z) (i : nat) (c' : cache D) : Prop := {
  lu_ok : cache_ok n c';
  lu_contents : ∀ s', 0 ≤ s' < n → contents c' s' = contents c s';
  lu_block : ∃ b b', buffer c !! i = Some b ∧ (idle b ∨ locked b ∧ 0 < lock_b b ∧ place b = (true, s, contents c s))
    ∧ buffer c' !! i = Some b' ∧ place b' = (true, s, contents c s) ∧ lock b' = (0, lock_b b + 1);
  lu_others : others i c c';
}.

(** A change of the marks of a block only. *)
Lemma mark_block n c i b b' :
  cache_ok n c → buffer c !! i = Some b → place b' = place b → idle b' ∨ locked b' →
  (writing b → writing b') → is_u64 (recent_accesses b') → dirty b' = dirty b →
  cache_ok n (with_block i b' c) ∧ ∀ s, 0 ≤ s < n → contents (with_block i b' c) s = contents c s.
Proof.
  intros Hok Hb Hp Hl Hw Hr Hd. injection Hp as Hv Hs Hdata.
  assert (Hok' : cache_ok n (with_block i b' c)).
  { apply (cache_ok_same_place n c i b); try done. destruct (co_block n c Hok i b Hb).
    constructor; rewrite ?Hv, ?Hs, ?Hdata, ?Hd; try done. intros Hvb Hdi Hnw. apply bo_clean0; auto. }
  split; [done|]. intros s _. rewrite (contents_same_place n c i b) by done.
  destruct (valid b && (sector b =? s))%bool eqn:E; [|done]. bools. subst s.
  rewrite (contents_cached n c i b) by done. done.
Qed.

Lemma find_block_tail n c c1 s i b b1 ra nb :
  cache_ok n c1 → (∀ s', 0 ≤ s' < n → contents c1 s' = contents c s') →
  buffer c !! i = Some b → (idle b ∨ locked b ∧ 0 < lock_b b ∧ place b = (true, s, contents c s)) →
  buffer c1 !! i = Some b1 → place b1 = (true, s, contents c s) → lock b1 = (0, lock_b b + 1) →
  others i c c1 →
  ∃ c', (modify (λ c, Cache (buffer c) ra nb (fs_device c));;
         upd_block i (set_accessed true);;
         upd_block i (λ b, set_recent (Z.lor (recent_accesses b) (2 ^ 63)) b);;
         mret i) c1 = Ok (i, c') ∧ looked_up n c s i c'.
Proof.
  intros Hok Hcon Hb Hbl Hb1 Hp Hl Ho. unfold mbind, st_bind, modify.
  set (c2 := Cache (buffer c1) ra nb (fs_device c1)).
  rewrite (upd_block_eq c2 i b1 _ Hb1). erewrite upd_block_eq by (by eapply with_block_same).
  rewrite with_block_twice. eexists. split; [reflexivity|].
  set (b2 := set_recent _ _). assert (Hok2 : cache_ok n c2) by (by destruct Hok).
  assert (E : place b2 = place b1 ∧ lock b2 = lock b1 ∧ dirty b2 = dirty b1) by (by destruct b1).
  destruct E as (E1 & E2 & E3). pose proof (co_block n c1 Hok i b1 Hb1) as Hbo.
  injection E2 as Eg El. injection Hl as Hg Hlb.
  destruct (mark_block n c2 i b1 b2) as [H1 H2]; try done.
  - right. split; [congruence|]. destruct (bo_lock _ _ _ Hbo) as [[? _]|[_ ?]]; congruence.
  - unfold writing. congruence.
  - pose proof (bo_recent _ _ _ Hbo) as Hr. unfold b2. destruct b1. simpl in *. by apply lor_u64.
  - constructor; [done| | |].
    + intros s' Hs'. rewrite H2 by done. by apply Hcon.
    + exists b, b2. split_and!; try done; [by eapply with_block_same|congruence|unfold lock; congruence].
    + by apply others_with_block.
Qed.

Lemma find_block_spec n c s :
  cache_ok n c → 0 < s < n → (∃ k b, buffer c !! k = Some b ∧ idle b) →
  (∀ i b, buffer c !! i = Some b → valid b = true → sector b = s → ¬ writing b) →
  ∃ i c', find_block s c = Ok (i, c') ∧ looked_up n c s i c'.
Proof.
  intros Hok Hs Hidle Hw. unfold find_block. unfold mbind at 1, st_bind at 1, gets at 1.
  destruct (co_device n c Hok) as (Hsize & _). unfold id, block_size. rewrite Hsize.
  unfold mbind at 1, st_bind at 1, assert, ASSERT, lift. destruct (Z.ltb_spec s n); [|lia].
  unfold mbind at 1, st_bind at 1. destruct (contents_cases c s) as [(i & b & Hb & Hv & Es)|Hnone].
  - rewrite (match_loop_some c s all_blocks i b);
      [|by eapply in_all_blocks|done|done|apply (bo_lock _ _ _ (co_block n c Hok i b Hb))|by apply (Hw i)|].
    2: { intros j Hj. apply elem_of_seq in Hj as [_ Hj]. destruct (block_exists n c j Hok Hj) as [b0 Hb0].
         exists b0. split; [done|]. intros E0. destruct (valid b0) eqn:Hv0.
         - apply (co_unique n c Hok j i b0 b); congruence.
         - pose proof (bo_invalid _ _ _ (co_block n c Hok j b0 Hb0) Hv0). lia. }
    unfold mbind at 1, st_bind at 1, mret at 1, st_ret at 1. pose proof (co_block n c Hok i b Hb) as Hbo.
    assert (Hp : place b = (true, s, contents c s)).
    { unfold place. rewrite <- Es at 2. by rewrite (contents_cached n c i b Hok Hb Hv), Hv, Es. }
    destruct (mark_block n c i b (set_lock 0 (lock_b b + 1) b)) as [H1 H2]; try done; try (by destruct b).
    { right. destruct (bo_lock _ _ _ Hbo) as [[? ?]|[? ?]]; destruct b; split; simpl in *; lia. }
    { intros Hwb. by destruct (Hw i b Hb Hv Es). }
    { pose proof (bo_recent _ _ _ Hbo). by destruct b. }
    exists i. apply (find_block_tail n c _ s i b (set_lock 0 (lock_b b + 1) b)); try done; try (by destruct b).
    + destruct (bo_lock _ _ _ Hbo) as [|[Hg Hl]]; [by left|right]. split; [done|]. split; [|done].
      destruct (decide (lock_b b = 0)); [|lia]. by destruct (Hw i b Hb Hv Es).
    + by eapply with_block_same.
    + intros j b0 Hne Hj. exists b0. by rewrite with_block_other.
  - rewrite match_loop_none.
    2: { intros j Hj. apply elem_of_seq in Hj as [_ Hj]. destruct (block_exists n c j Hok Hj) as [b0 Hb0].
         exists b0. split; [done|]. destruct (valid b0) eqn:Hv0; [by apply (Hnone j)|].
         rewrite (bo_invalid _ _ _ (co_block n c Hok j b0 Hb0) Hv0). lia. }
    unfold mbind at 1, st_bind at 1.
    destruct (import_block_spec n c s Hok) as (i & b & c1 & E & H1 & H2 & (b0 & Hb0 & Hid) & H3 & H4); [lia|done|done|].
    rewrite E. exists i. apply (find_block_tail n c c1 s i b0 (loaded s (contents c s) b)); try done; [by left|].
    unfold lock. simpl. by destruct Hid as [_ ->].
Qed.

(** ** Reading and writing a sector *)

(** Nothing that a client can rely on has changed: what the sectors hold, the locks, and
    the contents of the locked blocks. *)
Record same_view (n : Z) (c c' : cache D) : Prop := {
  sv_ok : cache_ok n c';
  sv_contents : ∀ s, 0 ≤ s < n → contents c' s = contents c s;
  sv_block : ∀ j b, buffer c !! j = Some b →
    ∃ b', buffer c' !! j = Some b' ∧ lock b' = lock b ∧ (¬ idle b → place b' = place b);
}.

Lemma same_view_refl n c : cache_ok n c → same_view n c c.
Proof. intros Hok. constructor; eauto. Qed.

Lemma lock_idle b b' : lock b' = lock b → idle b ↔ idle b'.
Proof. intros [= H1 H2]. unfold idle. by rewrite H1, H2. Qed.

Lemma same_view_trans n c1 c2 c3 : same_view n c1 c2 → same_view n c2 c3 → same_view n c1 c3.
Proof.
  intros [O1 C1 B1] [O2 C2 B2]. constructor; [done|intros; rewrite C2, C1 by done; done|].
  intros j b Hb. destruct (B1 j b Hb) as (b1 & Hb1 & L1 & P1). destruct (B2 j b1 Hb1) as (b2 & Hb2 & L2 & P2).
  exists b2. split; [done|]. split; [congruence|]. intros Hi. rewrite P2; [auto|]. by rewrite <- (lock_idle b b1).
Qed.

Lemma read_end_spec n c i b :
  cache_ok n c → buffer c !! i = Some b → lock_g b = 0 → 1 ≤ lock_b b →
  ∃ b', cache_read_end i c = Ok (tt, with_block i b' c) ∧ place b' = place b
    ∧ lock b' = (if lock_b b =? 1 then 1 else 0, lock_b b - 1)
    ∧ cache_ok n (with_block i b' c) ∧ ∀ s, 0 ≤ s < n → contents (with_block i b' c) s = contents c s.
Proof.
  intros Hok Hb Hg Hl. exists (set_lock (if lock_b b =? 1 then 1 else 0) (lock_b b - 1) b). split.
  { unfold cache_read_end, mbind, st_bind. rewrite (get_block_eq c i b Hb), Hg.
    destruct (Z.eqb_spec (lock_b b - 1) 0), (Z.eqb_spec (lock_b b) 1); try lia; by rewrite (upd_block_eq c i b _ Hb). }
  split; [by destruct b|]. split; [by destruct b|]. pose proof (co_block n c Hok i b Hb) as Hbo.
  apply (mark_block n c i b); try done; try (by destruct b).
  - destruct (Z.eqb_spec (lock_b b) 1) as [E|E]; destruct b; simpl in *; [left|right]; split; simpl; lia.
  - intros [_ Hz]. lia.
  - pose proof (bo_recent _ _ _ Hbo). by destruct b.
Qed.

Lemma writing_locked b : lock_g b = 0 → 1 ≤ lock_b b → ¬ idle b.
Proof. intros H1 H2 [H3 _]. congruence. Qed.

(** The end of a read. *)
Lemma looked_up_end n c s i c1 :
  looked_up n c s i c1 → ∃ c2, cache_read_end i c1 = Ok (tt, c2) ∧ same_view n c c2.
Proof.
  intros [Hok Hcon (b & b' & Hb & Hbl & Hb' & Hp & Hl) Ho]. injection Hl as Hg Hlb.
  assert (Hge : 0 ≤ lock_b b) by (destruct Hbl as [[_ ->]|[[_ H] _]]; lia).
  destruct (read_end_spec n c1 i b' Hok Hb' Hg ltac:(lia)) as (b2 & E & Hp2 & Hl2 & Hok2 & Hcon2).
  eexists. split; [exact E|]. constructor; [done|intros; rewrite Hcon2, Hcon by done; done|].
  intros j b0 Hj. destruct (decide (j = i)) as [->|Hne].
  - rewrite Hb in Hj. injection Hj as <-. exists b2. split; [by eapply with_block_same|]. rewrite Hl2, Hlb.
    destruct Hbl as [[Hg0 Hl0]|([Hg0 _] & Hl0 & Hp0)].
    + unfold lock. rewrite Hg0, Hl0. split; [done|]. intros Hn. by destruct Hn.
    + split; [|intros _; by rewrite Hp2, Hp, Hp0]. unfold lock. rewrite Hg0.
      destruct (Z.eqb_spec (lock_b b + 1) 1); [lia|]. f_equal. lia.
  - destruct (Ho j b0 Hne Hj) as (b3 & Hb3 & Hp3 & Hl3). exists b3. by rewrite with_block_other.
Qed.

(** A read goes on while others come and go. *)
Lemma looked_up_same_view n c s i c1 c2 : looked_up n c s i c1 → same_view n c1 c2 → looked_up n c s i c2.
Proof.
  intros [Hok Hcon (b & b' & Hb & Hbl & Hb' & Hp & Hl) Ho] [Hok2 Hcon2 Hv]. constructor; [done| | |].
  - intros s' Hs'. rewrite Hcon2 by done. by apply Hcon.
  - destruct (Hv i b' Hb') as (b2 & Hb2 & Hl2 & Hp2). exists b, b2. split; [done|]. split; [done|].
    split; [done|]. split; [|by rewrite Hl2]. rewrite Hp2; [done|]. intros [Hg _]. injection Hl as Hg' _. congruence.
  - intros j b0 Hne Hj. destruct (Ho j b0 Hne Hj) as (b3 & Hb3 & Hl3 & Hp3).
    destruct (Hv j b3 Hb3) as (b4 & Hb4 & Hl4 & Hp4). exists b4. split; [done|]. split; [by rewrite Hl4|].
    intros Hi. rewrite Hp4, Hp3; [done|done|]. by rewrite <- (lock_idle b0 b3).
Qed.

(** ** Locked blocks *)

(** The locked blocks are read, and are among those of [l]. *)
Definition readers_in (l : list nat) (c : cache D) : Prop :=
  ∀ i b, buffer c !! i = Some b → idle b ∨ (locked b ∧ 0 < lock_b b ∧ i ∈ l).

Lemma readers_in_idle n l c :
  cache_ok n c → readers_in l c → (length l < CACHE_BLOCKS)%nat → ∃ k b, buffer c !! k = Some b ∧ idle b.
Proof.
  intros Hok Hr Hl. assert (Hd : ∃ k, (k < CACHE_BLOCKS)%nat ∧ k ∉ l).
  { destruct (decide (Exists (λ k, k ∉ l) (seq 0 CACHE_BLOCKS))) as [He|He].
    - apply Exists_exists in He as (k & Hk & Hn). apply elem_of_seq in Hk. exists k. split; [lia|done].
    - exfalso. assert (Hsub : (seq 0 CACHE_BLOCKS) ⊆ l).
      { intros k Hk. destruct (decide (k ∈ l)); [done|]. destruct He. apply Exists_exists. eauto. }
      pose proof (NoDup_submseteq _ _ (NoDup_seq 0 CACHE_BLOCKS) Hsub) as Hm.
      apply submseteq_length in Hm. rewrite length_seq in Hm. lia. }
  destruct Hd as (k & Hk & Hn). destruct (block_exists n c k Hok Hk) as [b Hb].
  exists k, b. split; [done|]. destruct (Hr k b Hb) as [|(_ & _ & Hin)]; [done|]. by destruct Hn.
Qed.

Lemma readers_in_lookup n l c s :
  cache_ok n c → readers_in l c → (length l < CACHE_BLOCKS)%nat → 0 < s < n →
  ∃ i c', find_block s c = Ok (i, c') ∧ looked_up n c s i c' ∧ readers_in (i :: l) c'.
Proof.
  intros Hok Hr Hl Hs. destruct (find_block_spec n c s Hok Hs) as (i & c' & E & Hlu).
  { by eapply readers_in_idle. }
  { intros j b Hj _ _ [Hg Hlb]. destruct (Hr j b Hj) as [[Hg' _]|(_ & H & _)]; [congruence|lia]. }
  exists i, c'. split; [done|]. split; [done|].
  destruct Hlu as [Hok' _ (b & b' & Hb & Hbl & Hb' & _ & [= Lg Ll]) Ho].
  assert (Hge : 0 ≤ lock_b b) by (destruct Hbl as [[_ ->]|(_ & ? & _)]; lia).
  intros j b0 Hj. destruct (decide (j = i)) as [->|Hne].
  - rewrite Hb' in Hj. injection Hj as <-. right. unfold locked. rewrite Lg, Ll. split_and!; [lia..|set_solver].
  - destruct (block_exists n c j Hok) as [b1 Hb1].
    { rewrite <- (co_length n c' Hok'). by eapply lookup_lt_Some. }
    destruct (Ho j b1 Hne Hb1) as (b2 & Hb2 & [= L1 L2] & _). rewrite Hj in Hb2. injection Hb2 as <-.
    destruct (Hr j b1 Hb1) as [[Hg Hlb]|([Hg Hlb] & Hpos & Hin)].
    + left. split; congruence.
    + right. unfold locked. rewrite L1, L2. split_and!; [done..|set_solver].
Qed.

Lemma readers_in_same_view n l c c' : cache_ok n c → readers_in l c → same_view n c c' → readers_in l c'.
Proof.
  intros Hok Hr [Hok' _ Hv] j b' Hj. destruct (block_exists n c j Hok) as [b Hb].
  { rewrite <- (co_length n c' Hok'). by eapply lookup_lt_Some. }
  destruct (Hv j b Hb) as (b2 & Hb2 & [= L1 L2] & _). rewrite Hj in Hb2. injection Hb2 as <-.
  destruct (Hr j b Hb) as [[Hg Hlb]|([Hg Hlb] & Hpos & Hin)]; [left; split; congruence|].
  right. unfold locked. by rewrite L1, L2.
Qed.

(** A write lock. *)
Record write_held (n : Z) (c : cache D) (s : Z) (i : nat) (c' : cache D) : Prop := {
  wh_ok : cache_ok n c';
  wh_contents : ∀ s', 0 ≤ s' < n → contents c' s' = contents c s';
  wh_block : ∃ b b', buffer c !! i = Some b ∧ idle b
    ∧ buffer c' !! i = Some b' ∧ place b' = (true, s, contents c s) ∧ writing b';
  wh_others : others i c c';
}.

Lemma cache_write_block_spec n c s :
  cache_ok n c → 0 < s < n → (∃ k b, buffer c !! k = Some b ∧ idle b) →
  (∀ i b, buffer c !! i = Some b → valid b = true → sector b = s → idle b) →
  ∃ i c', cache_write_block s c = Ok (i, c') ∧ write_held n c s i c'.
Proof.
  intros Hok Hs Hidle Hfree. unfold cache_write_block. unfold mbind at 1, st_bind at 1.
  destruct (find_block_spec n c s Hok Hs Hidle) as (i & c1 & -> & [Hok1 Hcon (b & b' & Hb & Hbl & Hb' & Hp & Hl) Ho]).
  { intros j b Hj Hv Hsj [Hg _]. destruct (Hfree j b Hj Hv Hsj). congruence. }
  assert (Hid : idle b).
  { destruct Hbl as [|(_ & _ & Hp0)]; [done|]. injection Hp0 as Hv0 Hs0 _. by apply (Hfree i). }
  injection Hl as Hg Hlb. destruct Hid as [Hg0 Hl0]. rewrite Hl0 in Hlb. simpl in Hlb.
  unfold cache_upgrade, mbind, st_bind. rewrite (get_block_eq c1 i b' Hb'), Hlb.
  rewrite (upd_block_eq c1 i b' _ Hb'), Hg. simpl. exists i. eexists. split; [reflexivity|].
  set (b2 := set_lock 0 0 b'). pose proof (co_block n c1 Hok1 i b' Hb') as Hbo.
  destruct (mark_block n c1 i b' b2) as [H1 H2]; try done; try (by destruct b').
  { right. by destruct b'. }
  { pose proof (bo_recent _ _ _ Hbo). by destruct b'. }
  constructor; [done|intros; rewrite H2, Hcon by done; done| |by apply others_with_block].
  exists b, b2. split_and!; try done; [by eapply with_block_same| |by destruct b'].
  rewrite <- Hp. by destruct b'.
Qed.

(** Changing the data of a block that is held for writing. *)
Lemma put_data n c i b d :
  cache_ok n c → buffer c !! i = Some b → valid b = true → writing b → is_sector d →
  cache_ok n (with_block i (set_data d b) c)
  ∧ ∀ s, contents (with_block i (set_data d b) c) s = if s =? sector b then d else contents c s.
Proof.
  intros Hok Hb Hv Hw Hd. assert (Hok' : cache_ok n (with_block i (set_data d b) c)).
  { apply (cache_ok_same_place n c i b); try done; try (by destruct b).
    destruct (co_block n c Hok i b Hb). destruct b. constructor; try done.  }
  split; [done|]. intros s. rewrite (contents_same_place n c i b) by (done || by destruct b).
  rewrite Hv, Z.eqb_sym. simpl. destruct (s =? sector b); [by destruct b|done].
Qed.

(** The end of a write. *)
Lemma write_end_spec n c i b :
  cache_ok n c → buffer c !! i = Some b → valid b = true → writing b →
  ∃ b', cache_write_end i c = Ok (tt, with_block i b' c) ∧ place b' = place b ∧ idle b'
    ∧ cache_ok n (with_block i b' c) ∧ ∀ s, contents (with_block i b' c) s = contents c s.
Proof.
  intros Hok Hb Hv Hw. exists (set_dirty true (set_lock 1 0 b)). split; [by apply write_end_held|].
  split; [by destruct b|]. split; [by destruct b|].
  assert (Hok' : cache_ok n (with_block i (set_dirty true (set_lock 1 0 b)) c)).
  { apply (cache_ok_same_place n c i b); try done; try (by destruct b).
    destruct (co_block n c Hok i b Hb). destruct b. constructor; try done. by left. }
  split; [done|]. intros s. rewrite (contents_same_place n c i b) by (done || by destruct b).
  destruct (valid b && (sector b =? s))%bool eqn:E; [|done]. bools. subst s.
  rewrite (contents_cached n c i b) by done. by destruct b.
Qed.

(** ** Flushing and ageing *)

Lemma read_try_free c i b :
  buffer c !! i = Some b → idle b ∨ locked b → ¬ writing b →
  cache_read_try i c = Ok (true, with_block i (set_lock 0 (lock_b b + 1) b) c).
Proof.
  intros Hb Hl Hw. unfold cache_read_try, mbind, st_bind. rewrite (get_block_eq c i b Hb).
  destruct Hl as [[Hg Hl]|[Hg Hl]].
  - rewrite Hg, Hl. simpl. by rewrite (upd_block_eq c i b _ Hb).
  - rewrite Hg. destruct (Z.eqb_spec (lock_b b + 1) 1); [destruct Hw; split; lia|].
    by rewrite (upd_block_eq c i b _ Hb).
Qed.

Lemma read_try_writing c i b :
  buffer c !! i = Some b → writing b → cache_read_try i c = Ok (false, c).
Proof. intros Hb [Hg Hl]. unfold cache_read_try, mbind, st_bind. by rewrite (get_block_eq c i b Hb), Hg, Hl. Qed.

(** The lock is as it was before the read. *)
Lemma read_end_restores c i b b' :
  idle b ∨ locked b → ¬ writing b → buffer c !! i = Some b' → lock b' = (0, lock_b b + 1) →
  cache_read_end i c = Ok (tt, with_block i (set_lock (lock_g b) (lock_b b) b') c).
Proof.
  intros Hl Hw Hb' [= Hg' Hl']. unfold cache_read_end, mbind, st_bind.
  rewrite (get_block_eq c i b' Hb'), Hg', Hl'. replace (lock_b b + 1 - 1) with (lock_b b) by lia.
  destruct Hl as [[Hg Hl]|[Hg Hl]]; rewrite Hg; destruct (Z.eqb_spec (lock_b b) 0) as [E|E].
  - by rewrite (upd_block_eq c i b' _ Hb').
  - done.
  - by destruct Hw.
  - by rewrite (upd_block_eq c i b' _ Hb').
Qed.

Lemma writing_dec b : writing b ∨ ¬ writing b.
Proof. unfold writing. destruct (decide (lock_g b = 0)), (decide (lock_b b = 0)); naive_solver. Qed.

(** The blocks hold what they held, with their locks. *)
Definition kept (c c' : cache D) : Prop :=
  ∀ j b, buffer c !! j = Some b → ∃ b', buffer c' !! j = Some b' ∧ place b' = place b ∧ lock b' = lock b.

Lemma kept_trans c1 c2 c3 : kept c1 c2 → kept c2 c3 → kept c1 c3.
Proof.
  intros H1 H2 j b Hb. destruct (H1 j b Hb) as (b1 & Hb1 & P1 & L1).
  destruct (H2 j b1 Hb1) as (b2 & Hb2 & P2 & L2). exists b2. by rewrite P2, L2.
Qed.

Lemma kept_with_block c c' i b b' :
  buffer c' = buffer c → buffer c !! i = Some b → place b' = place b → lock b' = lock b →
  kept c (with_block i b' c').
Proof.
  intros E Hb Hp Hl j b0 Hj. destruct (decide (i = j)) as [<-|Hne].
  - rewrite Hb in Hj. injection Hj as <-. exists b'. split; [|done]. apply (with_block_same _ _ b). by rewrite E.
  - exists b0. by rewrite with_block_other, E.
Qed.

(** A valid block that nobody writes, flushed. *)
Lemma refresh_block n c i b ks :
  cache_ok n c → buffer c !! i = Some b → valid b = true → ¬ writing b →
  ∃ c', refresh_loop (i :: ks) c = refresh_loop ks c' ∧ cache_ok n c' ∧ kept c c'
    ∧ (∀ s, 0 ≤ s < n → contents c' s = contents c s)
    ∧ (∃ b', buffer c' !! i = Some b' ∧ dirty b' = false) ∧ ∀ j, j ≠ i → buffer c' !! j = buffer c !! j.
Proof.
  intros Hok Hb Hv Hw. pose proof (co_block n c Hok i b Hb) as Hbo. pose proof (bo_lock _ _ _ Hbo) as Hl.
  cbn [refresh_loop]. unfold mbind at 1, st_bind at 1. rewrite (get_block_eq c i b Hb), Hv. cbn [negb].
  unfold mbind at 1, st_bind at 1. rewrite (read_try_free c i b Hb Hl Hw). cbn [negb].
  set (b1 := set_lock 0 (lock_b b + 1) b). pose proof (with_block_same c i b b1 Hb) as Hb1.
  unfold mbind at 1, st_bind at 1. rewrite (get_block_eq _ i b1 Hb1).
  assert (E1 : dirty b1 = dirty b ∧ sector b1 = sector b ∧ data b1 = data b) by (by destruct b).
  destruct E1 as (-> & -> & ->). destruct (dirty b) eqn:Hd.
  - destruct (writeback n c i b Hok Hb Hv) as (d & Ew & Hokd & Hcd & Hself & _).
    unfold mbind at 1, st_bind at 1, mbind at 1, st_bind at 1.
    rewrite (on_device_eq _ c (with_block i b1 c) tt d Ew eq_refl).
    change (with_device d (with_block i b1 c)) with (with_block i b1 (with_device d c)).
    erewrite upd_block_eq by (by eapply (with_block_same (with_device d c))).
    unfold mbind at 1, st_bind at 1. rewrite with_block_twice.
    rewrite (read_end_restores _ i b (set_dirty false b1)); [|done|done|by eapply (with_block_same (with_device d c))|by destruct b].
    rewrite with_block_twice. set (b2 := set_lock _ _ _).
    assert (E2 : place b2 = place b ∧ lock b2 = lock b ∧ dirty b2 = false ∧ recent_accesses b2 = recent_accesses b)
      by (by destruct b).
    destruct E2 as (P2 & L2 & D2 & R2). injection P2 as Pv Ps Pd.
    assert (Hok2 : cache_ok n (with_block i b2 (with_device d c))).
    { apply (cache_ok_same_place n _ i b); try done. destruct Hbo.
      constructor; rewrite ?Pv, ?Ps, ?Pd, ?R2; try done.
      injection L2 as Lg Ll. unfold idle, locked. by rewrite Lg, Ll. }
    exists (with_block i b2 (with_device d c)). split_and!; try done.
    + apply (kept_with_block c (with_device d c) i b); try done. unfold place. congruence.
    + intros s Hs. rewrite (contents_same_place n _ i b) by done. rewrite Hcd by done.
      destruct (valid b && (sector b =? s))%bool eqn:E; [|done]. bools. subst s.
      by rewrite (contents_cached n c i b).
    + exists b2. split; [by eapply (with_block_same (with_device d c))|done].
    + intros j Hne. by rewrite with_block_other.
  - unfold mbind at 1, st_bind at 1, mret at 1, st_ret at 1. unfold mbind at 1, st_bind at 1.
    rewrite (read_end_restores _ i b b1); [|done|done|done|by destruct b].
    rewrite with_block_twice. replace (set_lock _ _ b1) with b by (by destruct b).
    rewrite with_block_id by done. exists c. split_and!; try done; [|by exists b].
    intros j b0 Hj. by exists b0.
Qed.

Lemma refresh_loop_spec n ks c :
  cache_ok n c → Forall (λ k, k < CACHE_BLOCKS)%nat ks →
  ∃ c', refresh_loop ks c = Ok (tt, c') ∧ cache_ok n c' ∧ kept c c'
    ∧ (∀ s, 0 ≤ s < n → contents c' s = contents c s)
    ∧ ∀ j b, buffer c' !! j = Some b → valid b = true → ¬ writing b →
        (j ∈ ks ∨ ∃ b0, buffer c !! j = Some b0 ∧ dirty b0 = false) → dirty b = false.
Proof.
  revert c. induction ks as [|i ks IH]; intros c Hok Hks.
  { exists c. split_and!; try done; [intros j b Hj; by exists b|]. intros j b Hj _ _ [Hin|(b0 & H & Hd)]; [set_solver|].
    congruence. }
  inversion_clear Hks as [|? ? Hi Hks']. destruct (block_exists n c i Hok Hi) as [b Hb].
  destruct (decide (valid b = true)) as [Hv|Hv]; [destruct (writing_dec b) as [Hw|Hw]|].
  - destruct (IH c Hok Hks') as (c' & E & Hok' & Hk & Hc & Hd). exists c'. split_and!; try done.
    + cbn [refresh_loop]. unfold mbind, st_bind. rewrite (get_block_eq c i b Hb), Hv. cbn [negb].
      by rewrite (read_try_writing c i b Hb Hw).
    + intros j b0 Hj Hv0 Hw0 Hin. apply (Hd j b0 Hj Hv0 Hw0). destruct Hin as [Hin|]; [|by right].
      apply elem_of_cons in Hin as [->|]; [|by left]. destruct Hw0.
      destruct (Hk i b Hb) as (b1 & Hb1 & _ & [= L1 L2]). rewrite Hb1 in Hj. injection Hj as <-.
      unfold writing. by rewrite L1, L2.
  - destruct (refresh_block n c i b ks Hok Hb Hv Hw) as (c1 & E1 & Hok1 & Hk1 & Hc1 & (b1 & Hb1 & Hd1) & Ho1).
    destruct (IH c1 Hok1 Hks') as (c' & E & Hok' & Hk & Hc & Hd). exists c'. rewrite E1.
    split_and!; try done; [by eapply kept_trans|intros; rewrite Hc, Hc1 by done; done|].
    intros j b0 Hj Hv0 Hw0 Hin. apply (Hd j b0 Hj Hv0 Hw0). destruct (decide (j = i)) as [->|Hne]; [right; by exists b1|].
    destruct Hin as [Hin|(b2 & Hb2 & Hd2)]; [left; set_solver|right]. exists b2. by rewrite Ho1.
  - destruct (IH c Hok Hks') as (c' & E & Hok' & Hk & Hc & Hd). exists c'. split_and!; try done.
    + cbn [refresh_loop]. unfold mbind, st_bind. rewrite (get_block_eq c i b Hb). by destruct (valid b).
    + intros j b0 Hj Hv0 Hw0 Hin. apply (Hd j b0 Hj Hv0 Hw0). destruct Hin as [Hin|]; [|by right].
      apply elem_of_cons in Hin as [->|]; [|by left]. destruct Hv.
      destruct (Hk i b Hb) as (b1 & Hb1 & [= P1 _ _] & _). congruence.
Qed.

Lemma kept_refl c : kept c c.
Proof. intros j b Hj. by exists b. Qed.

Lemma shiftr1_u64 x : is_u64 x → 0 ≤ Z.shiftr x 1 < 2 ^ 63.
Proof.
  unfold_ints. intros H. rewrite Z.shiftr_div_pow2 by lia. change (2 ^ 1) with 2.
  split; [apply Z.div_pos; lia|apply Z.div_lt_upper_bound; lia].
Qed.

Lemma lor_top_u64 x (a : bool) : 0 ≤ x < 2 ^ 63 → is_u64 (Z.lor x (Z.shiftl (if a then 1 else 0) 63)).
Proof.
  intros H. apply lor_u64; [unfold_ints; lia|by destruct a].
Qed.

Lemma age_block n c i b ks :
  cache_ok n c → buffer c !! i = Some b → valid b = true → ¬ writing b →
  ∃ c', accesses_loop (i :: ks) c = accesses_loop ks c' ∧ cache_ok n c' ∧ kept c c'
    ∧ (∀ s, 0 ≤ s < n → contents c' s = contents c s)
    ∧ buffer c' !! i = Some (set_accessed false (set_recent
        (Z.lor (Z.shiftr (recent_accesses b) 1) (Z.shiftl (if accessed b then 1 else 0) 63)) b)).
Proof.
  intros Hok Hb Hv Hw. pose proof (co_block n c Hok i b Hb) as Hbo. pose proof (bo_lock _ _ _ Hbo) as Hl.
  cbn [accesses_loop]. unfold mbind at 1, st_bind at 1. rewrite (get_block_eq c i b Hb), Hv. cbn [negb].
  unfold mbind at 1, st_bind at 1. rewrite (read_try_free c i b Hb Hl Hw). cbn [negb].
  unfold mbind at 1, st_bind at 1. erewrite upd_block_eq by (by eapply with_block_same). rewrite with_block_twice.
  unfold mbind at 1, st_bind at 1. erewrite upd_block_eq by (by eapply with_block_same). rewrite with_block_twice.
  unfold mbind at 1, st_bind at 1. erewrite get_block_eq by (by eapply with_block_same).
  assert (0 ≤ lock_b b) by (destruct Hl as [[_ ->]|[_ ?]]; lia).
  unfold mbind at 1, st_bind at 1. match goal with |- context [0 <? lock_b ?x] => set (b1 := x) end.
  assert (E1 : lock b1 = (0, lock_b b + 1)) by (by destruct b). injection E1 as Eg El. rewrite El.
  destruct (Z.ltb_spec 0 (lock_b b + 1)); [|lia].
  erewrite upd_block_eq by (by eapply with_block_same). rewrite with_block_twice.
  unfold mbind at 1, st_bind at 1. erewrite (read_end_restores _ i b (set_accessed false b1));
    [|done|done|by eapply with_block_same|by destruct b]. rewrite with_block_twice.
  set (b2 := set_accessed false (set_recent _ b)).
  replace (set_lock (lock_g b) (lock_b b) (set_accessed false b1)) with b2 by (by destruct b).
  pose proof (bo_recent _ _ _ Hbo) as Hr.
  assert (P2 : place b2 = place b ∧ lock b2 = lock b ∧ dirty b2 = dirty b) by (by destruct b).
  destruct P2 as (P2 & L2 & D2). injection L2 as Lg Ll.
  destruct (mark_block n c i b b2) as [H1 H2]; try done.
  - unfold idle, locked. by rewrite Lg, Ll.
  - unfold b2. destruct b. by apply lor_top_u64, shiftr1_u64.
  - exists (with_block i b2 c). split_and!; try done; [|by eapply with_block_same].
    apply (kept_with_block c c i b); try done. unfold lock. congruence.
Qed.

Lemma accesses_loop_spec n ks c :
  cache_ok n c → Forall (λ k, k < CACHE_BLOCKS)%nat ks →
  ∃ c', accesses_loop ks c = Ok (tt, c') ∧ cache_ok n c' ∧ kept c c'
    ∧ ∀ s, 0 ≤ s < n → contents c' s = contents c s.
Proof.
  revert c. induction ks as [|i ks IH]; intros c Hok Hks.
  { exists c. split_and!; try done. apply kept_refl. }
  inversion_clear Hks as [|? ? Hi Hks']. destruct (block_exists n c i Hok Hi) as [b Hb].
  destruct (decide (valid b = true)) as [Hv|Hv]; [destruct (writing_dec b) as [Hw|Hw]|].
  - destruct (IH c Hok Hks') as (c' & E & H). exists c'. split; [|done].
    cbn [accesses_loop]. unfold mbind, st_bind. rewrite (get_block_eq c i b Hb), Hv. cbn [negb].
    by rewrite (read_try_writing c i b Hb Hw).
  - destruct (age_block n c i b ks Hok Hb Hv Hw) as (c1 & E1 & Hok1 & Hk1 & Hc1 & _).
    destruct (IH c1 Hok1 Hks') as (c' & E & Hok' & Hk & Hc). exists c'. rewrite E1.
    split_and!; try done; [by eapply kept_trans|intros; rewrite Hc, Hc1 by done; done].
  - destruct (IH c Hok Hks') as (c' & E & H). exists c'. split; [|done].
    cbn [accesses_loop]. unfold mbind, st_bind. rewrite (get_block_eq c i b Hb). by destruct (valid b).
Qed.
End cache.
