(* ===== verification/CacheThms.v ===== *)
(** * What the buffer cache promises

    A client reads a sector between [cache_read_block] and [cache_read_end], and changes one
    between [cache_write_block] and [cache_write_end].  The claims are about sequences of
    such accesses, mixed with the turns of the flushing and ageing threads, from a cache
    just initialised on a device. *)

From S2P Require Import Prelude Bytes Block Cache.

Section clients.
Context {D : Type} {drv : BlockDriver D} {laws : BlockDriverLaws D}.

(** An access, or a turn of one of the threads. *)
Inductive cache_op : Type :=
  | Read (s : Z)
  | Modify (s : Z) (f : list Z → list Z)
  | Refresh
  | Age.

Definition run_op (o : cache_op) : ST (cache D) (list Z) :=
  match o with
  | Read s => i ← cache_read_block s; b ← get_block i; cache_read_end i;; mret (data b)
  | Modify s f => i ← cache_write_block s; upd_block i (λ b, set_data (f (data b)) b);;
                  cache_write_end i;; mret []
  | Refresh => refresh_cache;; mret []
  | Age => update_accesses;; mret []
  end.

Fixpoint run_ops (os : list cache_op) : ST (cache D) (list (list Z)) :=
  match os with
  | [] => mret []
  | o :: os => r ← run_op o; rs ← run_ops os; mret (r :: rs)
  end.

(** The same on an array of sectors. *)
Definition spec_op (o : cache_op) (m : Z → list Z) : list Z * (Z → list Z) :=
  match o with
  | Read s => (m s, m)
  | Modify s f => ([], λ s', if s' =? s then f (m s) else m s')
  | Refresh | Age => ([], m)
  end.

Fixpoint spec_ops (os : list cache_op) (m : Z → list Z) : list (list Z) * (Z → list Z) :=
  match os with
  | [] => ([], m)
  | o :: os => let '(r, m) := spec_op o m in let '(rs, m) := spec_ops os m in (r :: rs, m)
  end.

(** Sector 0 is not used by the file system; new contents are a sector. *)
Definition op_ok (n : Z) (o : cache_op) : Prop :=
  match o with
  | Read s => 0 < s < n
  | Modify s f => 0 < s < n ∧ ∀ d, is_sector d → is_sector (f d)
  | Refresh | Age => True
  end.

(** The cache, with no block locked, holds the sectors [m]. *)
Record holds (n : Z) (m : Z → list Z) (c : cache D) : Prop := {
  ho_ok : cache_ok n c;
  ho_idle : ∀ i b, buffer c !! i = Some b → idle b;
  ho_contents : ∀ s, 0 < s < n → contents c s = m s;
}.

Lemma some_idle n c : cache_ok n c → (∀ i b, buffer c !! i = Some b → idle b) →
  ∃ k b, buffer c !! k = Some b ∧ idle b.
Proof.
  intros Hok Hall. destruct (block_exists n c 0 Hok) as [b Hb]; [unfold CACHE_BLOCKS; lia|]. eauto.
Qed.

Lemma idle_not_writing b : idle b → ¬ writing b.
Proof. intros [Hg _] [Hg' _]. congruence. Qed.

Lemma kept_holds n m c c' :
  holds n m c → cache_ok n c' → kept c c' → (∀ s, 0 ≤ s < n → contents c' s = contents c s) →
  holds n m c'.
Proof.
  intros [Hok Hid Hc] Hok' Hk Hc'. constructor; [done| |intros s Hs; rewrite Hc' by lia; by apply Hc].
  intros i b' Hb'. destruct (block_exists n c i Hok) as [b Hb].
  { rewrite <- (co_length n c' Hok'). by eapply lookup_lt_Some. }
  destruct (Hk i b Hb) as (b1 & Hb1 & _ & Hl). rewrite Hb' in Hb1. injection Hb1 as <-.
  apply (lock_idle b b' Hl). by apply (Hid i).
Qed.

(** The block of a lookup can be read. *)
Lemma looked_up_data n c s i c' :
  looked_up n c s i c' → ∃ b, get_block i c' = Ok (b, c') ∧ data b = contents c s.
Proof.
  intros [_ _ (b & b' & _ & _ & Hb' & Hp & _) _]. exists b'. injection Hp as _ _ Hd.
  split; [by apply get_block_eq|done].
Qed.

Lemma same_view_holds n m c c' : holds n m c → same_view n c c' → holds n m c'.
Proof.
  intros [Hok Hid Hc] [Hok' Hc' Hb]. constructor; [done| |intros s Hs; rewrite Hc' by lia; by apply Hc].
  intros i b' Hb'. destruct (block_exists n c i Hok) as [b Hbi].
  { rewrite <- (co_length n c' Hok'). by eapply lookup_lt_Some. }
  destruct (Hb i b Hbi) as (b1 & Hb1 & Hl & _). rewrite Hb' in Hb1. injection Hb1 as <-.
  apply (lock_idle b b' Hl). by apply (Hid i).
Qed.

Lemma modify_sim n m c s f :
  holds n m c → 0 < s < n → (∀ d, is_sector d → is_sector (f d)) →
  ∃ c', run_op (Modify s f) c = Ok ([], c') ∧ holds n (λ s', if s' =? s then f (m s) else m s') c'.
Proof.
  intros [Hok Hid Hc] Hs Hf.
  destruct (cache_write_block_spec n c s Hok Hs) as (i & c1 & E & [Hok1 Hc1 (b & b1 & Hb & Hib & Hb1 & Hp & Hw) Ho]);
    [by eapply some_idle|intros j b Hj _ _; by apply (Hid j)|].
  injection Hp as Pv Ps Pd. pose proof (co_block n c1 Hok1 i b1 Hb1) as Hbo.
  destruct (put_data n c1 i b1 (f (data b1)) Hok1 Hb1 Pv Hw) as [Hok2 Hc2]; [apply Hf, Hbo|].
  set (c2 := with_block i (set_data (f (data b1)) b1) c1) in *.
  assert (Hb2 : buffer c2 !! i = Some (set_data (f (data b1)) b1)) by (by eapply with_block_same).
  destruct (write_end_spec n c2 i _ Hok2 Hb2) as (b3 & E3 & P3 & I3 & Hok3 & Hc3); [by destruct b1..|].
  exists (with_block i b3 c2). split.
  { unfold run_op, mbind, st_bind. rewrite E. rewrite (upd_block_eq c1 i b1 _ Hb1). fold c2. by rewrite E3. }
  constructor; [done| |].
  - intros j b' Hj. destruct (decide (i = j)) as [<-|Hne].
    + rewrite (with_block_same c2 i _ b3 Hb2) in Hj. by injection Hj as <-.
    + unfold c2 in Hj. rewrite !with_block_other in Hj by done. destruct (block_exists n c j Hok) as [b0 Hb0].
      { rewrite <- (co_length n c1 Hok1). by eapply lookup_lt_Some. }
      destruct (Ho j b0) as (b4 & Hb4 & Hl & _); [congruence|done|]. rewrite Hj in Hb4. injection Hb4 as <-.
      apply (lock_idle b0 b' Hl). by apply (Hid j).
  - intros s' Hs'. rewrite Hc3, Hc2, Ps. destruct (Z.eqb_spec s' s) as [->|Hne].
    + by rewrite Pd, Hc.
    + rewrite Hc1 by lia. by apply Hc.
Qed.

Lemma run_op_sim n m c o :
  holds n m c → op_ok n o →
  ∃ c', run_op o c = Ok ((spec_op o m).1, c') ∧ holds n (spec_op o m).2 c'.
Proof.
  intros Hh Ho. destruct o as [s|s f| |].
  - destruct Hh as [Hok Hid Hc].
    destruct (find_block_spec n c s Hok Ho) as (i & c1 & E & Hlu); [by eapply some_idle| |].
    { intros i b Hb _ _. by apply idle_not_writing, (Hid i). }
    destruct (looked_up_data n c s i c1 Hlu) as (b & Eb & Ed).
    destruct (looked_up_end n c s i c1 Hlu) as (c2 & E2 & Hv). exists c2. split.
    + unfold run_op, cache_read_block, mbind, st_bind. rewrite E, Eb, E2, Ed. by rewrite Hc.
    + by apply (same_view_holds n m c c2).
  - destruct Ho as [Hs Hf]. by apply modify_sim.
  - destruct (refresh_loop_spec n all_blocks c (ho_ok _ _ _ Hh) all_blocks_range) as (c' & E & Hok' & Hk & Hc & _).
    exists c'. split; [unfold run_op, refresh_cache, mbind, st_bind; by rewrite E|]. by apply (kept_holds n m c c').
  - destruct (accesses_loop_spec n all_blocks c (ho_ok _ _ _ Hh) all_blocks_range) as (c' & E & Hok' & Hk & Hc).
    exists c'. split; [unfold run_op, update_accesses, mbind, st_bind; by rewrite E|]. by apply (kept_holds n m c c').
Qed.

Lemma run_ops_sim n os m c :
  holds n m c → Forall (op_ok n) os →
  ∃ c', run_ops os c = Ok ((spec_ops os m).1, c') ∧ holds n (spec_ops os m).2 c'.
Proof.
  revert m c. induction os as [|o os IH]; intros m c Hh Hos; [by exists c|].
  inversion_clear Hos as [|? ? Ho Hos']. destruct (run_op_sim n m c o Hh Ho) as (c1 & E1 & Hh1).
  cbn [run_ops spec_ops]. destruct (spec_op o m) as [r m1]. destruct (IH m1 c1 Hh1 Hos') as (c' & E & Hh').
  exists c'. unfold mbind, st_bind. rewrite E1, E. by destruct (spec_ops os m1).
Qed.

(** The cache before any access. *)
Definition fresh_blocks (old : list cache_block) : Prop :=
  length old = CACHE_BLOCKS ∧ Forall (λ b, is_sector (data b) ∧ is_u64 (recent_accesses b)) old.

Lemma cache_init_holds n old d :
  fresh_blocks old → dev_ok d n → holds n (dev_get d) (cache_init old d).
Proof.
  intros [Hl Hf] Hd. assert (Hb : ∀ i b, buffer (cache_init old d) !! i = Some b →
    valid b = false ∧ sector b = 0 ∧ idle b ∧ is_sector (data b) ∧ is_u64 (recent_accesses b)).
  { intros i b Hi. simpl in Hi. rewrite list_lookup_fmap in Hi.
    destruct (old !! i) as [b0|] eqn:E; [|done]. apply (Forall_lookup_1 _ _ _ _ Hf) in E. injection Hi as <-.
    by destruct b0. }
  constructor.
  - constructor; [simpl; by rewrite length_fmap|done| |].
    + intros i b (Hv & Hs & Hi & Hda & Hr)%Hb. constructor; try done; [by left|congruence|congruence].
    + intros i j b b' (Hv & _)%Hb _ Hv'. congruence.
  - by intros i b (_ & _ & Hi & _)%Hb.
  - intros s _. rewrite contents_uncached; [done|]. intros i b (Hv & _)%Hb Hv'. congruence.
Qed.
End clients.

(** ** The claims *)

(** C2.  The cache is transparent: any sequence of reads and changes of sectors (other than
    sector 0) through the cache, with flushes and ageing in between, returns what it returns
    on a plain array of sectors that starts as the device, without a panic, a failed assertion
    or a deadlock, whatever is evicted on the way; and a flush at the end puts
    the final contents of that array on the device. *)
Theorem cache_transparent {D} `{BlockDriverLaws D} (d : block D) n old os :
  fresh_blocks old → dev_ok d n → Forall (op_ok n) os →
  ∃ c c', run_ops os (cache_init old d) = Ok ((spec_ops os (dev_get d)).1, c)
    ∧ refresh_cache c = Ok (tt, c')
    ∧ ∀ s, 0 < s < n → dev_get (fs_device c') s = (spec_ops os (dev_get d)).2 s.
Proof.
  intros Hold Hd Hos. destruct (run_ops_sim n os _ _ (cache_init_holds n old d Hold Hd) Hos) as (c & E & Hh).
  destruct (refresh_loop_spec n all_blocks c (ho_ok _ _ _ Hh) all_blocks_range) as (c' & E' & Hok' & Hk & Hc & Hdi).
  exists c, c'. split; [done|]. split; [done|]. intros s Hs.
  pose proof (kept_holds n _ c c' Hh Hok' Hk Hc) as [_ Hid' Hc']. rewrite <- Hc' by done.
  destruct (contents_cases c' s) as [(i & b & Hb & Hv & <-)|Hnone]; [|by rewrite contents_uncached].
  rewrite (contents_cached n c' i b Hok' Hb Hv). symmetry.
  pose proof (idle_not_writing b (Hid' i b Hb)) as Hw.
  apply (bo_clean _ _ _ (co_block n c' Hok' i b Hb)); try done.
  apply (Hdi i b Hb Hv Hw). left. by eapply in_all_blocks.
Qed.

(** An empty disk of 200 sectors and a cache for it. *)
Definition empty_disk : block disk := Block BLOCK_FILESYS 200 (Disk 200 ∅) 0 0.
Definition static_blocks : list cache_block :=
  replicate CACHE_BLOCKS (CacheBlock false zeros 0 0 false false 0 0).

Lemma empty_disk_ok : dev_ok empty_disk 200.
Proof. split; [done|]. split; [done|]. exists 200. split; [done|]. split; [done|]. simpl. intros s b. by rewrite lookup_empty. Qed.

Lemma static_blocks_fresh : fresh_blocks static_blocks.
Proof.
  split; [done|]. apply Forall_replicate. simpl. split; [apply zeros_sector|unfold_ints; lia].
Qed.

Lemma set_byte_sector i x d : is_u8 x → is_sector d → is_sector (<[i := x]> d).
Proof. intros Hx [Hl Hd]. split; [by rewrite length_insert|]. by apply Forall_insert. Qed.

Definition example_ops : list cache_op :=
  [Modify 5 (<[0%nat := 7]>); Read 5; Refresh; Age; Modify 6 (<[1%nat := 9]>); Read 6].

Lemma example_ops_ok : Forall (op_ok 200) example_ops.
Proof.
  repeat (apply Forall_cons_2; [cbn [op_ok]|]); try lia; try done;
    (split; [lia|]; intros d; apply set_byte_sector; unfold_ints; lia).
Qed.

Lemma cache_transparent_witness :
  ∃ c c' rs, run_ops example_ops (cache_init static_blocks empty_disk) = Ok (rs, c)
    ∧ refresh_cache c = Ok (tt, c')
    ∧ byte_at (dev_get (fs_device c') 5) 0 = 7 ∧ byte_at (dev_get (fs_device c') 6) 1 = 9.
Proof.
  destruct (cache_transparent empty_disk 200 static_blocks example_ops) as (c & c' & E & E' & Hd).
  - exact static_blocks_fresh.
  - exact empty_disk_ok.
  - exact example_ops_ok.
  - exists c, c'. eexists. split; [exact E|]. split; [exact E'|].
    rewrite (Hd 5), (Hd 6) by lia. vm_compute. split; reflexivity.
Defined.

Section claims.
Context {D : Type} {drv : BlockDriver D} {laws : BlockDriverLaws D}.

Lemma evict_loop_locked (c : cache D) ks v o :
  (∀ k, k ∈ ks → ∃ b, buffer c !! k = Some b ∧ locked b) → evict_loop ks v o c = Ok (v, c).
Proof.
  induction ks as [|k ks IH]; intros H; [done|]. cbn [evict_loop].
  destruct (H k) as (b & Hb & Hl); [set_solver|]. unfold mbind, st_bind.
  rewrite (write_try_locked c k b Hb Hl). cbn [negb]. apply IH. set_solver.
Qed.

(** A sector that a reader holds cannot be written. *)
Lemma write_block_blocked n (c : cache D) s i b :
  cache_ok n c → 0 < s < n → (∃ k b, buffer c !! k = Some b ∧ idle b) →
  buffer c !! i = Some b → valid b = true → sector b = s → lock_g b = 0 → 0 < lock_b b →
  cache_write_block s c = Err Blocked.
Proof.
  intros Hok Hs Hidle Hb Hv Es Hg Hl. unfold cache_write_block. unfold mbind at 1, st_bind at 1.
  assert (Huniq : ∀ j b0, buffer c !! j = Some b0 → valid b0 = true → sector b0 = s → j = i).
  { intros j b0 Hj Hvj Hsj. apply (co_unique n c Hok j i b0 b); congruence. }
  destruct (find_block_spec n c s Hok Hs Hidle) as (j & c1 & -> & [Hok1 Hcon (b0 & b' & Hb0 & Hbl & Hb' & Hp & Hlk) Ho]).
  { intros j b0 Hj Hvj Hsj [_ Hz]. rewrite (Huniq j b0 Hj Hvj Hsj) in Hj. rewrite Hb in Hj. injection Hj as <-. lia. }
  injection Hp as Pv Ps _. injection Hlk as Lg Ll.
  assert (j = i) as ->.
  { destruct (decide (j = i)) as [|Hne]; [done|]. destruct (Ho i b) as (b1 & Hb1 & _ & P); [congruence|done|].
    specialize (P ltac:(intros [? _]; congruence)). injection P as P1 P2 _.
    apply (co_unique n c1 Hok1 j i b' b1); congruence. }
  rewrite Hb in Hb0. injection Hb0 as <-. unfold cache_upgrade, mbind, st_bind.
  rewrite (get_block_eq c1 i b' Hb'), (upd_block_eq c1 i b' _ Hb'), Lg, Ll.
  destruct (Z.eqb_spec (lock_b b + 1 - 1) 0); [lia|done].
Qed.
End claims.

(** When every unlocked block is in use, cache_evict takes one whose recent_accesses is the
    smallest of all unlocked blocks, after its contents are on the device, and no
    sector changes; when every block is locked, it panics. *)
Theorem cache_evict_lru {D} `{BlockDriverLaws D} n (c : cache D) :
  cache_ok n c → (∀ k b, buffer c !! k = Some b → valid b = true ∨ locked b) →
  ((∃ k b, buffer c !! k = Some b ∧ idle b) →
   ∃ v c' b, cache_evict c = Ok (v, c') ∧ buffer c !! v = Some b ∧ idle b
     ∧ (∀ k b0, buffer c !! k = Some b0 → idle b0 → recent_accesses b ≤ recent_accesses b0)
     ∧ dev_get (fs_device c') (sector b) = data b)
  ∧ ((∀ k b, buffer c !! k = Some b → locked b) → cache_evict c = Err Panicked).
Proof.
  intros Hok Hval. split.
  - intros Hid. destruct (cache_evict_spec n c Hok Hval Hid)
      as (v & b & c' & E & _ & _ & (c1 & Hd & Eb) & Hb & Hib & Hv & Hdata & Hmin).
    rewrite Eb in Hb. destruct (dirtied_back c c1 v b Hd Hb) as (b0 & Hb0 & Hb0').
    assert (E0 : idle b0 ∧ recent_accesses b0 = recent_accesses b ∧ place b0 = place b).
    { destruct Hb0' as [->|(? & _ & ->)]; [done|]. by destruct b0. }
    destruct E0 as (Hib0 & Er & [= _ Es Ed]). exists v. eexists. exists b0. split; [exact E|].
    rewrite Es, Ed, Er. split_and!; done.
  - intros Hall. unfold cache_evict, mbind, st_bind. rewrite evict_loop_locked; [done|].
    intros k Hk. apply elem_of_seq in Hk as [_ Hk]. destruct (block_exists n c k Hok Hk) as [b Hb]. eauto.
Qed.

(** A full cache: block [i] holds sector [i + 1], the blocks with an even number used less
    recently, and block 10 least. *)
Definition full_cache : cache disk :=
  Cache ((λ i, CacheBlock true zeros (Z.of_nat i + 1) (if Nat.eqb i 10 then 3 else if Nat.even i then 50 else 90)
               false false 1 0) <$> seq 0 CACHE_BLOCKS) false 0 empty_disk.

Lemma full_cache_ok : cache_ok 200 full_cache.
Proof.
  assert (Hb : ∀ i b, buffer full_cache !! i = Some b → (i < 64)%nat ∧ sector b = Z.of_nat i + 1
    ∧ valid b = true ∧ idle b ∧ data b = zeros ∧ is_u64 (recent_accesses b)).
  { intros i b Hi. unfold full_cache in Hi. cbn [buffer] in Hi. rewrite list_lookup_fmap in Hi.
    destruct (seq 0 CACHE_BLOCKS !! i) as [k|] eqn:E; [|done]. apply lookup_seq in E as [-> Hk].
    injection Hi as <-. split_and!; try done. simpl. unfold_ints. repeat case_match; lia. }
  constructor.
  - unfold full_cache. cbn [buffer]. by rewrite length_fmap, length_seq.
  - exact empty_disk_ok.
  - intros i b (Hi & Hs & Hv & Hid & Hd & Hr)%Hb. constructor;
      [by left|rewrite Hd; apply zeros_sector|done|intros _; rewrite Hs; lia|congruence|intros _ _ _; by rewrite Hd].
  - intros i j b b' (_ & Hs & _)%Hb (_ & Hs' & _)%Hb _ _ E. lia.
Qed.

Lemma full_cache_valid k b : buffer full_cache !! k = Some b → valid b = true ∨ locked b.
Proof.
  intros Hk. left. unfold full_cache in Hk. cbn [buffer] in Hk. rewrite list_lookup_fmap in Hk.
  destruct (seq 0 CACHE_BLOCKS !! k) as [j|] eqn:E; [|done]. by injection Hk as <-.
Qed.

Lemma cache_evict_lru_witness :
  ∃ v c' b, cache_evict full_cache = Ok (v, c') ∧ buffer full_cache !! v = Some b ∧ recent_accesses b ≤ 3.
Proof.
  destruct (cache_evict_lru 200 full_cache full_cache_ok full_cache_valid) as [Hev _].
  destruct Hev as (v & c' & b & E & Hb & _ & Hmin & _).
  - exists 10%nat. eexists. split; [vm_compute; reflexivity|]. split; reflexivity.
  - exists v, c', b. split; [exact E|]. split; [exact Hb|].
    refine (Hmin 10%nat (CacheBlock true zeros 11 3 false false 1 0) _ _); [vm_compute; reflexivity|split; reflexivity].
Defined.

(** C26.  The read-ahead thread loads the next sector and never ends the read: from then on, as
    long as no other thread undoes its lock, a write of that sector waits for ever.  A
    request for the sector past the end of the device fails an assertion. *)
Theorem read_ahead_leaks {D} `{BlockDriverLaws D} n m (c : cache D) :
  holds n m c → read_ahead c = true →
  (0 < next_block c < n →
   ∃ c', cache_read_ahead c = Ok (tt, c') ∧ cache_ok n c'
     ∧ ∀ c'', same_view n c' c'' → cache_write_block (next_block c) c'' = Err Blocked)
  ∧ (n ≤ next_block c → cache_read_ahead c = Err AssertFailed).
Proof.
  intros [Hok Hid Hc] Hra. unfold cache_read_ahead, mbind, st_bind, gets, id. rewrite Hra. split.
  - intros Hs. destruct (find_block_spec n c (next_block c) Hok Hs) as (i & c1 & -> & Hlu); [by eapply some_idle| |].
    { intros j b Hj _ _. by apply idle_not_writing, (Hid j). }
    destruct Hlu as [Hok1 _ (b & b1 & Hb & Hbl & Hb1 & Hp & Hl) Ho]. eexists. split; [reflexivity|].
    split; [by destruct Hok1|]. intros c'' [Hok'' _ Hv]. destruct (Hv i b1 Hb1) as (b2 & Hb2 & L2 & P2). rewrite Hl in L2. injection Hl as Lg Ll.
    injection L2 as L2g L2l. rewrite Hp in P2. destruct (Hid i b Hb) as [_ Hb0]. rewrite Hb0 in *.
    specialize (P2 ltac:(intros [? _]; congruence)). injection P2 as P2v P2s _.
    apply (write_block_blocked n c'' _ i b2); try done; [|lia].
    set (k := (if Nat.eqb i 0 then 1 else 0)%nat).
    assert (Hki : k ≠ i) by (unfold k; destruct (Nat.eqb_spec i 0); lia).
    destruct (block_exists n c k Hok) as [b3 Hb3]; [unfold k, CACHE_BLOCKS; destruct (Nat.eqb i 0); lia|].
    destruct (Ho k b3 Hki Hb3) as (b4 & Hb4 & L4 & _). destruct (Hv k b4 Hb4) as (b5 & Hb5 & L5 & _).
    exists k, b5. split; [done|]. apply (lock_idle b3 b5); [by rewrite L5|]. by apply (Hid k).
  - intros Hs. unfold find_block, mbind, st_bind, gets, id, block_size. destruct (co_device n c Hok) as (-> & _).
    by destruct (Z.ltb_spec (next_block c) n); [lia|].
Qed.

(** After a read of sector 5, the read-ahead thread makes sector 6 read-only. *)
Definition after_read : cache disk :=
  match run_ops [Read 5] (cache_init static_blocks empty_disk) with Ok (_, c) => c | Err _ => cache_init [] empty_disk end.

Lemma after_read_holds : holds 200 (dev_get empty_disk) after_read.
Proof.
  destruct (run_ops_sim 200 [Read 5] _ _ (cache_init_holds 200 static_blocks empty_disk static_blocks_fresh empty_disk_ok))
    as (c & E & Hh); [repeat constructor; lia|]. unfold after_read. by rewrite E.
Qed.

Lemma read_ahead_leaks_witness :
  ∃ c', cache_read_ahead after_read = Ok (tt, c') ∧ cache_write_block 6 c' = Err Blocked.
Proof.
  destruct (read_ahead_leaks 200 _ after_read after_read_holds) as [Hl _]; [vm_compute; reflexivity|].
  assert (En : next_block after_read = 6) by (vm_compute; reflexivity). rewrite En in Hl.
  destruct Hl as (c' & E & Hok & Hb); [lia|]. exists c'. split; [exact E|]. exact (Hb c' (same_view_refl 200 c' Hok)).
Defined.
