(* ===== verification/Inode.v ===== *)
(** * filesys/inode.c, filesys/free-map.c, filesys/file.c: inodes, the free map and open files

    The three files call each other in a circle: an inode grows by sectors of the free map,
    and the free map is kept in a file.  Here every function that may allocate takes the
    allocator as an argument, and [free_map_allocate] ties the knot with a depth: the write of
    the free map file may itself allocate only if the file has to grow, so depth 2 is the
    depth of the code unless the free map file is too short.

    The state is the buffer cache, the [struct inode]s and [struct file]s by address, the
    list of open inodes and the free map.  The functions work on the bytes of the cached
    blocks, at the offsets of [struct inode_disk].  One thread runs at a time: the extension
    lock of an inode is held or free, and to acquire it while it is held fails the assertion of
    [lock_acquire]. *)

From S2P Require Import Prelude Bytes Bitmap Block Cache.

Definition INODE_MAGIC : Z := 0x494e4f44.
Definition NUM_DIRECT : Z := 60.
Definition NUM_SINGLE_INDIRECT : Z := 40.
Definition ENTRIES_PER_SECTOR : Z := 128.

Definition CEIL (a b : Z) : Z := Z.quot a b + (if 0 <? Z.rem a b then 1 else 0).

(** [struct inode_disk], by the offsets of its members. *)
Definition direct_ofs (i : Z) : nat := Z.to_nat (4 * i).
Definition single_indirect_ofs (i : Z) : nat := Z.to_nat (240 + 4 * i).
Definition double_indirect_ofs : nat := 400.
Definition length_ofs : nat := 404.
Definition magic_ofs : nat := 408.
Definition entry_ofs (i : Z) : nat := Z.to_nat (4 * i).

Definition i_length (d : list Z) : Z := i32 (get32 d length_ofs).
Definition is_valid_inode (d : list Z) : bool := get32 d magic_ofs =? INODE_MAGIC.

(** ** State *)

Record inode : Type := Inode {
  i_sector : Z;
  open_cnt : Z;
  removed : bool;
  deny_write_cnt : Z;
  extension_lock : bool;
}.

Record file : Type := File {
  f_inode : Z;
  pos : Z;
  deny_write : bool;
  is_dir : bool;
}.

Record fs (D : Type) : Type := FS {
  fcache : cache D;
  inodes : gmap Z inode;
  open_inodes : list Z;
  files : gmap Z file;
  free_map : bitmap;
  free_map_file : option Z;
  next_ptr : Z;
  mallocs : nat → bool;
}.
Arguments FS {D} _ _ _ _ _ _ _ _.
Arguments fcache {D} _.
Arguments inodes {D} _.
Arguments open_inodes {D} _.
Arguments files {D} _.
Arguments free_map {D} _.
Arguments free_map_file {D} _.
Arguments next_ptr {D} _.
Arguments mallocs {D} _ _.

Definition set_open_cnt n '(Inode s _ r d l) := Inode s n r d l.
Definition set_removed r '(Inode s n _ d l) := Inode s n r d l.
Definition set_deny n '(Inode s o r _ l) := Inode s o r n l.
Definition set_ext l '(Inode s o r d _) := Inode s o r d l.
Definition set_pos p '(File i _ d x) := File i p d x.
Definition set_deny_write d '(File i p _ x) := File i p d x.

Section fs.
Context {D : Type} {drv : BlockDriver D}.

Abbreviation M := (ST (fs D)).

Definition with_cache (c : cache D) (s : fs D) : fs D :=
  FS c (inodes s) (open_inodes s) (files s) (free_map s) (free_map_file s) (next_ptr s) (mallocs s).
Definition with_inodes (m : gmap Z inode) (l : list Z) (s : fs D) : fs D :=
  FS (fcache s) m l (files s) (free_map s) (free_map_file s) (next_ptr s) (mallocs s).
Definition with_files (m : gmap Z file) (s : fs D) : fs D :=
  FS (fcache s) (inodes s) (open_inodes s) m (free_map s) (free_map_file s) (next_ptr s) (mallocs s).
Definition with_free_map (b : bitmap) (s : fs D) : fs D :=
  FS (fcache s) (inodes s) (open_inodes s) (files s) b (free_map_file s) (next_ptr s) (mallocs s).
Definition with_free_map_file (f : option Z) (s : fs D) : fs D :=
  FS (fcache s) (inodes s) (open_inodes s) (files s) (free_map s) f (next_ptr s) (mallocs s).

Definition on_cache {A} (m : ST (cache D) A) : M A := λ s,
  match m (fcache s) with
  | Ok (a, c) => Ok (a, with_cache c s)
  | Err e => Err e
  end.

(** An object of [malloc]: a new address, or the null pointer. *)
Definition malloc : M (option Z) := λ s,
  Ok (if mallocs s 0%nat then Some (next_ptr s) else None,
      FS (fcache s) (inodes s) (open_inodes s) (files s) (free_map s) (free_map_file s)
         (next_ptr s + 1) (λ n, mallocs s (S n))).

Definition get_inode (p : Z) : M inode := λ s, lift (deref (inodes s !! p)) s.
Definition put_inode (p : Z) (i : inode) : M unit :=
  modify (λ s, with_inodes (<[p := i]> (inodes s)) (open_inodes s) s).
Definition get_file (p : Z) : M file := λ s, lift (deref (files s !! p)) s.
Definition put_file (p : Z) (f : file) : M unit := modify (λ s, with_files (<[p := f]> (files s)) s).

(** A word of a cached block, which a [block_sector_t *] points to. *)
Definition cell : Type := nat * nat.
Definition block_data (i : nat) : M (list Z) := b ← on_cache (get_block i); mret (data b).
Definition load (p : cell) : M Z := d ← block_data p.1; mret (get32 d p.2).
Definition store (p : cell) (x : Z) : M unit :=
  on_cache (upd_block p.1 (λ b, set_data (put32 (data b) p.2 x) b)).

Definition clear_sector (s : Z) : M unit := on_cache (on_device (block_clear s)).

(** ** Reading *)

Definition byte_to_sector (ino : Z) (pos : Z) : M Z :=
  i ← get_inode ino;
  let blocks := u32 (Z.quot pos BLOCK_SECTOR_SIZE) in
  cb ← on_cache (cache_read_block (i_sector i));
  d ← block_data cb;
  if negb (is_valid_inode d) then fail Panicked
  else if blocks <? NUM_DIRECT then
    on_cache (cache_read_end cb);; mret (get32 d (direct_ofs blocks))
  else
    let blocks := blocks - NUM_DIRECT in
    let single := blocks / ENTRIES_PER_SECTOR in
    let blocks := blocks mod ENTRIES_PER_SECTOR in
    if single <? NUM_SINGLE_INDIRECT then
      ib ← on_cache (cache_read_block (get32 d (single_indirect_ofs single)));
      sd ← block_data ib;
      on_cache (cache_read_end ib);;
      on_cache (cache_read_end cb);;
      mret (get32 sd (entry_ofs blocks))
    else
      let single := single - NUM_SINGLE_INDIRECT in
      assert (single <? ENTRIES_PER_SECTOR);;
      ib ← on_cache (cache_read_block (get32 d double_indirect_ofs));
      dd ← block_data ib;
      ib2 ← on_cache (cache_read_block (get32 dd (entry_ofs single)));
      sd ← block_data ib2;
      on_cache (cache_read_end ib2);;
      on_cache (cache_read_end ib);;
      on_cache (cache_read_end cb);;
      mret (get32 sd (entry_ofs blocks)).

Definition inode_length (ino : Z) : M Z :=
  i ← get_inode ino;
  cb ← on_cache (cache_read_block (i_sector i));
  d ← block_data cb;
  on_cache (cache_read_end cb);;
  mret (i_length d).

Definition inode_set_length (ino : Z) (len : Z) : M unit :=
  i ← get_inode ino;
  cb ← on_cache (cache_write_block (i_sector i));
  store (cb, length_ofs) len;;
  on_cache (cache_write_end cb).

(** The loop takes at least one byte per turn, which bounds its turns by the size. *)
Fixpoint read_loop (fuel : nat) (ino size offset : Z) (buffer : list Z) : M (list Z) :=
  if 0 <? size then
    match fuel with
    | O => fail OutOfFuel
    | S fuel =>
        sector_idx ← byte_to_sector ino offset;
        let sector_ofs := Z.rem offset BLOCK_SECTOR_SIZE in
        len ← inode_length ino;
        let inode_left := len - offset in
        let sector_left := BLOCK_SECTOR_SIZE - sector_ofs in
        let min_left := if inode_left <? sector_left then inode_left else sector_left in
        let chunk_size := if size <? min_left then size else min_left in
        if chunk_size <=? 0 then mret buffer
        else
          cb ← on_cache (cache_read_block sector_idx);
          d ← block_data cb;
          on_cache (cache_read_end cb);;
          read_loop fuel ino (size - chunk_size) (offset + chunk_size)
            (buffer ++ take (Z.to_nat chunk_size) (drop (Z.to_nat sector_ofs) d))
    end
  else mret buffer.

(** The bytes read; their number is the result of the C function. *)
Definition inode_read_at (ino size offset : Z) : M (list Z) :=
  read_loop (Z.to_nat size) ino size offset [].

(** ** Growing *)

Section grow.
Context (alloc : M (option Z)).   (* free_map_allocate *)

Definition grow_direct (p : cell) : M bool :=
  s ← load p;
  assert (s =? 0);;
  o ← alloc;
  match o with
  | None => mret false
  | Some s => store p s;; clear_sector s;; mret true
  end.

Definition grow_indirect (p : cell) (index : Z) : M bool :=
  ok ← (if index =? 0 then grow_direct p else mret true);
  if negb ok then mret false
  else
    s ← load p;
    cb ← on_cache (cache_write_block s);
    assert (index <? ENTRIES_PER_SECTOR);;
    ok ← grow_direct (cb, entry_ofs index);
    if negb ok then mret false
    else on_cache (cache_write_end cb);; mret true.

Definition grow_double_indirect (p : cell) (index1 index2 : Z) : M bool :=
  ok ← (if index1 =? 0 then grow_direct p else mret true);
  if negb ok then mret false
  else
    s ← load p;
    cb ← on_cache (cache_write_block s);
    assert (index1 <? ENTRIES_PER_SECTOR);;
    ok ← grow_indirect (cb, entry_ofs index1) index2;
    if negb ok then mret false
    else on_cache (cache_write_end cb);; mret true.

Fixpoint extend_loop (num : nat) (cb : nat) (num_blocks : Z) : M bool :=
  match num with
  | O => mret true
  | S num =>
      let num_blocks := u32 (num_blocks + 1) in
      let blocks := num_blocks in
      success ←
        (if blocks <? NUM_DIRECT then grow_direct (cb, direct_ofs blocks)
         else
           let blocks := blocks - NUM_DIRECT in
           let single := i32 (blocks / ENTRIES_PER_SECTOR) in
           let blocks := blocks mod ENTRIES_PER_SECTOR in
           if single <? NUM_SINGLE_INDIRECT then
             grow_indirect (cb, single_indirect_ofs single) blocks
           else
             let single := single - NUM_SINGLE_INDIRECT in
             grow_double_indirect (cb, double_indirect_ofs) (u32 single) blocks);
      if success : bool then extend_loop num cb num_blocks else mret false
  end.

Definition inode_extend (ino : Z) (num : Z) : M bool :=
  i ← get_inode ino;
  cb ← on_cache (cache_write_block (i_sector i));
  d ← block_data cb;
  assert (is_valid_inode d);;
  success ← extend_loop (Z.to_nat num) cb (u32 (CEIL (i_length d) BLOCK_SECTOR_SIZE - 1));
  on_cache (cache_write_end cb);;
  mret success.

Definition ext_acquire (ino : Z) : M unit :=
  i ← get_inode ino;
  assert (negb (extension_lock i));;
  put_inode ino (set_ext true i).
Definition ext_release (ino : Z) : M unit :=
  i ← get_inode ino;
  assert (extension_lock i);;
  put_inode ino (set_ext false i).

Fixpoint write_loop (fuel : nat) (ino size offset : Z) (buffer : list Z) (written : Z) : M Z :=
  if 0 <? size then
    match fuel with
    | O => fail OutOfFuel
    | S fuel =>
        sector_idx ← byte_to_sector ino offset;
        let sector_ofs := Z.rem offset BLOCK_SECTOR_SIZE in
        let sector_left := BLOCK_SECTOR_SIZE - sector_ofs in
        let min_left := sector_left in
        let chunk_size := if size <? min_left then size else min_left in
        if chunk_size <=? 0 then mret written
        else
          cb ← on_cache (cache_write_block sector_idx);
          on_cache (upd_block cb (λ b, set_data
            (put_bytes (data b) (Z.to_nat sector_ofs)
               (take (Z.to_nat chunk_size) (drop (Z.to_nat written) buffer))) b));;
          on_cache (cache_write_end cb);;
          write_loop fuel ino (size - chunk_size) (offset + chunk_size) buffer (written + chunk_size)
    end
  else mret written.

(** The extension of a file before a write that reaches its end: whether the extension lock
    is held from here on, or [None] when there is no space. *)
Definition extend_for_write (ino size offset : Z) : M (option bool) :=
  len ← inode_length ino;
  if len <=? i32 (size + offset) then
    ext_acquire ino;;
    len ← inode_length ino;
    if len <=? i32 (size + offset) then
      len ← inode_length ino;
      let blocks_needed := CEIL (i32 (size + offset)) BLOCK_SECTOR_SIZE - CEIL len BLOCK_SECTOR_SIZE in
      ok ← inode_extend ino (u32 blocks_needed);
      mret (if ok : bool then Some true else None)
    else ext_release ino;; mret (Some false)
  else mret (Some false).

Definition inode_write_at (ino : Z) (buffer : list Z) (size offset : Z) : M Z :=
  let newlen := i32 (size + offset) in
  i ← get_inode ino;
  if negb (deny_write_cnt i =? 0) then mret 0
  else
    e ← extend_for_write ino size offset;
    match e with
    | None => mret 0
    | Some locked =>
        written ← write_loop (Z.to_nat size) ino size offset buffer 0;
        (if locked : bool then inode_set_length ino newlen;; ext_release ino else mret tt);;
        mret written
    end.

Definition file_write_at (f : Z) (buffer : list Z) (size ofs : Z) : M Z :=
  fl ← get_file f;
  inode_write_at (f_inode fl) buffer size ofs.

Definition file_write (f : Z) (buffer : list Z) (size : Z) : M Z :=
  fl ← get_file f;
  n ← inode_write_at (f_inode fl) buffer size (pos fl);
  fl ← get_file f;
  put_file f (set_pos (i32 (pos fl + n)) fl);;
  mret n.
End grow.

Definition file_read_at (f : Z) (size ofs : Z) : M (list Z) :=
  fl ← get_file f;
  inode_read_at (f_inode fl) size ofs.

(** ** The free map *)

(** [bitmap_write] on the free map file. *)
Definition write_free_map (alloc : M (option Z)) (f : Z) : M bool := λ s,
  bitmap_write (λ s bs size ofs, file_write_at alloc f bs size ofs s) (free_map s) s.

Fixpoint free_map_allocate (depth : nat) : M (option Z) :=
  match depth with
  | O => fail OutOfFuel
  | S depth =>
      s ← gets id;
      '(sector, b) ← lift (bitmap_scan_and_flip (free_map s) 0 1 false);
      modify (with_free_map b);;
      if sector =? BITMAP_ERROR then mret None
      else
        match free_map_file s with
        | None => mret (Some sector)
        | Some f =>
            ok ← write_free_map (free_map_allocate depth) f;
            if ok : bool then mret (Some sector)
            else
              s ← gets id;
              b ← lift (bitmap_set_multiple (free_map s) sector 1 false);
              modify (with_free_map b);;
              mret None
        end
  end.

(** The free map file does not grow when it is written. *)
Definition DEPTH : nat := 2.

Definition free_map_release (sector : Z) : M unit :=
  s ← gets id;
  all ← lift (bitmap_all (free_map s) sector 1);
  assert all;;
  b ← lift (bitmap_set_multiple (free_map s) sector 1 false);
  modify (with_free_map b);;
  f ← lift (deref (free_map_file s));
  write_free_map (free_map_allocate DEPTH) f;;
  mret tt.

(** ** Creating and freeing

    [off_t *length] is passed and returned. *)

Definition allocate_direct (p : cell) (length : Z) : M (bool * Z) :=
  assert (0 <? length);;
  s ← load p;
  assert (s =? 0);;
  o ← free_map_allocate DEPTH;
  match o with
  | None => mret (false, length)
  | Some s => store p s;; clear_sector s;; mret (true, length - BLOCK_SECTOR_SIZE)
  end.

(** The loop over the entries of an indirect block. *)
Fixpoint allocate_entries (each : cell → Z → M (bool * Z)) (cb : nat) (ks : list nat) (length : Z)
  : M (bool * Z) :=
  match ks with
  | [] => mret (true, length)
  | i :: ks =>
      '(ok, length) ← each (cb, (4 * i)%nat) length;
      if negb ok then mret (false, length)
      else if length <=? 0 then mret (true, length)
      else allocate_entries each cb ks length
  end.

Definition allocate_table (each : cell → Z → M (bool * Z)) (p : cell) (length : Z) : M (bool * Z) :=
  assert (0 <? length);;
  o ← free_map_allocate DEPTH;
  match o with
  | None => mret (false, length)
  | Some s =>
      store p s;;
      clear_sector s;;
      cb ← on_cache (cache_write_block s);
      '(ok, length) ← allocate_entries each cb (seq 0 (Z.to_nat ENTRIES_PER_SECTOR)) length;
      if negb ok then mret (false, length)
      else on_cache (cache_write_end cb);; mret (true, length)
  end.

Definition allocate_indirect : cell → Z → M (bool * Z) := allocate_table allocate_direct.
Definition allocate_double_indirect : cell → Z → M (bool * Z) := allocate_table allocate_indirect.

Definition free_direct (sector length : Z) : M Z :=
  assert (0 <? length);;
  free_map_release sector;;
  mret (length - BLOCK_SECTOR_SIZE).

Fixpoint free_entries (each : Z → Z → M Z) (cb : nat) (ks : list nat) (length : Z) : M Z :=
  match ks with
  | [] => mret length
  | i :: ks =>
      s ← load (cb, (4 * i)%nat);
      length ← each s length;
      if length <=? 0 then mret length else free_entries each cb ks length
  end.

Definition free_table (each : Z → Z → M Z) (sector length : Z) : M Z :=
  assert (0 <? length);;
  cb ← on_cache (cache_read_block sector);
  length ← free_entries each cb (seq 0 (Z.to_nat ENTRIES_PER_SECTOR)) length;
  on_cache (cache_read_end cb);;
  free_map_release sector;;
  mret length.

Definition free_indirect : Z → Z → M Z := free_table free_direct.
Definition free_double_indirect : Z → Z → M Z := free_table free_indirect.

(** The loops of [inode_create] and [inode_close] over the sectors of an inode. *)
Fixpoint create_loop (each : cell → Z → M (bool * Z)) (cb : nat) (ofs : Z → nat) (ks : list nat)
  (length : Z) : M (bool * Z) :=
  match ks with
  | [] => mret (true, length)
  | i :: ks =>
      if length <=? 0 then mret (true, length)
      else
        '(ok, length) ← each (cb, ofs (Z.of_nat i)) length;
        if negb ok then mret (false, length) else create_loop each cb ofs ks length
  end.

Definition inode_create (sector length : Z) : M bool :=
  assert (0 <=? length);;
  clear_sector sector;;
  cb ← on_cache (cache_write_block sector);
  store (cb, length_ofs) length;;
  store (cb, magic_ofs) INODE_MAGIC;;
  '(ok, length) ← create_loop allocate_direct cb direct_ofs (seq 0 (Z.to_nat NUM_DIRECT)) length;
  if negb ok then mret false
  else
    '(ok, length) ← create_loop allocate_indirect cb single_indirect_ofs
                      (seq 0 (Z.to_nat NUM_SINGLE_INDIRECT)) length;
    if negb ok then mret false
    else
      '(ok, length) ← (if 0 <? length then allocate_double_indirect (cb, double_indirect_ofs) length
                       else mret (true, length));
      if negb ok then mret false
      else on_cache (cache_write_end cb);; mret true.

(** ** Open inodes *)

Definition inode_init : M unit := modify (λ s, with_inodes (inodes s) [] s).

Fixpoint find_open (sector : Z) (l : list Z) : M (option Z) :=
  match l with
  | [] => mret None
  | p :: l => i ← get_inode p; if i_sector i =? sector then mret (Some p) else find_open sector l
  end.

Definition inode_reopen (ino : Z) : M Z :=
  i ← get_inode ino;
  put_inode ino (set_open_cnt (open_cnt i + 1) i);;
  mret ino.

Definition inode_open (sector : Z) : M (option Z) :=
  s ← gets id;
  o ← find_open sector (open_inodes s);
  match o with
  | Some p => p ← inode_reopen p; mret (Some p)
  | None =>
      o ← malloc;
      match o with
      | None => mret None
      | Some p =>
          modify (λ s, with_inodes (<[p := Inode sector 1 false 0 false]> (inodes s)) (p :: open_inodes s) s);;
          mret (Some p)
      end
  end.

Definition inode_get_inumber (ino : Z) : M Z := i ← get_inode ino; mret (i_sector i).

Fixpoint close_loop (each : Z → Z → M Z) (cb : nat) (ofs : Z → nat) (ks : list nat) (length : Z) : M Z :=
  match ks with
  | [] => mret length
  | i :: ks =>
      if length <=? 0 then mret length
      else
        s ← load (cb, ofs (Z.of_nat i));
        length ← each s length;
        close_loop each cb ofs ks length
  end.

(** The deallocation of the blocks of a removed inode. *)
Definition free_blocks (sector : Z) : M unit :=
  cb ← on_cache (cache_read_block sector);
  d ← block_data cb;
  length ← close_loop free_direct cb direct_ofs (seq 0 (Z.to_nat NUM_DIRECT)) (i_length d);
  length ← close_loop free_indirect cb single_indirect_ofs (seq 0 (Z.to_nat NUM_SINGLE_INDIRECT)) length;
  (if 0 <? length then s ← load (cb, double_indirect_ofs); free_double_indirect s length;; mret tt
   else mret tt);;
  on_cache (cache_read_end cb);;
  free_map_release sector.

Definition inode_close (o : option Z) : M unit :=
  match o with
  | None => mret tt
  | Some ino =>
      i ← get_inode ino;
      put_inode ino (set_open_cnt (open_cnt i - 1) i);;
      if open_cnt i - 1 =? 0 then
        modify (λ s, with_inodes (inodes s) (filter (λ p, p ≠ ino) (open_inodes s)) s);;
        (if removed i then free_blocks (i_sector i) else mret tt);;
        modify (λ s, with_inodes (delete ino (inodes s)) (open_inodes s) s)
      else mret tt
  end.

Definition inode_remove (ino : Z) : M unit :=
  i ← get_inode ino; put_inode ino (set_removed true i).

Definition inode_deny_write (ino : Z) : M unit :=
  i ← get_inode ino;
  put_inode ino (set_deny (deny_write_cnt i + 1) i);;
  assert (deny_write_cnt i + 1 <=? open_cnt i).

Definition inode_allow_write (ino : Z) : M unit :=
  i ← get_inode ino;
  assert (0 <? deny_write_cnt i);;
  assert (deny_write_cnt i <=? open_cnt i);;
  put_inode ino (set_deny (deny_write_cnt i - 1) i).

Definition inode_is_shared (ino : Z) : M bool := i ← get_inode ino; mret (1 <? open_cnt i).

(** ** Open files *)

Definition file_open (o : option Z) (dir : bool) : M (option Z) :=
  f ← malloc;
  match o, f with
  | Some ino, Some p => put_file p (File ino 0 false dir);; mret (Some p)
  | _, _ => inode_close o;; mret None
  end.

Definition file_reopen (f : Z) : M (option Z) :=
  fl ← get_file f;
  ino ← inode_reopen (f_inode fl);
  file_open (Some ino) (is_dir fl).

Definition file_deny_write (f : Z) : M unit :=
  fl ← get_file f;
  if negb (deny_write fl) then
    put_file f (set_deny_write true fl);; inode_deny_write (f_inode fl)
  else mret tt.

Definition file_allow_write (f : Z) : M unit :=
  fl ← get_file f;
  if deny_write fl then
    put_file f (set_deny_write false fl);; inode_allow_write (f_inode fl)
  else mret tt.

Definition file_close (o : option Z) : M unit :=
  match o with
  | None => mret tt
  | Some f =>
      file_allow_write f;;
      fl ← get_file f;
      inode_close (Some (f_inode fl));;
      modify (λ s, with_files (delete f (files s)) s)
  end.

Definition file_get_inode (f : Z) : M Z := fl ← get_file f; mret (f_inode fl).

Definition file_read (f : Z) (size : Z) : M (list Z) :=
  fl ← get_file f;
  bs ← inode_read_at (f_inode fl) size (pos fl);
  put_file f (set_pos (i32 (pos fl + Z.of_nat (length bs))) fl);;
  mret bs.

Definition file_length (f : Z) : M Z := fl ← get_file f; inode_length (f_inode fl).

Definition file_seek (f : Z) (new_pos : Z) : M unit :=
  assert (0 <=? new_pos);; fl ← get_file f; put_file f (set_pos new_pos fl).
Definition file_tell (f : Z) : M Z := fl ← get_file f; mret (pos fl).
Definition file_is_dir (f : Z) : M bool := fl ← get_file f; mret (is_dir fl).

(** ** The free map file *)

(** [junk] is the memory of the bitmap, before it is cleared. *)
Definition free_map_init (junk : list Z) : M unit :=
  s ← gets id;
  h ← malloc;
  o ← lift (bitmap_create (u32 (block_size (fs_device (fcache s)) * 4))
              (bool_decide (is_Some h)) (Some junk));
  match o with
  | None => fail Panicked
  | Some b =>
      b ← lift (bitmap_mark b 0);
      b ← lift (bitmap_mark b 1);
      b ← lift (bitmap_mark b 2);
      modify (with_free_map b)
  end.

Definition FREE_MAP_SECTOR : Z := 1.
Definition ROOT_DIR_SECTOR : Z := 2.

Definition read_free_map (f : Z) : M bool := λ s,
  match bitmap_read (λ s size ofs, file_read_at f size ofs s) (free_map s) s with
  | Ok (ok, b, s) => Ok (ok, with_free_map b s)
  | Err e => Err e
  end.

Definition free_map_open : M unit :=
  ino ← inode_open FREE_MAP_SECTOR;
  f ← file_open ino false;
  modify (with_free_map_file f);;
  match f with
  | None => fail Panicked
  | Some f => ok ← read_free_map f; if ok : bool then mret tt else fail Panicked
  end.

Definition free_map_close : M unit := s ← gets id; file_close (free_map_file s).

Definition free_map_create : M unit :=
  s ← gets id;
  ok ← inode_create FREE_MAP_SECTOR (i32 (bitmap_file_size (free_map s)));
  if negb ok then fail Panicked
  else
    ino ← inode_open FREE_MAP_SECTOR;
    f ← file_open ino false;
    modify (with_free_map_file f);;
    match f with
    | None => fail Panicked
    | Some f =>
        ok ← write_free_map (free_map_allocate DEPTH) f;
        if ok : bool then mret tt else fail Panicked
    end.
End fs.
