(* ===== verification/InodeIO.v ===== *)
(** * Reading and writing files

    A file as the sectors of a quiet cache present it: [block_of] finds the sector of a block
    through the direct, indirect and doubly indirect sectors of the inode, [file_bytes] is
    the contents.  [byte_to_sector] computes [block_of]; [inode_read_at] returns a piece of
    [file_bytes]; [inode_write_at] replaces a piece of it, and nothing else, as long as no
    sector has to be allocated. *)

From S2P Require Import Prelude Bytes Bitmap Block Cache CacheThms Inode.

Definition MAX_BLOCKS : Z := NUM_DIRECT + NUM_SINGLE_INDIRECT * ENTRIES_PER_SECTOR + ENTRIES_PER_SECTOR * ENTRIES_PER_SECTOR.

(** ** A file in an array of sectors *)

(** Where block [k] is found, for an inode with contents [d]: in the inode, in an indirect
    sector, or in an indirect sector listed in the doubly indirect one. *)
Inductive place_of : Type := Direct (i : Z) | Single (t i : Z) | Double (t i : Z).

Definition locate (k : Z) : place_of :=
  if k <? NUM_DIRECT then Direct k
  else
    let k := k - NUM_DIRECT in
    let t := k / ENTRIES_PER_SECTOR in
    let i := k mod ENTRIES_PER_SECTOR in
    if t <? NUM_SINGLE_INDIRECT then Single t i else Double (t - NUM_SINGLE_INDIRECT) i.

Section file.
Context (m : Z → list Z).

(** The index sectors on the way to block [k]. *)
Definition index_sectors (d : list Z) (k : Z) : list Z :=
  match locate k with
  | Direct _ => []
  | Single t _ => [get32 d (single_indirect_ofs t)]
  | Double t _ =>
      [get32 d double_indirect_ofs; get32 (m (get32 d double_indirect_ofs)) (entry_ofs t)]
  end.

Definition block_of (d : list Z) (k : Z) : Z :=
  match locate k with
  | Direct i => get32 d (direct_ofs i)
  | Single t i => get32 (m (get32 d (single_indirect_ofs t))) (entry_ofs i)
  | Double t i => get32 (m (get32 (m (get32 d double_indirect_ofs)) (entry_ofs t))) (entry_ofs i)
  end.

Definition file_byte (d : list Z) (p : Z) : Z :=
  byte_at (m (block_of d (p / BLOCK_SECTOR_SIZE))) (Z.to_nat (p mod BLOCK_SECTOR_SIZE)).

Definition slice (d : list Z) (ofs : Z) (cnt : nat) : list Z := (λ j, file_byte d (ofs + Z.of_nat j)) <$> seq 0 cnt.

Definition file_bytes (sec : Z) : list Z := slice (m sec) 0 (Z.to_nat (i_length (m sec))).

Definition block_cnt (sec : Z) : Z := CEIL (i_length (m sec)) BLOCK_SECTOR_SIZE.

(** A file that can be read. *)
Record file_ok (n : Z) (sec : Z) : Prop := {
  fo_sector : 0 < sec < n;
  fo_magic : is_valid_inode (m sec) = true;
  fo_length : 0 ≤ i_length (m sec) ≤ MAX_BLOCKS * BLOCK_SECTOR_SIZE;
  fo_index k s : 0 ≤ k < block_cnt sec → s ∈ index_sectors (m sec) k → 0 < s < n;
  fo_block k : 0 ≤ k < block_cnt sec → 0 < block_of (m sec) k < n;
}.

(** Its sectors are its own: the data blocks are different from each other, from the inode
    and from the index sectors. *)
Record file_private (sec : Z) : Prop := {
  fp_inj k k' : 0 ≤ k < block_cnt sec → 0 ≤ k' < block_cnt sec →
    block_of (m sec) k = block_of (m sec) k' → k = k';
  fp_inode k : 0 ≤ k < block_cnt sec → block_of (m sec) k ≠ sec;
  fp_index k k' : 0 ≤ k < block_cnt sec → 0 ≤ k' < block_cnt sec →
    block_of (m sec) k ∉ index_sectors (m sec) k';
  fp_index_inode k : 0 ≤ k < block_cnt sec → sec ∉ index_sectors (m sec) k;
}.
End file.

Lemma ceil_block len k : 0 ≤ len → k * BLOCK_SECTOR_SIZE < len → 0 ≤ k → 0 ≤ k < CEIL len BLOCK_SECTOR_SIZE.
Proof.
  unfold CEIL, BLOCK_SECTOR_SIZE. intros Hl Hk H0. rewrite Z.quot_div_nonneg, Z.rem_mod_nonneg by lia.
  pose proof (Z_div_mod_eq_full len 512). pose proof (Z.mod_pos_bound len 512).
  destruct (Z.ltb_spec 0 (len mod 512)); lia.
Qed.

Lemma ceil_covers len : 0 ≤ len → len ≤ CEIL len BLOCK_SECTOR_SIZE * BLOCK_SECTOR_SIZE.
Proof.
  unfold CEIL, BLOCK_SECTOR_SIZE. intros Hl. rewrite Z.quot_div_nonneg, Z.rem_mod_nonneg by lia.
  pose proof (Z_div_mod_eq_full len 512). pose proof (Z.mod_pos_bound len 512).
  destruct (Z.ltb_spec 0 (len mod 512)); lia.
Qed.

Lemma ceil_bound len c : 0 ≤ len ≤ c * BLOCK_SECTOR_SIZE → CEIL len BLOCK_SECTOR_SIZE ≤ c.
Proof.
  unfold CEIL, BLOCK_SECTOR_SIZE. intros Hl. rewrite Z.quot_div_nonneg, Z.rem_mod_nonneg by lia.
  pose proof (Z_div_mod_eq_full len 512). pose proof (Z.mod_pos_bound len 512).
  destruct (Z.ltb_spec 0 (len mod 512)); lia.
Qed.

(** ** Bytes of a sector *)

Lemma put_bytes_sector b o bs :
  is_sector b → Forall is_u8 bs → Z.of_nat o + Z.of_nat (length bs) ≤ BLOCK_SECTOR_SIZE → is_sector (put_bytes b o bs).
Proof.
  intros [Hl Hb] Hbs Ho. split.
  - unfold put_bytes. rewrite !length_app, length_take, length_drop. lia.
  - unfold put_bytes. rewrite !Forall_app. split_and!; [by apply Forall_take|done|by apply Forall_drop].
Qed.

(** ** Changing the data of a file *)

(** [m'] is [m] with [bs] written at [ofs] into the blocks of the file. *)
Record written (m m' : Z → list Z) (sec ofs : Z) (bs : list Z) : Prop := {
  wr_frame x : (∀ k, 0 ≤ k < block_cnt m sec → x ≠ block_of m (m sec) k) → m' x = m x;
  wr_bytes p : 0 ≤ p < block_cnt m sec * BLOCK_SECTOR_SIZE →
    file_byte m' (m sec) p
    = if decide (ofs ≤ p < ofs + Z.of_nat (length bs)) then byte_at bs (Z.to_nat (p - ofs)) else file_byte m (m sec) p;
}.

(** The inode and the index sectors are untouched. *)
Lemma written_inode m m' sec ofs bs : file_private m sec → written m m' sec ofs bs → m' sec = m sec.
Proof. intros Hp Hw. apply (wr_frame _ _ _ _ _ Hw). intros k Hk He. by apply (fp_inode _ _ Hp k). Qed.

(** Arrays that agree on the index sectors agree on where the block is. *)
Lemma index_agree m m' d k :
  (∀ x, x ∈ index_sectors m d k → m' x = m x) →
  index_sectors m' d k = index_sectors m d k ∧ block_of m' d k = block_of m d k.
Proof.
  intros Hs. unfold index_sectors, block_of in *. destruct (locate k) as [j|t j|t j]; [done| |].
  - by rewrite (Hs (get32 d (single_indirect_ofs t))) by set_solver.
  - rewrite (Hs (get32 d double_indirect_ofs)) by set_solver.
    by rewrite (Hs (get32 (m (get32 d double_indirect_ofs)) (entry_ofs t))) by set_solver.
Qed.

Lemma written_index m m' sec ofs bs k :
  file_private m sec → written m m' sec ofs bs → 0 ≤ k < block_cnt m sec →
  index_sectors m' (m sec) k = index_sectors m (m sec) k ∧ block_of m' (m sec) k = block_of m (m sec) k.
Proof.
  intros Hp Hw Hk. apply index_agree. intros x Hx. apply (wr_frame _ _ _ _ _ Hw).
  intros k' Hk' ->. by apply (fp_index _ _ Hp k' k).
Qed.

Lemma written_ok n m m' sec ofs bs :
  file_ok m n sec → file_private m sec → written m m' sec ofs bs →
  file_ok m' n sec ∧ file_private m' sec ∧ block_cnt m' sec = block_cnt m sec.
Proof.
  intros Hf Hp Hw. pose proof (written_inode m m' sec ofs bs Hp Hw) as Ei.
  assert (Ec : block_cnt m' sec = block_cnt m sec) by (unfold block_cnt; by rewrite Ei).
  pose proof (λ k, written_index m m' sec ofs bs k Hp Hw) as Hx. split; [|split; [|done]].
  - destruct Hf as [H1 H2 H3 H4 H5]. constructor; rewrite ?Ei, ?Ec; try done.
    + intros k s Hk. destruct (Hx k Hk) as [-> _]. by apply H4.
    + intros k Hk. destruct (Hx k Hk) as [_ ->]. by apply H5.
  - destruct Hp as [H1 H2 H3 H4]. constructor; rewrite ?Ei, ?Ec.
    + intros k k' Hk Hk'. destruct (Hx k Hk) as [_ ->], (Hx k' Hk') as [_ ->]. by apply H1.
    + intros k Hk. destruct (Hx k Hk) as [_ ->]. by apply H2.
    + intros k k' Hk Hk'. destruct (Hx k Hk) as [_ ->], (Hx k' Hk') as [-> _]. by apply H3.
    + intros k Hk. destruct (Hx k Hk) as [-> _]. by apply H4.
Qed.

Lemma block_index p c : 0 ≤ p < c * BLOCK_SECTOR_SIZE → 0 ≤ p / BLOCK_SECTOR_SIZE < c.
Proof. unfold BLOCK_SECTOR_SIZE. intros H. split; [apply Z.div_pos; lia|apply Z.div_lt_upper_bound; lia]. Qed.

Lemma written_trans m m1 m2 sec ofs bs bs' :
  file_private m sec → written m m1 sec ofs bs → written m1 m2 sec (ofs + Z.of_nat (length bs)) bs' →
  written m m2 sec ofs (bs ++ bs').
Proof.
  intros Hp H1 H2. pose proof (written_inode m m1 sec ofs bs Hp H1) as Ei.
  assert (Ec : block_cnt m1 sec = block_cnt m sec) by (unfold block_cnt; by rewrite Ei). constructor.
  - intros x Hx. rewrite (wr_frame _ _ _ _ _ H2), (wr_frame _ _ _ _ _ H1); [done|done|].
    intros k Hk. rewrite Ec in Hk. rewrite Ei. destruct (written_index m m1 sec ofs bs k Hp H1 Hk) as [_ ->]. by apply Hx.
  - intros p Hpp. pose proof (wr_bytes _ _ _ _ _ H2 p) as E2. rewrite Ei, Ec in E2. rewrite E2 by done.
    rewrite (wr_bytes _ _ _ _ _ H1 p) by done. rewrite length_app, Nat2Z.inj_add. unfold byte_at.
    repeat case_decide; try lia; try done.
    + rewrite app_nth2 by lia. f_equal. lia.
    + rewrite app_nth1 by lia. done.
Qed.

(** One chunk, inside a block. *)
Lemma written_chunk n m sec ofs bs k :
  file_ok m n sec → file_private m sec → is_sector (m (block_of m (m sec) k)) →
  0 ≤ ofs → k = ofs / BLOCK_SECTOR_SIZE → 0 ≤ k < block_cnt m sec →
  ofs mod BLOCK_SECTOR_SIZE + Z.of_nat (length bs) ≤ BLOCK_SECTOR_SIZE →
  written m (λ x, if x =? block_of m (m sec) k
                  then put_bytes (m (block_of m (m sec) k)) (Z.to_nat (ofs mod BLOCK_SECTOR_SIZE)) bs else m x)
    sec ofs bs.
Proof.
  intros Hf Hp [Hl _] Hofs Ek Hk Hlen. set (B := block_of m (m sec) k) in *. set (m' := λ x, _).
  pose proof (Z.mod_pos_bound ofs BLOCK_SECTOR_SIZE ltac:(done)) as Hmod.
  assert (Hfr : ∀ x, x ≠ B → m' x = m x) by (intros x Hx; unfold m'; by destruct (Z.eqb_spec x B)).
  assert (Hblk : ∀ k', 0 ≤ k' < block_cnt m sec → block_of m' (m sec) k' = block_of m (m sec) k').
  { intros k' Hk'. apply index_agree. intros x Hx. apply Hfr. intros ->. by apply (fp_index _ _ Hp k k'). }
  constructor.
  - intros x Hx. apply Hfr. by apply Hx.
  - intros p Hpp. pose proof (block_index p _ Hpp) as Hkp. unfold file_byte. rewrite Hblk by done.
    pose proof (Z_div_mod_eq_full p BLOCK_SECTOR_SIZE) as Edp. pose proof (Z_div_mod_eq_full ofs BLOCK_SECTOR_SIZE) as Edo.
    pose proof (Z.mod_pos_bound p BLOCK_SECTOR_SIZE ltac:(done)) as Hmp. rewrite <- Ek in Edo.
    destruct (decide (p / BLOCK_SECTOR_SIZE = k)) as [E|Hne].
    + rewrite E. fold B. unfold m'. rewrite Z.eqb_refl, byte_at_put by (unfold BLOCK_SECTOR_SIZE in *; lia).
      rewrite E in Edp. unfold BLOCK_SECTOR_SIZE in *.
      repeat case_decide; try lia; try done; f_equal; lia.
    + rewrite Hfr by (intros HB; apply Hne; by apply (fp_inj _ _ Hp)).
      case_decide as Hd; [|done]. unfold BLOCK_SECTOR_SIZE in *. exfalso. apply Hne. lia.
Qed.

(** ** Changing the length of a file *)

(** The other members of the inode stay. *)
Lemma set_length_index m d x k :
  is_sector d → 0 ≤ k →
  index_sectors m (put32 d length_ofs x) k = index_sectors m d k
  ∧ block_of m (put32 d length_ofs x) k = block_of m d k.
Proof.
  intros [Hl _] Hk. assert (Hg : ∀ o, (o + 4 ≤ 404 ∨ 408 ≤ o)%nat → get32 (put32 d length_ofs x) o = get32 d o).
  { intros o Ho. apply get32_put; change (length (word_bytes x)) with 4%nat;
      unfold length_ofs, BLOCK_SECTOR_SIZE in *; lia. }
  unfold index_sectors, block_of, locate. destruct (Z.ltb_spec k NUM_DIRECT).
  - rewrite Hg; [done|]. left. unfold direct_ofs, NUM_DIRECT in *. lia.
  - destruct (Z.ltb_spec ((k - NUM_DIRECT) / ENTRIES_PER_SECTOR) NUM_SINGLE_INDIRECT) as [Ht|Ht].
    + rewrite Hg; [done|]. left. unfold single_indirect_ofs, NUM_SINGLE_INDIRECT in *. lia.
    + rewrite Hg; [done|]. left. unfold double_indirect_ofs. lia.
Qed.

(** The file of sector [sec] after its length is set to [len], in the same blocks. *)
Lemma set_length_file n m sec len :
  let m' := λ x, if x =? sec then put32 (m sec) length_ofs len else m x in
  file_ok m n sec → file_private m sec → is_sector (m sec) → 0 ≤ len < 2 ^ 31 →
  len ≤ MAX_BLOCKS * BLOCK_SECTOR_SIZE → CEIL len BLOCK_SECTOR_SIZE = block_cnt m sec →
  i_length (m' sec) = len ∧ file_ok m' n sec ∧ file_private m' sec
  ∧ (∀ k, 0 ≤ k < block_cnt m sec → block_of m' (m' sec) k = block_of m (m sec) k)
  ∧ ∀ p, 0 ≤ p < block_cnt m sec * BLOCK_SECTOR_SIZE → file_byte m' (m' sec) p = file_byte m (m sec) p.
Proof.
  intros m' Hf Hp Hsec Hlen Hmax Hc. pose proof (Hsec) as [Hl _].
  assert (Es : m' sec = put32 (m sec) length_ofs len) by (unfold m'; by rewrite Z.eqb_refl).
  assert (Eo : ∀ x, x ≠ sec → m' x = m x) by (intros x Hx; unfold m'; by destruct (Z.eqb_spec x sec)).
  assert (El : i_length (m' sec) = len).
  { rewrite Es. unfold i_length. rewrite get32_put32 by (unfold length_ofs, BLOCK_SECTOR_SIZE in *; unfold_ints; lia).
    apply i32_small. unfold_ints. lia. }
  assert (Ec : block_cnt m' sec = block_cnt m sec) by (unfold block_cnt; by rewrite El).
  assert (Hx : ∀ k, 0 ≤ k < block_cnt m sec →
    index_sectors m' (m' sec) k = index_sectors m (m sec) k ∧ block_of m' (m' sec) k = block_of m (m sec) k).
  { intros k Hk. rewrite Es. destruct (set_length_index m (m sec) len k Hsec ltac:(lia)) as [E1 E2].
    destruct (index_agree m m' (put32 (m sec) length_ofs len) k) as [E3 E4].
    - rewrite E1. intros x Hx. apply Eo. intros ->. by apply (fp_index_inode _ _ Hp k).
    - by rewrite E3, E4. }
  split; [done|]. split_and!.
  - constructor; rewrite ?El, ?Ec; try apply Hf; [|lia|..].
    + rewrite Es. unfold is_valid_inode. rewrite <- (fo_magic _ _ _ Hf). unfold is_valid_inode. f_equal.
      apply get32_put; change (length (word_bytes len)) with 4%nat;
        unfold length_ofs, magic_ofs, BLOCK_SECTOR_SIZE in *; lia.
    + intros k s Hk. destruct (Hx k Hk) as [-> _]. by apply (fo_index _ _ _ Hf).
    + intros k Hk. destruct (Hx k Hk) as [_ ->]. by apply (fo_block _ _ _ Hf).
  - constructor; rewrite ?Ec.
    + intros k k' Hk Hk'. destruct (Hx k Hk) as [_ ->], (Hx k' Hk') as [_ ->]. by apply (fp_inj _ _ Hp).
    + intros k Hk. destruct (Hx k Hk) as [_ ->]. by apply (fp_inode _ _ Hp).
    + intros k k' Hk Hk'. destruct (Hx k Hk) as [_ ->], (Hx k' Hk') as [-> _]. by apply (fp_index _ _ Hp).
    + intros k Hk. destruct (Hx k Hk) as [-> _]. by apply (fp_index_inode _ _ Hp).
  - intros k Hk. by apply Hx.
  - intros p Hpp. unfold file_byte. pose proof (block_index p _ Hpp) as Hk. destruct (Hx _ Hk) as [_ ->].
    rewrite Eo; [done|]. by apply (fp_inode _ _ Hp).
Qed.

(** The bytes of a file, from what each of them is. *)
Lemma bytes_spliced f g ofs len len' bs :
  0 ≤ ofs ≤ len → len' = Z.max len (ofs + Z.of_nat (length bs)) →
  (∀ p, 0 ≤ p < len' → g p = if decide (ofs ≤ p < ofs + Z.of_nat (length bs)) then byte_at bs (Z.to_nat (p - ofs)) else f p) →
  (λ j, g (0 + Z.of_nat j)) <$> seq 0 (Z.to_nat len')
  = put_bytes ((λ j, f (0 + Z.of_nat j)) <$> seq 0 (Z.to_nat len)) (Z.to_nat ofs) bs.
Proof.
  intros Ho El Hg. set (old := (λ j, f (0 + Z.of_nat j)) <$> seq 0 (Z.to_nat len)).
  assert (Hold : length old = Z.to_nat len) by (unfold old; by rewrite length_fmap, length_seq).
  assert (Hlo : ∀ j, (j < Z.to_nat len)%nat → old !! j = Some (f (Z.of_nat j))).
  { intros j Hj. unfold old. rewrite list_lookup_fmap, lookup_seq_lt by done. done. }
  apply list_eq. intros j. rewrite list_lookup_fmap. unfold put_bytes.
  assert (Ht : length (take (Z.to_nat ofs) old) = Z.to_nat ofs) by (rewrite length_take; lia).
  destruct (decide (j < Z.to_nat len')%nat) as [Hj|Hj].
  - rewrite lookup_seq_lt by done. cbn [fmap option_fmap option_map]. rewrite Hg by lia. simpl. case_decide as Hd.
    + rewrite lookup_app_r by lia. rewrite Ht, lookup_app_l by lia. unfold byte_at.
      destruct (lookup_lt_is_Some_2 bs (j - Z.to_nat ofs)) as [x Hx]; [lia|]. rewrite Hx. f_equal.
      replace (Z.to_nat (0 + Z.of_nat j - ofs)) with (j - Z.to_nat ofs)%nat by lia. by apply nth_lookup_Some.
    + destruct (decide (j < Z.to_nat ofs)%nat) as [Hlt|Hge].
      * rewrite lookup_app_l by lia. rewrite lookup_take_lt by done. symmetry. apply Hlo. lia.
      * rewrite !lookup_app_r by lia. rewrite Ht, lookup_drop.
        replace (Z.to_nat ofs + length bs + (j - Z.to_nat ofs - length bs))%nat with j by lia.
        symmetry. apply Hlo. lia.
  - rewrite (proj2 (lookup_ge_None (seq 0 (Z.to_nat len')) j)) by (rewrite length_seq; lia). symmetry.
    apply lookup_ge_None. rewrite !length_app, Ht, length_drop, Hold. lia.
Qed.

(** A longer file in the same blocks. *)
Lemma ceil_same len len' c :
  0 ≤ len ≤ len' → CEIL len BLOCK_SECTOR_SIZE = c → len' ≤ c * BLOCK_SECTOR_SIZE → CEIL len' BLOCK_SECTOR_SIZE = c.
Proof.
  intros Hl <- Hb. pose proof (ceil_bound len' _ ltac:(split; [lia|exact Hb])).
  pose proof (ceil_bound len (CEIL len' BLOCK_SECTOR_SIZE)). pose proof (ceil_covers len'). lia.
Qed.

Section io.
Context {D : Type} {drv : BlockDriver D} {laws : BlockDriverLaws D}.

(** ** Cache operations in the file system *)

Lemma with_cache_twice c c' (s : fs D) : with_cache c (with_cache c' s) = with_cache c s.
Proof. done. Qed.

Lemma holds_readers n m (c : cache D) : holds n m c → readers_in [] c.
Proof. intros [_ Hid _] i b Hb. left. by apply (Hid i). Qed.

Lemma fs_lookup n l sec (s : fs D) :
  cache_ok n (fcache s) → readers_in l (fcache s) → (length l < CACHE_BLOCKS)%nat → 0 < sec < n →
  ∃ cb c', on_cache (cache_read_block sec) s = Ok (cb, with_cache c' s)
    ∧ looked_up n (fcache s) sec cb c' ∧ readers_in (cb :: l) c'
    ∧ block_data cb (with_cache c' s) = Ok (contents (fcache s) sec, with_cache c' s).
Proof.
  intros Hok Hr Hl Hs. destruct (readers_in_lookup n l _ sec Hok Hr Hl Hs) as (cb & c' & E & Hlu & Hr').
  exists cb, c'. unfold on_cache, cache_read_block. rewrite E. split_and!; try done.
  destruct (looked_up_data n _ sec cb c' Hlu) as (b & Eb & Ed).
  unfold block_data, on_cache, mbind, st_bind. cbn [fcache with_cache]. by rewrite Eb, Ed.
Qed.

Lemma fs_read_end n c sec cb (s : fs D) :
  looked_up n c sec cb (fcache s) →
  ∃ c', on_cache (cache_read_end cb) s = Ok (tt, with_cache c' s) ∧ same_view n c c'.
Proof.
  intros Hlu. destruct (looked_up_end n c sec cb _ Hlu) as (c' & E & Hv). exists c'.
  unfold on_cache. by rewrite E.
Qed.

(** Reading one sector of a quiet cache. *)
Lemma fs_read_sector n m sec (s : fs D) :
  holds n m (fcache s) → 0 < sec < n →
  ∃ cb c1 c2, on_cache (cache_read_block sec) s = Ok (cb, with_cache c1 s)
    ∧ block_data cb (with_cache c1 s) = Ok (m sec, with_cache c1 s)
    ∧ on_cache (cache_read_end cb) (with_cache c1 s) = Ok (tt, with_cache c2 s) ∧ holds n m c2.
Proof.
  intros Hh Hs. destruct (fs_lookup n [] sec s) as (cb & c1 & E1 & Hlu & _ & Ed);
    [apply Hh|by eapply holds_readers|unfold CACHE_BLOCKS; simpl; lia|done|].
  destruct (fs_read_end n (fcache s) sec cb (with_cache c1 s) Hlu) as (c2 & E2 & Hv).
  exists cb, c1, c2. rewrite (ho_contents _ _ _ Hh) in Ed by done. split_and!; try done.
  by apply (same_view_holds n m (fcache s)).
Qed.

(** Changing one. *)
Lemma fs_modify_sector n m sec f (s : fs D) :
  holds n m (fcache s) → 0 < sec < n → (∀ d, is_sector d → is_sector (f d)) →
  ∃ cb c1 c2 c3, on_cache (cache_write_block sec) s = Ok (cb, with_cache c1 s)
    ∧ block_data cb (with_cache c1 s) = Ok (m sec, with_cache c1 s)
    ∧ on_cache (upd_block cb (λ b, set_data (f (data b)) b)) (with_cache c1 s) = Ok (tt, with_cache c2 s)
    ∧ on_cache (cache_write_end cb) (with_cache c2 s) = Ok (tt, with_cache c3 s)
    ∧ holds n (λ s', if s' =? sec then f (m sec) else m s') c3.
Proof.
  intros Hh Hs Hf. destruct (modify_sim n m (fcache s) sec f Hh Hs Hf) as (c3 & E & Hh3).
  unfold run_op in E. apply st_bind_Ok in E as (cb & c1 & E1 & E).
  apply st_bind_Ok in E as ([] & c2 & E2 & E). apply st_bind_Ok in E as ([] & c3' & E3 & E). injection E as ->.
  exists cb, c1, c2, c3. unfold on_cache. cbn [fcache with_cache]. rewrite E1, E2, E3. split_and!; try done.
  destruct (cache_write_block_spec n (fcache s) sec) as (i & c1' & E1' & Hw);
    [apply Hh|done|eapply some_idle; apply Hh|intros j b Hj _ _; by apply (ho_idle _ _ _ Hh j)|].
  rewrite E1 in E1'. injection E1' as <- <-. destruct Hw as [_ _ (b & b' & _ & _ & Hb' & [= _ _ Hd] & _) _].
  unfold block_data, on_cache, mbind, st_bind. cbn [fcache with_cache]. rewrite (get_block_eq c1 cb b' Hb').
  by rewrite Hd, (ho_contents _ _ _ Hh).
Qed.

(** ** Finding a block *)

Lemma inode_length_spec n m (s : fs D) ino i :
  holds n m (fcache s) → inodes s !! ino = Some i → 0 < i_sector i < n →
  ∃ c', inode_length ino s = Ok (i_length (m (i_sector i)), with_cache c' s) ∧ holds n m c'.
Proof.
  intros Hh Hi Hs. destruct (fs_read_sector n m (i_sector i) s Hh Hs) as (cb & c1 & c2 & E1 & E2 & E3 & Hh2).
  exists c2. split; [|done]. unfold inode_length, mbind, st_bind, get_inode. rewrite Hi. simpl.
  by rewrite E1, E2, E3.
Qed.

Lemma byte_to_sector_spec n m (s : fs D) ino i p :
  holds n m (fcache s) → inodes s !! ino = Some i → 0 < i_sector i < n →
  is_valid_inode (m (i_sector i)) = true → 0 ≤ p < 2 ^ 31 → p / BLOCK_SECTOR_SIZE < MAX_BLOCKS →
  (∀ x, x ∈ index_sectors m (m (i_sector i)) (p / BLOCK_SECTOR_SIZE) → 0 < x < n) →
  ∃ c', byte_to_sector ino p s = Ok (block_of m (m (i_sector i)) (p / BLOCK_SECTOR_SIZE), with_cache c' s)
    ∧ holds n m c'.
Proof.
  intros Hh Hi Hs Hmag Hp Hmax Hidx. set (d := m (i_sector i)) in *. set (k := p / BLOCK_SECTOR_SIZE) in *.
  assert (Hk : u32 (Z.quot p BLOCK_SECTOR_SIZE) = k).
  { rewrite Z.quot_div_nonneg by (unfold BLOCK_SECTOR_SIZE; lia). apply u32_small. unfold_ints. fold k.
    unfold k, BLOCK_SECTOR_SIZE. split; [apply Z.div_pos; lia|apply Z.div_lt_upper_bound; lia]. }
  destruct (fs_lookup n [] (i_sector i) s) as (cb & c1 & E1 & Hlu1 & Hr1 & Ed1);
    [apply Hh|by eapply holds_readers|unfold CACHE_BLOCKS; simpl; lia|done|].
  rewrite (ho_contents _ _ _ Hh) in Ed1 by done. fold d in Ed1. pose proof (lu_ok _ _ _ _ _ Hlu1) as Hok1.
  assert (Hm1 : ∀ x, 0 < x < n → contents c1 x = m x).
  { intros x Hx. rewrite (lu_contents _ _ _ _ _ Hlu1) by lia. by apply Hh. }
  unfold byte_to_sector, mbind, st_bind, get_inode. rewrite Hi. cbn [lift deref]. rewrite E1, Ed1, Hmag, Hk. cbn [negb].
  unfold block_of, index_sectors, locate in *. destruct (k <? NUM_DIRECT).
  - destruct (fs_read_end n (fcache s) _ cb (with_cache c1 s) Hlu1) as (c2 & -> & Hv).
    exists c2. split; [done|]. by apply (same_view_holds n m (fcache s)).
  - set (t := (k - NUM_DIRECT) / ENTRIES_PER_SECTOR) in *. set (e := (k - NUM_DIRECT) mod ENTRIES_PER_SECTOR) in *.
    destruct (t <? NUM_SINGLE_INDIRECT).
    + set (x := get32 d (single_indirect_ofs t)) in *. assert (Hx : 0 < x < n) by (apply Hidx; set_solver).
      destruct (fs_lookup n [cb] x (with_cache c1 s)) as (ib & c2 & E2 & Hlu2 & _ & Ed2);
        [done|done|unfold CACHE_BLOCKS; simpl; lia|done|]. rewrite E2. cbn [fcache with_cache] in *.
      rewrite Hm1 in Ed2 by done. rewrite with_cache_twice in *. rewrite Ed2.
      destruct (fs_read_end n c1 x ib (with_cache c2 s) Hlu2) as (c3 & -> & Hv3).
      pose proof (looked_up_same_view n _ _ cb c1 c3 Hlu1 Hv3) as Hlu3. rewrite with_cache_twice.
      destruct (fs_read_end n (fcache s) _ cb (with_cache c3 s) Hlu3) as (c4 & -> & Hv4).
      exists c4. split; [done|]. by apply (same_view_holds n m (fcache s)).
    + set (x := get32 d double_indirect_ofs) in *. set (y := get32 (m x) (entry_ofs (t - NUM_SINGLE_INDIRECT))) in *.
      assert (Hx : 0 < x < n) by (apply Hidx; set_solver). assert (Hy : 0 < y < n) by (apply Hidx; set_solver).
      assert (Ht : t - NUM_SINGLE_INDIRECT < ENTRIES_PER_SECTOR).
      { unfold t, MAX_BLOCKS, NUM_DIRECT, NUM_SINGLE_INDIRECT, ENTRIES_PER_SECTOR in *.
        assert ((k - 60) / 128 < 168); [apply Z.div_lt_upper_bound; lia|lia]. }
      destruct (Z.ltb_spec (t - NUM_SINGLE_INDIRECT) ENTRIES_PER_SECTOR); [|lia].
      destruct (fs_lookup n [cb] x (with_cache c1 s)) as (ib & c2 & E2 & Hlu2 & Hr2 & Ed2);
        [done|done|unfold CACHE_BLOCKS; simpl; lia|done|]. cbn [fcache with_cache] in *.
      rewrite Hm1 in Ed2 by done. rewrite with_cache_twice in *.
      pose proof (lu_ok _ _ _ _ _ Hlu2) as Hok2.
      assert (Hm2 : contents c2 y = m y) by (rewrite (lu_contents _ _ _ _ _ Hlu2) by lia; by apply Hm1).
      destruct (fs_lookup n [ib; cb] y (with_cache c2 s)) as (ib2 & c3 & E3 & Hlu3 & _ & Ed3);
        [done|done|unfold CACHE_BLOCKS; simpl; lia|done|]. cbn [fcache with_cache] in *.
      rewrite Hm2 in Ed3. rewrite with_cache_twice in *. cbn [assert ASSERT lift].
      unfold assert, ASSERT, lift. rewrite E2, Ed2. fold y. rewrite E3, Ed3.
      destruct (fs_read_end n c2 y ib2 (with_cache c3 s) Hlu3) as (c4 & -> & Hv4). rewrite with_cache_twice.
      pose proof (looked_up_same_view n _ _ ib c2 c4 Hlu2 Hv4) as Hlu4.
      destruct (fs_read_end n c1 x ib (with_cache c4 s) Hlu4) as (c5 & -> & Hv5). rewrite with_cache_twice.
      pose proof (looked_up_same_view n _ _ cb c1 c5 Hlu1 Hv5) as Hlu5.
      destruct (fs_read_end n (fcache s) _ cb (with_cache c5 s) Hlu5) as (c6 & -> & Hv6).
      exists c6. split; [done|]. by apply (same_view_holds n m (fcache s)).
Qed.

(** ** Reading *)

Lemma slice_app m d ofs a b : slice m d ofs (a + b) = slice m d ofs a ++ slice m d (ofs + Z.of_nat a) b.
Proof.
  unfold slice. rewrite seq_app, fmap_app. f_equal. rewrite <- (Nat.add_0_r (0 + a)).
  rewrite <- fmap_add_seq, <- list_fmap_compose. apply list_fmap_ext. intros _ j _. simpl. f_equal. lia.
Qed.

Lemma length_slice m d ofs a : length (slice m d ofs a) = a.
Proof. unfold slice. by rewrite length_fmap, length_seq. Qed.

(** A piece of a sector is a piece of the file. *)
Lemma slice_sector m d ofs (c : nat) :
  0 ≤ ofs → is_sector (m (block_of m d (ofs / BLOCK_SECTOR_SIZE))) →
  ofs mod BLOCK_SECTOR_SIZE + Z.of_nat c ≤ BLOCK_SECTOR_SIZE →
  take c (drop (Z.to_nat (ofs mod BLOCK_SECTOR_SIZE)) (m (block_of m d (ofs / BLOCK_SECTOR_SIZE)))) = slice m d ofs c.
Proof.
  intros Hofs [Hl _] Hc. set (b := m (block_of m d (ofs / BLOCK_SECTOR_SIZE))) in *.
  pose proof (Z.mod_pos_bound ofs BLOCK_SECTOR_SIZE ltac:(done)) as Hm.
  apply list_eq. intros j. unfold slice. rewrite list_lookup_fmap.
  destruct (decide (j < c)%nat) as [Hj|Hj].
  - rewrite lookup_take_lt by done. rewrite lookup_drop, lookup_seq_lt by done. simpl.
    unfold file_byte. assert (Ed : (ofs + Z.of_nat j) / BLOCK_SECTOR_SIZE = ofs / BLOCK_SECTOR_SIZE
      ∧ (ofs + Z.of_nat j) mod BLOCK_SECTOR_SIZE = ofs mod BLOCK_SECTOR_SIZE + Z.of_nat j).
    { pose proof (Z_div_mod_eq_full ofs BLOCK_SECTOR_SIZE). unfold BLOCK_SECTOR_SIZE in *.
      split; symmetry; [apply (Z.div_unique _ _ _ (ofs mod 512 + Z.of_nat j))|
        apply (Z.mod_unique _ _ (ofs / 512))]; lia. }
    destruct Ed as [-> ->]. fold b. unfold byte_at.
    rewrite Z2Nat.inj_add, Nat2Z.id by lia.
    assert (Hb : (Z.to_nat (ofs mod BLOCK_SECTOR_SIZE) + j < length b)%nat) by (unfold BLOCK_SECTOR_SIZE in *; lia).
    destruct (lookup_lt_is_Some_2 b _ Hb) as [x Hx]. rewrite Hx. f_equal. symmetry. by apply nth_lookup_Some.
  - rewrite lookup_take_ge by lia. by rewrite (proj2 (lookup_ge_None (seq 0 c) j)) by (rewrite length_seq; lia).
Qed.

Lemma holds_sector n m (c : cache D) sec : holds n m c → 0 < sec < n → is_sector (m sec).
Proof.
  intros [Hok _ Hc] Hs. rewrite <- Hc by done. destruct (contents_cases c sec) as [(i & b & Hb & Hv & <-)|Hn].
  - rewrite (contents_cached n c i b Hok Hb Hv). apply (co_block n c Hok i b Hb).
  - rewrite (contents_uncached c sec Hn). apply (dev_get_sector _ n); [apply Hok|lia].
Qed.

(** How many bytes a read of [size] bytes at [ofs] gets from a file of [len] bytes. *)
Definition read_cnt (len size ofs : Z) : nat := Z.to_nat (Z.min size (len - ofs)).

(** Where a read may go: inside the file, or past the end of a file without indirect
    sectors. *)
Definition may_read (len size ofs : Z) : Prop :=
  0 ≤ ofs ∧ 0 ≤ size ∧ ofs + size < 2 ^ 31
  ∧ (ofs + size ≤ len ∨ len < NUM_DIRECT * BLOCK_SECTOR_SIZE ∧ ofs < NUM_DIRECT * BLOCK_SECTOR_SIZE).

Lemma read_position n m sec ofs size :
  file_ok m n sec → may_read (i_length (m sec)) size ofs → 0 < size →
  0 ≤ ofs < 2 ^ 31 ∧ ofs / BLOCK_SECTOR_SIZE < MAX_BLOCKS
  ∧ (∀ x, x ∈ index_sectors m (m sec) (ofs / BLOCK_SECTOR_SIZE) → 0 < x < n)
  ∧ (ofs < i_length (m sec) → 0 < block_of m (m sec) (ofs / BLOCK_SECTOR_SIZE) < n).
Proof.
  intros Hf (H0 & H1 & H2 & H3) Hs. pose proof (fo_length _ _ _ Hf) as Hl.
  assert (Hin : ofs < i_length (m sec) → 0 ≤ ofs / BLOCK_SECTOR_SIZE < block_cnt m sec).
  { intros Ho. unfold BLOCK_SECTOR_SIZE in *. apply ceil_block; [lia| |apply Z.div_pos; lia].
    unfold BLOCK_SECTOR_SIZE. pose proof (Z.mul_div_le ofs 512). lia. }
  split; [lia|]. destruct (decide (ofs < i_length (m sec))) as [Ho|Ho].
  - specialize (Hin Ho). split; [|split].
    + unfold MAX_BLOCKS, BLOCK_SECTOR_SIZE in *. apply Z.div_lt_upper_bound; lia.
    + intros x. by apply (fo_index _ _ _ Hf).
    + intros _. by apply (fo_block _ _ _ Hf).
  - assert (Hd : ofs / BLOCK_SECTOR_SIZE < NUM_DIRECT).
    { unfold BLOCK_SECTOR_SIZE, NUM_DIRECT in *. apply Z.div_lt_upper_bound; lia. }
    split; [unfold MAX_BLOCKS, NUM_DIRECT, NUM_SINGLE_INDIRECT, ENTRIES_PER_SECTOR in *; lia|].
    split; [|lia]. unfold index_sectors, locate. destruct (Z.ltb_spec (ofs / BLOCK_SECTOR_SIZE) NUM_DIRECT); [|lia].
    set_solver.
Qed.

Lemma read_loop_spec n m fuel (s : fs D) ino i size ofs buf :
  holds n m (fcache s) → inodes s !! ino = Some i → file_ok m n (i_sector i) →
  may_read (i_length (m (i_sector i))) size ofs → size ≤ Z.of_nat fuel →
  ∃ c', read_loop fuel ino size ofs buf s
      = Ok (buf ++ slice m (m (i_sector i)) ofs (read_cnt (i_length (m (i_sector i))) size ofs), with_cache c' s)
    ∧ holds n m c'.
Proof.
  set (d := m (i_sector i)). set (len := i_length d).
  revert s size ofs buf. induction fuel as [|fuel IH]; intros s size ofs buf Hh Hi Hf Hr Hfuel; cbn [read_loop].
  - destruct (Z.ltb_spec 0 size); [lia|]. exists (fcache s). unfold read_cnt.
    replace (Z.to_nat _) with 0%nat by lia. simpl. rewrite app_nil_r. by destruct s.
  - destruct (Z.ltb_spec 0 size) as [Hsz|Hsz].
    2: { exists (fcache s). unfold read_cnt. replace (Z.to_nat _) with 0%nat by lia. simpl. rewrite app_nil_r. by destruct s. }
    destruct (read_position n m _ ofs size Hf Hr Hsz) as (Hp & Hmax & Hidx & Hblk).
    destruct (byte_to_sector_spec n m s ino i ofs) as (c1 & E1 & Hh1); try done; [apply Hf|apply Hf|].
    unfold mbind at 1, st_bind at 1. rewrite E1.
    destruct (inode_length_spec n m (with_cache c1 s) ino i) as (c2 & E2 & Hh2); [done|done|apply Hf|].
    unfold mbind at 1, st_bind at 1. rewrite E2, with_cache_twice. fold d. fold len.
    rewrite Z.rem_mod_nonneg by (unfold BLOCK_SECTOR_SIZE; lia).
    pose proof (Z.mod_pos_bound ofs BLOCK_SECTOR_SIZE ltac:(done)) as Hmod.
    set (so := ofs mod BLOCK_SECTOR_SIZE) in *. cbv zeta.
    set (ml := if len - ofs <? BLOCK_SECTOR_SIZE - so then len - ofs else BLOCK_SECTOR_SIZE - so).
    set (ch := if size <? ml then size else ml).
    assert (Hch : ch = Z.min size (Z.min (len - ofs) (BLOCK_SECTOR_SIZE - so))).
    { unfold ch, ml. destruct (Z.ltb_spec (len - ofs) (BLOCK_SECTOR_SIZE - so)).
      - destruct (Z.ltb_spec size (len - ofs)); lia.
      - destruct (Z.ltb_spec size (BLOCK_SECTOR_SIZE - so)); lia. }
    clearbody ch ml. destruct (Z.leb_spec ch 0) as [Hc0|Hc0].
    { exists c2. unfold read_cnt. replace (Z.to_nat _) with 0%nat by lia. simpl. by rewrite app_nil_r. }
    assert (Hofs : ofs < len) by lia. specialize (Hblk Hofs). fold d in Hblk.
    set (sec := block_of m d (ofs / BLOCK_SECTOR_SIZE)) in *.
    destruct (fs_read_sector n m sec (with_cache c2 s)) as (cb & c3 & c4 & E3 & Ed & E4 & Hh4); [done|done|].
    unfold mbind at 1, st_bind at 1. rewrite E3. unfold mbind at 1, st_bind at 1. rewrite Ed.
    unfold mbind at 1, st_bind at 1. rewrite E4, with_cache_twice.
    assert (Hr' : may_read len (size - ch) (ofs + ch)).
    { destruct Hr as (? & ? & ? & Hlim). fold d in Hlim. fold len in Hlim. unfold may_read. lia. }
    destruct (IH (with_cache c4 s) (size - ch) (ofs + ch) (buf ++ take (Z.to_nat ch) (drop (Z.to_nat so) (m sec))))
      as (c5 & E5 & Hh5); try done; [lia|].
    rewrite E5, with_cache_twice. exists c5. split; [|done]. do 2 f_equal. rewrite <- app_assoc. f_equal.
    unfold sec, so. rewrite slice_sector; [|lia| |unfold so in *; lia].
    2: { apply (holds_sector n m (fcache s) _ Hh). done. }
    fold d. fold len. rewrite <- (Z2Nat.id ch) at 2 by lia. rewrite <- slice_app. f_equal.
    unfold read_cnt. lia.
Qed.

(** ** Writing *)

Lemma write_loop_spec n m fuel (s : fs D) ino i size ofs buf done_ :
  holds n m (fcache s) → inodes s !! ino = Some i → file_ok m n (i_sector i) → file_private m (i_sector i) →
  0 ≤ ofs → 0 ≤ size ≤ Z.of_nat fuel → 0 ≤ done_ → Forall is_u8 buf →
  done_ + size ≤ Z.of_nat (length buf) → ofs + size ≤ block_cnt m (i_sector i) * BLOCK_SECTOR_SIZE →
  ∃ m' c', write_loop fuel ino size ofs buf done_ s = Ok (done_ + size, with_cache c' s) ∧ holds n m' c'
    ∧ written m m' (i_sector i) ofs (take (Z.to_nat size) (drop (Z.to_nat done_) buf)).
Proof.
  set (sec := i_sector i). revert m s size ofs done_.
  induction fuel as [|fuel IH]; intros m s size ofs dn Hh Hi Hf Hp Ho Hsz Hdn Hbuf Hlen Hcap; cbn [write_loop].
  { destruct (Z.ltb_spec 0 size); [lia|]. exists m, (fcache s). replace size with 0 by lia. rewrite Z.add_0_r.
    split; [by destruct s|]. split; [done|]. constructor; [done|]. intros p _. case_decide; [|done]. simpl in *. lia. }
  destruct (Z.ltb_spec 0 size) as [Hpos|Hnp].
  2: { exists m, (fcache s). replace size with 0 by lia. rewrite Z.add_0_r.
       split; [by destruct s|]. split; [done|]. constructor; [done|]. intros p _. case_decide; [|done]. simpl in *. lia. }
  pose proof (fo_length _ _ _ Hf) as Hfl. fold sec in Hfl.
  assert (Hmax : block_cnt m sec ≤ MAX_BLOCKS) by (by apply ceil_bound).
  assert (Hofs : 0 ≤ ofs < block_cnt m sec * BLOCK_SECTOR_SIZE) by lia.
  pose proof (block_index ofs _ Hofs) as Hk. set (k := ofs / BLOCK_SECTOR_SIZE) in *.
  destruct (byte_to_sector_spec n m s ino i ofs) as (c1 & E1 & Hh1); try done; [apply Hf|apply Hf| |fold k; lia|..].
  { unfold MAX_BLOCKS, NUM_DIRECT, NUM_SINGLE_INDIRECT, ENTRIES_PER_SECTOR, BLOCK_SECTOR_SIZE in *. lia. }
  { intros x. by apply (fo_index _ _ _ Hf). }
  unfold mbind at 1, st_bind at 1. rewrite E1. fold sec. fold k. rewrite Z.rem_mod_nonneg by (unfold BLOCK_SECTOR_SIZE; lia).
  pose proof (Z.mod_pos_bound ofs BLOCK_SECTOR_SIZE ltac:(done)) as Hmod. set (so := ofs mod BLOCK_SECTOR_SIZE) in *. cbv zeta.
  set (ch := if size <? BLOCK_SECTOR_SIZE - so then size else BLOCK_SECTOR_SIZE - so).
  assert (Hch : ch = Z.min size (BLOCK_SECTOR_SIZE - so)) by (unfold ch; destruct (Z.ltb_spec size (BLOCK_SECTOR_SIZE - so)); lia).
  clearbody ch. destruct (Z.leb_spec ch 0); [lia|].
  pose proof (fo_block _ _ _ Hf k Hk) as Hblk. fold sec in Hblk. set (B := block_of m (m sec) k) in *.
  set (bs := take (Z.to_nat ch) (drop (Z.to_nat dn) buf)).
  assert (Hbs : Z.of_nat (length bs) = ch) by (unfold bs; rewrite length_take, length_drop; lia).
  assert (Hbu : Forall is_u8 bs) by (unfold bs; by apply Forall_take, Forall_drop).
  destruct (fs_modify_sector n m B (λ d, put_bytes d (Z.to_nat so) bs) (with_cache c1 s))
    as (cb & c2 & c3 & c4 & E2 & _ & E3 & E4 & Hh4); [done|done| |].
  { intros d Hd. apply put_bytes_sector; [done|done|lia]. }
  unfold mbind at 1, st_bind at 1. rewrite E2. unfold mbind at 1, st_bind at 1. rewrite E3.
  unfold mbind at 1, st_bind at 1. rewrite E4. rewrite !with_cache_twice.
  set (m1 := λ x, _) in Hh4.
  assert (Hw : written m m1 sec ofs bs).
  { apply (written_chunk n m sec ofs bs k); try done; [|unfold so in *; lia].
    apply (holds_sector n m (fcache s)); done. }
  destruct (written_ok n m m1 sec ofs bs Hf Hp Hw) as (Hf1 & Hp1 & Ec1).
  destruct (IH m1 (with_cache c4 s) (size - ch) (ofs + ch) (dn + ch)) as (m' & c' & E5 & Hh5 & Hw5); try done; try lia.
  exists m', c'. rewrite E5, with_cache_twice. split; [do 2 f_equal; lia|]. split; [done|].
  rewrite <- Hbs in Hw5 at 1. pose proof (written_trans m m1 m' sec ofs bs _ Hp Hw Hw5) as Hall.
  replace (take (Z.to_nat size) (drop (Z.to_nat dn) buf))
    with (bs ++ take (Z.to_nat (size - ch)) (drop (Z.to_nat (dn + ch)) buf)); [done|].
  unfold bs. replace (Z.to_nat (dn + ch)) with (Z.to_nat dn + Z.to_nat ch)%nat by lia.
  rewrite <- drop_drop. set (l := drop (Z.to_nat dn) buf).
  replace (Z.to_nat size) with (Z.to_nat ch + Z.to_nat (size - ch))%nat by lia.
  rewrite <- take_take_drop. done.
Qed.

(** A sector that is taken for writing and left as it is. *)
Lemma fs_touch_sector n m sec (s : fs D) :
  holds n m (fcache s) → 0 < sec < n →
  ∃ cb c1 c2, on_cache (cache_write_block sec) s = Ok (cb, with_cache c1 s)
    ∧ block_data cb (with_cache c1 s) = Ok (m sec, with_cache c1 s)
    ∧ on_cache (cache_write_end cb) (with_cache c1 s) = Ok (tt, with_cache c2 s) ∧ holds n m c2.
Proof.
  intros Hh Hs. destruct (fs_modify_sector n m sec id s Hh Hs) as (cb & c1 & c2 & c3 & E1 & E2 & E3 & E4 & Hh3);
    [done|]. assert (c2 = c1) as ->.
  { unfold on_cache, upd_block, mbind, st_bind, get_block in E3. cbn [fcache with_cache] in E3.
    destruct (buffer c1 !! cb) as [b|] eqn:Eb; [|done]. cbn [lift deref] in E3.
    unfold put_block in E3. rewrite Eb in E3. injection E3 as E3. rewrite <- E3.
    replace (set_data (data b) b) with b by (by destruct b). rewrite list_insert_id by done. by destruct c1. }
  exists cb, c1, c3. split_and!; try done. destruct Hh3 as [H1 H2 H3]. constructor; [done|done|].
  intros x Hx. rewrite H3 by done. destruct (Z.eqb_spec x sec) as [->|]; done.
Qed.

Lemma inode_extend_none alloc n m (s : fs D) ino i :
  holds n m (fcache s) → inodes s !! ino = Some i → file_ok m n (i_sector i) →
  ∃ c', inode_extend alloc ino 0 s = Ok (true, with_cache c' s) ∧ holds n m c'.
Proof.
  intros Hh Hi Hf. destruct (fs_touch_sector n m (i_sector i) s Hh) as (cb & c1 & c2 & E1 & E2 & E3 & Hh2); [apply Hf|].
  exists c2. split; [|done]. unfold inode_extend, mbind, st_bind, get_inode. rewrite Hi. cbn [lift deref].
  rewrite E1, E2, (fo_magic _ _ _ Hf). change (Z.to_nat 0) with 0%nat. cbn [extend_loop]. unfold assert, ASSERT, lift, mret, st_ret. by rewrite E3.
Qed.

Lemma inode_set_length_spec n m (s : fs D) ino i len :
  holds n m (fcache s) → inodes s !! ino = Some i → 0 < i_sector i < n →
  ∃ c', inode_set_length ino len s = Ok (tt, with_cache c' s)
    ∧ holds n (λ x, if x =? i_sector i then put32 (m (i_sector i)) length_ofs len else m x) c'.
Proof.
  intros Hh Hi Hs.
  destruct (fs_modify_sector n m (i_sector i) (λ d, put32 d length_ofs len) s Hh Hs)
    as (cb & c1 & c2 & c3 & E1 & _ & E3 & E4 & Hh3).
  { intros d Hd. apply put_bytes_sector; [done|apply word_bytes_u8|done]. }
  exists c3. split; [|done]. unfold inode_set_length, mbind, st_bind, get_inode. rewrite Hi. cbn [lift deref].
  unfold store. cbn [fst snd]. by rewrite E1, E3, E4.
Qed.

(** The extension lock of [ino], taken and given back. *)
Definition with_ext (ino : Z) (i : inode) (s : fs D) : fs D :=
  with_inodes (<[ino := set_ext true i]> (inodes s)) (open_inodes s) s.

Lemma ext_acquire_spec (s : fs D) ino i :
  inodes s !! ino = Some i → extension_lock i = false → ext_acquire ino s = Ok (tt, with_ext ino i s).
Proof.
  intros Hi Hl. unfold ext_acquire, mbind, st_bind, get_inode. rewrite Hi. cbn [lift deref]. by rewrite Hl.
Qed.

Lemma ext_release_spec (s : fs D) ino i c :
  inodes s !! ino = Some i → extension_lock i = false →
  ext_release ino (with_cache c (with_ext ino i s)) = Ok (tt, with_cache c s).
Proof.
  intros Hi Hl. unfold ext_release, mbind, st_bind, get_inode, with_ext. cbn [inodes with_cache with_inodes].
  rewrite lookup_insert_eq. cbn [lift deref]. replace (extension_lock (set_ext true i)) with true by (by destruct i).
  unfold assert, ASSERT, lift, put_inode, modify. do 2 f_equal. unfold with_cache, with_inodes.
  cbn [inodes open_inodes files free_map free_map_file next_ptr mallocs fcache]. f_equal.
  rewrite insert_insert_eq. replace (set_ext false (set_ext true i)) with i by (destruct i; simpl in *; congruence).
  by apply insert_id.
Qed.

(** What a write needs: the file is its own, may be written, and has the blocks. *)
Record may_write (m : Z → list Z) (n : Z) (i : inode) (ofs size : Z) : Prop := {
  mw_file : file_ok m n (i_sector i);
  mw_private : file_private m (i_sector i);
  mw_allowed : deny_write_cnt i = 0;
  mw_unlocked : extension_lock i = false;
  mw_offset : 0 ≤ ofs ≤ i_length (m (i_sector i));
  mw_blocks : ofs + size ≤ block_cnt m (i_sector i) * BLOCK_SECTOR_SIZE;
}.

Lemma extend_for_write_spec alloc n m (s : fs D) ino i ofs size :
  holds n m (fcache s) → inodes s !! ino = Some i → 0 ≤ size → may_write m n i ofs size →
  let grows := i_length (m (i_sector i)) <=? ofs + size in
  ∃ c', extend_for_write alloc ino size ofs s
      = Ok (Some grows, with_cache c' (if grows then with_ext ino i s else s)) ∧ holds n m c'.
Proof.
  intros Hh Hi Hsz [Hf Hp Hdeny Hlock Ho Hb]. set (len := i_length (m (i_sector i))) in *. intros grows.
  pose proof (fo_length _ _ _ Hf) as Hfl. fold len in Hfl. assert (Hmax : block_cnt m (i_sector i) ≤ MAX_BLOCKS) by (by apply ceil_bound).
  assert (Hnew : i32 (size + ofs) = ofs + size).
  { rewrite i32_small; [lia|]. unfold MAX_BLOCKS, NUM_DIRECT, NUM_SINGLE_INDIRECT, ENTRIES_PER_SECTOR, BLOCK_SECTOR_SIZE in *.
    unfold_ints. lia. }
  destruct (inode_length_spec n m s ino i Hh Hi (fo_sector _ _ _ Hf)) as (c1 & E1 & Hh1).
  unfold extend_for_write. unfold mbind at 1, st_bind at 1. rewrite E1, Hnew. fold len. unfold grows.
  destruct (Z.leb_spec len (ofs + size)) as [Hle|Hgt]; [|by exists c1].
  unfold mbind at 1, st_bind at 1. rewrite (ext_acquire_spec _ ino i) by done.
  change (with_ext ino i (with_cache c1 s)) with (with_cache c1 (with_ext ino i s)).
  set (s2 := with_ext ino i s). set (i' := set_ext true i).
  assert (Hi2 : inodes s2 !! ino = Some i') by (simpl; apply lookup_insert_eq).
  assert (Esec : i_sector i' = i_sector i) by (by destruct i).
  assert (Hlen2 : ∀ c, holds n m c → ∃ c', inode_length ino (with_cache c s2) = Ok (len, with_cache c' s2) ∧ holds n m c').
  { intros c Hc. destruct (inode_length_spec n m (with_cache c s2) ino i' Hc Hi2) as (c' & E & Hc'); [rewrite Esec; apply Hf|].
    exists c'. by rewrite E, Esec. }
  destruct (Hlen2 c1 Hh1) as (c2 & E2 & Hh2). unfold mbind at 1, st_bind at 1. rewrite E2.
  destruct (Z.leb_spec len (ofs + size)); [|lia].
  destruct (Hlen2 c2 Hh2) as (c3 & E3 & Hh3). unfold mbind at 1, st_bind at 1. rewrite E3.
  assert (Hneed : CEIL (ofs + size) BLOCK_SECTOR_SIZE - CEIL len BLOCK_SECTOR_SIZE = 0).
  { rewrite (ceil_same len (ofs + size) (block_cnt m (i_sector i))) by (done || lia). unfold block_cnt. fold len. lia. }
  rewrite Hneed. change (u32 0) with 0.
  destruct (inode_extend_none alloc n m (with_cache c3 s2) ino i' Hh3 Hi2) as (c4 & E4 & Hh4); [by rewrite Esec|].
  unfold mbind, st_bind. rewrite E4. by exists c4.
Qed.

Lemma inode_write_at_spec alloc n m (s : fs D) ino i ofs bs :
  let sec := i_sector i in
  holds n m (fcache s) → inodes s !! ino = Some i → Forall is_u8 bs →
  may_write m n i ofs (Z.of_nat (length bs)) →
  ∃ m' c', inode_write_at alloc ino bs (Z.of_nat (length bs)) ofs s = Ok (Z.of_nat (length bs), with_cache c' s)
    ∧ holds n m' c' ∧ file_ok m' n sec ∧ file_private m' sec
    ∧ file_bytes m' sec = put_bytes (file_bytes m sec) (Z.to_nat ofs) bs
    ∧ ∀ x, x ≠ sec → (∀ k, 0 ≤ k < block_cnt m sec → x ≠ block_of m (m sec) k) → m' x = m x.
Proof.
  intros sec Hh Hi Hbs Hmw. set (size := Z.of_nat (length bs)) in *. set (len := i_length (m sec)).
  destruct (extend_for_write_spec alloc n m s ino i ofs size Hh Hi ltac:(lia) Hmw) as (c1 & E1 & Hh1).
  destruct Hmw as [Hf Hp Hdeny Hlock Ho Hb]. fold sec in Hf, Hp, Ho, Hb, E1. fold len in Ho, E1.
  pose proof (fo_length _ _ _ Hf) as Hfl. fold len in Hfl. assert (Hmax : block_cnt m sec ≤ MAX_BLOCKS) by (by apply ceil_bound).
  assert (Hsmall : ofs + size < 2 ^ 31).
  { unfold MAX_BLOCKS, NUM_DIRECT, NUM_SINGLE_INDIRECT, ENTRIES_PER_SECTOR, BLOCK_SECTOR_SIZE in *. lia. }
  unfold inode_write_at, mbind, st_bind. unfold get_inode at 1. rewrite Hi. cbn [lift deref]. rewrite Hdeny. cbn [negb Z.eqb].
  rewrite E1. set (grows := len <=? ofs + size) in *. set (s2 := if grows then with_ext ino i s else s) in *.
  set (i' := if grows then set_ext true i else i).
  assert (Hi2 : inodes s2 !! ino = Some i').
  { unfold s2, i'. destruct grows; [simpl; apply lookup_insert_eq|done]. }
  assert (Esec : i_sector i' = sec) by (unfold i'; by destruct grows, i).
  destruct (write_loop_spec n m (Z.to_nat size) (with_cache c1 s2) ino i' size ofs bs 0) as (m1 & c2 & E2 & Hh2 & Hw);
    rewrite ?Esec; try done; try lia. rewrite Esec in Hw.
  assert (Ebs : take (Z.to_nat size) (drop (Z.to_nat 0) bs) = bs).
  { change (Z.to_nat 0) with 0%nat. rewrite drop_0. apply take_ge. lia. }
  rewrite Ebs in Hw. rewrite E2, with_cache_twice. rewrite Z.add_0_l.
  pose proof (written_inode m m1 sec ofs bs Hp Hw) as Ei. destruct (written_ok n m m1 sec ofs bs Hf Hp Hw) as (Hf1 & Hp1 & Ec1).
  assert (Hblk : len ≤ block_cnt m sec * BLOCK_SECTOR_SIZE) by (apply ceil_covers; lia).
  assert (Hbytes : ∀ g len', len' = Z.max len (ofs + size) → (∀ p, 0 ≤ p < block_cnt m sec * BLOCK_SECTOR_SIZE →
    g p = file_byte m1 (m sec) p) → (λ j, g (0 + Z.of_nat j)) <$> seq 0 (Z.to_nat len')
      = put_bytes (file_bytes m sec) (Z.to_nat ofs) bs).
  { intros g len' El Hg. apply (bytes_spliced (file_byte m (m sec)) g ofs len); [lia|done|].
    intros p Hpp. rewrite Hg by lia. apply (wr_bytes _ _ _ _ _ Hw). lia. }
  unfold i'. clear i' Hi2 Esec E2. destruct grows eqn:Eg; unfold grows in Eg.
  - apply Z.leb_le in Eg. assert (Hi2 : inodes s2 !! ino = Some (set_ext true i)) by (simpl; apply lookup_insert_eq).
    assert (Esec : i_sector (set_ext true i) = sec) by (by destruct i).
    destruct (inode_set_length_spec n m1 (with_cache c2 s2) ino _ (i32 (size + ofs)) Hh2 Hi2) as (c3 & E3 & Hh3);
      [rewrite Esec; apply Hf|]. rewrite Esec in Hh3. rewrite E3, with_cache_twice. unfold s2. rewrite (ext_release_spec s ino i c3 Hi Hlock).
    rewrite i32_small in Hh3 by (unfold_ints; lia). replace (size + ofs) with (ofs + size) in Hh3 by lia.
    assert (Hcap : ofs + size ≤ MAX_BLOCKS * BLOCK_SECTOR_SIZE) by (unfold BLOCK_SECTOR_SIZE in *; lia).
    destruct (set_length_file n m1 sec (ofs + size) Hf1 Hp1) as (El & Hf2 & Hp2 & Hb2 & Hby2);
      [apply (holds_sector n m1 c2); [done|apply Hf]|lia|done|rewrite Ec1; apply (ceil_same len); try done; lia|].
    eexists. exists c3. split; [done|]. split; [exact Hh3|]. split; [done|]. split; [done|]. split.
    + unfold file_bytes at 1, slice. rewrite El. apply Hbytes; [lia|]. intros p Hpp. rewrite <- Ei. apply Hby2. by rewrite Ec1.
    + intros x Hx Hxk. destruct (Z.eqb_spec x sec); [done|]. by apply (wr_frame _ _ _ _ _ Hw).
  - apply Z.leb_gt in Eg. exists m1, c2. unfold s2. split_and!; try done.
    + unfold file_bytes at 1, slice. rewrite Ei. apply Hbytes; [fold len; lia|done].
    + intros x _ Hxk. by apply (wr_frame _ _ _ _ _ Hw).
Qed.
(** Reading, as a piece of the file. *)
Lemma slice_file m d ofs size len :
  0 ≤ ofs → 0 ≤ size → 0 ≤ len →
  slice m d ofs (read_cnt len size ofs) = take (Z.to_nat size) (drop (Z.to_nat ofs) (slice m d 0 (Z.to_nat len))).
Proof.
  intros Ho Hs Hl. unfold read_cnt. destruct (decide (ofs ≤ len)) as [Hle|Hgt].
  - replace (Z.to_nat len) with (Z.to_nat ofs + Z.to_nat (len - ofs))%nat by lia.
    rewrite slice_app, drop_app_length' by (rewrite length_slice; lia).
    replace (0 + Z.of_nat (Z.to_nat ofs)) with ofs by lia.
    destruct (decide (size ≤ len - ofs)).
    + replace (Z.min size (len - ofs)) with size by lia.
      replace (Z.to_nat (len - ofs)) with (Z.to_nat size + Z.to_nat (len - ofs - size))%nat by lia.
      rewrite slice_app, take_app_length' by (by rewrite length_slice). done.
    + replace (Z.min size (len - ofs)) with (len - ofs) by lia. rewrite take_ge; [done|]. rewrite length_slice. lia.
  - replace (Z.to_nat (Z.min size (len - ofs))) with 0%nat by lia.
    rewrite drop_ge by (rewrite length_slice; lia). by rewrite take_nil.
Qed.

Lemma inode_read_at_spec n m (s : fs D) ino i size ofs :
  holds n m (fcache s) → inodes s !! ino = Some i → file_ok m n (i_sector i) →
  may_read (i_length (m (i_sector i))) size ofs →
  ∃ c', inode_read_at ino size ofs s
      = Ok (take (Z.to_nat size) (drop (Z.to_nat ofs) (file_bytes m (i_sector i))), with_cache c' s)
    ∧ holds n m c'.
Proof.
  intros Hh Hi Hf Hr. destruct (fo_length _ _ _ Hf) as [Hlen _]. destruct (Hr) as (Hofs & Hsize & _).
  destruct (read_loop_spec n m (Z.to_nat size) s ino i size ofs [] Hh Hi Hf Hr) as (c' & E & Hh'); [lia|].
  exists c'. split; [|done]. unfold inode_read_at. rewrite E. do 2 f_equal. by apply slice_file.
Qed.
End io.
