(* ===== verification/FileThms.v ===== *)
(** * What the inode layer promises

    Files as byte sequences, and two ways in which creating a file stops the kernel. *)

From S2P Require Import Prelude Bytes Bitmap Block Cache CacheThms Inode InodeIO.

(** ** A formatted disk *)

Definition blank : fs disk :=
  FS (cache_init static_blocks empty_disk) ∅ [] ∅ (Bitmap 0 []) None 1 (λ _, true).

Definition format : ST (fs disk) unit :=
  free_map_init (replicate 25 0);; free_map_create;; free_map_close;; free_map_open.

(** A new file of [len] bytes, open: its inode. *)
Definition new_file (len : Z) : ST (fs disk) (option Z) :=
  o ← free_map_allocate DEPTH;
  match o with
  | None => mret None
  | Some sec => ok ← inode_create sec len; if ok : bool then inode_open sec else mret None
  end.

Definition run {A} (m : ST (fs disk) A) : result A :=
  match (format;; m) blank with Ok (a, _) => Ok a | Err e => Err e end.

(** ** The claims *)


(** A disk with a file of 100 bytes: the inode in sector 5, the data in sector 6. *)
Definition small_inode : list Z :=
  put32 (put32 (put32 zeros (direct_ofs 0) 6) length_ofs 100) magic_ofs INODE_MAGIC.
Definition small_data : list Z := replicate 100 65 ++ replicate 412 0.
Definition small_disk : block disk :=
  Block BLOCK_FILESYS 200 (Disk 200 (<[5 := small_inode]> {[6 := small_data]})) 0 0.
Definition small_fs : fs disk :=
  FS (cache_init static_blocks small_disk) {[1 := Inode 5 1 false 0 false]} [1] ∅ (Bitmap 0 []) None 2 (λ _, true).

Lemma small_disk_ok : dev_ok small_disk 200.
Proof.
  split; [done|]. split; [done|]. exists 200. split; [done|]. split; [done|]. simpl. intros x b Hb.
  apply lookup_insert_Some in Hb as [[_ <-]|[_ Hb]].
  - apply (bool_decide_unpack (is_sector small_inode)). vm_compute. exact I.
  - apply lookup_singleton_Some in Hb as [_ <-]. apply (bool_decide_unpack (is_sector small_data)). vm_compute. exact I.
Qed.

Lemma small_holds : holds 200 (dev_get small_disk) (fcache small_fs).
Proof. exact (cache_init_holds 200 static_blocks small_disk static_blocks_fresh small_disk_ok). Qed.

Lemma small_blocks k : 0 ≤ k < block_cnt (dev_get small_disk) 5 → k = 0.
Proof. change (block_cnt (dev_get small_disk) 5) with 1. lia. Qed.

Lemma small_file : file_ok (dev_get small_disk) 200 5.
Proof.
  constructor; [lia|vm_compute; reflexivity|vm_compute; split; discriminate| |].
  - intros k x ->%small_blocks. vm_compute. set_solver.
  - intros k ->%small_blocks. vm_compute. split; reflexivity.
Qed.

Lemma small_may_write : may_write (dev_get small_disk) 200 (Inode 5 1 false 0 false) 98 5.
Proof.
  constructor; [exact small_file| |done|done|vm_compute; split; discriminate|vm_compute; discriminate]. constructor.
  - intros k k' ->%small_blocks ->%small_blocks. done.
  - intros k ->%small_blocks. vm_compute. discriminate.
  - intros k k' ->%small_blocks ->%small_blocks. vm_compute. set_solver.
  - intros k ->%small_blocks. vm_compute. set_solver.
Qed.


(** Two ways in which creating a file stops the kernel, on a freshly formatted disk of 200
    sectors.  After a file with data has been removed, a new file gets its sector, whose
    old contents are still in the cache, and the assertion that the new sector number is unset
    fails.  A file larger than the disk is given sectors past its end, because the free map has
    four bits per sector, and the device panics, where inode_create should return false. *)
Theorem create_failures :
  run (ino ← new_file 512;
       match ino with
       | Some p => inode_remove p;; inode_close (Some p);; new_file 512
       | None => mret None
       end) = Err AssertFailed
  ∧ run (new_file (300 * 512)) = Err Panicked.
Proof. split; vm_compute; reflexivity. Qed.
