(* ===== verification/Directory.v ===== *)
(** * filesys/directory.c and filesys/filesys.c: directories and paths

    A directory is a file of 24-byte entries.  The state adds the [struct dir]s by address and
    the working directory of the current process to the state of [Inode].  A name or path is the
    bytes of the C string before its terminating null; the structures read from and written to
    the disk are their bytes, so that what [strlcpy] leaves behind a short name is what the source
    leaves.

    The loops over the entries of a directory read until a read is short; they have fuel, an
    argument of the functions here, which has to be larger than the number of entries. *)

From S2P Require Import Prelude Bytes Bitmap Block Cache Inode.

Record dir : Type := Dir { d_inode : Z; d_pos : Z }.

Record dfs (D : Type) : Type := DFS {
  base : fs D;
  dirs : gmap Z dir;
  working_dir : Z;             (* process_current ()->working_dir *)
}.
Arguments DFS {D} _ _ _.
Arguments base {D} _.
Arguments dirs {D} _.
Arguments working_dir {D} _.

(** ** Entries *)

Definition NAME_MAX : Z := 14.
Definition ENTRY_SIZE : Z := 24.     (* sizeof (struct dir_entry) *)
Definition name_ofs : nat := 4.
Definition in_use_ofs : nat := 19.
Definition is_dir_ofs : nat := 20.

Definition PATH_WD : list Z := [46].
Definition PATH_PARENT : list Z := [46; 46].

Definition e_sector (e : list Z) : Z := get32 e 0.
Definition e_in_use (e : list Z) : bool := negb (byte_at e in_use_ofs =? 0).
Definition e_is_dir (e : list Z) : bool := negb (byte_at e is_dir_ofs =? 0).
Definition e_name (e : list Z) : result (list Z) := c_string (drop name_ofs e).

Definition bool_byte (b : bool) : Z := if b then 1 else 0.

(** The members of an entry that [dir_add] sets; the name is copied by [strlcpy]. *)
Definition entry_set (e name : list Z) (sector : Z) (dir : bool) : list Z :=
  let e := put_bytes e in_use_ofs [1] in
  let e := put_bytes e name_ofs (take (Z.to_nat NAME_MAX) name ++ [0]) in
  let e := put32 e 0 sector in
  put_bytes e is_dir_ofs [bool_byte dir].

Section code.
Context {D : Type} {drv : BlockDriver D}.
Context (fuel : nat) (junk : list Z).    (* [junk]: what is on the stack before *)
Abbreviation M := (ST (dfs D)).

Definition on_fs {A} (m : ST (fs D) A) : M A := λ s,
  match m (base s) with
  | Ok (a, b) => Ok (a, DFS b (dirs s) (working_dir s))
  | Err e => Err e
  end.

Definition get_dir (d : Z) : M dir := λ s, lift (deref (dirs s !! d)) s.
Definition put_dir (p : Z) (d : dir) : M unit := modify (λ s, DFS (base s) (<[p := d]> (dirs s)) (working_dir s)).
Definition free_dir (p : Z) : M unit := modify (λ s, DFS (base s) (delete p (dirs s)) (working_dir s)).

Definition inode_write (ino : Z) (b : list Z) (ofs : Z) : M Z :=
  on_fs (inode_write_at (free_map_allocate DEPTH) ino b (Z.of_nat (length b)) ofs).

(** ** filesys/directory.c *)

Definition dir_open (inode : option Z) : M (option Z) :=
  d ← on_fs malloc;
  match inode, d with
  | Some ino, Some p => put_dir p (Dir ino 0);; mret (Some p)
  | _, _ => on_fs (inode_close inode);; mret None
  end.

Definition dir_open_root : M (option Z) := o ← on_fs (inode_open ROOT_DIR_SECTOR); dir_open o.

Definition dir_reopen (d : Z) : M (option Z) :=
  x ← get_dir d; ino ← on_fs (inode_reopen (d_inode x)); dir_open (Some ino).

Definition dir_close (d : option Z) : M unit :=
  match d with
  | Some p => x ← get_dir p; on_fs (inode_close (Some (d_inode x)));; free_dir p
  | None => mret tt
  end.

Definition dir_get_inode (d : Z) : M Z := x ← get_dir d; mret (d_inode x).

(** The loop of [lookup]: the entry and its offset. *)
Fixpoint lookup_loop (fuel : nat) (ino : Z) (name : list Z) (ofs : Z) : M (option (list Z * Z)) :=
  match fuel with
  | O => fail OutOfFuel
  | S fuel =>
      e ← on_fs (inode_read_at ino ENTRY_SIZE ofs);
      if Z.of_nat (length e) =? ENTRY_SIZE then
        if e_in_use e then
          n ← lift (e_name e);
          if bool_decide (name = n) then mret (Some (e, ofs))
          else lookup_loop fuel ino name (u32 (ofs + ENTRY_SIZE))
        else lookup_loop fuel ino name (u32 (ofs + ENTRY_SIZE))
      else mret None
  end.

Definition lookup (d : option Z) (name : list Z) : M (option (list Z * Z)) :=
  match d with
  | Some p => x ← get_dir p; lookup_loop fuel (d_inode x) name 0
  | None => fail AssertFailed
  end.

(** The inode and whether it is a directory. *)
Definition dir_lookup (d : option Z) (name : list Z) : M (option (Z * bool)) :=
  r ← lookup d name;
  match r with
  | Some (e, _) =>
      o ← on_fs (inode_open (e_sector e));
      match o with Some ino => mret (Some (ino, e_is_dir e)) | None => mret None end
  | None => mret None
  end.

(** The search for a free slot; [e] is the structure on the stack. *)
Fixpoint slot_loop (fuel : nat) (ino : Z) (e : list Z) (ofs : Z) : M (list Z * Z) :=
  match fuel with
  | O => fail OutOfFuel
  | S fuel =>
      b ← on_fs (inode_read_at ino ENTRY_SIZE ofs);
      let e := put_bytes e 0 b in
      if Z.of_nat (length b) =? ENTRY_SIZE then
        if e_in_use e then slot_loop fuel ino e (i32 (ofs + ENTRY_SIZE)) else mret (e, ofs)
      else mret (e, ofs)
  end.

Definition dir_add (d : option Z) (name : list Z) (inode_sector : Z) (is_dir : bool) : M bool :=
  match d with
  | None => fail AssertFailed
  | Some p =>
      if bool_decide (name = []) || (NAME_MAX <? Z.of_nat (length name)) then mret false
      else
        r ← lookup d name;
        match r with
        | Some _ => mret false
        | None =>
            x ← get_dir p;
            '(e, ofs) ← slot_loop fuel (d_inode x) junk 0;
            n ← inode_write (d_inode x) (entry_set e name inode_sector is_dir) ofs;
            mret (n =? ENTRY_SIZE)
        end
  end.

Fixpoint readdir_loop (fuel : nat) (d : Z) : M (option (list Z)) :=
  match fuel with
  | O => fail OutOfFuel
  | S fuel =>
      x ← get_dir d;
      e ← on_fs (inode_read_at (d_inode x) ENTRY_SIZE (d_pos x));
      if Z.of_nat (length e) =? ENTRY_SIZE then
        put_dir d (Dir (d_inode x) (i32 (d_pos x + ENTRY_SIZE)));;
        if e_in_use e then n ← lift (e_name e); mret (Some (take (Z.to_nat NAME_MAX) n))
        else readdir_loop fuel d
      else mret None
  end.

Definition dir_readdir (d : Z) : M (option (list Z)) := readdir_loop fuel d.

(** Whether a directory has no entries but "." and "..". *)
Fixpoint empty_loop (n : nat) (d : Z) : M bool :=
  match n with
  | O => fail OutOfFuel
  | S n =>
      o ← dir_readdir d;
      match o with
      | Some name => if bool_decide (name = PATH_WD ∨ name = PATH_PARENT) then empty_loop n d else mret false
      | None => mret true
      end
  end.

(** What [dir_remove] checks before it removes an entry: whether to go on. *)
Definition may_remove (e : list Z) (ino : Z) : M bool :=
  if e_is_dir e then
    sh ← on_fs (inode_is_shared ino);
    if sh : bool then mret false
    else
      to_delete ← dir_open (Some ino);
      match to_delete with
      | Some d => empty_loop fuel d
      | None => mret false
      end
  else mret true.

Definition dir_remove (d : option Z) (name : list Z) : M bool :=
  match d with
  | None => fail AssertFailed
  | Some p =>
      r ← lookup d name;
      match r with
      | None => mret false
      | Some (e, ofs) =>
          o ← on_fs (inode_open (e_sector e));
          match o with
          | None => mret false
          | Some ino =>
              ok ← may_remove e ino;
              success ← (if ok : bool then
                  x ← get_dir p;
                  n ← inode_write (d_inode x) (put_bytes e in_use_ofs [0]) ofs;
                  if n =? ENTRY_SIZE then on_fs (inode_remove ino);; mret true else mret false
                else mret false);
              on_fs (inode_close o);;
              mret success
          end
      end
  end.

Definition dir_create (sector entry_cnt parent : Z) : M bool :=
  ok ← on_fs (inode_create sector (i32 (entry_cnt * ENTRY_SIZE)));
  if negb ok then mret false
  else
    o ← on_fs (inode_open sector);
    new_dir ← dir_open o;
    (if parent =? 0 then mret tt else dir_add new_dir PATH_PARENT parent true;; mret tt);;
    dir_add new_dir PATH_WD sector true;;
    dir_close new_dir;;
    mret true.

(** ** filesys/filesys.c *)

(** The bytes of a path before the next slash or the end. *)
Fixpoint component (path : list Z) : list Z :=
  match path with
  | [] => []
  | c :: path => if c =? 47 then [] else c :: component path
  end.

(** The loop of [resolve_path] from directory [d]: the last directory and the name in it. *)
Fixpoint resolve_loop (n : nat) (d : option Z) (path : list Z) : M (option (option Z * list Z)) :=
  match n with
  | O => fail OutOfFuel
  | S n =>
      let name := component path in
      let rest := drop (length name) path in
      if NAME_MAX <? Z.of_nat (length name) then dir_close d;; mret None
      else
        match rest with
        | [] => mret (Some (d, if bool_decide (name = []) then PATH_WD else name))
        | _ :: rest =>
            r ← dir_lookup d name;
            match r with
            | Some (ino, true) =>
                dir_close d;;
                d ← dir_open (Some ino);
                match d with
                | Some _ => resolve_loop n d rest
                | None => mret None
                end
            | _ => dir_close d;; mret None
            end
        end
  end.

Definition resolve_path (path : list Z) : M (option (option Z * list Z)) :=
  s ← gets id;
  match path with
  | [] => mret None
  | 47 :: path => d ← dir_open_root; resolve_loop (S (length path)) d path
  | 46 :: 47 :: path => d ← dir_reopen (working_dir s); resolve_loop (S (S (length path))) d (47 :: path)
  | _ => d ← dir_reopen (working_dir s); resolve_loop (S (length path)) d path
  end.

Definition filesys_get_inumber (d : option Z) : M Z :=
  p ← lift (deref d); ino ← dir_get_inode p; on_fs (inode_get_inumber ino).

Definition filesys_create (path : list Z) (initial_size : Z) (is_dir : bool) : M bool :=
  r ← resolve_path path;
  match r with
  | None => mret false
  | Some (d, name) =>
      o ← on_fs (free_map_allocate DEPTH);
      match o with
      | None => dir_close d;; mret false
      | Some sector =>
          ok ← (if is_dir then parent ← filesys_get_inumber d; dir_create sector initial_size parent
                else on_fs (inode_create sector initial_size));
          success ← (if ok : bool then dir_add d name sector is_dir else mret false);
          (if negb success && negb (sector =? 0) then on_fs (free_map_release sector) else mret tt);;
          dir_close d;;
          mret success
      end
  end.

(** [is_dir] is not set when there is no entry; the result is a null pointer then. *)
Definition filesys_open (path : list Z) : M (option Z) :=
  r ← resolve_path path;
  match r with
  | None => mret None
  | Some (d, name) =>
      o ← match d with Some _ => dir_lookup d name | None => mret None end;
      dir_close d;;
      match o with
      | Some (ino, dir) => on_fs (file_open (Some ino) dir)
      | None => on_fs (file_open None false)
      end
  end.

Definition filesys_remove (path : list Z) : M bool :=
  r ← resolve_path path;
  match r with
  | None => mret false
  | Some (d, name) =>
      success ← match d with Some _ => dir_remove d name | None => mret false end;
      dir_close d;;
      mret success
  end.

Definition do_format : M unit :=
  on_fs free_map_create;;
  ok ← dir_create ROOT_DIR_SECTOR 4 ROOT_DIR_SECTOR;
  if ok : bool then on_fs free_map_close else fail Panicked.

(** [bits]: what is in the memory that [bitmap_create] gets. *)
Definition filesys_init (format : bool) (bits : list Z) : M unit :=
  on_fs inode_init;;
  on_fs (free_map_init bits);;
  (if format then do_format else mret tt);;
  on_fs free_map_open.

Definition filesys_done : M unit :=
  on_fs (on_cache refresh_cache);;
  on_fs free_map_close.
End code.
