(* ===== verification/DirThms.v ===== *)
(** * What directories promise

    A directory as the list of its 24-byte entries, and as a map from names to the sector of an
    inode and whether it is a directory ([names]).  [lookup] computes that map, [dir_add] binds
    one name more and [dir_readdir] lists the names. *)

From S2P Require Import Prelude Bytes Bitmap Block Cache CacheThms Inode InodeIO FileThms Directory.

(** ** Entries *)

Definition ENTRY : nat := 24.

Fixpoint chunks (k : nat) (b : list Z) : list (list Z) :=
  match k with
  | O => []
  | S k => take ENTRY b :: chunks k (drop ENTRY b)
  end.

Definition entries (b : list Z) : list (list Z) := chunks (length b / ENTRY) b.

(** The name an entry binds. *)
Definition name_of (e : list Z) : option (list Z) :=
  if e_in_use e then match e_name e with Ok n => Some n | Err _ => None end else None.

(** The entry of a name, with the offset it is at, in a directory that begins at [ofs]. *)
Fixpoint find_entry (es : list (list Z)) (name : list Z) (ofs : Z) : option (list Z * Z) :=
  match es with
  | [] => None
  | e :: es =>
      if bool_decide (name_of e = Some name) then Some (e, ofs)
      else find_entry es name (ofs + ENTRY_SIZE)
  end.

(** The directory as a map. *)
Definition names (es : list (list Z)) (name : list Z) : option (Z * bool) :=
  match find_entry es name 0 with
  | Some (e, _) => Some (e_sector e, e_is_dir e)
  | None => None
  end.

(** The names in the order of the entries. *)
Definition listing (es : list (list Z)) : list (list Z) :=
  omap name_of es.

(** The first slot that is free, or the end. *)
Fixpoint free_slot (es : list (list Z)) : nat :=
  match es with
  | [] => 0
  | e :: es => if e_in_use e then S (free_slot es) else 0
  end.

Definition valid_name (name : list Z) : Prop := is_name name ∧ name ≠ [] ∧ Z.of_nat (length name) ≤ NAME_MAX.

(** A name that is used fits its field. *)
Definition entry_ok (e : list Z) : Prop :=
  length e = ENTRY ∧ (e_in_use e = true → ∃ n, e_name e = Ok n ∧ Z.of_nat (length n) ≤ NAME_MAX).

Lemma length_chunks k b : length (chunks k b) = k.
Proof. revert b. induction k; intros b; simpl; auto. Qed.

Lemma drop_chunks j k b : drop j (chunks k b) = chunks (k - j) (drop (ENTRY * j) b).
Proof.
  revert k b. induction j as [|j IH]; intros k b.
  - by rewrite Nat.mul_0_r, !drop_0, Nat.sub_0_r.
  - destruct k as [|k]; [done|]. cbn [chunks drop]. rewrite IH, drop_drop. f_equal. f_equal. lia.
Qed.

Lemma chunks_forall (P : Z → Prop) k b e : Forall P b → e ∈ chunks k b → Forall P e.
Proof.
  revert b. induction k as [|k IH]; intros b Hb He; [by apply not_elem_of_nil in He|].
  apply elem_of_cons in He as [->|He]; [by apply Forall_take|]. apply (IH (drop ENTRY b)); [by apply Forall_drop|done].
Qed.

(** Replacing or appending an entry. *)
Lemma chunks_put k b j e :
  length b = (ENTRY * k)%nat → length e = ENTRY → (j ≤ k)%nat →
  chunks (max k (S j)) (put_bytes b (ENTRY * j) e) = take j (chunks k b) ++ e :: drop (S j) (chunks k b).
Proof.
  unfold put_bytes. revert k b. induction j as [|j IH]; intros k b Hb He Hj.
  - rewrite Nat.mul_0_r, !take_0, !app_nil_l, Nat.add_0_l, He. destruct k as [|k].
    + change (0 `max` 1)%nat with 1%nat. cbn [chunks drop]. by rewrite take_app_length'.
    + replace (S k `max` 1)%nat with (S k) by lia. cbn [chunks drop].
      by rewrite take_app_length', drop_app_length' by done.
  - destruct k as [|k]; [lia|]. replace (S k `max` S (S j))%nat with (S (k `max` S j)) by lia.
    cbn [chunks]. rewrite firstn_cons, skipn_cons, <- app_comm_cons. f_equal.
    + rewrite take_app_le by (rewrite length_take; unfold ENTRY in *; lia).
      rewrite take_take. f_equal. unfold ENTRY. lia.
    + rewrite <- (IH k (drop ENTRY b)) by (try rewrite length_drop; lia). f_equal.
      rewrite drop_app_le by (rewrite length_take; unfold ENTRY in *; lia). f_equal.
      * rewrite skipn_firstn_comm. f_equal. unfold ENTRY. lia.
      * f_equal. rewrite drop_drop. f_equal. lia.
Qed.

Lemma entries_put b k j e :
  length b = (ENTRY * k)%nat → length e = ENTRY → (j ≤ k)%nat →
  entries (put_bytes b (ENTRY * j) e) = take j (entries b) ++ e :: drop (S j) (entries b).
Proof.
  intros Hb He Hj. unfold entries. rewrite length_put_bytes, Hb, He by (unfold ENTRY in *; lia).
  rewrite Nat.mul_comm, Nat.div_mul by done. rewrite <- (chunks_put k b j e Hb He Hj). f_equal.
  symmetry. apply (Nat.div_unique _ _ _ 0); unfold ENTRY; lia.
Qed.

(** ** The map *)

Lemma find_entry_app es es' name ofs :
  find_entry (es ++ es') name ofs
  = match find_entry es name ofs with
    | Some r => Some r
    | None => find_entry es' name (ofs + ENTRY_SIZE * Z.of_nat (length es))
    end.
Proof.
  revert ofs. induction es as [|e es IH]; intros ofs; cbn [find_entry app].
  - f_equal. unfold ENTRY_SIZE. simpl. lia.
  - case_match; [done|]. rewrite IH. case_match; [done|]. f_equal. simpl. unfold ENTRY_SIZE. lia.
Qed.

Lemma find_entry_ofs es name ofs ofs' :
  find_entry es name ofs' = (λ '(e, o), (e, o + (ofs' - ofs))) <$> find_entry es name ofs.
Proof.
  revert ofs ofs'. induction es as [|e es IH]; intros ofs ofs'; cbn [find_entry]; [done|].
  case_match; simpl; [do 2 f_equal; lia|]. rewrite (IH (ofs + ENTRY_SIZE)). by replace (ofs' + ENTRY_SIZE - (ofs + ENTRY_SIZE)) with (ofs' - ofs) by lia.
Qed.

Lemma names_cons e es name :
  names (e :: es) name
  = if bool_decide (name_of e = Some name) then Some (e_sector e, e_is_dir e) else names es name.
Proof.
  unfold names. cbn [find_entry]. destruct (bool_decide (name_of e = Some name)); [done|].
  rewrite (find_entry_ofs es name 0).
  by destruct (find_entry es name 0) as [[? ?]|].
Qed.

Lemma names_app es es' name :
  names (es ++ es') name = match names es name with Some r => Some r | None => names es' name end.
Proof.
  induction es as [|e es IH]; [done|]. rewrite <- app_comm_cons, !names_cons, IH.
  by destruct (bool_decide (name_of e = Some name)).
Qed.

Lemma names_find es name : names es name = None ↔ find_entry es name 0 = None.
Proof. unfold names. by destruct (find_entry es name 0) as [[? ?]|]. Qed.

Lemma names_None es name : names es name = None ↔ name ∉ listing es.
Proof.
  induction es as [|e es IH]; [split; [intros _; apply not_elem_of_nil|done]|].
  rewrite names_cons. unfold listing. simpl. fold (listing es).
  destruct (bool_decide_reflect (name_of e = Some name)) as [->|Hne]; [set_solver|]. rewrite IH.
  destruct (name_of e); set_solver.
Qed.

(** Around the entry of a slot. *)
Lemma names_split es j name :
  (∀ e', es !! j = Some e' → name_of e' ≠ Some name) →
  names es name = match names (take j es) name with Some r => Some r | None => names (drop (S j) es) name end.
Proof.
  intros Hj. rewrite <- (take_drop j es) at 1. rewrite names_app. destruct (names (take j es) name); [done|].
  destruct (es !! j) as [e'|] eqn:E.
  - rewrite (drop_S es e' j E), names_cons, bool_decide_false by (by apply Hj). done.
  - apply lookup_ge_None in E. by rewrite !drop_ge by lia.
Qed.

(** Binding a name in the slot of an entry that is not used, or at the end. *)
Lemma names_insert es j e name v name' :
  (∀ e', es !! j = Some e' → name_of e' = None) → names es name = None →
  name_of e = Some name → (e_sector e, e_is_dir e) = v →
  names (take j es ++ e :: drop (S j) es) name' = if bool_decide (name' = name) then Some v else names es name'.
Proof.
  intros Hj Hn Hname Hv. rewrite names_app, names_cons, Hname, Hv.
  assert (Hes := λ y, names_split es j y ltac:(intros e' He'; rewrite (Hj e' He'); done)).
  rewrite Hes in Hn. rewrite Hes. destruct (bool_decide_reflect (name' = name)) as [->|Hne].
  - destruct (names (take j es) name); [done|]. by rewrite bool_decide_true.
  - rewrite (bool_decide_false (Some name = Some name')) by congruence. done.
Qed.

Lemma listing_app es es' : listing (es ++ es') = listing es ++ listing es'.
Proof. apply omap_app. Qed.

Lemma listing_insert es j e name :
  (∀ e', es !! j = Some e' → name_of e' = None) → name_of e = Some name →
  listing (take j es ++ e :: drop (S j) es) ≡ₚ name :: listing es.
Proof.
  intros Hj Hname. rewrite listing_app. unfold listing at 2. simpl. rewrite Hname. fold (listing (drop (S j) es)).
  assert (listing es = listing (take j es) ++ listing (drop (S j) es)) as ->; [|by rewrite <- Permutation_middle].
  rewrite <- (take_drop j es) at 1. rewrite listing_app. f_equal. destruct (es !! j) as [e'|] eqn:E.
  - rewrite (drop_S es e' j E). unfold listing. simpl. by rewrite (Hj e').
  - apply lookup_ge_None in E. by rewrite !drop_ge by lia.
Qed.

(** Erasing the one entry of a name. *)
Lemma names_erase a e b e0 name name' :
  NoDup (listing (a ++ e :: b)) → name_of e = Some name → name_of e0 = None →
  names (a ++ e0 :: b) name' = (if bool_decide (name' = name) then None else names (a ++ e :: b) name')
  ∧ NoDup (listing (a ++ e0 :: b)).
Proof.
  rewrite !listing_app. intros Hnd Hname H0. unfold listing at 2 in Hnd. unfold listing at 2. simpl in *.
  rewrite Hname in Hnd. rewrite H0. fold (listing b) in *.
  rewrite <- Permutation_middle in Hnd. apply NoDup_cons in Hnd as [Hni Hnd]. split; [|done].
  rewrite !names_app, !names_cons, Hname, H0, (bool_decide_false (None = _)) by done.
  destruct (bool_decide_reflect (name' = name)) as [->|Hne].
  - rewrite (proj2 (names_None a name)), (proj2 (names_None b name)) by set_solver. done.
  - by rewrite (bool_decide_false (Some name = Some name')) by congruence.
Qed.

Lemma find_entry_Some es name ofs e o :
  find_entry es name ofs = Some (e, o) →
  ∃ a b, es = a ++ e :: b ∧ o = ofs + ENTRY_SIZE * Z.of_nat (length a) ∧ name_of e = Some name.
Proof.
  revert ofs. induction es as [|e' es IH]; intros ofs; cbn [find_entry]; [done|].
  destruct (bool_decide_reflect (name_of e' = Some name)) as [Hn|_].
  - intros [= -> ->]. exists [], es. split_and!; [done|simpl; lia|done].
  - intros (a & b & -> & -> & Hn)%IH. exists (e' :: a), b. split_and!; [done|simpl length; lia|done].
Qed.

Lemma free_slot_le es : (free_slot es ≤ length es)%nat.
Proof. induction es as [|e es IH]; simpl; [lia|]. case_match; lia. Qed.

Lemma free_slot_free es e : es !! free_slot es = Some e → name_of e = None.
Proof.
  induction es as [|e' es IH]; simpl; [done|]. unfold name_of at 1.
  destruct (e_in_use e') eqn:E; simpl; [done|]. intros [= ->]. by rewrite E.
Qed.

(** ** The entry [dir_add] writes *)

(** The fields of an entry. *)
Lemma entry_fields e :
  length e = ENTRY →
  ∃ (sec nm : list Z) (u d : Z) (pad : list Z), e = sec ++ nm ++ [u] ++ [d] ++ pad ∧ length sec = 4%nat ∧ length nm = 15%nat ∧ length pad = 3%nat.
Proof.
  intros He. unfold ENTRY in He. destruct (drop 19 e) as [|u [|d pad]] eqn:E;
    apply (f_equal (@length Z)) in E as El; rewrite length_drop, He in El; try done.
  exists (take 4 e), (take 15 (drop 4 e)), u, d, pad. rewrite !length_take, length_drop, He. split; [|simpl in El; lia].
  rewrite <- (take_drop 4 e) at 1. f_equal. rewrite <- (take_drop 15 (drop 4 e)) at 1. f_equal. rewrite drop_drop. exact E.
Qed.

Lemma entry_set_bytes sec nm u d pad name sector dir :
  length sec = 4%nat → length nm = 15%nat → Z.of_nat (length name) ≤ NAME_MAX →
  entry_set (sec ++ nm ++ [u] ++ [d] ++ pad) name sector dir
  = word_bytes sector ++ (name ++ 0 :: drop (S (length name)) nm) ++ [1] ++ [bool_byte dir] ++ pad.
Proof.
  intros Hs Hm Hn. unfold NAME_MAX in Hn. unfold entry_set. rewrite (take_ge name) by (unfold NAME_MAX; lia).
  assert (Hnm : put_bytes nm 0 (name ++ [0]) = name ++ 0 :: drop (S (length name)) nm).
  { unfold put_bytes. rewrite take_0, app_nil_l, <- app_assoc, length_app, Nat.add_0_l, Nat.add_1_r. done. }
  unfold put32. rewrite (app_assoc sec nm), (put_bytes_mid _ [u]) by (rewrite ?length_app; simpl; unfold in_use_ofs; lia).
  rewrite <- app_assoc, (put_bytes_mid sec nm) by (rewrite ?length_app; simpl; unfold name_ofs; lia).
  rewrite put_bytes_l, (put_bytes_all sec), Hnm by (rewrite ?Hs; done).
  set (f := name ++ _). assert (length f = 15%nat) as Hf by (unfold f; rewrite length_app; simpl; rewrite length_drop; lia).
  rewrite !app_assoc, <- (app_assoc _ [d]), (put_bytes_mid _ [d]) by (rewrite ?length_app, ?Hf; done).
  by rewrite <- !app_assoc.
Qed.

Lemma entry_set_ok e name sector dir :
  length e = ENTRY → Forall is_u8 e → valid_name name → is_u32 sector →
  let e' := entry_set e name sector dir in
  length e' = ENTRY ∧ Forall is_u8 e' ∧ e_in_use e' = true ∧ e_name e' = Ok name ∧ e_sector e' = sector ∧ e_is_dir e' = dir.
Proof.
  intros He Hu (Hname & _ & Hlen) Hs. destruct (entry_fields e He) as (sec & nm & u & d & pad & -> & Hls & Hln & Hlp).
  cbn zeta. rewrite entry_set_bytes by done. set (f := name ++ _).
  assert (length f = 15%nat) as Hf by (unfold f, NAME_MAX in *; rewrite length_app; simpl; rewrite length_drop; lia).
  split_and!.
  - rewrite !length_app, Hf, Hlp. done.
  - rewrite !Forall_app in *. destruct Hu as (_ & Hnm & _ & _ & Hpad). split_and!; try done; [apply word_bytes_u8| | |].
    + unfold f. apply Forall_app. split; [by eapply Forall_impl; [apply Hname|intros ? []]|].
      constructor; [done|]. by apply Forall_drop.
    + by repeat constructor.
    + by destruct dir; repeat constructor.
  - unfold e_in_use, in_use_ofs. rewrite byte_at_app_r, byte_at_app_r by (rewrite ?Hf; simpl; lia). by rewrite Hf.
  - unfold e_name, name_ofs. rewrite drop_app_length' by done. unfold f. rewrite <- app_assoc. by apply c_string_app.
  - by apply get32_word.
  - unfold e_is_dir, is_dir_ofs. rewrite !byte_at_app_r by (rewrite ?Hf; simpl; lia). rewrite Hf. by destruct dir.
Qed.

(** ** Reading a directory *)

Section dirs.
Context {D : Type} {drv : BlockDriver D} {laws : BlockDriverLaws D}.

Definition cached (c : cache D) (s : dfs D) : dfs D := DFS (with_cache c (base s)) (dirs s) (working_dir s).

(** What the lemmas need of an open directory: a file that holds whole entries and does not
    reach the indirect sectors. *)
Record dir_ok (n : Z) (m : Z → list Z) (s : dfs D) (x : dir) (i : inode) : Prop := {
  dk_holds : holds n m (fcache (base s));
  dk_inode : inodes (base s) !! d_inode x = Some i;
  dk_file : file_ok m n (i_sector i);
  dk_whole : i_length (m (i_sector i)) mod ENTRY_SIZE = 0;
  dk_small : i_length (m (i_sector i)) < NUM_DIRECT * BLOCK_SECTOR_SIZE;
  dk_entries : Forall entry_ok (entries (file_bytes m (i_sector i)));
  dk_unique : NoDup (listing (entries (file_bytes m (i_sector i))));
}.

Lemma dir_ok_cached n m s x i c : dir_ok n m s x i → holds n m c → dir_ok n m (cached c s) x i.
Proof. intros [] Hh. by constructor. Qed.

Lemma file_bytes_u8 n m (c : cache D) sec : holds n m c → file_ok m n sec → Forall is_u8 (file_bytes m sec).
Proof.
  intros Hh Hf. destruct (fo_length _ _ _ Hf) as [Hl _]. apply Forall_forall. intros z Hz.
  apply list_elem_of_fmap in Hz as (j & -> & Hj%elem_of_seq). unfold file_byte.
  set (p := 0 + Z.of_nat j). pose proof (ceil_covers _ Hl) as Hc. fold (block_cnt m sec) in Hc.
  pose proof (block_index p (block_cnt m sec) ltac:(lia)) as Hk.
  destruct (holds_sector n m c _ Hh (fo_block _ _ _ Hf _ Hk)) as [Hlen Hu].
  pose proof (Z.mod_pos_bound p BLOCK_SECTOR_SIZE ltac:(done)) as Hm.
  destruct (lookup_lt_is_Some_2 (m (block_of m (m sec) (p / BLOCK_SECTOR_SIZE))) (Z.to_nat (p mod BLOCK_SECTOR_SIZE)))
    as [y Hy]; [lia|].
  unfold byte_at. rewrite (nth_lookup_Some _ _ _ _ Hy). by eapply Forall_lookup_1.
Qed.

Section dir.
Context (n : Z) (m : Z → list Z) (x : dir) (i : inode).
Abbreviation bytes := (file_bytes m (i_sector i)).
Abbreviation es := (entries bytes).

Lemma length_bytes s : dir_ok n m s x i →
  length bytes = (ENTRY * length es)%nat ∧ Z.of_nat (length bytes) < 30720 ∧ Z.of_nat (length bytes) = i_length (m (i_sector i)).
Proof.
  intros Hd. destruct (fo_length _ _ _ (dk_file _ _ _ _ _ Hd)) as [Hl _].
  pose proof (dk_small _ _ _ _ _ Hd) as Hs. pose proof (dk_whole _ _ _ _ _ Hd) as Hw.
  unfold entries. rewrite length_chunks. unfold file_bytes. rewrite length_slice.
  unfold NUM_DIRECT, BLOCK_SECTOR_SIZE, ENTRY_SIZE, ENTRY in *.
  set (len := i_length _) in *. split_and!; [|lia|lia].
  pose proof (Z_div_mod_eq_full len 24). pose proof (Nat.div_mod_eq (Z.to_nat len) 24).
  pose proof (Nat.mod_upper_bound (Z.to_nat len) 24 ltac:(lia)). lia.
Qed.

(** One read of the loops: an entry, or nothing at the end. *)
Lemma read_entry s j :
  dir_ok n m s x i → (j ≤ length es)%nat →
  ∃ c', on_fs (inode_read_at (d_inode x) ENTRY_SIZE (ENTRY_SIZE * Z.of_nat j)) s
      = Ok (default [] (es !! j), cached c' s) ∧ dir_ok n m (cached c' s) x i.
Proof.
  intros Hd Hj. destruct (length_bytes s Hd) as (Hl1 & Hl2 & Hl3).
  destruct (inode_read_at_spec n m (base s) (d_inode x) i ENTRY_SIZE (ENTRY_SIZE * Z.of_nat j)
    (dk_holds _ _ _ _ _ Hd) (dk_inode _ _ _ _ _ Hd) (dk_file _ _ _ _ _ Hd)) as (c' & E & Hh).
  { unfold may_read, ENTRY_SIZE, ENTRY in *. pose proof (dk_small _ _ _ _ _ Hd) as Hs.
    unfold NUM_DIRECT, BLOCK_SECTOR_SIZE in *. split_and!; [lia|lia|lia|]. right. lia. }
  exists c'. split; [|by apply dir_ok_cached]. unfold on_fs. rewrite E. do 2 f_equal.
  replace (Z.to_nat (ENTRY_SIZE * Z.of_nat j)) with (ENTRY * j)%nat by (unfold ENTRY_SIZE, ENTRY; lia).
  change (Z.to_nat ENTRY_SIZE) with ENTRY. destruct (decide (j < length es)%nat) as [Hlt|Hge].
  - destruct (lookup_lt_is_Some_2 es j Hlt) as [e He]. rewrite He. simpl.
    pose proof (drop_S _ _ _ He) as Hdr. unfold entries in Hdr at 1. rewrite drop_chunks in Hdr.
    unfold entries in Hlt. rewrite length_chunks in Hlt.
    destruct (length bytes / ENTRY - j)%nat eqn:Ek; [lia|]. cbn [chunks] in Hdr. by injection Hdr.
  - rewrite (proj2 (lookup_ge_None es j)) by lia. rewrite drop_ge by (unfold ENTRY in *; lia); done.
Qed.

Lemma entry_at s j e : dir_ok n m s x i → es !! j = Some e → length e = ENTRY ∧
  (e_in_use e = true → ∃ nm, e_name e = Ok nm ∧ Z.of_nat (length nm) ≤ NAME_MAX).
Proof. intros Hd He. eapply (Forall_lookup_1 entry_ok); [apply (dk_entries _ _ _ _ _ Hd)|done]. Qed.

Lemma next_ofs s j : dir_ok n m s x i → (j < length es)%nat →
  u32 (ENTRY_SIZE * Z.of_nat j + ENTRY_SIZE) = ENTRY_SIZE * Z.of_nat (S j)
  ∧ i32 (ENTRY_SIZE * Z.of_nat j + ENTRY_SIZE) = ENTRY_SIZE * Z.of_nat (S j).
Proof.
  intros Hd Hj. destruct (length_bytes s Hd) as (Hl1 & Hl2 & _). unfold ENTRY_SIZE, ENTRY in *.
  rewrite u32_small, i32_small by (unfold_ints; lia). lia.
Qed.

Lemma lookup_loop_spec fuel s name j :
  dir_ok n m s x i → (j ≤ length es < j + fuel)%nat →
  ∃ c', lookup_loop fuel (d_inode x) name (ENTRY_SIZE * Z.of_nat j) s
      = Ok (find_entry (drop j es) name (ENTRY_SIZE * Z.of_nat j), cached c' s)
    ∧ dir_ok n m (cached c' s) x i.
Proof.
  revert s j. induction fuel as [|fuel IH]; intros s j Hd Hj; [lia|]. cbn [lookup_loop].
  destruct (read_entry s j Hd ltac:(lia)) as (c1 & E1 & Hd1). unfold mbind, st_bind. rewrite E1.
  destruct (es !! j) as [e|] eqn:He; cbn [from_option id].
  - destruct (entry_at s j e Hd He) as [Hlen Hname]. rewrite Hlen. change (Z.of_nat ENTRY =? ENTRY_SIZE) with true.
    cbv iota. rewrite (drop_S _ _ _ He). cbn [find_entry].
    assert (Hlt : (j < length es)%nat) by (by eapply lookup_lt_Some).
    destruct (next_ofs s j Hd Hlt) as [-> _].
    destruct (IH (cached c1 s) (S j) Hd1 ltac:(lia)) as (c2 & E2 & Hd2). 
    replace (ENTRY_SIZE * Z.of_nat j + ENTRY_SIZE) with (ENTRY_SIZE * Z.of_nat (S j)) by lia.
    unfold name_of. destruct (e_in_use e).
    + destruct Hname as (nm & Hnm & _); [done|]. rewrite Hnm. cbn [lift].
      destruct (bool_decide_reflect (name = nm)) as [->|Hne].
      * rewrite bool_decide_true by done. by exists c1.
      * rewrite bool_decide_false by congruence. exists c2. rewrite E2. done.
    + rewrite bool_decide_false by done. exists c2. by rewrite E2.
  - apply lookup_ge_None in He. rewrite drop_ge by done. by exists c1.
Qed.

Lemma slot_loop_spec fuel s e j :
  dir_ok n m s x i → (j ≤ length es < j + fuel)%nat → length e = ENTRY → Forall is_u8 e →
  ∃ e' c', slot_loop fuel (d_inode x) e (ENTRY_SIZE * Z.of_nat j) s
      = Ok ((e', ENTRY_SIZE * Z.of_nat (j + free_slot (drop j es))), cached c' s)
    ∧ dir_ok n m (cached c' s) x i ∧ length e' = ENTRY ∧ Forall is_u8 e'.
Proof.
  revert s e j. induction fuel as [|fuel IH]; intros s e j Hd Hj Hl Hu; [lia|]. cbn [slot_loop].
  destruct (read_entry s j Hd ltac:(lia)) as (c1 & E1 & Hd1). unfold mbind, st_bind. rewrite E1.
  destruct (es !! j) as [e1|] eqn:He; cbn [from_option id].
  - destruct (entry_at s j e1 Hd He) as [Hlen _]. rewrite Hlen. change (Z.of_nat ENTRY =? ENTRY_SIZE) with true.
    cbv iota. rewrite put_bytes_all by (by rewrite Hl, Hlen). rewrite (drop_S _ _ _ He). cbn [free_slot].
    assert (Hlt : (j < length es)%nat) by (by eapply lookup_lt_Some).
    destruct (next_ofs s j Hd Hlt) as [_ ->].
    assert (Hu1 : Forall is_u8 e1).
    { apply list_elem_of_lookup_2 in He. apply (chunks_forall is_u8 (length bytes / ENTRY) bytes); [|done].
      eapply file_bytes_u8; apply Hd. }
    destruct (e_in_use e1).
    + destruct (IH (cached c1 s) e1 (S j) Hd1 ltac:(lia) Hlen Hu1) as (e2 & c2 & E2 & Hd2 & H1 & H2).
      exists e2, c2. rewrite E2. rewrite Nat.add_succ_comm. done.
    + exists e1, c1. rewrite Nat.add_0_r. done.
  - apply lookup_ge_None in He. rewrite drop_ge by done. exists e, c1. cbn [free_slot]. rewrite Nat.add_0_r. done.
Qed.

Lemma lookup_spec fuel s p name :
  dir_ok n m s x i → dirs s !! p = Some x → (length es < fuel)%nat →
  ∃ c', lookup fuel (Some p) name s = Ok (find_entry es name 0, cached c' s) ∧ dir_ok n m (cached c' s) x i.
Proof.
  intros Hd Hp Hf. destruct (lookup_loop_spec fuel s name 0 Hd ltac:(lia)) as (c' & E & Hd').
  exists c'. split; [|done]. unfold lookup, mbind, st_bind, get_dir. rewrite Hp. cbn [lift deref].
  rewrite drop_0 in E. exact E.
Qed.

(** Writing an entry over a slot or at the end. *)
Lemma write_dir_entry s j e :
  dir_ok n m s x i → (j ≤ length es)%nat → entry_ok e → Forall is_u8 e →
  NoDup (listing (take j es ++ e :: drop (S j) es)) →
  may_write m n i (ENTRY_SIZE * Z.of_nat j) ENTRY_SIZE →
  ENTRY_SIZE * (Z.of_nat j + 1) < NUM_DIRECT * BLOCK_SECTOR_SIZE →
  ∃ m' c', inode_write (d_inode x) e (ENTRY_SIZE * Z.of_nat j) s = Ok (ENTRY_SIZE, cached c' s)
    ∧ dir_ok n m' (cached c' s) x i
    ∧ entries (file_bytes m' (i_sector i)) = take j es ++ e :: drop (S j) es
    ∧ ∀ y, y ≠ i_sector i → (∀ k, 0 ≤ k < block_cnt m (i_sector i) → y ≠ block_of m (m (i_sector i)) k) → m' y = m y.
Proof.
  intros Hd Hj He Hu Hnd Hmw Hroom. pose proof (proj1 He) as Hl. destruct (length_bytes s Hd) as (Hl1 & Hl2 & Hl3).
  destruct (inode_write_at_spec (free_map_allocate DEPTH) n m (base s) (d_inode x) i (ENTRY_SIZE * Z.of_nat j) e)
    as (m' & c' & E & Hh & Hf' & _ & Hb & Hfr); [apply Hd|apply Hd|done|by rewrite Hl|].
  replace (Z.to_nat (ENTRY_SIZE * Z.of_nat j)) with (ENTRY * j)%nat in Hb by (unfold ENTRY_SIZE, ENTRY; lia).
  pose proof (f_equal (@length Z) Hb) as Hlen. rewrite length_put_bytes, Hl in Hlen by (unfold ENTRY in *; lia).
  unfold file_bytes at 1 in Hlen. rewrite length_slice in Hlen. destruct (fo_length _ _ _ Hf') as [Hl' _].
  assert (He' : entries (file_bytes m' (i_sector i)) = take j es ++ e :: drop (S j) es).
  { rewrite Hb. by apply (entries_put _ (length es)). }
  exists m', c'. split; [|split; [|by split]].
  - unfold inode_write, on_fs. rewrite E, Hl. done.
  - constructor; try apply Hd; try done.
    + assert (∃ k : nat, i_length (m' (i_sector i)) = 24 * Z.of_nat k) as [k ->].
      { exists (max (length es) (S j)). unfold ENTRY in *. lia. } unfold ENTRY_SIZE. by rewrite Z.mul_comm, Z.mod_mul.
    + unfold ENTRY_SIZE, ENTRY, NUM_DIRECT, BLOCK_SECTOR_SIZE in *. lia.
    + rewrite He'. pose proof (dk_entries _ _ _ _ _ Hd) as Hes. apply Forall_app. split; [by apply Forall_take|].
      constructor; [done|]. by apply Forall_drop.
    + by rewrite He'.
Qed.

(** Adding a name. *)
Lemma dir_add_spec fuel junk s p name sector isdir :
  dir_ok n m s x i → dirs s !! p = Some x → (length es < fuel)%nat → length junk = ENTRY → Forall is_u8 junk →
  valid_name name → names es name = None → is_u32 sector →
  may_write m n i (ENTRY_SIZE * Z.of_nat (free_slot es)) ENTRY_SIZE →
  ENTRY_SIZE * (Z.of_nat (free_slot es) + 1) < NUM_DIRECT * BLOCK_SECTOR_SIZE →
  ∃ m' c', dir_add fuel junk (Some p) name sector isdir s = Ok (true, cached c' s)
    ∧ dir_ok n m' (cached c' s) x i
    ∧ ∀ name', names (entries (file_bytes m' (i_sector i))) name'
        = if bool_decide (name' = name) then Some (sector, isdir) else names es name'.
Proof.
  intros Hd Hp Hfuel Hjl Hju Hv Hn Hsec Hmw Hroom. pose proof Hv as (_ & Hne & Hlen).
  destruct (lookup_spec fuel s p name Hd Hp Hfuel) as (c1 & E1 & Hd1).
  rewrite (proj1 (names_find _ _) Hn) in E1.
  destruct (slot_loop_spec fuel (cached c1 s) junk 0 Hd1 ltac:(lia) Hjl Hju) as (e & c2 & E2 & Hd2 & Hel & Heu).
  rewrite drop_0, Nat.add_0_l in E2.
  destruct (entry_set_ok e name sector isdir Hel Heu Hv Hsec) as (H1 & H2 & H3 & H4 & H5 & H6).
  set (e' := entry_set e name sector isdir) in *.
  assert (Hno : name_of e' = Some name) by (unfold name_of; by rewrite H3, H4).
  destruct (write_dir_entry (cached c2 s) (free_slot es) e' Hd2) as (m' & c3 & E3 & Hd3 & He3 & _); try done.
  - apply free_slot_le.
  - split; [done|]. eauto.
  - rewrite (listing_insert es _ e' name); [|apply free_slot_free|done]. apply NoDup_cons.
    split; [by apply names_None|apply Hd].
  - exists m', c3. split; [|split; [done|]].
    + unfold dir_add. rewrite bool_decide_false, (proj2 (Z.ltb_ge _ _)) by done. cbn [orb].
      unfold mbind, st_bind. rewrite E1. unfold get_dir. cbn [dirs cached]. rewrite Hp. cbn [lift deref].
      change (ENTRY_SIZE * Z.of_nat 0) with 0 in E2. rewrite E2.
      change (cached c2 (cached c1 s)) with (cached c2 s). fold e'. rewrite E3. done.
    + intros name'. rewrite He3. apply names_insert; try done; [apply free_slot_free|by rewrite H5, H6].
Qed.

(** Refusing to. *)
Lemma dir_add_refuses fuel junk s p name sector isdir :
  dir_ok n m s x i → dirs s !! p = Some x → (length es < fuel)%nat →
  name = [] ∨ NAME_MAX < Z.of_nat (length name) ∨ names es name ≠ None →
  ∃ c', dir_add fuel junk (Some p) name sector isdir s = Ok (false, cached c' s) ∧ dir_ok n m (cached c' s) x i.
Proof.
  intros Hd Hp Hfuel Hbad. unfold dir_add.
  destruct (bool_decide (name = []) || (NAME_MAX <? Z.of_nat (length name))) eqn:Ebad.
  - exists (fcache (base s)). destruct s as [[] ? ?]. done.
  - apply orb_false_iff in Ebad as [E1%bool_decide_eq_false E2%Z.ltb_ge].
    destruct (lookup_spec fuel s p name Hd Hp Hfuel) as (c1 & E & Hd1). exists c1. split; [|done].
    unfold mbind, st_bind. rewrite E. destruct (find_entry es name 0) eqn:Ef; [done|].
    destruct Hbad as [?|[?|Hb]]; [done|lia|]. by apply names_find in Ef.
Qed.

(** Reading the names one by one. *)
Lemma readdir_loop_spec fuel s p x' j :
  dir_ok n m s x i → d_inode x' = d_inode x → dirs s !! p = Some x' → d_pos x' = ENTRY_SIZE * Z.of_nat j →
  (j ≤ length es < j + fuel)%nat →
  ∃ j' c', readdir_loop fuel p s
      = Ok (head (listing (drop j es)),
            DFS (with_cache c' (base s)) (<[p := Dir (d_inode x) (ENTRY_SIZE * Z.of_nat j')]> (dirs s)) (working_dir s))
    ∧ holds n m c' ∧ (j ≤ j' ≤ length es)%nat ∧ listing (drop j' es) = tail (listing (drop j es)).
Proof.
  revert s x' j. induction fuel as [|fuel IH]; intros s x' j Hd Hi Hp Hpos Hj; [lia|]. cbn [readdir_loop].
  destruct (read_entry s j Hd ltac:(lia)) as (c1 & E1 & Hd1). unfold mbind, st_bind. unfold get_dir at 1. rewrite Hp.
  cbn [lift deref]. rewrite Hi, Hpos, E1.
  destruct (es !! j) as [e|] eqn:He; cbn [from_option id].
  - destruct (entry_at s j e Hd He) as [Hlen Hname]. rewrite Hlen. change (Z.of_nat ENTRY =? ENTRY_SIZE) with true.
    cbv iota. rewrite (drop_S _ _ _ He). unfold listing at 1 3. cbn [omap list_omap]. fold (listing (drop (S j) es)).
    assert (Hlt : (j < length es)%nat) by (by eapply lookup_lt_Some).
    destruct (next_ofs s j Hd Hlt) as [_ ->]. unfold put_dir at 1, modify. cbn [base dirs working_dir cached].
    unfold name_of. destruct (e_in_use e).
    + destruct Hname as (nm & Hnm & Hl); [done|]. rewrite Hnm. cbn [lift]. exists (S j), c1.
      rewrite take_ge by (unfold NAME_MAX in *; lia). split_and!; try done; try lia. apply Hd1.
    + set (s1 := DFS _ _ _).
      destruct (IH s1 (Dir (d_inode x) (ENTRY_SIZE * Z.of_nat (S j))) (S j)) as (j' & c2 & E2 & Hh & Hj' & Hl);
        [destruct Hd1; by constructor|done|unfold s1; simpl; apply lookup_insert_eq|done|lia|].
      exists j', c2. rewrite E2. unfold s1. cbn [base dirs working_dir]. rewrite insert_insert_eq. split_and!; try done; lia.
  - apply lookup_ge_None in He. rewrite drop_ge by done. exists j, c1.
    split; [|split; [apply Hd1|split; [lia|by rewrite drop_ge]]].
    change (Z.of_nat (length []) =? ENTRY_SIZE) with false. cbv iota. unfold mret, st_ret. do 2 f_equal.
    unfold cached. f_equal. rewrite insert_id; [done|]. destruct x'; simpl in *. by subst.
Qed.

(** Removing the name of a regular file that is open: the file goes with its last opener. *)
Lemma find_open_cached c (s : fs D) sec l o :
  find_open sec l s = Ok (o, s) → find_open sec l (with_cache c s) = Ok (o, with_cache c s).
Proof.
  induction l as [|q l IH]; cbn [find_open]; [by intros [= <-]|].
  unfold mbind, st_bind, get_inode. cbn [inodes with_cache]. destruct (inodes s !! q) as [iq|]; [|done].
  cbn [lift deref]. destruct (i_sector iq =? sec); [by intros [= <-]|done].
Qed.

Lemma inode_open_shared (s : fs D) sec q iq :
  find_open sec (open_inodes s) s = Ok (Some q, s) → inodes s !! q = Some iq →
  inode_open sec s
  = Ok (Some q, with_inodes (<[q := set_open_cnt (open_cnt iq + 1) iq]> (inodes s)) (open_inodes s) s).
Proof.
  intros Hf Hq. unfold inode_open, mbind, st_bind, gets, id. rewrite Hf.
  unfold inode_reopen, mbind, st_bind, get_inode. rewrite Hq. done.
Qed.

Lemma remove_close_shared (s : fs D) q iq :
  inodes s !! q = Some (set_open_cnt (open_cnt iq + 1) iq) → 0 < open_cnt iq →
  (inode_remove q;; inode_close (Some q)) s
  = Ok (tt, with_inodes (<[q := set_removed true iq]> (inodes s)) (open_inodes s) s).
Proof.
  intros Hq Hc. unfold inode_remove, inode_close, mbind, st_bind, get_inode. rewrite Hq. cbn [lift deref].
  unfold put_inode, modify. cbn [inodes with_inodes]. rewrite lookup_insert_eq. cbn [lift deref].
  destruct iq as [sec oc rm dn ex]. cbn [open_cnt set_open_cnt set_removed] in *.
  replace (oc + 1 - 1) with oc by lia. destruct (Z.eqb_spec oc 0); [lia|]. unfold mret, st_ret, with_inodes.
  cbn [inodes open_inodes fcache files free_map free_map_file next_ptr mallocs]. by rewrite insert_insert_eq.
Qed.

Lemma erased_ok e : length e = ENTRY → entry_ok (put_bytes e in_use_ofs [0]) ∧ name_of (put_bytes e in_use_ofs [0]) = None.
Proof.
  intros He. destruct (entry_fields e He) as (sec & nm & u & d & pad & -> & H1 & H2 & H3).
  rewrite (app_assoc sec nm), (put_bytes_mid _ [u]) by (rewrite ?length_app; simpl; unfold in_use_ofs; lia).
  rewrite put_bytes_all by done. assert (Hu : e_in_use ((sec ++ nm) ++ [0] ++ [d] ++ pad) = false).
  { unfold e_in_use, in_use_ofs. by rewrite byte_at_app_r, length_app, H1, H2 by (rewrite length_app; lia). }
  unfold name_of. rewrite Hu. split; [split|done].
  - rewrite !length_app, H1, H2, H3. done.
  - by rewrite Hu.
Qed.

Definition with_inode (c : cache D) (q : Z) (iq : inode) (s : dfs D) : dfs D :=
  DFS (with_inodes (<[q := iq]> (inodes (base s))) (open_inodes (base s)) (with_cache c (base s))) (dirs s) (working_dir s).

Lemma dir_ok_inode s c q iq : dir_ok n m s x i → holds n m c → q ≠ d_inode x → dir_ok n m (with_inode c q iq s) x i.
Proof. intros [] Hh Hq. constructor; try done. simpl. by rewrite lookup_insert_ne. Qed.

Lemma dir_remove_spec fuel s p name e ofs q iq :
  dir_ok n m s x i → dirs s !! p = Some x → (length es < fuel)%nat →
  find_entry es name 0 = Some (e, ofs) → e_is_dir e = false → may_write m n i ofs ENTRY_SIZE →
  find_open (e_sector e) (open_inodes (base s)) (base s) = Ok (Some q, base s) →
  inodes (base s) !! q = Some iq → q ≠ d_inode x → 0 < open_cnt iq →
  ∃ m' c', dir_remove fuel (Some p) name s = Ok (true, with_inode c' q (set_removed true iq) s)
    ∧ dir_ok n m' (with_inode c' q (set_removed true iq) s) x i
    ∧ ∀ name', names (entries (file_bytes m' (i_sector i))) name'
        = if bool_decide (name' = name) then None else names es name'.
Proof.
  intros Hd Hp Hfuel Hfe Hreg Hmw Hopen Hq Hne Hcnt.
  destruct (lookup_spec fuel s p name Hd Hp Hfuel) as (c1 & E1 & Hd1). rewrite Hfe in E1.
  destruct (find_entry_Some _ _ _ _ _ Hfe) as (a & b & Hes & Hofs & Hname). rewrite Z.add_0_l in Hofs. subst ofs.
  assert (Hj : es !! length a = Some e) by (rewrite Hes; by apply list_lookup_middle).
  destruct (entry_at s _ e Hd Hj) as [Hel _]. destruct (erased_ok e Hel) as [Hok H0]. set (e0 := put_bytes e _ _) in *.
  pose proof (dk_unique _ _ _ _ _ Hd) as Hnd. rewrite Hes in Hnd.
  pose proof (λ y, names_erase a e b e0 name y Hnd Hname H0) as Her.
  assert (Hsl : take (length a) es ++ e0 :: drop (S (length a)) es = a ++ e0 :: b).
  { rewrite Hes, take_app_length, drop_app_ge by lia. replace (S (length a) - length a)%nat with 1%nat by lia. done. }
  pose proof (lookup_lt_Some _ _ _ Hj) as Hlt. destruct (length_bytes s Hd) as (Hl1 & Hl2 & Hl3).
  set (iq1 := set_open_cnt (open_cnt iq + 1) iq). set (s2 := with_inode c1 q iq1 s).
  destruct (write_dir_entry s2 (length a) e0) as (m' & c3 & E3 & Hd3 & He3 & _);
    [apply dir_ok_inode; [done|apply Hd1|done]|lia|done| |rewrite Hsl; apply (Her [])|done| |].
  - apply Forall_app. split; [|constructor; [done|]]; [apply Forall_take|apply Forall_drop];
      (apply list_elem_of_lookup_2 in Hj; eapply chunks_forall; [|exact Hj]; eapply file_bytes_u8; apply Hd).
  - unfold ENTRY_SIZE, ENTRY, NUM_DIRECT, BLOCK_SECTOR_SIZE in *. lia.
  - exists m', c3. split; [|split].
    + assert (Eo : on_fs (inode_open (e_sector e)) (cached c1 s) = Ok (Some q, s2)).
      { unfold on_fs. cbn [base cached].
        by rewrite (inode_open_shared _ _ q iq (find_open_cached c1 _ _ _ _ Hopen)). }
      unfold dir_remove, mbind, st_bind. rewrite E1, Eo. unfold may_remove. rewrite Hreg.
      unfold mret, st_ret, get_dir. change (dirs s2) with (dirs s). rewrite Hp. cbn [lift deref]. fold e0. rewrite E3.
      rewrite Z.eqb_refl. assert (Er := remove_close_shared (base (cached c3 s2)) q iq (lookup_insert_eq _ _ _) Hcnt).
      unfold mbind, st_bind in Er. unfold on_fs.
      destruct (inode_remove q (base (cached c3 s2))) as [[[] f1]|] eqn:E5; [|done].
      cbn [base dirs working_dir]. rewrite Er. unfold s2, with_inode, cached, with_inodes, with_cache.
      cbn [base dirs working_dir inodes open_inodes fcache files free_map free_map_file next_ptr mallocs].
      by rewrite insert_insert_eq.
    + destruct Hd3. constructor; [done|simpl; rewrite lookup_insert_ne by done; apply Hd|done..].
    + intros name'. rewrite He3, Hsl, Hes. apply Her.
Qed.
End dir.
End dirs.

(** ** The claims *)


(** A directory of two entries in the data sector of the small disk: "a" and a free one.  The
    file "a" is open. *)
Definition entry_a : list Z := entry_set (replicate 24 0) [97] 9 false.
Definition dir_inode_data : list Z :=
  put32 (put32 (put32 zeros (direct_ofs 0) 6) length_ofs 48) magic_ofs INODE_MAGIC.
Definition dir_data : list Z := entry_a ++ replicate 488 0.
Definition dir_disk : block disk :=
  Block BLOCK_FILESYS 200 (Disk 200 (<[5 := dir_inode_data]> {[6 := dir_data]})) 0 0.
Definition dir_ino : inode := Inode 5 1 false 0 false.
Definition a_ino : inode := Inode 9 1 false 0 false.
Definition dir_fs : dfs disk :=
  DFS (FS (cache_init static_blocks dir_disk) (<[1 := dir_ino]> {[2 := a_ino]}) [2; 1] ∅ (Bitmap 0 []) None 4 (λ _, true))
    {[3 := Dir 1 0]} 3.

Lemma dir_disk_ok : dev_ok dir_disk 200.
Proof.
  split; [done|]. split; [done|]. exists 200. split; [done|]. split; [done|]. simpl. intros x b Hb.
  apply lookup_insert_Some in Hb as [[_ <-]|[_ Hb]].
  - apply (bool_decide_unpack (is_sector dir_inode_data)). vm_compute. exact I.
  - apply lookup_singleton_Some in Hb as [_ <-]. apply (bool_decide_unpack (is_sector dir_data)). vm_compute. exact I.
Qed.

Lemma dir_blocks k : 0 ≤ k < block_cnt (dev_get dir_disk) 5 → k = 0.
Proof. change (block_cnt (dev_get dir_disk) 5) with 1. lia. Qed.

Lemma dir_file : file_ok (dev_get dir_disk) 200 5.
Proof.
  constructor; [lia|vm_compute; reflexivity|vm_compute; split; discriminate| |].
  - intros k x ->%dir_blocks. vm_compute. set_solver.
  - intros k ->%dir_blocks. vm_compute. split; reflexivity.
Qed.

Lemma dir_may_write ofs : 0 ≤ ofs ≤ 48 → may_write (dev_get dir_disk) 200 dir_ino ofs ENTRY_SIZE.
Proof.
  intros Ho. constructor; [exact dir_file| |done|done| |].
  - constructor.
    + intros k k' ->%dir_blocks ->%dir_blocks. done.
    + intros k ->%dir_blocks. vm_compute. discriminate.
    + intros k k' ->%dir_blocks ->%dir_blocks. vm_compute. set_solver.
    + intros k ->%dir_blocks. vm_compute. set_solver.
  - change (i_length (dev_get dir_disk (i_sector dir_ino))) with 48. lia.
  - change (block_cnt (dev_get dir_disk) (i_sector dir_ino)) with 1. unfold ENTRY_SIZE, BLOCK_SECTOR_SIZE. lia.
Qed.

Lemma dir_entries : entries (file_bytes (dev_get dir_disk) 5) = [entry_a; replicate 24 0].
Proof. vm_compute. reflexivity. Qed.

Lemma dir_fs_ok : dir_ok 200 (dev_get dir_disk) dir_fs (Dir 1 0) dir_ino.
Proof.
  constructor; [exact (cache_init_holds 200 static_blocks dir_disk static_blocks_fresh dir_disk_ok)|done|exact dir_file|done|done| |];
    cbn [i_sector dir_ino]; rewrite dir_entries.
  - repeat constructor; try done. intros _. by exists [97].
  - change (listing [entry_a; replicate 24 0]) with [[97]]. apply NoDup_singleton.
Qed.


(** ** Paths on a formatted disk *)

Definition stack_entry : list Z := replicate 24 170.

(** The file system is formatted and the process starts in the root directory. *)
Definition boot : ST (dfs disk) unit :=
  filesys_init 100 stack_entry true (replicate 25 0);;
  d ← dir_open_root;
  match d with
  | Some p => modify (λ s, DFS (base s) (dirs s) p)
  | None => fail Panicked
  end.

Definition booted {A} (m : ST (dfs disk) A) : result A :=
  match (boot;; m) (DFS blank ∅ 0) with Ok (a, _) => Ok a | Err e => Err e end.

(** How many sectors are taken, how many inodes are open, how many [struct dir]s there are. *)
Definition used_sectors : ST (dfs disk) Z := s ← gets id; lift (bitmap_count (free_map (base s)) 0 800 true).
Definition open_inode_cnt : ST (dfs disk) nat := gets (λ s, length (open_inodes (base s))).
Definition dir_cnt : ST (dfs disk) nat := gets (λ s, length (map_to_list (dirs s))).

Definition create := filesys_create (drv := disk_driver) 100 stack_entry.
Definition open := filesys_open (drv := disk_driver) 100.
Definition remove := filesys_remove (drv := disk_driver) 100.

Definition name_a : list Z := [97].
Definition dot_a : list Z := [46; 47; 97].
Definition a_a : list Z := [97; 47; 97].

