(* ===== verification/Pagedir.v ===== *)
(** * userprog/pagedir.c and threads/pte.h: page directories

    Page tables are pages of 1024 words, at the kernel addresses that [palloc_get_page]
    returned for them; the state has these pages, the pages that the allocator has left, and
    register cr3.  Entries are 32-bit words with a physical page number and flag bits, taken
    apart and put together with the masks of pte.h.

    Shown: a page directory refines a finite map from user pages to frames with a
    permission; [pagedir_set_page] adds one mapping, or reports that there is no memory,
    [pagedir_get_page] looks one up, [pagedir_clear_page] takes one out, and the accessed and
    dirty bits of a page change nothing else. *)

From S2P Require Import Prelude Vaddr.

(** ** threads/pte.h *)

Definition PTSHIFT : Z := 12.
Definition PDSHIFT : Z := 22.
Definition PTMASK : Z := 0x003ff000.
Definition PTE_ADDR : Z := 0xfffff000.
Definition PTE_P : Z := 0x1.
Definition PTE_W : Z := 0x2.
Definition PTE_U : Z := 0x4.
Definition PTE_A : Z := 0x20.
Definition PTE_D : Z := 0x40.

Definition pt_no (va : Z) : Z := Z.shiftr (Z.land va PTMASK) PTSHIFT.
Definition pd_no (va : Z) : Z := Z.shiftr va PDSHIFT.

Definition pde_create (pt : Z) : result Z :=
  ASSERT (pg_ofs pt =? 0);;
  p ← vtop pt;
  mret (Z.lor (Z.lor (Z.lor p PTE_U) PTE_P) PTE_W).

Definition pde_get_pt (pde : Z) : result Z :=
  ASSERT (negb (Z.land pde PTE_P =? 0));;
  ptov (Z.land pde PTE_ADDR).

Definition pte_create_kernel (page : Z) (writable : bool) : result Z :=
  ASSERT (pg_ofs page =? 0);;
  p ← vtop page;
  mret (Z.lor (Z.lor p PTE_P) (if writable then PTE_W else 0)).

Definition pte_create_user (page : Z) (writable : bool) : result Z :=
  e ← pte_create_kernel page writable; mret (Z.lor e PTE_U).

Definition pte_get_page (pte : Z) : result Z := ptov (Z.land pte PTE_ADDR).

(** ** State *)

Record mmu : Type := MMU {
  tables : gmap Z (list Z);    (* page directories and page tables, by kernel address *)
  pages : list Z;              (* the pages that palloc_get_page will return *)
  init_page_dir : Z;
  init_ram_pages : Z;
  cr3 : Z;
}.

Abbreviation M := (ST mmu).

Definition set_tables (t : gmap Z (list Z)) (s : mmu) : mmu :=
  MMU t (pages s) (init_page_dir s) (init_ram_pages s) (cr3 s).

(** Word [i] of a table; a pointer to a word is a pair. *)
Definition read_word (p : Z * Z) : M Z := λ s,
  match tables s !! p.1 with
  | Some ws => lift (deref (ws !! Z.to_nat p.2)) s
  | None => Err MemoryFault
  end.
Definition write_word (p : Z * Z) (w : Z) : M unit := λ s,
  match tables s !! p.1 with
  | Some ws => match ws !! Z.to_nat p.2 with
               | Some _ => Ok (tt, set_tables (<[p.1 := <[Z.to_nat p.2 := w]> ws]> (tables s)) s)
               | None => Err MemoryFault
               end
  | None => Err MemoryFault
  end.

(** [palloc_get_page], with the page filled by [ws]; [None] is the null pointer. *)
Definition get_page (ws : list Z) : M (option Z) := λ s,
  match pages s with
  | [] => Ok (None, s)
  | p :: ps => Ok (Some p, MMU (<[p := ws]> (tables s)) ps (init_page_dir s) (init_ram_pages s) (cr3 s))
  end.

Definition free_page (p : Z) : M unit := λ s,
  Ok (tt, MMU (delete p (tables s)) (p :: pages s) (init_page_dir s) (init_ram_pages s) (cr3 s)).

Definition zero_page : list Z := replicate 1024 0.

(** ** userprog/pagedir.c *)

Definition pagedir_activate (pd : option Z) : M unit := λ s,
  match vtop (default (init_page_dir s) pd) with
  | Ok p => Ok (tt, MMU (tables s) (pages s) (init_page_dir s) (init_ram_pages s) p)
  | Err e => Err e
  end.

Definition active_pd : M Z := λ s, lift (ptov (cr3 s)) s.

Definition invalidate_pagedir (pd : Z) : M unit :=
  a ← active_pd;
  if a =? pd then pagedir_activate (Some pd) else mret tt.

Definition pagedir_create : M (option Z) :=
  pd ← get_page zero_page;
  match pd with
  | Some pd =>
      s ← gets id;
      ws ← lift (deref (tables s !! init_page_dir s));
      modify (set_tables (<[pd := ws]> (tables s)));;
      mret (Some pd)
  | None => mret None
  end.

Definition lookup_page (pd vaddr : Z) (create : bool) : M (option (Z * Z)) :=
  assert (negb (pd =? 0));;
  assert (negb create || is_user_vaddr vaddr);;
  let pde := (pd, pd_no vaddr) in
  e ← read_word pde;
  ok ← (if e =? 0 then
          if create then
            o ← get_page zero_page;
            match o with
            | None => mret false
            | Some pt => e ← lift (pde_create pt); write_word pde e;; mret true
            end
          else mret false
        else mret true);
  if ok : bool then
    e ← read_word pde;
    pt ← lift (pde_get_pt e);
    mret (Some (pt, pt_no vaddr))
  else mret None.

Definition pagedir_set_page (pd upage kpage : Z) (writable : bool) : M bool :=
  assert (pg_ofs upage =? 0);;
  assert (pg_ofs kpage =? 0);;
  assert (is_user_vaddr upage);;
  s ← gets id;
  p ← lift (vtop kpage);
  assert (Z.shiftr p PTSHIFT <? init_ram_pages s);;
  assert (negb (pd =? init_page_dir s));;
  pte ← lookup_page pd upage true;
  match pte with
  | Some pte =>
      e ← read_word pte;
      assert (Z.land e PTE_P =? 0);;
      e ← lift (pte_create_user kpage writable);
      write_word pte e;;
      mret true
  | None => mret false
  end.

Definition pagedir_get_page (pd uaddr : Z) : M (option Z) :=
  assert (is_user_vaddr uaddr);;
  pte ← lookup_page pd uaddr false;
  match pte with
  | Some pte =>
      e ← read_word pte;
      if negb (Z.land e PTE_P =? 0) then
        p ← lift (pte_get_page e); mret (Some (p + pg_ofs uaddr))
      else mret None
  | None => mret None
  end.

Definition pagedir_clear_page (pd upage : Z) : M unit :=
  assert (pg_ofs upage =? 0);;
  assert (is_user_vaddr upage);;
  pte ← lookup_page pd upage false;
  match pte with
  | Some pte =>
      e ← read_word pte;
      if negb (Z.land e PTE_P =? 0) then
        write_word pte (Z.land e (Z.lxor (2 ^ 32 - 1) PTE_P));;
        invalidate_pagedir pd
      else mret tt
  | None => mret tt
  end.

(** [pagedir_is_dirty] and [pagedir_is_accessed], and the functions that set the bit, differ in
    the bit. *)
Definition is_flag (bit pd vpage : Z) : M bool :=
  pte ← lookup_page pd vpage false;
  match pte with
  | Some pte => e ← read_word pte; mret (negb (Z.land e bit =? 0))
  | None => mret false
  end.

Definition set_flag (bit pd vpage : Z) (value : bool) : M unit :=
  pte ← lookup_page pd vpage false;
  match pte with
  | Some pte =>
      e ← read_word pte;
      if value then write_word pte (Z.lor e bit)
      else
        write_word pte (Z.land e (Z.lxor (2 ^ 32 - 1) bit));;
        invalidate_pagedir pd
  | None => mret tt
  end.

Definition pagedir_is_dirty : Z → Z → M bool := is_flag PTE_D.
Definition pagedir_set_dirty : Z → Z → bool → M unit := set_flag PTE_D.
Definition pagedir_is_accessed : Z → Z → M bool := is_flag PTE_A.
Definition pagedir_set_accessed : Z → Z → bool → M unit := set_flag PTE_A.

Fixpoint destroy_table (pt : Z) (ks : list nat) : M unit :=
  match ks with
  | [] => mret tt
  | i :: ks =>
      e ← read_word (pt, Z.of_nat i);
      (if negb (Z.land e PTE_P =? 0) then p ← lift (pte_get_page e); free_page p else mret tt);;
      destroy_table pt ks
  end.

Fixpoint destroy_dir (pd : Z) (ks : list nat) : M unit :=
  match ks with
  | [] => mret tt
  | i :: ks =>
      e ← read_word (pd, Z.of_nat i);
      (if negb (Z.land e PTE_P =? 0) then
         pt ← lift (pde_get_pt e);
         destroy_table pt (seq 0 1024);;
         free_page pt
       else mret tt);;
      destroy_dir pd ks
  end.

Definition pagedir_destroy (pd : option Z) : M unit :=
  match pd with
  | None => mret tt
  | Some pd =>
      s ← gets id;
      assert (negb (pd =? init_page_dir s));;
      destroy_dir pd (seq 0 (Z.to_nat (pd_no PHYS_BASE)));;
      free_page pd
  end.

(** ** Entries *)

Definition frame (e : Z) : Z := PGSIZE * (e / PGSIZE).
Definition table_of (e : Z) : Z := PHYS_BASE + frame e.

Lemma land_bit e k : 0 ≤ k → (Z.land e (2 ^ k) =? 0) = negb (Z.testbit e k).
Proof.
  intros Hk. destruct (Z.testbit e k) eqn:E; simpl.
  - apply Z.eqb_neq. intros H. assert (Hb : Z.testbit (Z.land e (2 ^ k)) k = true).
    { by rewrite Z.land_spec, E, Z.pow2_bits_true. }
    rewrite H, Z.bits_0 in Hb. done.
  - apply Z.eqb_eq. apply Z.bits_inj'. intros j Hj. rewrite Z.land_spec, Z.bits_0, Z.pow2_bits_eqb by done.
    destruct (Z.eqb_spec k j) as [<-|]; [by rewrite E|by rewrite andb_false_r].
Qed.

Lemma land_addr e : is_u32 e → Z.land e PTE_ADDR = frame e.
Proof. intros He. change PTE_ADDR with (Z.lxor (2 ^ 32 - 1) PGMASK). by apply (pg_round_down_eq e). Qed.

Lemma pd_no_div va : pd_no va = va / 2 ^ 22.
Proof. unfold pd_no, PDSHIFT. by rewrite Z.shiftr_div_pow2. Qed.

Lemma pt_no_div va : pt_no va = va / PGSIZE mod 1024.
Proof.
  unfold pt_no, PTSHIFT. rewrite Z.shiftr_land. change (Z.shiftr PTMASK 12) with (Z.ones 10).
  rewrite Z.land_ones, Z.shiftr_div_pow2 by lia. done.
Qed.

Lemma va_index va : is_u32 va → 0 ≤ pd_no va < 1024 ∧ 0 ≤ pt_no va < 1024.
Proof.
  unfold is_u32. intros H. rewrite pd_no_div, pt_no_div. split; [|apply Z.mod_pos_bound; lia].
  split; [apply Z.div_pos; lia|apply Z.div_lt_upper_bound; lia].
Qed.

(** The user half of a directory. *)
Lemma pd_no_user va : pd_no va < 768 ↔ va < PHYS_BASE.
Proof.
  rewrite pd_no_div. unfold PHYS_BASE. pose proof (Z_div_mod_eq_full va (2 ^ 22)).
  pose proof (Z.mod_pos_bound va (2 ^ 22) ltac:(lia)). lia.
Qed.

Lemma user_vaddr va : 0 ≤ va < PHYS_BASE → is_user_vaddr va = true.
Proof. intros H. unfold is_user_vaddr. lia. Qed.

(** The two indices determine the page. *)
Lemma index_page va va' :
  pd_no va = pd_no va' → pt_no va = pt_no va' → va / PGSIZE = va' / PGSIZE.
Proof.
  rewrite !pd_no_div, !pt_no_div. unfold PGSIZE. change (2 ^ 22) with (4096 * 1024).
  rewrite <- !Z.div_div by lia. intros H1 H2.
  rewrite (Z_div_mod_eq_full (va / 4096) 1024), (Z_div_mod_eq_full (va' / 4096) 1024). congruence.
Qed.

(** An entry made of a frame and flags. *)
Lemma lor_low p f : p mod PGSIZE = 0 → 0 ≤ f < PGSIZE → Z.lor p f = p + f.
Proof.
  intros Hp Hf. unfold PGSIZE in *. assert (Hd : Z.land p f = 0).
  { apply Z.bits_inj'. intros j Hj. rewrite Z.land_spec, Z.bits_0. destruct (decide (j < 12)).
    - assert (Hz : Z.testbit p j = false); [|by rewrite Hz].
      rewrite (Z_div_mod_eq_full p 4096), Hp, Z.add_0_r. change 4096 with (2 ^ 12).
      rewrite Z.mul_comm. by apply Z.mul_pow2_bits_low.
    - assert (Hz : Z.testbit f j = false); [|by rewrite Hz, andb_false_r].
      destruct (decide (f = 0)) as [->|]; [apply Z.bits_0|].
      apply Z.bits_above_log2; [lia|]. assert (Z.log2 f < 12); [|lia]. apply Z.log2_lt_pow2; lia. }
  pose proof (Z.add_lor_land p f). lia.
Qed.

Lemma entry_parts p f k :
  p mod PGSIZE = 0 → 0 ≤ f < PGSIZE → 0 ≤ k < 12 →
  frame (p + f) = p ∧ Z.testbit (p + f) k = Z.testbit f k.
Proof.
  intros Hp Hf Hk. unfold frame, PGSIZE in *. split.
  - rewrite (Z_div_mod_eq_full p 4096) at 1. rewrite Hp, Z.add_0_r.
    rewrite (Z.mul_comm 4096 (p / 4096)), Z.add_comm, Z_div_plus_full, Z.div_small by lia.
    pose proof (Z_div_mod_eq_full p 4096). lia.
  - rewrite <- lor_low by done. rewrite Z.lor_spec. assert (Hz : Z.testbit p k = false); [|by rewrite Hz].
    rewrite (Z_div_mod_eq_full p 4096), Hp, Z.add_0_r. change 4096 with (2 ^ 12).
    rewrite Z.mul_comm. apply Z.mul_pow2_bits_low. lia.
Qed.

(** ** The invariant and the map *)

Definition word (s : mmu) (a k : Z) : option Z :=
  match tables s !! a with Some ws => ws !! Z.to_nat k | None => None end.

(** Directories [dirs] in memory: every table is in one place of one directory, but for those
    of the kernel half, which all directories share. *)
Record mmu_ok (dirs : gset Z) (s : mmu) : Prop := {
  mo_dir pd : pd ∈ dirs → pd ≠ 0;
  mo_word pd k : pd ∈ dirs → 0 ≤ k < 1024 → ∃ w, word s pd k = Some w ∧ is_u32 w;
  mo_pde pd k w : pd ∈ dirs → 0 ≤ k < 1024 → word s pd k = Some w → w ≠ 0 →
    Z.testbit w 0 = true ∧ frame w < 2 ^ 30 ∧ (table_of w ∉ dirs) ∧ (table_of w ∉ pages s);
  mo_table pd k w j : pd ∈ dirs → 0 ≤ k < 1024 → word s pd k = Some w → w ≠ 0 → 0 ≤ j < 1024 →
    ∃ e, word s (table_of w) j = Some e ∧ is_u32 e ∧ (Z.testbit e 0 = true → frame e < 2 ^ 30);
  mo_inj pd k w pd' k' w' : pd ∈ dirs → pd' ∈ dirs → 0 ≤ k < 1024 → 0 ≤ k' < 1024 →
    word s pd k = Some w → word s pd' k' = Some w' → w ≠ 0 → w' ≠ 0 →
    table_of w = table_of w' → k = k' ∧ (k < 768 → pd = pd');
  mo_kernel pd pd' k : pd ∈ dirs → pd' ∈ dirs → 768 ≤ k < 1024 → word s pd k = word s pd' k;
  mo_pages p : p ∈ pages s → p mod PGSIZE = 0 ∧ PHYS_BASE ≤ p < 2 ^ 32 ∧ p ∉ dirs;
  mo_nodup : NoDup (pages s);
  mo_cr3 : 0 ≤ cr3 s < 2 ^ 30;
}.

(** The entry of a user page, if its table exists. *)
Definition entry (s : mmu) (pd u : Z) : option Z :=
  match word s pd (pd_no u) with
  | Some w => if w =? 0 then None else word s (table_of w) (pt_no u)
  | None => None
  end.

(** The entry of a page, zero if there is no table; a bit of it; the frame that the page is mapped
    to, and whether it may be written. *)
Definition pte (s : mmu) (pd u : Z) : Z := default 0 (entry s pd u).
Definition flag (s : mmu) (pd u k : Z) : bool := Z.testbit (pte s pd u) k.
#[global] Arguments flag : simpl never.
Definition mapping (s : mmu) (pd u : Z) : option (Z * bool) :=
  if flag s pd u 0 then Some (table_of (pte s pd u), flag s pd u 1) else None.

(** Two addresses in two directories share a page table entry. *)
Definition same_page (u u' : Z) : bool := u' / PGSIZE =? u / PGSIZE.
Definition same_entry (pd u pd' u' : Z) : bool := same_page u u' && ((pd =? pd') || (PHYS_BASE <=? u)).

(** What the operations on page tables leave alone. *)
Definition same_regs (s s' : mmu) : Prop :=
  init_page_dir s' = init_page_dir s ∧ init_ram_pages s' = init_ram_pages s ∧ cr3 s' = cr3 s.

Lemma same_page_index u u' : same_page u u' = true → pd_no u' = pd_no u ∧ pt_no u' = pt_no u.
Proof.
  unfold same_page. intros H. apply Z.eqb_eq in H. rewrite !pd_no_div, !pt_no_div.
  change (2 ^ 22) with (4096 * 1024). unfold PGSIZE in *. by rewrite <- !Z.div_div, H by lia.
Qed.

Lemma same_entry_word dirs s pd u pd' u' w :
  mmu_ok dirs s → pd ∈ dirs → pd' ∈ dirs → is_u32 u → same_entry pd u pd' u' = true →
  word s pd (pd_no u) = Some w → word s pd' (pd_no u') = Some w ∧ pt_no u' = pt_no u.
Proof.
  unfold same_entry. intros Hd Hpd Hpd' Hu [Hp He]%andb_prop Hw. destruct (same_page_index u u' Hp) as [-> ->].
  split; [|done]. apply orb_prop in He as [He|He].
  - apply Z.eqb_eq in He as <-. done.
  - rewrite <- Hw. apply (mo_kernel dirs s Hd); try done. pose proof (va_index u Hu). pose proof (pd_no_user u). lia.
Qed.

Lemma read_word_eq s a k w : word s a k = Some w → read_word (a, k) s = Ok (w, s).
Proof. unfold word, read_word. simpl. destruct (tables s !! a) as [ws|]; [|done]. by intros ->. Qed.

Lemma write_word_eq s a k w w' :
  word s a k = Some w → 0 ≤ k →
  ∃ s', write_word (a, k) w' s = Ok (tt, s')
    ∧ (∀ a' k', 0 ≤ k' → word s' a' k' = if bool_decide (a' = a ∧ k' = k) then Some w' else word s a' k')
    ∧ pages s' = pages s ∧ cr3 s' = cr3 s ∧ init_page_dir s' = init_page_dir s ∧ init_ram_pages s' = init_ram_pages s.
Proof.
  unfold word, write_word. simpl. destruct (tables s !! a) as [ws|] eqn:Ea; [|done]. intros Ek Hk. rewrite Ek.
  eexists. split; [reflexivity|]. split; [|done]. intros a' k' Hk'. simpl.
  destruct (decide (a' = a)) as [->|Hne].
  - rewrite lookup_insert_eq, Ea. destruct (decide (k' = k)) as [->|Hnk].
    + rewrite bool_decide_true by done. apply list_lookup_insert_eq. by eapply lookup_lt_Some.
    + rewrite bool_decide_false by naive_solver. apply list_lookup_insert_ne. lia.
  - rewrite lookup_insert_ne by done. by rewrite bool_decide_false by naive_solver.
Qed.

(** Setting and clearing one of the flag bits. *)
Lemma frame_shift e e' : (∀ j, 12 ≤ j → Z.testbit e j = Z.testbit e' j) → frame e = frame e'.
Proof.
  intros H. unfold frame. f_equal. change PGSIZE with (2 ^ 12). rewrite <- !Z.shiftr_div_pow2 by lia.
  apply Z.bits_inj'. intros j Hj. rewrite !Z.shiftr_spec by done. apply H. lia.
Qed.

Lemma is_u32_bits e : is_u32 e ↔ 0 ≤ e ∧ ∀ j, 32 ≤ j → Z.testbit e j = false.
Proof.
  split.
  - intros He. split; [unfold is_u32 in He; lia|]. intros j Hj. destruct (decide (e = 0)) as [->|]; [apply Z.bits_0|].
    apply Z.bits_above_log2; [unfold is_u32 in He; lia|]. assert (Z.log2 e < 32); [|lia].
    apply Z.log2_lt_pow2; unfold is_u32 in He; lia.
  - intros [He Hb]. assert (Hm : e = e mod 2 ^ 32); [|unfold is_u32; rewrite Hm; by apply Z.mod_pos_bound].
    apply Z.bits_inj'. intros j Hj. destruct (decide (j < 32)).
    + by rewrite Z.mod_pow2_bits_low.
    + rewrite Z.mod_pow2_bits_high by lia. apply Hb. lia.
Qed.

Definition set_bit (e k : Z) (b : bool) : Z :=
  if b then Z.lor e (2 ^ k) else Z.land e (Z.lxor (2 ^ 32 - 1) (2 ^ k)).

Lemma set_bit_spec e k b : is_u32 e → 0 ≤ k < 12 →
  is_u32 (set_bit e k b) ∧ frame (set_bit e k b) = frame e
  ∧ ∀ j, 0 ≤ j → Z.testbit (set_bit e k b) j = if k =? j then b else Z.testbit e j.
Proof.
  intros He Hk. assert (B : ∀ j, 0 ≤ j → Z.testbit (set_bit e k b) j = if k =? j then b else Z.testbit e j).
  { intros j Hj. unfold set_bit. destruct b.
    - rewrite Z.lor_spec, Z.pow2_bits_eqb by lia. destruct (k =? j); [apply orb_true_r|apply orb_false_r].
    - rewrite Z.land_spec, Z.lxor_spec, Z.pow2_bits_eqb by lia. change (2 ^ 32 - 1) with (Z.ones 32).
      rewrite Z.testbit_ones_nonneg by lia. destruct (Z.eqb_spec k j), (Z.ltb_spec j 32); try lia; rewrite ?andb_true_r, ?andb_false_r; try done.
      symmetry. by apply (proj1 (is_u32_bits e) He). }
  split_and!; [|apply frame_shift; intros j Hj; rewrite B by lia; by destruct (Z.eqb_spec k j); [lia|]|done].
  apply is_u32_bits in He as [He Hb]. apply is_u32_bits. split.
  - unfold set_bit. destruct b; [apply Z.lor_nonneg; split; [done|apply Z.pow_nonneg; lia]|apply Z.land_nonneg; by left].
  - intros j Hj. rewrite B by lia. destruct (Z.eqb_spec k j); [lia|]. by apply Hb.
Qed.

(** The entry that [pagedir_set_page] makes. *)
Lemma pte_create_user_eq k (wr : bool) : k mod PGSIZE = 0 → PHYS_BASE ≤ k < 2 ^ 32 →
  ∃ e, pte_create_user k wr = Ok e ∧ is_u32 e ∧ frame e < 2 ^ 30 ∧ table_of e = k
    ∧ Z.testbit e 0 = true ∧ Z.testbit e 1 = wr ∧ Z.testbit e 5 = false ∧ Z.testbit e 6 = false.
Proof.
  intros Hk Hr. set (f := 5 + if wr then 2 else 0). exists (k - PHYS_BASE + f).
  assert (Hm : (k - PHYS_BASE) mod PGSIZE = 0).
  { unfold PGSIZE, PHYS_BASE in *. rewrite Zminus_mod, Hk. done. }
  assert (Hf : 0 ≤ f < PGSIZE) by (unfold f, PGSIZE; destruct wr; lia).
  destruct (entry_parts (k - PHYS_BASE) f 0 Hm Hf) as [Ef E0]; [lia|].
  destruct (entry_parts (k - PHYS_BASE) f 1 Hm Hf) as [_ E1]; [lia|].
  destruct (entry_parts (k - PHYS_BASE) f 5 Hm Hf) as [_ E5]; [lia|].
  destruct (entry_parts (k - PHYS_BASE) f 6 Hm Hf) as [_ E6]; [lia|].
  split; [|unfold table_of; rewrite Ef, E0, E1, E5, E6; unfold f, PGSIZE, PHYS_BASE in *; unfold_ints; destruct wr; split_and!; try done; lia].
  unfold pte_create_user, pte_create_kernel. rewrite pg_ofs_mod, Hk. unfold vtop, is_kernel_vaddr.
  destruct (Z.leb_spec PHYS_BASE k); [|lia]. simpl. f_equal. rewrite <- !Z.lor_assoc.
  replace (Z.lor PTE_P (Z.lor (if wr then PTE_W else 0) PTE_U)) with f by (unfold f; by destruct wr).
  by apply lor_low.
Qed.

Lemma pte_get_page_eq e : is_u32 e → frame e < 2 ^ 30 → pte_get_page e = Ok (table_of e).
Proof.
  intros He Hf. unfold pte_get_page. rewrite land_addr by done. unfold ptov, ASSERT, PHYS_BASE.
  assert (0 ≤ frame e) by (unfold frame, PGSIZE; unfold_ints; pose proof (Z.div_pos e 4096); lia).
  rewrite (proj2 (Z.ltb_lt _ _)) by lia. simpl. unfold table_of, PHYS_BASE. rewrite u32_small by (unfold_ints; lia).
  f_equal. lia.
Qed.

Section mmu.
Context (dirs : gset Z).
Implicit Types s : mmu.

(** The table of a page directory entry. *)
Lemma pde_table s pd k w :
  mmu_ok dirs s → pd ∈ dirs → 0 ≤ k < 1024 → word s pd k = Some w → w ≠ 0 → pde_get_pt w = Ok (table_of w).
Proof.
  intros Hd Hpd Hk Hw Hnz. destruct (mo_pde dirs s Hd pd k w Hpd Hk Hw Hnz) as (Hp & Hf & _).
  destruct (mo_word dirs s Hd pd k Hpd Hk) as (w' & Hw' & Hu). rewrite Hw in Hw'. injection Hw' as <-.
  unfold pde_get_pt. change PTE_P with (2 ^ 0). rewrite land_bit, Hp, land_addr by done. cbn [negb].
  unfold ASSERT, ptov, PHYS_BASE. simpl.
  assert (0 ≤ frame w) by (unfold frame, PGSIZE; unfold_ints; pose proof (Z.div_pos w 4096); lia).
  destruct (Z.ltb_spec (frame w) 3221225472); [|lia]. simpl. unfold table_of, PHYS_BASE.
  rewrite u32_small by (unfold_ints; lia). f_equal. lia.
Qed.

(** [lookup_page] without creation. *)
Lemma lookup_page_find s pd u :
  mmu_ok dirs s → pd ∈ dirs → is_u32 u →
  ∃ w, word s pd (pd_no u) = Some w
    ∧ lookup_page pd u false s = Ok (if w =? 0 then None else Some (table_of w, pt_no u), s).
Proof.
  intros Hd Hpd Hu. destruct (va_index u Hu) as [Hk Hj].
  destruct (mo_word dirs s Hd pd (pd_no u) Hpd Hk) as (w & Hw & _). exists w. split; [done|].
  unfold lookup_page, mbind, st_bind, assert, ASSERT, lift. pose proof (mo_dir dirs s Hd pd Hpd) as Hz.
  destruct (Z.eqb_spec pd 0); [done|]. cbn [negb orb]. rewrite (read_word_eq s pd _ w Hw).
  destruct (Z.eqb_spec w 0) as [->|Hnz]; [done|]. unfold mret, st_ret. rewrite (read_word_eq s pd _ w Hw).
  by rewrite (pde_table s pd (pd_no u) w).
Qed.

(** Writing the entry of page [u]. *)
Lemma write_entry s pd u w e e' :
  mmu_ok dirs s → pd ∈ dirs → is_u32 u → word s pd (pd_no u) = Some w → w ≠ 0 →
  word s (table_of w) (pt_no u) = Some e → is_u32 e' → (Z.testbit e' 0 = true → frame e' < 2 ^ 30) →
  ∃ s', write_word (table_of w, pt_no u) e' s = Ok (tt, s') ∧ mmu_ok dirs s'
    ∧ (∀ pd' u', pd' ∈ dirs → is_u32 u' →
        entry s' pd' u' = if same_entry pd u pd' u' then Some e' else entry s pd' u')
    ∧ same_regs s s' ∧ pages s' = pages s.
Proof.
  intros Hd Hpd Hu Hw Hnz He Hu32 Hpres. destruct (va_index u Hu) as [Hk Hj].
  destruct (write_word_eq s (table_of w) (pt_no u) e e' He ltac:(lia)) as (s' & E & Hword & Hpg & Hcr & Hi & Hr).
  destruct (mo_pde dirs s Hd _ _ w Hpd Hk Hw Hnz) as (_ & _ & Hself & _).
  assert (Hdw : ∀ a k, a ∈ dirs → 0 ≤ k → word s' a k = word s a k).
  { intros a k Ha Hk0. rewrite Hword by done. rewrite bool_decide_false; [done|]. by intros [-> _]. }
  exists s'. split; [done|]. split; [|split; [|by repeat split]].
  - destruct Hd as [D1 D2 D3 D4 D5 D6 D7 D8 D9]. constructor; rewrite ?Hpg, ?Hcr; try done.
    + intros a k Ha Hk0. rewrite Hdw by (done || lia). by apply D2.
    + intros a k w0 Ha Hk0. rewrite Hdw by (done || lia). by apply D3.
    + intros a k w0 j Ha Hk0. rewrite Hdw by (done || lia). intros Hw0 Hnz0 Hj0.
      destruct (D4 a k w0 j Ha Hk0 Hw0 Hnz0 Hj0) as (e0 & He0).
      rewrite Hword by lia. case_bool_decide; [by exists e'|by exists e0].
    + intros a k w0 a' k' w1 Ha Ha' Hk0 Hk1. rewrite !Hdw by (done || lia). by apply D5.
    + intros a a' k Ha Ha' Hk0. rewrite !Hdw by (done || lia). by apply D6.
  - intros a u' Ha Hu'. destruct (va_index u' Hu') as [Hk' Hj']. unfold entry. rewrite Hdw by (done || lia).
    destruct (same_entry pd u a u') eqn:Es.
    + assert (Ew : word s a (pd_no u') = Some w ∧ pt_no u' = pt_no u) by (by apply (same_entry_word dirs s pd u)).
      destruct Ew as [-> ->]. destruct (Z.eqb_spec w 0); [done|]. rewrite Hword by lia.
      by rewrite bool_decide_true by done.
    + destruct (word s a (pd_no u')) as [w'|] eqn:Ew'; [|done]. destruct (Z.eqb_spec w' 0) as [|Hnz']; [done|].
      rewrite Hword by lia. rewrite bool_decide_false; [done|]. intros [Et Ej].
      destruct (mo_inj dirs s Hd a (pd_no u') w' pd (pd_no u) w) as [Ek Epd]; try done.
      assert (Ht : same_entry pd u a u' = true); [|congruence]. unfold same_entry, same_page.
      rewrite (index_page u' u Ek Ej), Z.eqb_refl. destruct (decide (u < PHYS_BASE)).
      * rewrite Epd, Z.eqb_refl; [done|]. rewrite Ek. by apply pd_no_user.
      * destruct (Z.leb_spec PHYS_BASE u); [|lia]. by rewrite orb_true_r.
Qed.

(** A new page table. *)
Lemma word_new_table s p k :
  word (MMU (<[p := zero_page]> (tables s)) (tail (pages s)) (init_page_dir s) (init_ram_pages s) (cr3 s)) p k
  = if (Z.to_nat k <? 1024)%nat then Some 0 else None.
Proof.
  unfold word. simpl. rewrite lookup_insert_eq. unfold zero_page. destruct (Nat.ltb_spec (Z.to_nat k) 1024).
  - by apply lookup_replicate_2.
  - apply lookup_ge_None_2. by rewrite length_replicate.
Qed.

Lemma new_pde p : p mod PGSIZE = 0 → PHYS_BASE ≤ p < 2 ^ 32 →
  ∃ w, pde_create p = Ok w ∧ w ≠ 0 ∧ is_u32 w ∧ Z.testbit w 0 = true ∧ frame w < 2 ^ 30 ∧ table_of w = p.
Proof.
  intros Hp Hr. exists (p - PHYS_BASE + 7).
  assert (Hm : (p - PHYS_BASE) mod PGSIZE = 0).
  { unfold PGSIZE, PHYS_BASE in *. rewrite Zminus_mod, Hp. done. }
  destruct (entry_parts (p - PHYS_BASE) 7 0 Hm) as [Ef Eb]; [unfold PGSIZE; lia|lia|].
  split; [|unfold table_of; rewrite Ef, Eb; unfold PHYS_BASE in *; unfold_ints; split_and!; try done; lia].
  unfold pde_create. rewrite pg_ofs_mod, Hp. unfold vtop, is_kernel_vaddr. destruct (Z.leb_spec PHYS_BASE p); [|lia].
  simpl. f_equal. rewrite <- !Z.lor_assoc. change (Z.lor PTE_U (Z.lor PTE_P PTE_W)) with 7.
  apply lor_low; [done|]. unfold PGSIZE. lia.
Qed.

(** The words after the first free page [p] has become the table of [u] in [pd], entry [w]. *)
Definition with_table (s : mmu) (pd u p w : Z) (s' : mmu) : Prop :=
  ∀ a k, 0 ≤ k < 1024 →
    word s' a k = if bool_decide (a = pd ∧ k = pd_no u) then Some w else if a =? p then Some 0 else word s a k.

Lemma add_table_words s pd u p ps w :
  is_u32 u → word s pd (pd_no u) = Some 0 → p ≠ pd → pages s = p :: ps → pde_create p = Ok w →
  ∃ s', (e ← lift (pde_create p); write_word (pd, pd_no u) e)
      (MMU (<[p := zero_page]> (tables s)) ps (init_page_dir s) (init_ram_pages s) (cr3 s)) = Ok (tt, s')
    ∧ with_table s pd u p w s' ∧ pages s' = ps ∧ same_regs s s'.
Proof.
  intros Hu Hw Hne Hps Ew. destruct (va_index u Hu) as [Hk Hj]. set (s1 := MMU _ _ _ _ _).
  assert (W1 : ∀ a k, a ≠ p → word s1 a k = word s a k).
  { intros a k Ha. unfold word, s1. simpl. by rewrite lookup_insert_ne. }
  assert (W0 : ∀ k, 0 ≤ k < 1024 → word s1 p k = Some 0).
  { intros k Hk0. unfold s1. replace ps with (tail (pages s)) by (by rewrite Hps). rewrite word_new_table.
    destruct (Nat.ltb_spec (Z.to_nat k) 1024); [done|lia]. }
  unfold mbind, st_bind, lift. rewrite Ew.
  destruct (write_word_eq s1 pd (pd_no u) 0 w) as (s' & E & Hword & Hpg & Hcr & Hi & Hra); [by rewrite W1|lia|].
  exists s'. split_and!; try done. intros a k Hk0. rewrite Hword by lia. case_bool_decide; [done|].
  destruct (Z.eqb_spec a p) as [->|]; [by apply W0|by apply W1].
Qed.

Lemma add_table_ok s pd u p ps w s' :
  mmu_ok dirs s → pd ∈ dirs → 0 ≤ u < PHYS_BASE → word s pd (pd_no u) = Some 0 → pages s = p :: ps →
  w ≠ 0 → is_u32 w → Z.testbit w 0 = true → frame w < 2 ^ 30 → table_of w = p →
  with_table s pd u p w s' → pages s' = ps → same_regs s s' → mmu_ok dirs s'.
Proof.
  intros Hd Hpd Hu Hw Hps Hnz Hu32 Hpr Hfr Ht Hword Hpg (_ & _ & Hcr).
  destruct (mo_pages dirs s Hd p) as (_ & _ & Hpn); [rewrite Hps; set_solver|].
  pose proof (mo_nodup dirs s Hd) as Hn. rewrite Hps in Hn. apply NoDup_cons in Hn as [Hn Hn'].
  assert (Wd : ∀ a k, a ∈ dirs → 0 ≤ k < 1024 → word s' a k = if bool_decide (a = pd ∧ k = pd_no u) then Some w else word s a k).
  { intros a k Ha Hk. rewrite Hword by done. case_bool_decide; [done|]. by destruct (Z.eqb_spec a p) as [->|]. }
  (* an entry of a directory is the new one or an old one, whose table is not [p] *)
  assert (Wc : ∀ a k w0, a ∈ dirs → 0 ≤ k < 1024 → word s' a k = Some w0 → w0 ≠ 0 →
    (a = pd ∧ k = pd_no u ∧ w0 = w) ∨ (word s a k = Some w0 ∧ table_of w0 ≠ p)).
  { intros a k w0 Ha Hk. rewrite Wd by done. case_bool_decide as Hc; [intros [= <-]; left; tauto|].
    intros Hw0 Hz. right. split; [done|]. intros E. destruct (mo_pde dirs s Hd a k w0) as (_ & _ & _ & Hf); try done.
    rewrite Hps in Hf. set_solver. }
  assert (Hk768 : pd_no u < 768) by (apply pd_no_user; lia).
  constructor; rewrite ?Hpg, ?Hcr; try apply Hd; try done.
  - intros a k Ha Hk. rewrite Wd by done. case_bool_decide; [by exists w|by apply Hd].
  - intros a k w0 Ha Hk Hw0 Hz. destruct (Wc a k w0 Ha Hk Hw0 Hz) as [(-> & -> & ->)|[Hold Hnp]].
    + by rewrite Ht.
    + destruct (mo_pde dirs s Hd a k w0) as (P1 & P2 & P3 & P4); try done. rewrite Hps in P4.
      split_and!; try done. set_solver.
  - intros a k w0 j Ha Hk Hw0 Hz Hj. destruct (Wc a k w0 Ha Hk Hw0 Hz) as [(-> & -> & ->)|[Hold Hnp]].
    + exists 0. rewrite Ht, Hword by done. rewrite bool_decide_false, Z.eqb_refl; [done|]. by intros [-> _].
    + destruct (mo_pde dirs s Hd a k w0) as (_ & _ & P3 & _); try done.
      rewrite Hword, bool_decide_false by (done || intros [E _]; congruence).
      destruct (Z.eqb_spec (table_of w0) p); [done|]. by apply (mo_table dirs s Hd a k).
  - intros a k w0 a' k' w1 Ha Ha' Hk Hk' Hw0 Hw1 Hz0 Hz1 Et.
    destruct (Wc a k w0) as [(-> & -> & ->)|[Ho Hp0]]; try done;
      destruct (Wc a' k' w1) as [(-> & -> & ->)|[Ho' Hp1]]; try done; try congruence.
    by apply (mo_inj dirs s Hd a k w0 a' k' w1).
  - intros a a' k Ha Ha' Hk. rewrite !Wd, !bool_decide_false by (done || lia). by apply (mo_kernel dirs s Hd).
  - intros q Hq. apply (mo_pages dirs s Hd). rewrite Hps. set_solver.
Qed.

Lemma add_table s pd u p ps :
  mmu_ok dirs s → pd ∈ dirs → 0 ≤ u < PHYS_BASE → word s pd (pd_no u) = Some 0 → pages s = p :: ps →
  ∃ w s', (e ← lift (pde_create p); write_word (pd, pd_no u) e)
      (MMU (<[p := zero_page]> (tables s)) ps (init_page_dir s) (init_ram_pages s) (cr3 s)) = Ok (tt, s')
    ∧ mmu_ok dirs s' ∧ word s' pd (pd_no u) = Some w ∧ w ≠ 0
    ∧ word s' (table_of w) (pt_no u) = Some 0
    ∧ (∀ pd' u', pd' ∈ dirs → is_u32 u' → pte s' pd' u' = pte s pd' u')
    ∧ same_regs s s' ∧ pages s' = ps.
Proof.
  intros Hd Hpd Hu Hw Hps. assert (Hu32 : is_u32 u) by (unfold PHYS_BASE in Hu; unfold_ints; lia).
  destruct (va_index u Hu32) as [Hk Hj]. destruct (mo_pages dirs s Hd p) as (Hal & Hr & Hpn); [rewrite Hps; set_solver|].
  destruct (new_pde p Hal Hr) as (w & Ew & Hnz & Hw32 & Hpr & Hfr & Ht).
  destruct (add_table_words s pd u p ps w Hu32 Hw) as (s' & E & Hword & Hpg & Hrg); [by intros ->|done|done|].
  exists w, s'. split_and!; try done.
  - by apply (add_table_ok s pd u p ps w).
  - rewrite Hword by done. by rewrite bool_decide_true.
  - rewrite Ht, Hword by done. rewrite bool_decide_false, Z.eqb_refl; [done|]. by intros [-> _].
  - intros a u' Ha Hu'. destruct (va_index u' Hu') as [Hk' Hj']. unfold pte, entry. rewrite !Hword by done.
    rewrite (proj2 (Z.eqb_neq a p)) by (by intros ->). case_bool_decide as Hc.
    + destruct Hc as [-> Ek]. rewrite Ek, Hw. destruct (Z.eqb_spec w 0); [done|].
      rewrite Ht, Hword, Z.eqb_refl by done. rewrite bool_decide_false; [done|]. by intros [-> _].
    + destruct (word s a (pd_no u')) as [w'|] eqn:Ew'; [|done]. destruct (Z.eqb_spec w' 0) as [|Hz]; [done|].
      destruct (mo_pde dirs s Hd a _ w' Ha Hk' Ew' Hz) as (_ & _ & P3 & P4). rewrite Hword by done.
      rewrite bool_decide_false by (intros [E' _]; congruence). destruct (Z.eqb_spec (table_of w') p) as [E'|]; [|done].
      rewrite Hps in P4. set_solver.
Qed.

(** Re-activating the active directory changes nothing. *)
Lemma invalidate_pagedir_eq s pd : mmu_ok dirs s → invalidate_pagedir pd s = Ok (tt, s).
Proof.
  intros Hd. pose proof (mo_cr3 dirs s Hd) as Hc. unfold invalidate_pagedir, active_pd, mbind, st_bind, lift, ptov, PHYS_BASE.
  unfold ASSERT. rewrite (proj2 (Z.ltb_lt _ _)) by lia. simpl. rewrite u32_small by (unfold_ints; lia).
  destruct (Z.eqb_spec (cr3 s + 3221225472) pd) as [<-|]; [|done]. unfold pagedir_activate, vtop, is_kernel_vaddr, PHYS_BASE.
  simpl. rewrite (proj2 (Z.leb_le _ _)) by lia. simpl. rewrite Z.add_simpl_r. by destruct s.
Qed.

(** [lookup_page] with creation: the entry of the page, or no memory. *)
Lemma lookup_page_create s pd u :
  mmu_ok dirs s → pd ∈ dirs → 0 ≤ u < PHYS_BASE →
  (∃ w s' e, lookup_page pd u true s = Ok (Some (table_of w, pt_no u), s')
    ∧ mmu_ok dirs s' ∧ word s' pd (pd_no u) = Some w ∧ w ≠ 0
    ∧ word s' (table_of w) (pt_no u) = Some e ∧ is_u32 e
    ∧ (∀ pd' u', pd' ∈ dirs → is_u32 u' → pte s' pd' u' = pte s pd' u') ∧ same_regs s s'
    ∧ (pages s' = pages s ∨ entry s pd u = None ∧ pages s' = tail (pages s)))
  ∨ (lookup_page pd u true s = Ok (None, s) ∧ pages s = [] ∧ entry s pd u = None).
Proof.
  intros Hd Hpd Hu. assert (Hu32 : is_u32 u) by (unfold PHYS_BASE in Hu; unfold_ints; lia).
  destruct (va_index u Hu32) as [Hk Hj]. destruct (mo_word dirs s Hd pd (pd_no u) Hpd Hk) as (w & Hw & _).
  pose proof (mo_dir dirs s Hd pd Hpd) as Hz0. pose proof (user_vaddr u Hu) as Hv.
  pose proof (read_word_eq s pd _ w Hw) as Er.
  destruct (Z.eqb_spec pd 0) as [|Hz]; [done|]. apply Z.eqb_neq in Hz.
  destruct (decide (w = 0)) as [->|Hnz].
  - assert (En : entry s pd u = None) by (unfold entry; by rewrite Hw). destruct (pages s) as [|p ps] eqn:Eps.
    + right. split_and!; [|done|done]. unfold lookup_page, mbind, st_bind, assert, ASSERT, lift, get_page.
      rewrite Hz, Hv. simpl. rewrite Er. simpl. by rewrite Eps.
    + left. destruct (add_table s pd u p ps Hd Hpd Hu Hw Eps) as (w & s' & E & Hd' & Hw' & Hnz' & Ht & Hm & Hrg & Hpg).
      exists w, s', 0. split_and!; try done; [|by right].
      unfold lookup_page, mbind, st_bind, assert, ASSERT, lift, get_page in *.
      rewrite Hz, Hv. simpl. rewrite Er. simpl. rewrite Eps. destruct (pde_create p); [|done]. rewrite E. unfold mret, st_ret.
      by rewrite (read_word_eq s' pd _ w Hw'), (pde_table s' pd (pd_no u) w).
  - left. destruct (mo_table dirs s Hd _ _ w (pt_no u) Hpd Hk Hw Hnz Hj) as (e & He & He32 & _).
    exists w, s, e. split_and!; try done; [|by left]. unfold lookup_page, mbind, st_bind, mret, st_ret, assert, ASSERT, lift.
    rewrite Hz, Hv. simpl. rewrite Er. rewrite (proj2 (Z.eqb_neq w 0) Hnz). by rewrite Er, (pde_table s pd (pd_no u) w).
Qed.

(** ** The operations *)

(** [s'] is [s] with the entry of page [u] of [pd] changed to [e]. *)
Definition entry_changed (s s' : mmu) (pd u e : Z) : Prop :=
  mmu_ok dirs s' ∧ same_regs s s'
  ∧ (∀ pd' u', pd' ∈ dirs → is_u32 u' → pte s' pd' u' = if same_entry pd u pd' u' then e else pte s pd' u').

Lemma find_cases s pd u :
  mmu_ok dirs s → pd ∈ dirs → is_u32 u →
  (lookup_page pd u false s = Ok (None, s) ∧ entry s pd u = None)
  ∨ ∃ p e, lookup_page pd u false s = Ok (Some p, s) ∧ read_word p s = Ok (e, s) ∧ entry s pd u = Some e
    ∧ is_u32 e ∧ (Z.testbit e 0 = true → frame e < 2 ^ 30)
    ∧ ∀ e', is_u32 e' → (Z.testbit e' 0 = true → frame e' < 2 ^ 30) →
      ∃ s', write_word p e' s = Ok (tt, s') ∧ pages s' = pages s ∧ entry_changed s s' pd u e'.
Proof.
  intros Hd Hpd Hu. destruct (va_index u Hu) as [Hk Hj]. destruct (lookup_page_find s pd u Hd Hpd Hu) as (w & Hw & El).
  unfold entry at 1 2. rewrite Hw. destruct (Z.eqb_spec w 0) as [->|Hnz]; [by left|]. right.
  destruct (mo_table dirs s Hd _ _ w _ Hpd Hk Hw Hnz Hj) as (e & He & H32 & Hf).
  exists (table_of w, pt_no u), e. split_and!; try done; [by apply read_word_eq|]. intros e' H32' Hf'.
  destruct (write_entry s pd u w e e') as (s' & E & Hd' & Hen & Hrg & Hpg); try done. exists s'.
  do 4 (split; [done|]). intros pd' u' Hpd' Hu'. unfold pte. rewrite Hen by done. by destruct (same_entry pd u pd' u').
Qed.

Lemma entry_changed_refl s pd u :
  mmu_ok dirs s → pd ∈ dirs → is_u32 u → entry_changed s s pd u (pte s pd u).
Proof.
  intros Hd Hpd Hu. split; [done|]. split; [done|]. intros pd' u' Hpd' Hu'. destruct (same_entry pd u pd' u') eqn:Es; [|done].
  destruct (va_index u Hu) as [Hk _]. destruct (mo_word dirs s Hd pd _ Hpd Hk) as (w & Hw & _).
  unfold pte, entry. destruct (same_entry_word dirs s pd u pd' u' w) as [-> ->]; try done. by rewrite Hw.
Qed.

Lemma is_flag_spec s pd u k :
  mmu_ok dirs s → pd ∈ dirs → is_u32 u → 0 ≤ k → is_flag (2 ^ k) pd u s = Ok (flag s pd u k, s).
Proof.
  intros Hd Hpd Hu Hk. unfold is_flag, flag, pte, mbind, st_bind.
  destruct (find_cases s pd u Hd Hpd Hu) as [(-> & ->)|(p & e & -> & Er & -> & _)]; [by rewrite Z.bits_0|]. rewrite Er.
  by rewrite land_bit, negb_involutive.
Qed.

(** Setting a bit of a page that has a page table; of another, nothing changes. *)
Lemma set_flag_spec s pd u k b :
  mmu_ok dirs s → pd ∈ dirs → is_u32 u → 0 < k < 12 →
  ∃ s', set_flag (2 ^ k) pd u b s = Ok (tt, s') ∧ pages s' = pages s
    ∧ entry_changed s s' pd u (match entry s pd u with Some e => set_bit e k b | None => 0 end).
Proof.
  intros Hd Hpd Hu Hk. unfold set_flag, mbind, st_bind.
  destruct (find_cases s pd u Hd Hpd Hu) as [(-> & E)|(p & e & -> & Er & E & H32 & Hf & Hwr)]; rewrite E.
  - exists s. split_and!; try done. replace 0 with (pte s pd u) by (unfold pte; by rewrite E). by apply entry_changed_refl.
  - rewrite Er. destruct (set_bit_spec e k b H32 ltac:(lia)) as (S32 & Sf & Sb).
    destruct (Hwr (set_bit e k b)) as (s' & Ew & Hpg & Hch); [done|rewrite Sf, Sb by lia; destruct (Z.eqb_spec k 0); [lia|done]|].
    exists s'. split_and!; try done. unfold set_bit in Ew. destruct b; rewrite Ew; [done|].
    apply invalidate_pagedir_eq. apply Hch.
Qed.

Lemma pagedir_get_spec s pd u :
  mmu_ok dirs s → pd ∈ dirs → 0 ≤ u < PHYS_BASE →
  pagedir_get_page pd u s = Ok (option_map (λ m, m.1 + u mod PGSIZE) (mapping s pd u), s).
Proof.
  intros Hd Hpd Hu. assert (Hu32 : is_u32 u) by (unfold PHYS_BASE in Hu; unfold_ints; lia).
  unfold pagedir_get_page, assert, ASSERT, mapping, flag, pte. rewrite (user_vaddr u Hu). unfold mbind, st_bind, lift.
  destruct (find_cases s pd u Hd Hpd Hu32) as [(-> & ->)|(p & e & -> & Er & -> & H32 & Hf & _)]; [done|]. rewrite Er.
  change PTE_P with (2 ^ 0). rewrite land_bit, negb_involutive by done. change (default 0 (Some e)) with e.
  destruct (Z.testbit e 0) eqn:Eb; [|done].
  rewrite pte_get_page_eq by auto. by rewrite pg_ofs_mod.
Qed.

(** Clearing a page: its entry loses the present bit. *)
Lemma pagedir_clear_spec s pd u :
  mmu_ok dirs s → pd ∈ dirs → 0 ≤ u < PHYS_BASE → u mod PGSIZE = 0 →
  ∃ s' e, pagedir_clear_page pd u s = Ok (tt, s') ∧ pages s' = pages s ∧ entry_changed s s' pd u e
    ∧ ∀ j, 0 ≤ j → Z.testbit e j = if j =? 0 then false else flag s pd u j.
Proof.
  intros Hd Hpd Hu Ha. assert (Hu32 : is_u32 u) by (unfold PHYS_BASE in Hu; unfold_ints; lia).
  pose proof (entry_changed_refl s pd u Hd Hpd Hu32) as Hrefl. unfold flag in *.
  unfold pagedir_clear_page, assert, ASSERT. rewrite (user_vaddr u Hu), pg_ofs_mod, Ha. unfold mbind, st_bind, lift. simpl.
  destruct (find_cases s pd u Hd Hpd Hu32) as [(-> & E)|(p & e & -> & Er & E & H32 & Hf & Hwr)]; unfold pte in *; rewrite E in *.
  { exists s, 0. split_and!; try done. intros j Hj. simpl. rewrite Z.bits_0. by destruct (j =? 0). }
  rewrite Er. change PTE_P with (2 ^ 0). rewrite land_bit, negb_involutive by done. change (default 0 (Some e)) with e.
  destruct (Z.testbit e 0) eqn:Eb.
  - destruct (set_bit_spec e 0 false H32 ltac:(lia)) as (S32 & Sf & Sb).
    destruct (Hwr (set_bit e 0 false)) as (s' & Ew & Hpg & Hch); [done|by rewrite Sb|].
    exists s', (set_bit e 0 false). change (Z.land e (Z.lxor (2 ^ 32 - 1) (2 ^ 0))) with (set_bit e 0 false). rewrite Ew.
    split; [apply invalidate_pagedir_eq; apply Hch|]. split; [done|]. split; [done|]. intros j Hj.
    by rewrite Sb, (Z.eqb_sym 0 j).
  - exists s, e. split_and!; try done. intros j Hj. by destruct (Z.eqb_spec j 0) as [->|].
Qed.

Lemma pagedir_set_spec s pd u k wr :
  mmu_ok dirs s → pd ∈ dirs → 0 ≤ u < PHYS_BASE → u mod PGSIZE = 0 → PHYS_BASE ≤ k < 2 ^ 32 → k mod PGSIZE = 0 →
  (k - PHYS_BASE) / PGSIZE < init_ram_pages s → pd ≠ init_page_dir s →
  (flag s pd u 0 = true ∧ pagedir_set_page pd u k wr s = Err AssertFailed)
  ∨ (flag s pd u 0 = false ∧ pagedir_set_page pd u k wr s = Ok (false, s) ∧ pages s = [] ∧ entry s pd u = None)
  ∨ ∃ s' e, flag s pd u 0 = false ∧ pagedir_set_page pd u k wr s = Ok (true, s') ∧ entry_changed s s' pd u e
      ∧ table_of e = k ∧ Z.testbit e 0 = true ∧ Z.testbit e 1 = wr ∧ Z.testbit e 5 = false ∧ Z.testbit e 6 = false
      ∧ (pages s' = pages s ∨ entry s pd u = None ∧ pages s' = tail (pages s)).
Proof.
  intros Hd Hpd Hu Ha Hk Hka Hram Hini. assert (Hu32 : is_u32 u) by (unfold PHYS_BASE in Hu; unfold_ints; lia).
  destruct (pte_create_user_eq k wr Hka Hk) as (e' & Ec & C32 & Cf & Ct & C0 & C1 & C5 & C6).
  unfold pagedir_set_page, assert, ASSERT, gets. rewrite (user_vaddr u Hu), !pg_ofs_mod, Ha, Hka. unfold vtop, is_kernel_vaddr.
  rewrite (proj2 (Z.leb_le _ _)) by lia. unfold mbind, st_bind, lift, mret, st_ret. simpl.
  unfold PTSHIFT. rewrite Z.shiftr_div_pow2 by lia. change (2 ^ 12) with PGSIZE. rewrite (proj2 (Z.ltb_lt _ _)) by done.
  simpl. rewrite (proj2 (Z.eqb_neq _ _)) by done. simpl.
  destruct (lookup_page_create s pd u Hd Hpd Hu) as [(w & s1 & e & -> & Hd1 & Hw & Hnz & He & H32 & Hm & Hrg & Hpg)|(-> & Hps & En)].
  - rewrite (read_word_eq _ _ _ _ He). change PTE_P with (2 ^ 0). rewrite land_bit by done.
    assert (Em : flag s pd u 0 = Z.testbit e 0).
    { unfold flag. rewrite <- Hm by done. unfold pte, entry. rewrite Hw. destruct (Z.eqb_spec w 0); [done|]. by rewrite He. }
    rewrite Em. destruct (Z.testbit e 0) eqn:Eb; [by left|]. right. right. simpl. rewrite Ec.
    destruct (write_entry s1 pd u w e e') as (s' & E & Hd' & Hen & Hrg' & Hpg'); try done. exists s', e'. rewrite E.
    split; [done|]. split; [done|].
    split; [|by rewrite Hpg']. split; [done|]. unfold same_regs in *. split; [naive_solver congruence|].
    intros pd' u' Hpd' Hu'. rewrite <- Hm by done. unfold pte. rewrite Hen by done. by destruct (same_entry pd u pd' u').
  - right. left. split_and!; try done. unfold flag, pte. by rewrite En.
Qed.
End mmu.

(** ** New directories *)

(** [pagedir_create] takes the first free page, or returns a null pointer; the directory has the
    entries of the kernel's directory, which maps no user page, and no other entry changes. *)
Lemma pagedir_create_spec dirs s :
  mmu_ok dirs s → init_page_dir s ∈ dirs → (∀ k, 0 ≤ k < 768 → word s (init_page_dir s) k = Some 0) →
  match pages s with
  | [] => pagedir_create s = Ok (None, s)
  | pd :: ps => ∃ s', pagedir_create s = Ok (Some pd, s') ∧ pages s' = ps
      ∧ mmu_ok ({[pd]} ∪ dirs) s' ∧ (∀ u, 0 ≤ u < PHYS_BASE → entry s' pd u = None)
      ∧ (∀ pd' u, pd' ∈ dirs → is_u32 u → entry s' pd' u = entry s pd' u)
  end.
Proof.
  intros Hd Hini Hz. unfold pagedir_create, get_page, mbind, st_bind, gets, lift, modify, mret, st_ret.
  destruct (pages s) as [|pd ps] eqn:Ep; [done|]. simpl.
  destruct (mo_pages dirs s Hd pd) as (Ha & Hr & Hne); [rewrite Ep; set_solver|].
  assert (Hi : init_page_dir s ≠ pd) by (by intros E; rewrite E in Hini).
  rewrite lookup_insert_ne by done. destruct (mo_word dirs s Hd _ 0 Hini) as (w & Hw & _); [lia|].
  unfold word in Hw. destruct (tables s !! init_page_dir s) as [ws|] eqn:Et; [|done]. simpl. eexists. split; [done|].
  unfold set_tables. simpl. set (s' := MMU _ _ _ _ _). split; [done|].
  assert (Wp : ∀ k, word s' pd k = word s (init_page_dir s) k).
  { intros k. unfold word, s'. simpl. by rewrite lookup_insert_eq, Et. }
  assert (Wo : ∀ a k, a ≠ pd → word s' a k = word s a k).
  { intros a k Hak. unfold word, s'. simpl. by rewrite !lookup_insert_ne by done. }
  (* the entries of a directory are those of an old one *)
  pose (old a := if a =? pd then init_page_dir s else a).
  assert (Wold : ∀ a k, a ∈ {[pd]} ∪ dirs → old a ∈ dirs ∧ word s' a k = word s (old a) k).
  { intros a k Hin. unfold old. destruct (Z.eqb_spec a pd) as [->|Hn]; [by rewrite Wp|]. rewrite Wo by done. set_solver. }
  assert (Hnew : ∀ a k w0, a ∈ {[pd]} ∪ dirs → 0 ≤ k < 1024 → word s' a k = Some w0 → w0 ≠ 0 →
    old a ∈ dirs ∧ word s (old a) k = Some w0 ∧ table_of w0 ≠ pd ∧ (k < 768 → old a = a)).
  { intros a k w0 Hin Hk Hw0 Hn0. destruct (Wold a k Hin) as [Ho E]. rewrite E in Hw0. split_and!; try done.
    - destruct (mo_pde dirs s Hd (old a) k w0) as (_ & _ & _ & P4); try done. rewrite Ep in P4. set_solver.
    - intros Hk0. unfold old in *. destruct (Z.eqb_spec a pd) as [->|]; [|done]. rewrite Hz in Hw0 by lia. congruence. }
  pose proof (mo_nodup dirs s Hd) as Hn. rewrite Ep in Hn. apply NoDup_cons in Hn as [Hn Hn'].
  split; [constructor; simpl|split].
  - intros a Hin. destruct (decide (a = pd)) as [->|]; [unfold PHYS_BASE in Hr; lia|]. apply (mo_dir dirs s Hd). set_solver.
  - intros a k Hin Hk. destruct (Wold a k Hin) as [Ho ->]. by apply (mo_word dirs s Hd).
  - intros a k w0 Hin Hk Hw0 Hn0. destruct (Hnew a k w0) as (Ho & Hw1 & Hp1 & _); try done.
    destruct (mo_pde dirs s Hd (old a) k w0) as (P1 & P2 & P3 & P4); try done. rewrite Ep in P4. set_solver.
  - intros a k w0 j Hin Hk Hw0 Hn0 Hj. destruct (Hnew a k w0) as (Ho & Hw1 & Hp1 & _); try done.
    rewrite Wo by done. by apply (mo_table dirs s Hd (old a) k).
  - intros a k w0 a' k' w1 Hin Hin' Hk Hk' Hw0 Hw1 Hn0 Hn1 Eq.
    destruct (Hnew a k w0) as (Ho & Hw0' & _ & H1); try done. destruct (Hnew a' k' w1) as (Ho' & Hw1' & _ & H2); try done.
    destruct (mo_inj dirs s Hd (old a) k w0 (old a') k' w1) as [-> E2]; try done. split; [done|]. intros Hk0.
    rewrite <- (H1 Hk0), <- (H2 Hk0). by apply E2.
  - intros a a' k Hin Hin' Hk. destruct (Wold a k Hin) as [Ho ->], (Wold a' k Hin') as [Ho' ->]. by apply (mo_kernel dirs s Hd).
  - intros p Hp. destruct (mo_pages dirs s Hd p) as (P1 & P2 & P3); [rewrite Ep; set_solver|].
    split_and!; try done; try lia. set_solver.
  - done.
  - apply Hd.
  - intros u Hu. unfold entry. rewrite Wp, Hz; [done|]. pose proof (pd_no_user u). pose proof (va_index u).
    unfold PHYS_BASE in *. unfold_ints. lia.
  - intros a u Hin Hu. destruct (va_index u Hu) as [Hk _]. unfold entry. rewrite Wo by (by intros ->).
    destruct (word s a (pd_no u)) as [w0|] eqn:Ew; [|done]. destruct (Z.eqb_spec w0 0); [done|].
    rewrite Wo; [done|]. destruct (mo_pde dirs s Hd a (pd_no u) w0) as (_ & _ & _ & P4); try done. rewrite Ep in P4. set_solver.
Qed.

(** ** What page directories promise *)

(** The mapping of page [u] of [pd] becomes [v], and no other mapping of any directory changes. *)
Definition update (dirs : gset Z) (s s' : mmu) (pd u : Z) (v : option (Z * bool)) : Prop :=
  ∀ pd' u', pd' ∈ dirs → is_u32 u' → mapping s' pd' u' = if same_entry pd u pd' u' then v else mapping s pd' u'.

Lemma changed_update dirs s s' pd u e :
  entry_changed dirs s s' pd u e →
  update dirs s s' pd u (if Z.testbit e 0 then Some (table_of e, Z.testbit e 1) else None).
Proof.
  intros (_ & _ & H) pd' u' Hpd' Hu'. unfold mapping, flag. rewrite H by done. by destruct (same_entry pd u pd' u').
Qed.

(** C27.  Page directories refine finite maps from pages to a frame and a permission.  With a
    well-formed set of directories in memory, [pagedir_get_page] returns the frame of the page plus
    the offset in it, or a null pointer, and changes nothing; [pagedir_clear_page] takes exactly
    the mapping of one page of one directory out and keeps the other bits of its entry;
    [pagedir_set_page] of an unmapped page adds exactly that mapping, or returns false, when there
    is no page left for a page table, and then nothing has changed; of a mapped page it fails its
    assertion.  Each keeps the directories well-formed. *)
Theorem pagedir_refines_map dirs s pd u k wr :
  mmu_ok dirs s → pd ∈ dirs → 0 ≤ u < PHYS_BASE → u mod PGSIZE = 0 → PHYS_BASE ≤ k < 2 ^ 32 → k mod PGSIZE = 0 →
  (k - PHYS_BASE) / PGSIZE < init_ram_pages s → pd ≠ init_page_dir s →
  (∀ a, 0 ≤ a < PHYS_BASE →
     pagedir_get_page pd a s = Ok (option_map (λ m, m.1 + a mod PGSIZE) (mapping s pd a), s))
  ∧ (∃ s', pagedir_clear_page pd u s = Ok (tt, s') ∧ mmu_ok dirs s'
      ∧ update dirs s s' pd u None ∧ ∀ j, 0 < j → flag s' pd u j = flag s pd u j)
  ∧ match mapping s pd u with
    | Some _ => pagedir_set_page pd u k wr s = Err AssertFailed
    | None =>
        (pagedir_set_page pd u k wr s = Ok (false, s) ∧ pages s = [])
        ∨ ∃ s', pagedir_set_page pd u k wr s = Ok (true, s') ∧ mmu_ok dirs s'
          ∧ update dirs s s' pd u (Some (k, wr))
    end.
Proof.
  intros Hd Hpd Hu Ha Hk Hka Hram Hini. assert (Hu32 : is_u32 u) by (unfold PHYS_BASE in Hu; unfold_ints; lia). split_and!.
  - intros a Ha'. by apply (pagedir_get_spec dirs).
  - destruct (pagedir_clear_spec dirs s pd u Hd Hpd Hu Ha) as (s' & e & E & _ & Hch & He). exists s'. split; [done|].
    split; [apply Hch|]. pose proof (changed_update _ _ _ _ _ _ Hch) as Hup. rewrite (He 0) in Hup by done. split; [done|].
    intros j Hj. unfold flag at 1. destruct Hch as (_ & _ & ->); try done. unfold same_entry, same_page. rewrite !Z.eqb_refl. simpl.
    rewrite He by lia. destruct (Z.eqb_spec j 0); [lia|done].
  - unfold mapping at 1. destruct (pagedir_set_spec dirs s pd u k wr Hd Hpd Hu Ha Hk Hka Hram Hini)
      as [(-> & E)|[(-> & E & Hps & _)|(s' & e & -> & E & Hch & Ht & H0 & H1 & _)]]; [done|by left|].
    right. exists s'. split; [done|]. split; [apply Hch|]. pose proof (changed_update _ _ _ _ _ _ Hch) as Hup.
    by rewrite Ht, H0, H1 in Hup.
Qed.

(** What setting bit [k] does to an entry. *)
Definition flag_set (s : mmu) (pd u k : Z) (b : bool) : Z :=
  match entry s pd u with Some e => set_bit e k b | None => 0 end.

Lemma entry_u32 dirs s pd u e : mmu_ok dirs s → pd ∈ dirs → is_u32 u → entry s pd u = Some e → is_u32 e.
Proof.
  intros Hd Hpd Hu. destruct (va_index u Hu) as [Hk Hj]. unfold entry.
  destruct (word s pd (pd_no u)) as [w|] eqn:Ew; [|done]. destruct (Z.eqb_spec w 0); [done|]. intros He.
  destruct (mo_table dirs s Hd pd (pd_no u) w (pt_no u)) as (e' & He' & H32 & _); try done. congruence.
Qed.

Lemma flag_set_bit dirs s pd u k b j :
  mmu_ok dirs s → pd ∈ dirs → is_u32 u → 0 ≤ k < 12 → 0 ≤ j →
  Z.testbit (flag_set s pd u k b) j =
    if k =? j then match entry s pd u with Some _ => b | None => false end else flag s pd u j.
Proof.
  intros Hd Hpd Hu Hk Hj. unfold flag_set, flag, pte. destruct (entry s pd u) as [e|] eqn:E.
  - destruct (set_bit_spec e k b) as (_ & _ & ->); [by apply (entry_u32 dirs s pd u)|done..].
  - simpl. rewrite Z.bits_0. by destruct (k =? j).
Qed.

Lemma flag_set_frame dirs s pd u k b :
  mmu_ok dirs s → pd ∈ dirs → is_u32 u → 0 ≤ k < 12 → table_of (flag_set s pd u k b) = table_of (pte s pd u).
Proof.
  intros Hd Hpd Hu Hk. unfold flag_set, pte, table_of. destruct (entry s pd u) as [e|] eqn:E; [|done].
  destruct (set_bit_spec e k b) as (_ & -> & _); [by apply (entry_u32 dirs s pd u)|done..].
Qed.

(** The bits and the mapping of a page that shares its entry with another. *)
Lemma same_entry_pte dirs s pd u pd' u' :
  mmu_ok dirs s → pd ∈ dirs → pd' ∈ dirs → is_u32 u → is_u32 u' → same_entry pd u pd' u' = true → pte s pd' u' = pte s pd u.
Proof.
  intros Hd Hpd Hpd' Hu Hu' Hs. destruct (entry_changed_refl dirs s pd u Hd Hpd Hu) as (_ & _ & H).
  rewrite H by done. by rewrite Hs.
Qed.

(** Setting bit [k] of a page changes that bit, if the page has a page table, and nothing else. *)
Lemma set_flag_view dirs s pd u k b :
  mmu_ok dirs s → pd ∈ dirs → is_u32 u → 1 < k < 12 →
  ∃ s', set_flag (2 ^ k) pd u b s = Ok (tt, s') ∧ mmu_ok dirs s' ∧ same_regs s s' ∧ pages s' = pages s
    ∧ ∀ pd' u', pd' ∈ dirs → is_u32 u' → mapping s' pd' u' = mapping s pd' u'
      ∧ ∀ j, 0 ≤ j → flag s' pd' u' j =
          if same_entry pd u pd' u' && (k =? j) then match entry s pd u with Some _ => b | None => false end
          else flag s pd' u' j.
Proof.
  intros Hd Hpd Hu Hk. destruct (set_flag_spec dirs s pd u k b Hd Hpd Hu ltac:(lia)) as (s' & E & Hpg & Hd' & Hrg & Hch).
  fold (flag_set s pd u k b) in Hch. assert (Hk12 : 0 ≤ k < 12) by lia.
  assert (Hb : ∀ j, 0 ≤ j → Z.testbit (flag_set s pd u k b) j = _) by (intros j; by apply (flag_set_bit dirs)).
  exists s'. do 4 (split; [done|]). intros pd' u' Hpd' Hu'. unfold mapping, flag. rewrite Hch by done.
  destruct (same_entry pd u pd' u') eqn:Es; [|done].
  rewrite (same_entry_pte dirs s pd u pd' u') by done. rewrite (flag_set_frame dirs), !Hb by (done || lia).
  split; [destruct (Z.eqb_spec k 0), (Z.eqb_spec k 1); try lia; done|]. intros j Hj. rewrite Hb by done. by destruct (k =? j).
Qed.

Lemma same_entry_refl pd u : same_entry pd u pd u = true.
Proof. unfold same_entry, same_page. by rewrite !Z.eqb_refl. Qed.

(** The accessed and dirty bits.  [pagedir_set_accessed] and [pagedir_set_dirty] of a page that
    has a page table set that bit of that page to the value, which [pagedir_is_accessed] and
    [pagedir_is_dirty] then return, and change no other bit of any page of any directory and no mapping; for a
    page without a page table they do nothing, and the bit reads as false. *)
Theorem pagedir_flags dirs s pd u k b :
  mmu_ok dirs s → pd ∈ dirs → is_u32 u → k = 5 ∨ k = 6 →
  let '(is_bit, set_bit) := if k =? 5 then (pagedir_is_accessed, pagedir_set_accessed)
                            else (pagedir_is_dirty, pagedir_set_dirty) in
  ∃ s', set_bit pd u b s = Ok (tt, s') ∧ mmu_ok dirs s'
    ∧ is_bit pd u s' = Ok (match entry s pd u with Some _ => b | None => false end, s')
    ∧ (∀ pd' u', pd' ∈ dirs → is_u32 u' → mapping s' pd' u' = mapping s pd' u'
        ∧ ∀ j, 0 ≤ j → same_entry pd u pd' u' && (k =? j) = false → flag s' pd' u' j = flag s pd' u' j).
Proof.
  intros Hd Hpd Hu Hk. destruct (set_flag_view dirs s pd u k b Hd Hpd Hu ltac:(lia)) as (s' & E & Hd' & _ & _ & Hv).
  assert (Hf : is_flag (2 ^ k) pd u s' = Ok (match entry s pd u with Some _ => b | None => false end, s')).
  { rewrite (is_flag_spec dirs) by (done || lia). destruct (Hv pd u Hpd Hu) as [_ ->]; [|lia].
    by rewrite same_entry_refl, Z.eqb_refl. }
  assert (Hr : ∀ pd' u', pd' ∈ dirs → is_u32 u' → mapping s' pd' u' = mapping s pd' u'
    ∧ ∀ j, 0 ≤ j → same_entry pd u pd' u' && (k =? j) = false → flag s' pd' u' j = flag s pd' u' j).
  { intros pd' u' Hpd' Hu'. destruct (Hv pd' u' Hpd' Hu') as [Hm Hfl]. split; [done|]. intros j Hj Hn. by rewrite Hfl, Hn. }
  destruct Hk as [-> | ->]; exact (ex_intro _ s' (conj E (conj Hd' (conj Hf Hr)))).
Qed.

(** ** A small machine *)

(** A kernel directory, an empty directory and two free pages. *)
Definition small_mmu : mmu :=
  MMU {[0xC0100000 := zero_page; 0xC0200000 := zero_page]} [0xC0101000; 0xC0102000] 0xC0200000 1024 0x200000.
Definition small_dirs : gset Z := {[0xC0100000; 0xC0200000]}.

Lemma small_dir : 0xC0100000 ∈ small_dirs.
Proof. unfold small_dirs. set_solver. Qed.

Lemma small_word a k : a ∈ small_dirs → 0 ≤ k < 1024 → word small_mmu a k = Some 0.
Proof.
  intros Ha Hk. assert (E : tables small_mmu !! a = Some zero_page).
  { unfold small_dirs in Ha. apply elem_of_union in Ha as [->%elem_of_singleton| ->%elem_of_singleton]; by vm_compute. }
  unfold word. rewrite E. apply lookup_replicate_2. lia.
Qed.

Lemma small_ok : mmu_ok small_dirs small_mmu.
Proof.
  assert (Hz : ∀ a k w, a ∈ small_dirs → 0 ≤ k < 1024 → word small_mmu a k = Some w → w ≠ 0 → False).
  { intros a k w Ha Hk Hw. rewrite small_word in Hw by done. congruence. }
  constructor.
  - intros pd Hpd. unfold small_dirs in Hpd. set_solver.
  - intros pd k Hpd Hk. exists 0. split; [by apply small_word|done].
  - intros pd k w Hpd Hk Hw Hn. destruct (Hz pd k w Hpd Hk Hw Hn).
  - intros pd k w j Hpd Hk Hw Hn. destruct (Hz pd k w Hpd Hk Hw Hn).
  - intros pd k w pd' k' w' Hpd _ Hk _ Hw _ Hn. destruct (Hz pd k w Hpd Hk Hw Hn).
  - intros pd pd' k Hpd Hpd' Hk. by rewrite !small_word by (done || lia).
  - intros p Hp. unfold small_dirs, PHYS_BASE. simpl in Hp. rewrite !elem_of_cons, elem_of_nil in Hp.
    destruct Hp as [->|[->|[]]]; split_and!; try lia; try done; set_solver.
  - simpl. repeat constructor; set_solver.
  - simpl. lia.
Qed.

Lemma pagedir_refines_map_witness :
  ∃ s', pagedir_set_page 0xC0100000 0x08048000 0xC0300000 true small_mmu = Ok (true, s')
    ∧ mapping s' 0xC0100000 0x08048123 = Some (0xC0300000, true).
Proof.
  destruct (pagedir_refines_map small_dirs small_mmu 0xC0100000 0x08048000 0xC0300000 true small_ok) as (_ & _ & H);
    [unfold small_dirs; set_solver|by vm_compute..|].
  assert (E : mapping small_mmu 0xC0100000 0x08048000 = None) by by vm_compute. rewrite E in H.
  destruct H as [[_ H]|(s' & H & Hd & Hu)]; [done|]. exists s'. split; [done|].
  rewrite Hu; [by vm_compute|unfold small_dirs; set_solver|by vm_compute].
Defined.

Lemma pagedir_flags_witness :
  ∃ s1 s2, pagedir_set_page 0xC0100000 0x08048000 0xC0300000 true small_mmu = Ok (true, s1)
    ∧ pagedir_set_dirty 0xC0100000 0x08048000 true s1 = Ok (tt, s2)
    ∧ pagedir_is_dirty 0xC0100000 0x08048000 s2 = Ok (true, s2).
Proof.
  assert (Hin : 0xC0100000 ∈ small_dirs) by (unfold small_dirs; set_solver).
  destruct (pagedir_set_spec small_dirs small_mmu 0xC0100000 0x08048000 0xC0300000 true small_ok Hin)
    as [[H _]|[(_ & _ & H & _)|(s1 & e & _ & E1 & (Hd & _ & Hch) & _ & Hp & _)]];
    [by vm_compute..|by vm_compute in H|discriminate H|].
  destruct (pagedir_flags small_dirs s1 0xC0100000 0x08048000 6 true Hd Hin) as (s2 & E2 & _ & Ei & _);
    [by vm_compute|by right|]. exists s1, s2. split; [exact E1|]. split; [exact E2|]. etransitivity; [exact Ei|].
  pose proof (Hch 0xC0100000 0x08048000 Hin ltac:(by vm_compute)) as He. unfold pte in He.
  destruct (entry s1 0xC0100000 0x08048000); [done|]. simpl in He. subst e. discriminate Hp.
Defined.
