(* ===== verification/Swap.v ===== *)
(** * vm/swap.c: the swap device

    The slots of the swap device, one page each.  The state is the block device and the array
    of slots; a pointer to a slot is its index in the array, and a page is its bytes.

    Shown: the swap device is a store of pages: a page put into it gets a slot that was free and
    comes back unchanged from that slot, whatever happens to the other slots meanwhile; a
    slot is free again once its page was retrieved or removed; and putting a page into
    a full device fails the assertion. *)

From S2P Require Import Prelude Bytes Vaddr Block.

Record swap_slot : Type := Slot { slot_num : Z; in_use : bool }.

Record swap (D : Type) : Type := Swap { swap_table : block D; swap_slots : list swap_slot }.
Arguments Swap {D} _ _.
Arguments swap_table {D} _.
Arguments swap_slots {D} _.

Section code.
Context {D : Type} {drv : BlockDriver D}.
Abbreviation M := (ST (swap D)).

Definition on_table {A} (m : ST (block D) A) : M A := λ s,
  match m (swap_table s) with
  | Ok (a, b) => Ok (a, Swap b (swap_slots s))
  | Err e => Err e
  end.

Definition block_sector_num (swap_index : Z) : Z := u32 (i32 (PGSIZE / BLOCK_SECTOR_SIZE * swap_index)).

(** The number of pages of the device. *)
Definition num_slots (b : block D) : Z := i32 (u32 (block_size b * BLOCK_SECTOR_SIZE) / PGSIZE).

(** The device that has the role, with the array that [malloc] returned. *)
Definition init_swap_table (b : block D) : swap D :=
  Swap b ((λ i, Slot (Z.of_nat i) false) <$> seq 0 (Z.to_nat (num_slots b))).

Definition get_slot (i : nat) : M swap_slot := λ s, lift (deref (swap_slots s !! i)) s.
Definition set_in_use (i : nat) (v : bool) : M unit :=
  sl ← get_slot i;
  modify (λ s, Swap (swap_table s) (<[i := Slot (slot_num sl) v]> (swap_slots s))).

(** The loop of [swap_find_empty], with [n] slots to go. *)
Fixpoint find_loop (n i : nat) : M (option nat) :=
  match n with
  | O => mret None
  | S n =>
      sl ← get_slot i;
      if in_use sl then find_loop n (i + 1) else set_in_use i true;; mret (Some i)
  end.

Definition swap_find_empty : M (option nat) :=
  b ← gets swap_table;
  find_loop (Z.to_nat (num_slots b)) 0.

Definition swap_remove_page (sw : option nat) : M unit :=
  match sw with
  | Some i => set_in_use i false
  | None => fail AssertFailed
  end.

(** The loops over the sectors of a page, [n] of them from sector [i] of the page. *)
Fixpoint retrieve_loop (sl : nat) (n i : nat) : M (list Z) :=
  match n with
  | O => mret []
  | S n =>
      v ← get_slot sl;
      b ← on_table (block_read (u32 (block_sector_num (slot_num v) + Z.of_nat i)));
      bs ← retrieve_loop sl n (i + 1);
      mret (b ++ bs)
  end.

Fixpoint put_loop (sl : nat) (addr : list Z) (n i : nat) : M unit :=
  match n with
  | O => mret tt
  | S n =>
      v ← get_slot sl;
      on_table (block_write (u32 (block_sector_num (slot_num v) + Z.of_nat i))
        (take (Z.to_nat BLOCK_SECTOR_SIZE) (drop (Z.to_nat BLOCK_SECTOR_SIZE * i) addr)));;
      put_loop sl addr n (i + 1)
  end.

(** The bytes that are copied to [dest]. *)
Definition swap_retrieve_page (sw : option nat) : M (list Z) :=
  match sw with
  | Some sl =>
      dest ← retrieve_loop sl (Z.to_nat (PGSIZE / BLOCK_SECTOR_SIZE)) 0;
      swap_remove_page sw;;
      mret dest
  | None => fail AssertFailed
  end.

Definition swap_put_page (addr : list Z) : M (option nat) :=
  swap_page ← swap_find_empty;
  match swap_page with
  | Some sl => put_loop sl addr (Z.to_nat (PGSIZE / BLOCK_SECTOR_SIZE)) 0;; mret (Some sl)
  | None => fail AssertFailed
  end.
End code.

(** ** The store of pages *)

Definition is_page (p : list Z) : Prop := length p = Z.to_nat PGSIZE ∧ Forall is_u8 p.

Section store.
Context {D : Type} {drv : BlockDriver D} {laws : BlockDriverLaws D}.
Implicit Types s : swap D.

(** The sectors of the page of slot [i]. *)
Definition slot_bytes (s : swap D) (i : nat) : list Z :=
  concat ((λ j, dev_get (swap_table s) (8 * Z.of_nat i + Z.of_nat j)) <$> seq 0 8).

(** The pages in the device, by slot. *)
Definition stored (s : swap D) (i : nat) : option (list Z) :=
  match swap_slots s !! i with
  | Some sl => if in_use sl then Some (slot_bytes s i) else None
  | None => None
  end.

Record swap_ok (s : swap D) : Prop := {
  so_dev : ∃ n, is_u32 n ∧ dev_ok (swap_table s) n;
  so_len : length (swap_slots s) = Z.to_nat (num_slots (swap_table s));
  so_num i sl : swap_slots s !! i = Some sl → slot_num sl = Z.of_nat i;
}.

Lemma num_slots_bound (b : block D) n :
  is_u32 n → dev_ok b n → 0 ≤ num_slots b < 2 ^ 20 ∧ 8 * num_slots b ≤ n.
Proof.
  intros Hn (Hz & _). unfold num_slots, block_size. rewrite Hz.
  assert (H : 0 ≤ u32 (n * BLOCK_SECTOR_SIZE) / PGSIZE < 2 ^ 20).
  { pose proof (u32_range (n * BLOCK_SECTOR_SIZE)). unfold PGSIZE. unfold_ints.
    split; [apply Z.div_pos; lia|apply Z.div_lt_upper_bound; lia]. }
  rewrite i32_small by (unfold_ints; lia). split; [done|].
  assert (Hle : u32 (n * BLOCK_SECTOR_SIZE) ≤ n * BLOCK_SECTOR_SIZE).
  { unfold u32, BLOCK_SECTOR_SIZE. apply Z.mod_le; unfold_ints; lia. }
  pose proof (Z.mul_div_le (u32 (n * BLOCK_SECTOR_SIZE)) PGSIZE ltac:(unfold PGSIZE; lia)).
  unfold BLOCK_SECTOR_SIZE, PGSIZE in *. lia.
Qed.

Lemma slot_sector s n i j :
  swap_ok s → is_u32 n → dev_ok (swap_table s) n → (i < length (swap_slots s))%nat → (j < 8)%nat →
  u32 (block_sector_num (Z.of_nat i) + Z.of_nat j) = 8 * Z.of_nat i + Z.of_nat j
  ∧ 0 ≤ 8 * Z.of_nat i + Z.of_nat j < n.
Proof.
  intros Hs Hn Hd Hi Hj. destruct (num_slots_bound _ n Hn Hd) as [Hb H8]. rewrite (so_len s Hs) in Hi.
  unfold block_sector_num. change (PGSIZE / BLOCK_SECTOR_SIZE) with 8.
  rewrite i32_small, (u32_small (8 * Z.of_nat i)) by (unfold_ints; lia). rewrite u32_small by (unfold_ints; lia). lia.
Qed.

(** A device with the same number of sectors has as many slots. *)
Lemma swap_ok_table s b' n :
  swap_ok s → is_u32 n → dev_ok (swap_table s) n → dev_ok b' n → swap_ok (Swap b' (swap_slots s)).
Proof.
  intros Hs Hn (E1 & _) Hd. constructor; simpl; [by exists n| |apply Hs].
  rewrite (so_len s Hs). destruct Hd as (E2 & _). unfold num_slots, block_size. by rewrite E1, E2.
Qed.

Lemma get_slot_eq s i sl : swap_slots s !! i = Some sl → get_slot i s = Ok (sl, s).
Proof. intros H. unfold get_slot, lift, deref. by rewrite H. Qed.

Lemma retrieve_loop_spec n sl i s N :
  swap_ok s → is_u32 N → dev_ok (swap_table s) N → (sl < length (swap_slots s))%nat → (i + n ≤ 8)%nat →
  ∃ b', retrieve_loop sl n i s
      = Ok (concat ((λ j, dev_get (swap_table s) (8 * Z.of_nat sl + Z.of_nat j)) <$> seq i n), Swap b' (swap_slots s))
    ∧ dev_ok b' N ∧ ∀ x, dev_get b' x = dev_get (swap_table s) x.
Proof.
  revert i s. induction n as [|n IH]; intros i s Hs HN Hd Hsl Hi.
  - exists (swap_table s). split; [by destruct s|done].
  - destruct (lookup_lt_is_Some_2 _ _ Hsl) as [v Hv]. destruct (slot_sector s N sl i Hs HN Hd Hsl) as [Es Hr]; [lia|].
    destruct (op_read_spec (swap_table s) N _ Hd Hr) as (b1 & E1 & Hd1 & Hg1).
    destruct (IH (i + 1)%nat (Swap b1 (swap_slots s))) as (b2 & E2 & Hd2 & Hg2); try done; [by eapply swap_ok_table|lia|].
    cbn [swap_table swap_slots] in E2. exists b2. split; [|split; [done|intros x; cbn [swap_table] in Hg2; by rewrite Hg2, Hg1]].
    cbn [retrieve_loop]. unfold mbind, st_bind. rewrite (get_slot_eq _ _ _ Hv), (so_num s Hs sl v Hv), Es.
    unfold on_table. change (block_read (D:=D)) with (op_read (D:=block D)). rewrite E1, E2. unfold mret, st_ret.
    cbn [seq fmap list_fmap concat]. do 3 f_equal. rewrite Nat.add_1_r. f_equal. apply list_fmap_ext. intros k y _. apply Hg1.
Qed.

Lemma put_loop_spec n sl addr i s N :
  swap_ok s → is_u32 N → dev_ok (swap_table s) N → (sl < length (swap_slots s))%nat → (i + n ≤ 8)%nat → is_page addr →
  ∃ b', put_loop sl addr n i s = Ok (tt, Swap b' (swap_slots s)) ∧ dev_ok b' N
    ∧ ∀ x, 0 ≤ x < N → dev_get b' x =
        if (8 * Z.of_nat sl + Z.of_nat i <=? x) && (x <? 8 * Z.of_nat sl + Z.of_nat (i + n))
        then take 512 (drop (512 * Z.to_nat (x - 8 * Z.of_nat sl)) addr) else dev_get (swap_table s) x.
Proof.
  revert i s. induction n as [|n IH]; intros i s Hs HN Hd Hsl Hi Hp.
  - exists (swap_table s). split; [by destruct s|]. split; [done|]. intros x _.
    destruct (Z.leb_spec (8 * Z.of_nat sl + Z.of_nat i) x), (Z.ltb_spec x (8 * Z.of_nat sl + Z.of_nat (i + 0))); try done; lia.
  - destruct (lookup_lt_is_Some_2 _ _ Hsl) as [v Hv]. destruct (slot_sector s N sl i Hs HN Hd Hsl) as [Es Hr]; [lia|].
    set (c := take (Z.to_nat BLOCK_SECTOR_SIZE) (drop (Z.to_nat BLOCK_SECTOR_SIZE * i) addr)).
    assert (Hc : is_sector c).
    { destruct Hp as [Hl Hb]. split; [|by apply Forall_take, Forall_drop]. unfold c.
      rewrite length_take, length_drop, Hl. change (Z.to_nat BLOCK_SECTOR_SIZE) with 512%nat. change (Z.to_nat PGSIZE) with 4096%nat.
      unfold BLOCK_SECTOR_SIZE. lia. }
    destruct (op_write_spec (swap_table s) N _ c Hd Hr Hc) as (b1 & E1 & Hd1 & Hg1).
    destruct (IH (i + 1)%nat (Swap b1 (swap_slots s))) as (b2 & E2 & Hd2 & Hg2); try done; [by eapply swap_ok_table|lia|].
    cbn [swap_table swap_slots] in E2. exists b2. split; [|split; [done|]].
    + cbn [put_loop]. unfold mbind, st_bind. rewrite (get_slot_eq _ _ _ Hv), (so_num s Hs sl v Hv), Es. fold c.
      unfold on_table. change (block_write (D:=D)) with (op_write (D:=block D)). by rewrite E1.
    + intros x Hx. cbn [swap_table] in Hg2. rewrite Hg2, Hg1 by done.
      destruct (Z.eqb_spec x (8 * Z.of_nat sl + Z.of_nat i)) as [->|Hne].
      * rewrite (proj2 (Z.leb_gt _ _)) by lia. cbn [andb]. rewrite (proj2 (Z.leb_le _ _)), (proj2 (Z.ltb_lt _ _)) by lia.
        cbn [andb]. by rewrite Z.add_simpl_l, Nat2Z.id.
      * destruct (Z.leb_spec (8 * Z.of_nat sl + Z.of_nat (i + 1)) x), (Z.leb_spec (8 * Z.of_nat sl + Z.of_nat i) x); try lia; [|done].
        by replace (i + 1 + n)%nat with (i + S n)%nat by lia.
Qed.

(** Finding a slot: the first free one is taken. *)
Lemma find_loop_spec n i s :
  (i + n ≤ length (swap_slots s))%nat →
  (find_loop n i s = Ok (None, s) ∧ ∀ j, (i ≤ j < i + n)%nat → in_use <$> swap_slots s !! j = Some true)
  ∨ ∃ k sl, find_loop n i s = Ok (Some k, Swap (swap_table s) (<[k := Slot (slot_num sl) true]> (swap_slots s)))
    ∧ (i ≤ k < i + n)%nat ∧ swap_slots s !! k = Some sl ∧ in_use sl = false
    ∧ ∀ j, (i ≤ j < k)%nat → in_use <$> swap_slots s !! j = Some true.
Proof.
  revert i. induction n as [|n IH]; intros i Hi; [left; split; [done|]; intros; lia|].
  destruct (lookup_lt_is_Some_2 (swap_slots s) i ltac:(lia)) as [sl Hsl].
  cbn [find_loop]. unfold mbind, st_bind. rewrite (get_slot_eq _ _ _ Hsl). destruct (in_use sl) eqn:Eu.
  - assert (Hstep : ∀ m j, (∀ j, (i + 1 ≤ j < m)%nat → in_use <$> swap_slots s !! j = Some true) →
      (i ≤ j < m)%nat → in_use <$> swap_slots s !! j = Some true).
    { intros m j Hall Hj. destruct (decide (j = i)) as [->|]; [rewrite Hsl; simpl; by rewrite Eu|apply Hall; lia]. }
    destruct (IH (i + 1)%nat ltac:(lia)) as [[E Hall]|(k & sl' & E & Hk & Hsl' & Hf & Hall)].
    + left. split; [done|]. intros j Hj. apply (Hstep (i + S n)%nat); [|done]. intros j' Hj'. apply Hall. lia.
    + right. exists k, sl'. split_and!; try done; try lia. intros j Hj. by apply (Hstep k).
  - right. exists i, sl. unfold set_in_use, mbind, st_bind. rewrite (get_slot_eq _ _ _ Hsl). split_and!; try done; lia.
Qed.

Lemma concat_chunks (l : list Z) c n : concat ((λ j, take c (drop (c * j) l)) <$> seq 0 n) = take (c * n) l.
Proof.
  induction n as [|n IH]; [by rewrite Nat.mul_0_r|]. rewrite seq_S, fmap_app, concat_app, IH. simpl.
  rewrite app_nil_r, take_take_drop. f_equal. lia.
Qed.

Lemma slot_bytes_ext s s' i :
  (∀ j, (j < 8)%nat → dev_get (swap_table s') (8 * Z.of_nat i + Z.of_nat j) = dev_get (swap_table s) (8 * Z.of_nat i + Z.of_nat j)) →
  slot_bytes s' i = slot_bytes s i.
Proof.
  intros H. unfold slot_bytes. f_equal. apply list_fmap_ext. intros k j Hj. apply lookup_seq in Hj as [-> Hk]. by apply H.
Qed.

(** ** The operations on the store *)

Lemma set_in_use_ok s i sl v :
  swap_ok s → swap_slots s !! i = Some sl → swap_ok (Swap (swap_table s) (<[i := Slot (slot_num sl) v]> (swap_slots s))).
Proof.
  intros Hs Hsl. constructor; simpl; [apply Hs|by rewrite length_insert; apply Hs|]. intros j sl' Hj.
  apply list_lookup_insert_Some in Hj as [(<- & <- & _)|[_ Hj]]; [|by apply Hs]. simpl. by apply (so_num s Hs i).
Qed.

Lemma swap_put_spec s p :
  swap_ok s → is_page p →
  (swap_put_page p s = Err AssertFailed ∧ ∀ i, (i < length (swap_slots s))%nat → is_Some (stored s i))
  ∨ ∃ i s', swap_put_page p s = Ok (Some i, s') ∧ swap_ok s' ∧ (i < length (swap_slots s))%nat ∧ stored s i = None
    ∧ stored s' i = Some p ∧ (∀ j, j ≠ i → stored s' j = stored s j).
Proof.
  intros Hs Hp. unfold swap_put_page, swap_find_empty, mbind, st_bind, gets. rewrite <- (so_len s Hs).
  destruct (find_loop_spec (length (swap_slots s)) 0 s) as [[-> Hall]|(k & sl & -> & Hk & Hsl & Hu & _)]; [lia| |].
  { left. split; [done|]. intros i Hi. specialize (Hall i ltac:(lia)). unfold stored. destruct (swap_slots s !! i) as [sl|]; [|done].
    simpl in Hall. injection Hall as ->. by eexists. }
  right. set (s1 := Swap _ _). destruct (so_dev s Hs) as (N & HN & Hd).
  assert (Hs1 : swap_ok s1) by by apply set_in_use_ok.
  assert (Hl1 : (k < length (swap_slots s1))%nat) by (unfold s1; simpl; rewrite length_insert; lia).
  change (Z.to_nat (PGSIZE / BLOCK_SECTOR_SIZE)) with 8%nat.
  destruct (put_loop_spec 8 k p 0 s1 N Hs1 HN Hd Hl1) as (b' & E & Hd' & Hg); [lia|done|].
  assert (Hsec : ∀ i j, (i < length (swap_slots s))%nat → (j < 8)%nat → 0 ≤ 8 * Z.of_nat i + Z.of_nat j < N).
  { intros i j Hi Hj. by apply (slot_sector s N i j). }
  exists k, (Swap b' (swap_slots s1)). unfold fail. rewrite E. split; [done|]. split; [by apply (swap_ok_table s1 b' N)|].
  split; [lia|]. split; [unfold stored; by rewrite Hsl, Hu|]. split.
  - unfold stored. simpl. rewrite list_lookup_insert_eq by lia. simpl. f_equal.
    transitivity (concat ((λ j, take 512 (drop (512 * j) p)) <$> seq 0 8)).
    + unfold slot_bytes. f_equal. apply list_fmap_ext. intros x j Hj. apply lookup_seq in Hj as [-> Hx]. cbn [swap_table].
      rewrite Hg by (apply Hsec; lia). destruct (Z.leb_spec (8 * Z.of_nat k + Z.of_nat 0) (8 * Z.of_nat k + Z.of_nat (0 + x))); [|lia].
      destruct (Z.ltb_spec (8 * Z.of_nat k + Z.of_nat (0 + x)) (8 * Z.of_nat k + Z.of_nat (0 + 8))); [|lia].
      cbn [andb]. by rewrite Z.add_simpl_l, Nat2Z.id.
    + rewrite concat_chunks. apply take_ge. destruct Hp as [-> _]. done.
  - intros i Hi. unfold stored. simpl. rewrite list_lookup_insert_ne by done.
    destruct (swap_slots s !! i) as [sl'|] eqn:Ei; [|done]. destruct (in_use sl'); [|done]. f_equal.
    apply lookup_lt_Some in Ei. apply slot_bytes_ext. intros j Hj. cbn [swap_table]. rewrite Hg by (by apply Hsec).
    destruct (Z.leb_spec (8 * Z.of_nat k + Z.of_nat 0) (8 * Z.of_nat i + Z.of_nat j)); [|done].
    destruct (Z.ltb_spec (8 * Z.of_nat i + Z.of_nat j) (8 * Z.of_nat k + Z.of_nat (0 + 8))); [lia|done].
Qed.

Lemma swap_remove_spec s i :
  swap_ok s → (i < length (swap_slots s))%nat →
  ∃ s', swap_remove_page (Some i) s = Ok (tt, s') ∧ swap_ok s' ∧ swap_table s' = swap_table s
    ∧ length (swap_slots s') = length (swap_slots s)
    ∧ stored s' i = None ∧ ∀ j, j ≠ i → stored s' j = stored s j.
Proof.
  intros Hs Hi. destruct (lookup_lt_is_Some_2 _ _ Hi) as [sl Hsl]. unfold swap_remove_page, set_in_use, mbind, st_bind.
  rewrite (get_slot_eq _ _ _ Hsl). eexists. split; [reflexivity|]. split; [by apply set_in_use_ok|]. split; [done|].
  split; [simpl; by rewrite length_insert|].
  unfold stored. simpl. split; [by rewrite list_lookup_insert_eq|]. intros j Hj. by rewrite list_lookup_insert_ne.
Qed.

Lemma swap_retrieve_spec s i :
  swap_ok s → (i < length (swap_slots s))%nat →
  ∃ s', swap_retrieve_page (Some i) s = Ok (slot_bytes s i, s') ∧ swap_ok s' ∧ length (swap_slots s') = length (swap_slots s)
    ∧ stored s' i = None ∧ ∀ j, j ≠ i → stored s' j = stored s j.
Proof.
  intros Hs Hi. destruct (so_dev s Hs) as (N & HN & Hd). unfold swap_retrieve_page, mbind, st_bind.
  change (Z.to_nat (PGSIZE / BLOCK_SECTOR_SIZE)) with 8%nat.
  destruct (retrieve_loop_spec 8 i 0 s N Hs HN Hd Hi) as (b' & E & Hd' & Hg); [lia|]. rewrite E.
  destruct (swap_remove_spec (Swap b' (swap_slots s)) i) as (s' & -> & Hs' & Et & Hl & Hn & Ho); [by apply (swap_ok_table s b' N)|done|].
  exists s'. split_and!; try done. intros j Hj. rewrite Ho by done. unfold stored. cbn [swap_slots].
  destruct (swap_slots s !! j) as [sl|]; [|done]. destruct (in_use sl); [|done]. f_equal. apply slot_bytes_ext. intros k _. apply Hg.
Qed.

Lemma slot_bytes_page s i : swap_ok s → (i < length (swap_slots s))%nat → is_page (slot_bytes s i).
Proof.
  intros Hs Hi. destruct (so_dev s Hs) as (N & HN & Hd).
  assert (Hc : ∀ j, (j < 8)%nat → is_sector (dev_get (swap_table s) (8 * Z.of_nat i + Z.of_nat j))).
  { intros j Hj. apply (dev_get_sector _ N); [done|]. by apply (slot_sector s N i j). }
  unfold slot_bytes. assert (Hn : ∀ n, (n ≤ 8)%nat →
    length (concat ((λ j, dev_get (swap_table s) (8 * Z.of_nat i + Z.of_nat j)) <$> seq 0 n)) = (512 * n)%nat
    ∧ Forall is_u8 (concat ((λ j, dev_get (swap_table s) (8 * Z.of_nat i + Z.of_nat j)) <$> seq 0 n))).
  { induction n as [|n IH]; intros Hn; [done|]. destruct (IH ltac:(lia)) as [IHl IHf]. destruct (Hc n ltac:(lia)) as [Hl Hf].
    rewrite seq_S, fmap_app, concat_app. cbn [fmap list_fmap concat]. rewrite app_nil_r, length_app, IHl. unfold BLOCK_SECTOR_SIZE in Hl.
    split; [simpl in *; lia|]. by apply Forall_app. }
  by apply (Hn 8%nat).
Qed.


Lemma init_swap_ok b n : is_u32 n → dev_ok b n →
  swap_ok (init_swap_table b) ∧ ∀ i, stored (init_swap_table b) i = None.
Proof.
  intros Hn Hd. split.
  - constructor; cbn [init_swap_table swap_table swap_slots]; [by exists n|by rewrite length_fmap, length_seq|].
    intros i sl H. apply list_lookup_fmap_Some in H as (j & -> & Hj). apply lookup_seq in Hj as [-> _]. done.
  - intros i. unfold stored. cbn [init_swap_table swap_slots]. rewrite list_lookup_fmap. by destruct (seq _ _ !! i).
Qed.
End store.

(** A swap device of two pages, one of them in use. *)
Definition small_swap : swap disk := init_swap_table (Block BLOCK_SWAP 16 (Disk 16 ∅) 0 0).

Lemma small_swap_ok : swap_ok small_swap ∧ ∀ i, stored small_swap i = None.
Proof.
  apply (init_swap_ok _ 16); [unfold_ints; lia|]. split; [done|]. split; [done|]. exists 16. split; [lia|]. split; [done|].
  intros s b H. by vm_compute in H.
Qed.

