(* ===== verification/Vm.v ===== *)
(** * vm/frame.c, vm/page.c and the page fault handler: demand paging

    The frame table with second-chance eviction, the supplemental page tables, and
    [page_fault] with [grow_stack] (userprog/exception.c).  The state puts the parts together
    that these files call: page directories ([Pagedir]), the swap device ([Swap]), files
    (the class [FileStore] below), the user pool of the page allocator (whose first free page
    is taken, as [Palloc] shows) with the bytes of its pages, and the objects themselves:
    frames and supplemental pages by address.  A supplemental page table is the finite map that
    [Hash] shows its hash table to be, and the frame table the sequence that [DList] shows its
    list to be.  One thread runs at a time; [frame_lock] is held by it or free. *)

From S2P Require Import Prelude Bytes Vaddr Block Pagedir Swap.

(** ** Files, as paging sees them *)

(** Reading returns the bytes read; writing takes a buffer and the number of bytes.  The laws are for
    ranges inside the file, and for no bytes at all, which may be anywhere. *)
Class FileStore (F : Type) : Type := {
  file_read_at : Z → Z → Z → ST F (list Z);
  file_write_at : Z → list Z → Z → Z → ST F Z;
  file_inode : F → Z → option Z;             (* the inode of a file, by address *)
  file_rep : F → gmap Z (list Z) → Prop;     (* the contents of inodes *)
}.

Class FileStoreLaws (F : Type) {fst : FileStore F} : Prop := {
  file_read_spec s cs f i c size ofs :
    file_rep s cs → file_inode s f = Some i → cs !! i = Some c →
    0 ≤ ofs → 0 ≤ size → (size = 0 ∨ ofs + size ≤ Z.of_nat (length c)) →
    ∃ s', file_read_at f size ofs s = Ok (take (Z.to_nat size) (drop (Z.to_nat ofs) c), s')
      ∧ file_rep s' cs ∧ ∀ g, file_inode s' g = file_inode s g;
  file_write_spec s cs f i c bs ofs :
    file_rep s cs → file_inode s f = Some i → cs !! i = Some c → Forall is_u8 bs →
    0 ≤ ofs → (bs = [] ∨ ofs + Z.of_nat (length bs) ≤ Z.of_nat (length c)) →
    ∃ s', file_write_at f bs (Z.of_nat (length bs)) ofs s = Ok (Z.of_nat (length bs), s')
      ∧ file_rep s' (<[i := put_bytes c (Z.to_nat ofs) bs]> cs) ∧ ∀ g, file_inode s' g = file_inode s g;
}.

(** Files in memory: the contents by address. *)
#[export] Instance flat_files : FileStore (gmap Z (list Z)) := {|
  file_read_at f size ofs := λ s,
    match s !! f with
    | Some c => Ok (take (Z.to_nat size) (drop (Z.to_nat ofs) c), s)
    | None => Err MemoryFault
    end;
  file_write_at f b size ofs := λ s,
    match s !! f with
    | Some c => Ok (size, <[f := put_bytes c (Z.to_nat ofs) b]> s)
    | None => Err MemoryFault
    end;
  file_inode s f := Some f;
  file_rep s cs := s = cs;
|}.

#[export] Instance flat_files_laws : FileStoreLaws (gmap Z (list Z)).
Proof.
  constructor; simpl.
  - intros s cs f i c size ofs -> [= ->] Hc _ _ _. exists cs. by rewrite Hc.
  - intros s cs f i c bs ofs -> [= ->] Hc _ _ _. eexists. rewrite Hc. done.
Qed.

(** ** State *)

Record frame : Type := Frame {
  phys_addr : Z;
  page : option Z;
  pinned : Z;
  evicting : bool;
}.

Inductive page_location_type : Type := filesys | swapslot.

Record supp_page : Type := SuppPage {
  fr : option Z;
  pd : Z;
  vaddr : Z;
  ptype : page_location_type;
  wr : bool;
  fil : Z;
  offset : Z;
  bytes : Z;
  swap_at : option nat;
}.

Record vm (D F : Type) : Type := VM {
  mm : mmu;
  swp : swap D;
  files : F;
  pool : list bool;            (* the pages of the user pool that are in use *)
  pool_base : Z;
  ram : gmap Z (list Z);       (* the bytes of the pages of the user pool *)
  frames : gmap Z frame;
  frame_table : list Z;
  frame_lock : bool;
  spages : gmap Z supp_page;
  supp_tables : gmap Z (gmap Z Z);   (* supplemental pages by user page, for each table *)
  cur_pd : Z;                  (* thread_current ()->pagedir *)
  cur_table : Z;               (* &process_current ()->supp_page_table *)
  cur_file : Z;                (* process_current ()->file *)
  next_ptr : Z;                (* what malloc returns next, if it has memory *)
  malloc_ok : Z → bool;
}.
Arguments VM {D F} _ _ _ _ _ _ _ _ _ _ _ _ _ _ _ _.

Arguments mm {D F} _.
Arguments swp {D F} _.
Arguments files {D F} _.
Arguments pool {D F} _.
Arguments pool_base {D F} _.
Arguments ram {D F} _.
Arguments frames {D F} _.
Arguments frame_table {D F} _.
Arguments frame_lock {D F} _.
Arguments spages {D F} _.
Arguments supp_tables {D F} _.
Arguments cur_pd {D F} _.
Arguments cur_table {D F} _.
Arguments cur_file {D F} _.
Arguments next_ptr {D F} _.
Arguments malloc_ok {D F} _.

Section state.
Context {D F : Type}.
Definition with_mm (x : mmu) (s : vm D F) : vm D F :=
  VM x (swp s) (files s) (pool s) (pool_base s) (ram s) (frames s) (frame_table s) (frame_lock s) (spages s) (supp_tables s) (cur_pd s) (cur_table s) (cur_file s) (next_ptr s) (malloc_ok s).
Definition with_swp (x : swap D) (s : vm D F) : vm D F :=
  VM (mm s) x (files s) (pool s) (pool_base s) (ram s) (frames s) (frame_table s) (frame_lock s) (spages s) (supp_tables s) (cur_pd s) (cur_table s) (cur_file s) (next_ptr s) (malloc_ok s).
Definition with_files (x : F) (s : vm D F) : vm D F :=
  VM (mm s) (swp s) x (pool s) (pool_base s) (ram s) (frames s) (frame_table s) (frame_lock s) (spages s) (supp_tables s) (cur_pd s) (cur_table s) (cur_file s) (next_ptr s) (malloc_ok s).
Definition with_pool (x : list bool) (s : vm D F) : vm D F :=
  VM (mm s) (swp s) (files s) x (pool_base s) (ram s) (frames s) (frame_table s) (frame_lock s) (spages s) (supp_tables s) (cur_pd s) (cur_table s) (cur_file s) (next_ptr s) (malloc_ok s).
Definition with_ram (x : gmap Z (list Z)) (s : vm D F) : vm D F :=
  VM (mm s) (swp s) (files s) (pool s) (pool_base s) x (frames s) (frame_table s) (frame_lock s) (spages s) (supp_tables s) (cur_pd s) (cur_table s) (cur_file s) (next_ptr s) (malloc_ok s).
Definition with_frames (x : gmap Z frame) (s : vm D F) : vm D F :=
  VM (mm s) (swp s) (files s) (pool s) (pool_base s) (ram s) x (frame_table s) (frame_lock s) (spages s) (supp_tables s) (cur_pd s) (cur_table s) (cur_file s) (next_ptr s) (malloc_ok s).
Definition with_frame_table (x : list Z) (s : vm D F) : vm D F :=
  VM (mm s) (swp s) (files s) (pool s) (pool_base s) (ram s) (frames s) x (frame_lock s) (spages s) (supp_tables s) (cur_pd s) (cur_table s) (cur_file s) (next_ptr s) (malloc_ok s).
Definition with_frame_lock (x : bool) (s : vm D F) : vm D F :=
  VM (mm s) (swp s) (files s) (pool s) (pool_base s) (ram s) (frames s) (frame_table s) x (spages s) (supp_tables s) (cur_pd s) (cur_table s) (cur_file s) (next_ptr s) (malloc_ok s).
Definition with_spages (x : gmap Z supp_page) (s : vm D F) : vm D F :=
  VM (mm s) (swp s) (files s) (pool s) (pool_base s) (ram s) (frames s) (frame_table s) (frame_lock s) x (supp_tables s) (cur_pd s) (cur_table s) (cur_file s) (next_ptr s) (malloc_ok s).
Definition with_supp_tables (x : gmap Z (gmap Z Z)) (s : vm D F) : vm D F :=
  VM (mm s) (swp s) (files s) (pool s) (pool_base s) (ram s) (frames s) (frame_table s) (frame_lock s) (spages s) x (cur_pd s) (cur_table s) (cur_file s) (next_ptr s) (malloc_ok s).
Definition with_next_ptr (x : Z) (s : vm D F) : vm D F :=
  VM (mm s) (swp s) (files s) (pool s) (pool_base s) (ram s) (frames s) (frame_table s) (frame_lock s) (spages s) (supp_tables s) (cur_pd s) (cur_table s) (cur_file s) x (malloc_ok s).
End state.
Definition set_page (x : option Z) (f : frame) : frame := Frame (phys_addr f) x (pinned f) (evicting f).
Definition set_pinned (x : Z) (f : frame) : frame := Frame (phys_addr f) (page f) x (evicting f).
Definition set_evicting (x : bool) (f : frame) : frame := Frame (phys_addr f) (page f) (pinned f) x.
Definition set_fr (x : option Z) (p : supp_page) : supp_page := SuppPage x (pd p) (vaddr p) (ptype p) (wr p) (fil p) (offset p) (bytes p) (swap_at p).
Definition set_swap (x : option nat) (p : supp_page) : supp_page := SuppPage (fr p) (pd p) (vaddr p) (ptype p) (wr p) (fil p) (offset p) (bytes p) x.

Section code.
Context {D F : Type} {drv : BlockDriver D} {fst : FileStore F}.
Abbreviation M := (ST (vm D F)).

Definition on_mmu {A} (m : ST mmu A) : M A := λ s,
  match m (mm s) with Ok (a, x) => Ok (a, with_mm x s) | Err e => Err e end.
Definition on_swap {A} (m : ST (swap D) A) : M A := λ s,
  match m (swp s) with Ok (a, x) => Ok (a, with_swp x s) | Err e => Err e end.
Definition on_files {A} (m : ST F A) : M A := λ s,
  match m (files s) with Ok (a, x) => Ok (a, with_files x s) | Err e => Err e end.

Definition get_frame (p : Z) : M frame := λ s, lift (deref (frames s !! p)) s.
Definition upd_frame (p : Z) (f : frame → frame) : M unit :=
  x ← get_frame p; modify (λ s, with_frames (<[p := f x]> (frames s)) s).
Definition get_spage (p : Z) : M supp_page := λ s, lift (deref (spages s !! p)) s.
Definition upd_spage (p : Z) (f : supp_page → supp_page) : M unit :=
  x ← get_spage p; modify (λ s, with_spages (<[p := f x]> (spages s)) s).
Definition get_ram (a : Z) : M (list Z) := λ s, lift (deref (ram s !! a)) s.
Definition set_ram (a : Z) (b : list Z) : M unit := modify (λ s, with_ram (<[a := b]> (ram s)) s).

(** [malloc]: an address that was not used before, or a null pointer. *)
Definition malloc : M (option Z) := λ s,
  Ok (if malloc_ok s (next_ptr s) then Some (next_ptr s) else None, with_next_ptr (next_ptr s + 1) s).

(** ** The user pool *)

Fixpoint first_free (used : list bool) : option nat :=
  match used with
  | [] => None
  | u :: us => if u : bool then S <$> first_free us else Some O
  end.

Definition zero_bytes : list Z := replicate (Z.to_nat PGSIZE) 0.

(** [palloc_get_page (PAL_USER)], or with PAL_ZERO. *)
Definition palloc_get_page (zero : bool) : M (option Z) :=
  s ← gets id;
  match first_free (pool s) with
  | None => mret None
  | Some i =>
      let a := pool_base s + PGSIZE * Z.of_nat i in
      modify (with_pool (<[i := true]> (pool s)));;
      (if zero then set_ram a zero_bytes else mret tt);;
      mret (Some a)
  end.

Definition palloc_free_page (a : Z) : M unit :=
  s ← gets id;
  let i := Z.to_nat ((a - pool_base s) / PGSIZE) in
  assert (pg_ofs a =? 0);;
  assert ((pool_base s <=? a) && bool_decide (pool s !! i = Some true));;
  set_ram a (replicate (Z.to_nat PGSIZE) 0xcc);;
  modify (with_pool (<[i := false]> (pool s))).

(** ** vm/frame.c *)

Definition lock_acquire : M unit :=
  s ← gets id; assert (negb (frame_lock s));; modify (with_frame_lock true).
Definition lock_release : M unit :=
  s ← gets id; assert (frame_lock s);; modify (with_frame_lock false).

(** The lock is taken unless the thread has it: whether to release it. *)
Definition lock_unless_held : M bool :=
  s ← gets id; if frame_lock s then mret false else lock_acquire;; mret true.

Definition init_frame_table : M unit := modify (with_frame_table []);; modify (with_frame_lock false).

Fixpoint choose_loop (fuel : nat) : M Z :=
  match fuel with
  | O => fail OutOfFuel
  | S fuel =>
      s ← gets id;
      match frame_table s with
      | [] => fail AssertFailed      (* list_pop_front of an empty list *)
      | cur :: rest =>
          modify (with_frame_table rest);;
          cur_frame ← get_frame cur;
          p ← lift (deref (page cur_frame));
          cur_page ← get_spage p;
          a1 ← on_mmu (pagedir_is_accessed (pd cur_page) (phys_addr cur_frame));
          keep ← (if a1 : bool then mret true
                  else a2 ← on_mmu (pagedir_is_accessed (pd cur_page) (vaddr cur_page));
                       mret (a2 || evicting cur_frame || negb (pinned cur_frame =? 0)));
          if keep : bool then
            on_mmu (pagedir_set_accessed (pd cur_page) (phys_addr cur_frame) false);;
            on_mmu (pagedir_set_accessed (pd cur_page) (vaddr cur_page) false);;
            s ← gets id;
            modify (with_frame_table (frame_table s ++ [cur]));;
            choose_loop fuel
          else mret cur
      end
  end.

(** Two rounds over the table, and one more frame. *)
Definition frame_choose_victim : M Z :=
  s ← gets id; choose_loop (S (2 * length (frame_table s))).

(** [list_remove] takes the frame out of the table; if it was the last one popped, the element
    still points to its old neighbours and the call changes nothing. *)
Definition table_remove (f : Z) : M unit :=
  s ← gets id; modify (with_frame_table (filter (λ x, x ≠ f) (frame_table s))).

Definition frame_free (f : option Z) : M Z :=
  match f with
  | None => mret 1
  | Some f =>
      unlock ← lock_unless_held;
      table_remove f;;
      x ← get_frame f;
      p ← lift (deref (page x));
      spg ← get_spage p;
      on_mmu (pagedir_clear_page (pd spg) (vaddr spg));;
      palloc_free_page (phys_addr x);;
      s ← gets id;
      modify (with_frames (delete f (frames s)));;
      (if unlock : bool then lock_release else mret tt);;
      mret 0
  end.

(** Where the data of page [p], in frame [x], goes. *)
Definition evict_save (p : Z) (spg : supp_page) (x : frame) : M unit :=
  match ptype spg with
  | filesys =>
      d ← on_mmu (pagedir_is_dirty (pd spg) (vaddr spg));
      if d : bool then
        b ← get_ram (phys_addr x);
        on_files (file_write_at (fil spg) (take (Z.to_nat (bytes spg)) b) (bytes spg) (offset spg));;
        on_mmu (pagedir_set_dirty (pd spg) (vaddr spg) false)
      else mret tt
  | swapslot =>
      b ← get_ram (phys_addr x);
      sl ← on_swap (swap_put_page b);
      upd_spage p (set_swap sl)
  end.

Definition evict_tail (p : Z) : M unit :=
  spg ← get_spage p;
  r ← frame_free (fr spg);
  assert (r =? 0);;
  upd_spage p (set_fr None).

Definition frame_evict (f : Z) : M unit :=
  upd_frame f (set_evicting true);;
  unlock ← lock_unless_held;
  x ← get_frame f;
  p ← lift (deref (page x));
  spg ← get_spage p;
  assert (bool_decide (fr spg = Some f));;
  assert (evicting x);;
  evict_save p spg x;;
  evict_tail p;;
  if unlock : bool then lock_release else mret tt.

Definition frame_create (zero pin : bool) : M Z :=
  lock_acquire;;
  kpage ← palloc_get_page zero;
  kpage ← match kpage with
          | Some _ => mret kpage
          | None => v ← frame_choose_victim; frame_evict v;; palloc_get_page zero
          end;
  match kpage with
  | None => fail Panicked
  | Some k =>
      o ← malloc;
      new_frame ← lift (deref o);
      s ← gets id;
      modify (with_frames (<[new_frame := Frame k None (if pin then 1 else 0) false]> (frames s)));;
      on_mmu (pagedir_set_dirty (cur_pd s) k false);;
      modify (λ s, with_frame_table (frame_table s ++ [new_frame]) s);;
      lock_release;;
      mret new_frame
  end.

(** ** vm/page.c *)

Definition get_supp_page (table va : Z) : M (option Z) :=
  assert (is_user_vaddr va);;
  assert (pg_ofs va =? 0);;
  s ← gets id;
  t ← lift (deref (supp_tables s !! table));
  mret (t !! va).

(** Filling the new frame [x] of page [p]. *)
Definition page_fill (p : Z) (spg : supp_page) (x : frame) : M unit :=
  match ptype spg with
  | filesys =>
      b ← on_files (file_read_at (fil spg) (bytes spg) (offset spg));
      old ← get_ram (phys_addr x);
      set_ram (phys_addr x) (put_bytes old 0 b);;
      if negb (Z.of_nat (length b) =? bytes spg) then fail Panicked
      else
        s ← gets id;
        if wr spg && (fil spg =? cur_file s) then
          upd_spage p (λ q, SuppPage (fr q) (pd q) (vaddr q) swapslot (wr q) 0 0 0 None)
        else mret tt
  | swapslot =>
      b ← on_swap (swap_retrieve_page (swap_at spg));
      set_ram (phys_addr x) b
  end.

Definition page_to_new_frame (p : Z) (pin : bool) : M Z :=
  spg ← get_spage p;
  e ← match fr spg with Some f => x ← get_frame f; mret (evicting x) | None => mret true end;
  assert e;;
  new_frame ← frame_create true pin;
  upd_frame new_frame (set_page (Some p));;
  upd_spage p (set_fr (Some new_frame));;
  spg ← get_spage p;
  x ← get_frame new_frame;
  page_fill p spg x;;
  spg ← get_spage p;
  on_mmu (pagedir_set_page (pd spg) (vaddr spg) (phys_addr x) (wr spg));;
  mret new_frame.

Definition free_supp_page (table p : Z) : M Z :=
  spg ← get_spage p;
  o ← get_supp_page table (vaddr spg);
  assert (bool_decide (is_Some o));;
  s ← gets id;
  t ← lift (deref (supp_tables s !! table));
  modify (with_supp_tables (<[table := delete (vaddr spg) t]> (supp_tables s)));;
  modify (λ s, with_spages (delete p (spages s)) s);;
  mret 0.

(** The new supplemental page, with the members that the callers fill in. *)
Definition allocate_supp_page (table va : Z) (init : supp_page) : M Z :=
  assert (is_user_vaddr va);;
  assert (pg_ofs va =? 0);;
  o ← get_supp_page table va;
  assert (bool_decide (o = None));;
  o ← malloc;
  p ← lift (deref o);
  s ← gets id;
  on_mmu (pagedir_set_dirty (cur_pd s) va false);;
  s ← gets id;
  t ← lift (deref (supp_tables s !! table));
  modify (with_supp_tables (<[table := <[va := p]> t]> (supp_tables s)));;
  modify (λ s, with_spages (<[p := init]> (spages s)) s);;
  mret p.

Definition create_filesys_page (table va pd : Z) (f : option Z) (file offset bytes : Z) (writable : bool) : M Z :=
  assert (negb (file =? 0));;
  allocate_supp_page table va (SuppPage f pd va filesys writable file offset bytes None).

Definition create_swapslot_page (table va pd : Z) (f : option Z) (writable : bool) : M Z :=
  allocate_supp_page table va (SuppPage f pd va swapslot writable 0 0 0 None).

Definition free_action_func (p : Z) : M unit :=
  spg ← get_spage p;
  match fr spg with
  | Some f => match ptype spg with filesys => frame_evict f | swapslot => frame_free (Some f);; mret tt end
  | None => mret tt
  end;;
  spg ← get_spage p;
  match ptype spg, swap_at spg with
  | swapslot, Some i => on_swap (swap_remove_page (Some i))
  | _, _ => mret tt
  end;;
  s ← gets id;
  on_mmu (pagedir_clear_page (cur_pd s) (vaddr spg));;
  modify (λ s, with_spages (delete p (spages s)) s).

Fixpoint apply_pages (ps : list Z) : M unit :=
  match ps with [] => mret tt | p :: ps => free_action_func p;; apply_pages ps end.

(** [order] is the order of the elements in the buckets of the table. *)
Definition free_supp_page_table (table : Z) (order : gmap Z Z → list Z) : M unit :=
  s ← gets id;
  t ← lift (deref (supp_tables s !! table));
  apply_pages (order t);;
  modify (λ s, with_supp_tables (delete table (supp_tables s)) s).

Definition pin_page (table va : Z) : M unit :=
  o ← get_supp_page table (pg_round_down va);
  p ← lift (deref o);
  spg ← get_spage p;
  match fr spg with
  | Some f =>
      x ← get_frame f;
      if evicting x then fail Blocked       (* waits for the evicting thread *)
      else
        assert (0 <=? pinned x);;
        upd_frame f (set_pinned (i32 (pinned x + 1)))
  | None => page_to_new_frame p true;; mret tt
  end.

Definition unpin_page (table va : Z) : M unit :=
  o ← get_supp_page table (pg_round_down va);
  assert (bool_decide (is_Some o));;
  p ← lift (deref o);
  spg ← get_spage p;
  assert (bool_decide (is_Some (fr spg)));;
  f ← lift (deref (fr spg));
  x ← get_frame f;
  assert (0 <? pinned x);;
  assert (negb (evicting x));;
  upd_frame f (set_pinned (pinned x - 1)).

(** ** userprog/exception.c, with the helpers from process.c and syscall.c *)

Definition install_page (upage kpage : Z) (writable : bool) : M bool :=
  assert (pg_ofs upage =? 0);;
  assert (pg_ofs kpage =? 0);;
  s ← gets id;
  o ← on_mmu (pagedir_get_page (cur_pd s) upage);
  match o with
  | Some _ => mret false
  | None => on_mmu (pagedir_set_page (cur_pd s) upage kpage writable)
  end.

Definition is_stack_access (addr esp : Z) : bool := (u32 (esp - 8) <? addr) && (addr <? PHYS_BASE).

Definition grow_stack (upage : Z) : M Z :=
  new_fr ← frame_create true false;
  s ← gets id;
  p ← create_swapslot_page (cur_table s) upage (cur_pd s) (Some new_fr) true;
  upd_frame new_fr (set_page (Some p));;
  x ← get_frame new_fr;
  install_page upage (phys_addr x) true;;
  mret p.

(** The instruction is tried again, the kernel goes on at the address in eax with eax = -1, or the
    process is killed. *)
Inductive fault_action : Type := Retry | Fixup | Kill.

Definition PF_P : Z := 1.
Definition PF_W : Z := 2.
Definition PF_U : Z := 4.

Definition page_fault (fault_addr error_code esp : Z) : M fault_action :=
  let not_present := Z.land error_code PF_P =? 0 in
  let write := negb (Z.land error_code PF_W =? 0) in
  let user := negb (Z.land error_code PF_U =? 0) in
  let otherwise : M fault_action := mret (if user then Kill else Fixup) in
  if negb user && ((fault_addr =? 0) || (fault_addr =? 2 ^ 32 - 1)) then fail Panicked
  else if not_present then
    let upage := pg_round_down fault_addr in
    if is_user_vaddr upage then
      s ← gets id;
      o ← get_supp_page (cur_table s) upage;
      match o with
      | Some p =>
          spg ← get_spage p;
          if implb write (wr spg) then page_to_new_frame p false;; mret Retry else otherwise
      | None => if is_stack_access fault_addr esp then grow_stack upage;; mret Retry else otherwise
      end
    else otherwise
  else otherwise.
End code.
