(* ===== verification/VmVictim.v ===== *)
(** * vm/frame.c: the choice of a frame to evict

    [frame_choose_victim] takes frames from the front of the table; one that was accessed, is
    pinned or is being evicted loses its accessed bits and goes to the back.  Shown: what it
    returns, in which order it leaves the other frames, that two rounds are enough, and that it
    never returns when every frame is pinned. *)

From S2P Require Import Prelude Bytes Vaddr Block Pagedir Swap Vm.

(** Takes a translated operation one step further. *)
Ltac run := cbv beta iota; cbn [mm swp files pool pool_base ram frames frame_table frame_lock spages supp_tables cur_pd
  cur_table cur_file next_ptr malloc_ok with_mm with_swp with_files with_pool with_ram with_frames with_frame_table
  with_frame_lock with_spages with_supp_tables with_next_ptr id negb].

Section victim.
Context {D F : Type} {drv : BlockDriver D} {fst : FileStore F}.
Context (dirs : gset Z).
Implicit Types s : vm D F.

(** A frame and the page in it. *)
Definition whereis s (f : Z) : option (frame * supp_page) :=
  match frames s !! f with
  | Some x => match page x with
              | Some p => match spages s !! p with Some q => Some (x, q) | None => None end
              | None => None
              end
  | None => None
  end.

Definition accessed s (f : Z) : bool :=
  match whereis s f with
  | Some (x, q) => flag (mm s) (pd q) (phys_addr x) 5 || flag (mm s) (pd q) (vaddr q) 5
  | None => false
  end.
Definition busy s (f : Z) : bool :=
  match whereis s f with
  | Some (x, _) => evicting x || negb (pinned x =? 0)
  | None => false
  end.
Definition keep s (f : Z) : bool := accessed s f || busy s f.

(** Frames of the table have pages, of known directories, and no two share a page table entry. *)
Record queue_ok s : Prop := {
  qo_mmu : mmu_ok dirs (mm s);
  qo_nodup : NoDup (frame_table s);
  qo_frame f : f ∈ frame_table s → ∃ x q, whereis s f = Some (x, q) ∧ pd q ∈ dirs
    ∧ PHYS_BASE ≤ phys_addr x < 2 ^ 32 ∧ 0 ≤ vaddr q < PHYS_BASE;
  qo_sep f g x q x' q' : f ∈ frame_table s → g ∈ frame_table s → f ≠ g →
    whereis s f = Some (x, q) → whereis s g = Some (x', q') →
    same_page (phys_addr x) (phys_addr x') = false ∧ (pd q = pd q' → same_page (vaddr q) (vaddr q') = false);
}.

(** Only the order of the table and accessed bits have changed. *)
Definition aged s s' : Prop :=
  ∃ m', s' = with_frame_table (frame_table s') (with_mm m' s) ∧ mmu_ok dirs m' ∧ same_regs (mm s) m' ∧ pages m' = pages (mm s)
    ∧ ∀ pd u, pd ∈ dirs → is_u32 u → mapping m' pd u = mapping (mm s) pd u
      ∧ ∀ j, 0 ≤ j → j ≠ 5 → flag m' pd u j = flag (mm s) pd u j.

Lemma with_mm_id s : with_mm (mm s) s = s.
Proof. by destruct s. Qed.

Lemma with_table_id s : with_frame_table (frame_table s) s = s.
Proof. by destruct s. Qed.

Lemma aged_refl s t : mmu_ok dirs (mm s) → aged s (with_frame_table t s).
Proof. intros H. exists (mm s). split; [by destruct s|done]. Qed.

Lemma aged_trans s1 s2 s3 : aged s1 s2 → aged s2 s3 → aged s1 s3.
Proof.
  intros (m1 & E1 & H1 & R1 & P1 & F1) (m2 & E2 & H2 & R2 & P2 & F2). exists m2.
  assert (Em : mm s2 = m1) by (by rewrite E1). rewrite Em in R2, P2, F2.
  split; [rewrite E2, E1; by destruct s1|]. split; [done|]. split; [unfold same_regs in *; naive_solver congruence|].
  split; [congruence|]. intros pd u Hpd Hu. destruct (F1 pd u Hpd Hu) as [M1 G1], (F2 pd u Hpd Hu) as [M2 G2].
  split; [congruence|]. intros j Hj Hn. by rewrite G2, G1.
Qed.

Lemma whereis_mm s t m f : whereis (with_frame_table t (with_mm m s)) f = whereis s f.
Proof. done. Qed.

(** Clearing an accessed bit. *)
Lemma clear_accessed m d u :
  mmu_ok dirs m → d ∈ dirs → is_u32 u →
  ∃ m', pagedir_set_accessed d u false m = Ok (tt, m') ∧ mmu_ok dirs m' ∧ same_regs m m' ∧ pages m' = pages m
    ∧ ∀ d' u', d' ∈ dirs → is_u32 u' → mapping m' d' u' = mapping m d' u'
      ∧ ∀ j, 0 ≤ j → flag m' d' u' j = if same_entry d u d' u' && (5 =? j) then false else flag m d' u' j.
Proof.
  intros Hm Hd Hu. destruct (set_flag_view dirs m d u 5 false Hm Hd Hu ltac:(lia)) as (m' & E & Hm' & Hr & Hp & Hv).
  exists m'. do 4 (split; [done|]). intros d' u' Hd' Hu'. destruct (Hv d' u' Hd' Hu') as [H1 H2]. split; [done|].
  intros j Hj. rewrite H2 by done. by destruct (entry m d u), (same_entry d u d' u' && (5 =? j)).
Qed.

Lemma user_kernel_page d u d' u' : 0 ≤ u < PHYS_BASE → PHYS_BASE ≤ u' → same_entry d u d' u' = false ∧ same_entry d' u' d u = false.
Proof.
  intros Hu Hu'. assert (u / PGSIZE < u' / PGSIZE).
  { unfold PHYS_BASE, PGSIZE in *. apply Z.lt_le_trans with 786432; [apply Z.div_lt_upper_bound; lia|apply Z.div_le_lower_bound; lia]. }
  unfold same_entry, same_page. split; [destruct (Z.eqb_spec (u' / PGSIZE) (u / PGSIZE))|destruct (Z.eqb_spec (u / PGSIZE) (u' / PGSIZE))]; lia || done.
Qed.

(** A frame is given its second chance. *)
Lemma second_chance_step s f t x q :
  queue_ok s → frame_table s = f :: t → whereis s f = Some (x, q) →
  ∃ m1 m2, pagedir_set_accessed (pd q) (phys_addr x) false (mm s) = Ok (tt, m1)
    ∧ pagedir_set_accessed (pd q) (vaddr q) false m1 = Ok (tt, m2)
    ∧ let s' := with_frame_table (t ++ [f]) (with_mm m2 s) in
      queue_ok s' ∧ aged s s' ∧ ∀ g, g ∈ frame_table s → accessed s' g = if decide (g = f) then false else accessed s g.
Proof.
  intros Hq Ht Hf. assert (Hin : f ∈ frame_table s) by (rewrite Ht; set_solver).
  destruct (qo_frame s Hq f Hin) as (x0 & q0 & E0 & Hpd & Hphys & Hva). rewrite Hf in E0. injection E0 as <- <-.
  assert (Hp32 : is_u32 (phys_addr x)) by (unfold PHYS_BASE in *; unfold_ints; lia).
  assert (Hv32 : is_u32 (vaddr q)) by (unfold PHYS_BASE in *; unfold_ints; lia).
  destruct (clear_accessed (mm s) (pd q) (phys_addr x) (qo_mmu s Hq) Hpd Hp32) as (m1 & E1 & Hm1 & Hr1 & Hg1 & F1).
  destruct (clear_accessed m1 (pd q) (vaddr q) Hm1 Hpd Hv32) as (m2 & E2 & Hm2 & Hr2 & Hg2 & F2).
  exists m1, m2. split; [done|]. split; [done|]. intros s'.
  assert (Hperm : ∀ g, g ∈ t ++ [f] ↔ g ∈ frame_table s) by (intros g; rewrite Ht; set_solver).
  split; [|split].
  - constructor; simpl; try done.
    + pose proof (qo_nodup s Hq) as Hn. rewrite Ht in Hn. apply NoDup_cons in Hn as [Hn1 Hn2].
      apply NoDup_app. split_and!; [done|set_solver|apply NoDup_singleton].
    + intros g Hg. apply Hperm in Hg. by apply (qo_frame s Hq g).
    + intros g h y r y' r' Hg Hh. apply Hperm in Hg, Hh. by apply (qo_sep s Hq).
  - exists m2. split; [done|]. split; [done|]. split; [unfold same_regs in *; naive_solver congruence|]. split; [congruence|].
    intros d u Hd Hu. destruct (F1 d u Hd Hu) as [M1 G1], (F2 d u Hd Hu) as [M2 G2]. split; [congruence|].
    intros j Hj Hn. rewrite G2, G1 by done. destruct (Z.eqb_spec 5 j); [lia|]. by rewrite !andb_false_r.
  - intros g Hg. unfold accessed. unfold s'. rewrite whereis_mm. cbn [mm with_frame_table with_mm].
    destruct (qo_frame s Hq g Hg) as (y & r & Eg & Hpd' & Hphys' & Hva'). rewrite Eg.
    assert (is_u32 (phys_addr y) ∧ is_u32 (vaddr r)) as [Hy32 Hr32] by (unfold PHYS_BASE in *; unfold_ints; lia).
    destruct (F2 (pd r) (phys_addr y) Hpd' Hy32) as [_ ->]; [|lia]. destruct (F2 (pd r) (vaddr r) Hpd' Hr32) as [_ ->]; [|lia].
    destruct (F1 (pd r) (phys_addr y) Hpd' Hy32) as [_ ->]; [|lia]. destruct (F1 (pd r) (vaddr r) Hpd' Hr32) as [_ ->]; [|lia].
    cbn [Z.eqb Pos.eqb]. rewrite !andb_true_r.
    destruct (user_kernel_page (pd q) (vaddr q) (pd r) (phys_addr y)) as [-> _]; [lia|lia|].
    destruct (user_kernel_page (pd r) (vaddr r) (pd q) (phys_addr x)) as [_ ->]; [lia|lia|].
    destruct (decide (g = f)) as [->|Hne].
    + rewrite Hf in Eg. injection Eg as <- <-. by rewrite !same_entry_refl.
    + destruct (qo_sep s Hq f g x q y r Hin Hg (not_eq_sym Hne) Hf Eg) as [Hs1 Hs2]. unfold same_entry at 1. rewrite Hs1. cbn [andb].
      unfold same_entry. destruct (Z.eqb_spec (pd q) (pd r)) as [Ed|]; [by rewrite (Hs2 Ed)|].
      destruct (Z.leb_spec PHYS_BASE (vaddr q)); [lia|]. by rewrite andb_false_r.
Qed.

(** One turn of the loop. *)
Lemma choose_step s f t :
  queue_ok s → frame_table s = f :: t →
  if keep s f then
    ∃ s', (∀ n, choose_loop (S n) s = choose_loop n s') ∧ queue_ok s' ∧ aged s s' ∧ frame_table s' = t ++ [f]
      ∧ ∀ g, g ∈ frame_table s → accessed s' g = if decide (g = f) then false else accessed s g
  else ∀ n, choose_loop (S n) s = Ok (f, with_frame_table t s).
Proof.
  intros Hq Ht. assert (Hin : f ∈ frame_table s) by (rewrite Ht; set_solver).
  destruct (qo_frame s Hq f Hin) as (x & q & Hf & Hpd & Hphys & Hva).
  assert (is_u32 (phys_addr x) ∧ is_u32 (vaddr q)) as [Hp32 Hv32] by (unfold PHYS_BASE in *; unfold_ints; lia).
  destruct (second_chance_step s f t x q Hq Ht Hf) as (m1 & m2 & E1 & E2 & Hq' & Ha & Hacc).
  set (s' := with_frame_table (t ++ [f]) (with_mm m2 s)) in *.
  assert (Ek : keep s f = flag (mm s) (pd q) (phys_addr x) 5
    || (flag (mm s) (pd q) (vaddr q) 5 || evicting x || negb (pinned x =? 0))).
  { unfold keep, accessed, busy. rewrite Hf. by rewrite !orb_assoc. }
  unfold whereis in Hf. destruct (frames s !! f) as [x'|] eqn:Ex; [|done]. destruct (page x') as [p|] eqn:Ep; [|done].
  destruct (spages s !! p) as [q'|] eqn:Eq; [|done]. injection Hf as -> ->.
  pose proof (is_flag_spec dirs (mm s) (pd q) (phys_addr x) 5 (qo_mmu s Hq) Hpd Hp32 ltac:(lia)) as A1.
  pose proof (is_flag_spec dirs (mm s) (pd q) (vaddr q) 5 (qo_mmu s Hq) Hpd Hv32 ltac:(lia)) as A2.
  change (is_flag (2 ^ 5)) with pagedir_is_accessed in A1, A2.
  assert (Er : ∀ n, choose_loop (S n) s = if keep s f then choose_loop n s' else Ok (f, with_frame_table t s)).
  { intros n. rewrite Ek. cbn [choose_loop]. unfold mbind, st_bind, gets, modify, get_frame, get_spage, on_mmu, lift, deref. cbn [id].
    rewrite Ht. run. rewrite Ex. run. rewrite Ep. run. rewrite Eq. run. rewrite A1. run. unfold mret, st_ret.
    destruct (flag (mm s) (pd q) (phys_addr x) 5); cbn [orb].
    { run. rewrite E1. run. rewrite E2. reflexivity. }
    run. rewrite A2. run. destruct (flag (mm s) (pd q) (vaddr q) 5 || _ || _); [|reflexivity].
    run. rewrite E1. run. rewrite E2. reflexivity. }
  destruct (keep s f); [by exists s'|done].
Qed.

Lemma aged_busy s s' f : aged s s' → busy s' f = busy s f.
Proof. intros (m & -> & _). done. Qed.

(** Frames at the front that are all kept go to the back, one turn each. *)
Lemma choose_round pre : ∀ s t,
  queue_ok s → frame_table s = pre ++ t → Forall (λ f, keep s f = true) pre →
  ∃ s', (∀ n, choose_loop (length pre + n) s = choose_loop n s') ∧ queue_ok s' ∧ aged s s' ∧ frame_table s' = t ++ pre
    ∧ ∀ g, g ∈ frame_table s → accessed s' g = if decide (g ∈ pre) then false else accessed s g.
Proof.
  induction pre as [|f pre IH]; intros s t Hq Ht Hk.
  - exists s. split; [done|]. split; [done|]. split; [rewrite <- (with_table_id s) at 2; apply aged_refl, Hq|].
    split; [by rewrite app_nil_r|]. intros g _. destruct (decide (g ∈ [])) as [H|]; [by apply elem_of_nil in H|done].
  - apply Forall_cons in Hk as [Hf Hk]. pose proof (choose_step s f (pre ++ t) Hq Ht) as Hs. rewrite Hf in Hs.
    destruct Hs as (s1 & E1 & Hq1 & Ha1 & Ht1 & Hacc1).
    pose proof (qo_nodup s Hq) as Hn. rewrite Ht in Hn. apply NoDup_cons in Hn as [Hn _].
    destruct (IH s1 (t ++ [f])) as (s2 & E2 & Hq2 & Ha2 & Ht2 & Hacc2); [done|by rewrite app_assoc| |].
    { apply Forall_forall. intros g Hg. pose proof (proj1 (Forall_forall _ _) Hk g Hg) as Hkg. unfold keep in *.
      rewrite (aged_busy s s1) by done. rewrite Hacc1 by (rewrite Ht; set_solver). rewrite decide_False; [done|set_solver]. }
    exists s2. split; [intros n; change (length (f :: pre) + n)%nat with (S (length pre + n)); by rewrite E1, E2|]. split; [done|]. split; [by eapply aged_trans|].
    split; [by rewrite Ht2, <- app_assoc|]. intros g Hg. rewrite Hacc2 by (rewrite Ht1; rewrite Ht in Hg; set_solver).
    rewrite Hacc1 by done. destruct (decide (g ∈ pre)); [by rewrite decide_True by set_solver|].
    destruct (decide (g = f)); [by rewrite decide_True by set_solver|]. by rewrite decide_False by set_solver.
Qed.

(** The first frame of the table that is not kept, if there is one. *)
Lemma choose_first s pre v post :
  queue_ok s → frame_table s = pre ++ v :: post → Forall (λ f, keep s f = true) pre → keep s v = false →
  ∃ s', (∀ n, choose_loop (length pre + S n) s = Ok (v, s')) ∧ aged s s' ∧ frame_table s' = post ++ pre
    ∧ ∀ g, g ∈ frame_table s → accessed s' g = if decide (g ∈ pre) then false else accessed s g.
Proof.
  intros Hq Ht Hk Hv. destruct (choose_round pre s (v :: post) Hq Ht Hk) as (s1 & E1 & Hq1 & Ha1 & Ht1 & Hacc1).
  pose proof (qo_nodup s Hq) as Hn. rewrite Ht in Hn. apply NoDup_app in Hn as (_ & Hn & _).
  pose proof (choose_step s1 v (post ++ pre) Hq1 Ht1) as Hs.
  assert (Hv1 : keep s1 v = false).
  { unfold keep in *. rewrite (aged_busy s s1) by done. rewrite Hacc1 by (rewrite Ht; set_solver).
    rewrite decide_False; [done|]. intros Hin. by apply (Hn v Hin); left. }
  rewrite Hv1 in Hs. exists (with_frame_table (post ++ pre) s1).
  split; [intros n; by rewrite E1, Hs|].
  split; [eapply aged_trans; [done|apply aged_refl, Hq1]|]. done.
Qed.

Lemma first_split (P : Z → bool) l :
  (∃ f, f ∈ l ∧ P f = false) →
  ∃ pre v post, l = pre ++ v :: post ∧ Forall (λ f, P f = true) pre ∧ P v = false.
Proof.
  intros (f & Hf & Hp). induction l as [|x l IH]; [by apply elem_of_nil in Hf|]. destruct (P x) eqn:Ex.
  - apply elem_of_cons in Hf as [->|Hf]; [congruence|]. destruct (IH Hf) as (pre & v & post & -> & Hk & Hv).
    exists (x :: pre), v, post. split; [done|]. split; [by constructor|done].
  - by exists [], x, l.
Qed.

Lemma choose_busy n : ∀ s, queue_ok s → frame_table s ≠ [] → Forall (λ f, busy s f = true) (frame_table s) →
  choose_loop n s = Err OutOfFuel.
Proof.
  induction n as [|n IH]; intros s Hq Hne Hb; [done|]. destruct (frame_table s) as [|f t] eqn:Ht; [done|].
  pose proof (choose_step s f t Hq Ht) as Hs. assert (Hk : keep s f = true).
  { unfold keep. apply Forall_cons in Hb as [-> _]. apply orb_true_r. }
  rewrite Hk in Hs. destruct Hs as (s' & E & Hq' & Ha & Ht' & _). rewrite E. apply IH; [done|by rewrite Ht'; destruct t|].
  rewrite Ht'. apply Forall_forall. intros g Hg. rewrite (aged_busy s s') by done.
  apply (proj1 (Forall_forall _ _) Hb). set_solver.
Qed.

Lemma choose_victim_spec s :
  queue_ok s → (∃ f, f ∈ frame_table s ∧ busy s f = false) →
  ∃ pre v post s', frame_table s = pre ++ v :: post ∧ frame_choose_victim s = Ok (v, s')
    ∧ aged s s' ∧ frame_table s' = post ++ pre ∧ busy s v = false
    ∧ ((Forall (λ f, keep s f = true) pre ∧ accessed s v = false
        ∧ (∀ g, g ∈ pre → accessed s' g = false) ∧ (∀ g, g ∈ post → accessed s' g = accessed s g))
       ∨ (Forall (λ f, keep s f = true) (frame_table s) ∧ Forall (λ f, busy s f = true) pre
        ∧ ∀ g, g ∈ pre ++ post → accessed s' g = false)).
Proof.
  intros Hq Hex. unfold frame_choose_victim, mbind, st_bind, gets. cbn [id].
  destruct (decide (Forall (λ f, keep s f = true) (frame_table s))) as [Hall|Hsome].
  - destruct (first_split (busy s) (frame_table s) Hex) as (pre & v & post & Ht & Hpre & Hv).
    destruct (choose_round (frame_table s) s [] Hq) as (s1 & E1 & Hq1 & Ha1 & Ht1 & Hacc1); [by rewrite app_nil_r|done|]. simpl in Ht1.
    assert (Hacc0 : ∀ g, g ∈ frame_table s → accessed s1 g = false) by (intros g Hg; rewrite Hacc1 by done; by rewrite decide_True).
    assert (Hk1 : ∀ g, g ∈ frame_table s → keep s1 g = busy s g).
    { intros g Hg. unfold keep. by rewrite Hacc0, (aged_busy s s1). }
    destruct (choose_first s1 pre v post Hq1) as (s2 & E2 & Ha2 & Ht2 & Hacc2); [by rewrite Ht1| | |].
    { apply Forall_forall. intros g Hg. rewrite Hk1 by (rewrite Ht; set_solver). by apply (proj1 (Forall_forall _ _) Hpre). }
    { rewrite Hk1 by (rewrite Ht; set_solver). done. }
    exists pre, v, post, s2. split; [done|]. split.
    { replace (S (2 * length (frame_table s))) with (length (frame_table s) + (length pre + S (S (length post))))%nat.
      - by rewrite E1, E2.
      - rewrite Ht, length_app. simpl. lia. }
    split; [by eapply aged_trans|]. split; [done|]. split; [done|]. right. split; [done|]. split; [done|]. intros g Hg.
    assert (Hin : g ∈ frame_table s) by (rewrite Ht; set_solver). rewrite Hacc2 by (by rewrite Ht1).
    rewrite Hacc0 by done. by destruct (decide (g ∈ pre)).
  - destruct (first_split (keep s) (frame_table s)) as (pre & v & post & Ht & Hpre & Hv).
    { apply not_Forall_Exists in Hsome; [|intros ?; apply _]. apply Exists_exists in Hsome as (f & Hf & Hk).
      exists f. split; [done|]. by apply not_true_is_false. }
    destruct (choose_first s pre v post Hq Ht Hpre Hv) as (s2 & E2 & Ha2 & Ht2 & Hacc2). exists pre, v, post, s2.
    pose proof (qo_nodup s Hq) as Hn. rewrite Ht in Hn. apply NoDup_app in Hn as (_ & Hn & _).
    unfold keep in Hv. apply orb_false_iff in Hv as [Hva Hvb]. split; [done|]. split.
    { replace (S (2 * length (frame_table s))) with (length pre + S (length pre + 2 * length post + 2))%nat; [by rewrite E2|].
      rewrite Ht, length_app. simpl. lia. }
    split; [done|]. split; [done|]. split; [done|]. left. split; [done|]. split; [done|]. split; intros g Hg.
    + rewrite Hacc2 by (rewrite Ht; set_solver). by rewrite decide_True.
    + rewrite Hacc2 by (rewrite Ht; set_solver). rewrite decide_False; [done|]. intros Hin. apply (Hn g Hin). by right.
Qed.

(** C28.  Second chance.  If some frame of the table is neither pinned nor being evicted,
    [frame_choose_victim] returns within two rounds, fails no assertion, and takes out of the table the first frame
    that is neither accessed, pinned nor being evicted; the frames before it have lost their
    accessed bits and are behind the others.  If every frame was to be kept, all have
    lost their accessed bits and the first that is neither pinned nor being evicted is taken.
    Nothing else has changed: no mapping, no other bit, no frame.  If every frame is pinned or being
    evicted, the loop never ends; and of an empty table it fails an assertion. *)
Theorem second_chance s :
  queue_ok s →
  ((∃ f, f ∈ frame_table s ∧ busy s f = false) →
   ∃ pre v post s', frame_table s = pre ++ v :: post ∧ frame_choose_victim s = Ok (v, s')
     ∧ aged s s' ∧ frame_table s' = post ++ pre ∧ busy s v = false
     ∧ ((Forall (λ f, keep s f = true) pre ∧ accessed s v = false
         ∧ (∀ g, g ∈ pre → accessed s' g = false) ∧ (∀ g, g ∈ post → accessed s' g = accessed s g))
        ∨ (Forall (λ f, keep s f = true) (frame_table s) ∧ Forall (λ f, busy s f = true) pre
         ∧ ∀ g, g ∈ pre ++ post → accessed s' g = false)))
  ∧ (frame_table s ≠ [] → (∀ f, f ∈ frame_table s → busy s f = true) → ∀ fuel, choose_loop fuel s = Err OutOfFuel)
  ∧ (frame_table s = [] → frame_choose_victim s = Err AssertFailed).
Proof.
  intros Hq. split; [by apply choose_victim_spec|split].
  - intros Hne Hb fuel. apply choose_busy; [done|done|]. by apply Forall_forall.
  - intros He. unfold frame_choose_victim, mbind, st_bind, gets. cbn [id]. rewrite He. cbn [length Nat.mul Nat.add choose_loop].
    unfold mbind, st_bind, gets. cbn [id]. by rewrite He.
Qed.
End victim.

(** Two frames, the first one pinned: the second is chosen. *)
Definition two_frames : vm disk (gmap Z (list Z)) :=
  VM small_mmu small_swap ∅ [true; true] 0xC0300000 ∅
     {[10 := Frame 0xC0300000 (Some 7) 1 false; 11 := Frame 0xC0301000 (Some 8) 0 false]} [10; 11] false
     {[7 := SuppPage (Some 10) 0xC0100000 0x08048000 swapslot true 0 0 0 None;
       8 := SuppPage (Some 11) 0xC0100000 0x08049000 swapslot true 0 0 0 None]} ∅ 0xC0100000 1 50 12 (λ _, true).

Lemma two_frames_cases f x q : whereis two_frames f = Some (x, q) → f ∈ frame_table two_frames →
  (f = 10 ∧ x = Frame 0xC0300000 (Some 7) 1 false ∧ vaddr q = 0x08048000 ∧ pd q = 0xC0100000)
  ∨ (f = 11 ∧ x = Frame 0xC0301000 (Some 8) 0 false ∧ vaddr q = 0x08049000 ∧ pd q = 0xC0100000).
Proof.
  intros E Hf. cbn [frame_table two_frames] in Hf. rewrite !elem_of_cons, elem_of_nil in Hf.
  destruct Hf as [->|[->|[]]]; vm_compute in E; injection E as <- <-; [left|right]; done.
Qed.

Lemma two_frames_ok : queue_ok small_dirs two_frames.
Proof.
  constructor.
  - apply small_ok.
  - repeat constructor; set_solver.
  - intros f Hf. cbn [frame_table two_frames] in Hf. rewrite !elem_of_cons, elem_of_nil in Hf.
    destruct Hf as [->|[->|[]]]; eexists _, _; (split; [by vm_compute|]); (split; [exact small_dir|]); by vm_compute.
  - intros f g x q x' q' Hf Hg Hne E E'. destruct (two_frames_cases f x q E Hf) as [(-> & -> & V & _)|(-> & -> & V & _)];
      destruct (two_frames_cases g x' q' E' Hg) as [(-> & -> & V' & _)|(-> & -> & V' & _)]; try done; rewrite V, V'; by vm_compute.
Qed.

Lemma second_chance_witness : ∃ s', frame_choose_victim two_frames = Ok (11, s') ∧ frame_table s' = [10].
Proof.
  destruct (second_chance small_dirs two_frames two_frames_ok) as [H _].
  destruct H as (pre & v & post & s' & Ht & E & _ & Ht' & Hb & _).
  { exists 11. split; [cbn [frame_table two_frames]; set_solver|by vm_compute]. }
  cbn [frame_table two_frames] in Ht. destruct pre as [|f1 [|f2 pre]].
  - injection Ht as <- _. by vm_compute in Hb.
  - injection Ht as <- <- <-. exact (ex_intro _ s' (conj E Ht')).
  - injection Ht as _ _ Ht. destruct pre; discriminate Ht.
Defined.
