(* ===== verification/VmOps.v ===== *)
(** * The invariant of demand paging, and what its operations do

    [vm_ok] relates frames, supplemental pages, page directories, swap slots, the user pool
    and the contents of files; [page_bytes] is what a page holds, wherever it is.  The lemmas
    say what eviction and the creation of a frame change, and that eviction keeps the invariant
    and the contents of every page. *)

From S2P Require Import Prelude Bytes Vaddr Block Pagedir Swap Vm VmVictim.

Section ops.
Context {D F : Type} {drv : BlockDriver D} {laws : BlockDriverLaws D} {fst : FileStore F} {flaws : FileStoreLaws F}.
Context (dirs execs : gset Z).
Implicit Types s : vm D F.

(** ** Contents of pages *)

Definition file_slice s (cs : gmap Z (list Z)) (q : supp_page) : list Z :=
  match file_inode (files s) (fil q) with
  | Some i => take (Z.to_nat (bytes q)) (drop (Z.to_nat (offset q)) (default [] (cs !! i)))
  | None => []
  end.

(** The bytes of a page: in its frame, in its slot, or in its file, filled up with zeros. *)
Definition page_bytes s (cs : gmap Z (list Z)) (q : supp_page) : list Z :=
  match fr q with
  | Some f => match frames s !! f with Some x => default [] (ram s !! phys_addr x) | None => [] end
  | None =>
      match ptype q with
      | swapslot => match swap_at q with Some i => default [] (stored (swp s) i) | None => [] end
      | filesys => put_bytes zero_bytes 0 (file_slice s cs q)
      end
  end.

(** How many of them mean something: of a page of a file, those of the file. *)
Definition data_len (q : supp_page) : nat :=
  match ptype q with swapslot => Z.to_nat PGSIZE | filesys => Z.to_nat (bytes q) end.

Definition page_data s cs (q : supp_page) : list Z := take (data_len q) (page_bytes s cs q).

(** ** The invariant *)

(** Page [i] of the user pool. *)
Definition pool_page s (i : nat) : Z := pool_base s + PGSIZE * Z.of_nat i.

(** The page may be written back to its file: it is writable and not of an executable. *)
Definition shared (q : supp_page) : Prop := ptype q = filesys ∧ wr q = true ∧ fil q ∉ execs.

Definition file_ok s (cs : gmap Z (list Z)) (q : supp_page) : Prop :=
  ∃ i c, file_inode (files s) (fil q) = Some i ∧ cs !! i = Some c ∧ Forall is_u8 c
    ∧ 0 ≤ offset q ∧ 0 ≤ bytes q ≤ PGSIZE ∧ (bytes q = 0 ∨ offset q + bytes q ≤ Z.of_nat (length c)).

(** A page in a frame. *)
Record resident s cs (p : Z) (q : supp_page) (f : Z) (x : frame) (i : nat) : Prop := {
  re_frame : frames s !! f = Some x;
  re_page : page x = Some p;
  re_phys : phys_addr x = pool_page s i;
  re_used : pool s !! i = Some true;
  re_ram : ∃ b, ram s !! phys_addr x = Some b ∧ is_page b;
  re_map : mapping (mm s) (pd q) (vaddr q) = Some (phys_addr x, wr q);
  re_evicting : evicting x = false;
  re_write : flag (mm s) (pd q) (vaddr q) 6 = true → ptype q = filesys → wr q = true;
  re_exec : ptype q = filesys → wr q = true → fil q ∉ execs;
  re_clean : ptype q = filesys → flag (mm s) (pd q) (vaddr q) 6 = false → page_data s cs q = file_slice s cs q;
}.

(** A page that is not in a frame. *)
Record absent s (q : supp_page) : Prop := {
  ab_map : mapping (mm s) (pd q) (vaddr q) = None;
  ab_slot : ptype q = swapslot → ∃ i, swap_at q = Some i ∧ is_Some (stored (swp s) i);
}.

Record vm_ok (cs : gmap Z (list Z)) s : Prop := {
  vo_mmu : mmu_ok dirs (mm s);
  vo_cur : cur_pd s ∈ dirs;
  vo_swap : swap_ok (swp s);
  vo_files : file_rep (files s) cs;
  vo_base : pool_base s mod PGSIZE = 0 ∧ PHYS_BASE ≤ pool_base s
    ∧ pool_base s + PGSIZE * Z.of_nat (length (pool s)) ≤ 2 ^ 32
    ∧ (pool_base s - PHYS_BASE) / PGSIZE + Z.of_nat (length (pool s)) ≤ init_ram_pages (mm s);
  vo_nodup : NoDup (frame_table s);
  vo_table f : f ∈ frame_table s → is_Some (frames s !! f);
  vo_frame f x : frames s !! f = Some x → ∃ p q, page x = Some p ∧ spages s !! p = Some q ∧ fr q = Some f;
  vo_page p q : spages s !! p = Some q →
    pd q ∈ dirs ∧ pd q ≠ init_page_dir (mm s) ∧ 0 ≤ vaddr q < PHYS_BASE ∧ vaddr q mod PGSIZE = 0
    ∧ (ptype q = filesys → file_ok s cs q);
  vo_resident p q f : spages s !! p = Some q → fr q = Some f → ∃ x i, resident s cs p q f x i;
  vo_absent p q : spages s !! p = Some q → fr q = None → absent s q;
  vo_sep p p' q q' : spages s !! p = Some q → spages s !! p' = Some q' → p ≠ p' → same_entry (pd q) (vaddr q) (pd q') (vaddr q') = false;
  vo_phys f f' x x' : frames s !! f = Some x → frames s !! f' = Some x' → phys_addr x = phys_addr x' → f = f';
  vo_slots p p' q q' i : spages s !! p = Some q → spages s !! p' = Some q' →
    fr q = None → fr q' = None → ptype q = swapslot → ptype q' = swapslot →
    swap_at q = Some i → swap_at q' = Some i → p = p';
  vo_shared p p' q q' i : spages s !! p = Some q → spages s !! p' = Some q' → p ≠ p' → shared q → ptype q' = filesys →
    file_inode (files s) (fil q) = Some i → file_inode (files s) (fil q') = Some i →
    offset q + bytes q ≤ offset q' ∨ offset q' + bytes q' ≤ offset q;
  vo_ptr p : next_ptr s ≤ p → frames s !! p = None ∧ spages s !! p = None;
}.

(** ** Giving a frame back *)

Definition scrubbed : list Z := replicate (Z.to_nat PGSIZE) 0xcc.

Lemma palloc_free_page_eq s i :
  pool_base s mod PGSIZE = 0 → pool s !! i = Some true →
  palloc_free_page (pool_page s i) s =
    Ok (tt, with_pool (<[i := false]> (pool s)) (with_ram (<[pool_page s i := scrubbed]> (ram s)) s)).
Proof.
  intros Hb Hi. unfold palloc_free_page, mbind, st_bind, gets, assert, lift, ASSERT, set_ram, modify, pool_page, PGSIZE in *. cbn [id].
  rewrite pg_ofs_mod. unfold PGSIZE. rewrite Z.add_simpl_l, (Z.mul_comm 4096), Z.div_mul by lia. rewrite Nat2Z.id.
  rewrite Z_mod_plus_full, Hb. rewrite (proj2 (Z.leb_le _ _)) by lia. rewrite bool_decide_true by done. reflexivity.
Qed.

Lemma frame_free_eq s f x p q i :
  mmu_ok dirs (mm s) → frame_lock s = true → frames s !! f = Some x → page x = Some p → spages s !! p = Some q →
  pd q ∈ dirs → 0 ≤ vaddr q < PHYS_BASE → vaddr q mod PGSIZE = 0 →
  pool_base s mod PGSIZE = 0 → phys_addr x = pool_page s i → pool s !! i = Some true →
  ∃ m' e, frame_free (Some f) s = Ok (0, with_frames (delete f (frames s)) (with_pool (<[i := false]> (pool s))
      (with_ram (<[phys_addr x := scrubbed]> (ram s)) (with_mm m' (with_frame_table (filter (λ y, y ≠ f) (frame_table s)) s)))))
    ∧ pages m' = pages (mm s) ∧ entry_changed dirs (mm s) m' (pd q) (vaddr q) e
    ∧ Z.testbit e 0 = false ∧ ∀ j, 0 < j → Z.testbit e j = flag (mm s) (pd q) (vaddr q) j.
Proof.
  intros Hm Hl Hf Hp Hq Hpd Hv Ha Hb Hphys Hi.
  destruct (pagedir_clear_spec dirs (mm s) (pd q) (vaddr q) Hm Hpd Hv Ha) as (m' & e & E & Hpg & Hch & He).
  exists m', e. split_and!; try done; [|by apply (He 0)|].
  - unfold frame_free, lock_unless_held, table_remove, get_frame, get_spage, on_mmu, mbind, st_bind, gets, modify, lift, deref, mret, st_ret.
    cbn [id]. rewrite Hl. run. rewrite Hf. run. rewrite Hp. run. rewrite Hq. run. rewrite E. run. rewrite Hphys.
    match goal with |- context [palloc_free_page _ ?s1] => pose proof (palloc_free_page_eq s1 i Hb Hi) as Ef end.
    unfold pool_page in Ef. run. cbn [pool pool_base with_mm with_frame_table] in Ef. unfold pool_page. rewrite Ef. reflexivity.
  - intros j Hj. rewrite He by lia. destruct (Z.eqb_spec j 0); [lia|done].
Qed.

(** ** Eviction *)

(** No other page table entry has changed. *)
Definition else_same (m m' : mmu) (d u : Z) : Prop :=
  ∀ d' u', d' ∈ dirs → is_u32 u' → same_entry d u d' u' = false →
    mapping m' d' u' = mapping m d' u' ∧ ∀ j, 0 ≤ j → flag m' d' u' j = flag m d' u' j.

Lemma changed_else m m' d u e : entry_changed dirs m m' d u e → else_same m m' d u.
Proof.
  intros (_ & _ & H) d' u' Hd' Hu' Hs. unfold mapping, flag. rewrite H by done. rewrite Hs. done.
Qed.

Lemma else_same_trans m1 m2 m3 d u : else_same m1 m2 d u → else_same m2 m3 d u → else_same m1 m3 d u.
Proof.
  intros H1 H2 d' u' Hd' Hu' Hs. destruct (H1 d' u' Hd' Hu' Hs) as [M1 F1], (H2 d' u' Hd' Hu' Hs) as [M2 F2].
  split; [congruence|]. intros j Hj. by rewrite F2, F1.
Qed.

(** What evicting frame [f] from page [p] changes. *)
Record evicted cs cs' s s' (f : Z) (x : frame) (p : Z) (q : supp_page) (i : nat) : Prop := {
  ev_mmu : mmu_ok dirs (mm s') ∧ same_regs (mm s) (mm s') ∧ pages (mm s') = pages (mm s);
  ev_here : mapping (mm s') (pd q) (vaddr q) = None;
  ev_else : else_same (mm s) (mm s') (pd q) (vaddr q);
  ev_frames : frames s' = delete f (frames s);
  ev_table : frame_table s' = filter (λ y, y ≠ f) (frame_table s);
  ev_pool : pool s' = <[i := false]> (pool s) ∧ pool_base s' = pool_base s;
  ev_ram : ram s' = <[phys_addr x := scrubbed]> (ram s);
  ev_same : frame_lock s' = frame_lock s ∧ supp_tables s' = supp_tables s ∧ cur_pd s' = cur_pd s
    ∧ cur_table s' = cur_table s ∧ cur_file s' = cur_file s ∧ next_ptr s' = next_ptr s ∧ malloc_ok s' = malloc_ok s;
  ev_rep : file_rep (files s') cs' ∧ ∀ g, file_inode (files s') g = file_inode (files s) g;
  ev_data : match ptype q with
    | swapslot => ∃ k, spages s' = <[p := set_fr None (set_swap (Some k) q)]> (spages s) ∧ cs' = cs
        ∧ swap_ok (swp s') ∧ stored (swp s) k = None ∧ stored (swp s') k = ram s !! phys_addr x
        ∧ ∀ j, j ≠ k → stored (swp s') j = stored (swp s) j
    | filesys => spages s' = <[p := set_fr None q]> (spages s) ∧ swp s' = swp s
        ∧ if flag (mm s) (pd q) (vaddr q) 6 then
            ∃ n c, file_inode (files s) (fil q) = Some n ∧ cs !! n = Some c
              ∧ cs' = <[n := put_bytes c (Z.to_nat (offset q)) (page_data s cs q)]> cs
          else cs' = cs
    end;
}.

Lemma is_page_ram s cs p q f x i : resident s cs p q f x i → ∃ b, ram s !! phys_addr x = Some b ∧ is_page b.
Proof. apply re_ram. Qed.

Lemma evict_tail_eq s f x p q i :
  mmu_ok dirs (mm s) → frame_lock s = true → frames s !! f = Some x → page x = Some p → spages s !! p = Some q → fr q = Some f →
  pd q ∈ dirs → 0 ≤ vaddr q < PHYS_BASE → vaddr q mod PGSIZE = 0 →
  pool_base s mod PGSIZE = 0 → phys_addr x = pool_page s i → pool s !! i = Some true →
  ∃ m', evict_tail p s = Ok (tt, with_spages (<[p := set_fr None q]> (spages s)) (with_frames (delete f (frames s)) (with_pool (<[i := false]> (pool s))
      (with_ram (<[phys_addr x := scrubbed]> (ram s)) (with_mm m' (with_frame_table (filter (λ y, y ≠ f) (frame_table s)) s))))))
    ∧ mmu_ok dirs m' ∧ same_regs (mm s) m' ∧ pages m' = pages (mm s) ∧ mapping m' (pd q) (vaddr q) = None
    ∧ else_same (mm s) m' (pd q) (vaddr q).
Proof.
  intros Hm Hl Hf Hp Hq Hfr Hpd Hv Ha Hb Hphys Hi. assert (Hv32 : is_u32 (vaddr q)) by (unfold PHYS_BASE in *; unfold_ints; lia).
  destruct (frame_free_eq s f x p q i Hm Hl Hf Hp Hq Hpd Hv Ha Hb Hphys Hi) as (m' & e & E & Hpg & Hch & He0 & _).
  exists m'. split.
  - unfold evict_tail, upd_spage, get_spage, mbind, st_bind, lift, deref, modify. rewrite Hq. run. rewrite Hfr, E. run.
    unfold assert, lift, ASSERT. rewrite Z.eqb_refl. run. rewrite Hq. reflexivity.
  - split; [apply Hch|]. split; [apply Hch|]. split; [done|]. split; [|by eapply changed_else].
    unfold mapping, flag. destruct Hch as (_ & _ & ->); try done. by rewrite same_entry_refl, He0.
Qed.

(** Eviction is saving the data and giving the frame back. *)
Lemma frame_evict_eq s cs f x p q i :
  frame_lock s = true → spages s !! p = Some q → fr q = Some f → resident s cs p q f x i →
  let s0 := with_frames (<[f := set_evicting true x]> (frames s)) s in
  frame_evict f s = (evict_save p q (set_evicting true x);; evict_tail p) s0.
Proof.
  intros Hl Hq Hfr Hre s0. pose proof (re_frame _ _ _ _ _ _ _ Hre) as Hf. pose proof (re_page _ _ _ _ _ _ _ Hre) as Hp.
  unfold frame_evict, upd_frame, get_frame, get_spage, lock_unless_held, mbind, st_bind, gets, modify, lift, deref.
  rewrite Hf. run. rewrite Hl. unfold mret, st_ret. run. rewrite lookup_insert_eq. run. cbn [page set_evicting]. rewrite Hp. run.
  rewrite Hq. run. unfold assert, lift, ASSERT. rewrite bool_decide_true by done. run. cbn [evicting set_evicting]. run. fold s0.
  destruct (evict_save p q (set_evicting true x) s0) as [[[] s1]|]; [|done]. by destruct (evict_tail p s1) as [[[] s2]|].
Qed.

(** Evicting a page to the swap device. *)
Lemma evict_swap s cs f x p q i :
  vm_ok cs s → frame_lock s = true → spages s !! p = Some q → fr q = Some f → resident s cs p q f x i → ptype q = swapslot →
  (∃ k, (k < length (swap_slots (swp s)))%nat ∧ stored (swp s) k = None) →
  ∃ s', frame_evict f s = Ok (tt, s') ∧ evicted cs cs s s' f x p q i.
Proof.
  intros Hok Hl Hq Hfr Hre Ht (k0 & Hk0 & Hfree). destruct (vo_page cs s Hok p q Hq) as (Hpd & _ & Hv & Ha & _).
  destruct (vo_base cs s Hok) as (Hb & _). rewrite (frame_evict_eq s cs f x p q i Hl Hq Hfr Hre).
  destruct (re_ram _ _ _ _ _ _ _ Hre) as (b & Hram & Hbp).
  destruct (swap_put_spec (swp s) b (vo_swap cs s Hok) Hbp) as [[_ Hfull]|(k & w' & Ew & Hw' & _ & Hkn & Hks & Hko)].
  { destruct (Hfull k0 Hk0) as [c Hc]. congruence. }
  set (s0 := with_frames (<[f := set_evicting true x]> (frames s)) s).
  set (s1 := with_spages (<[p := set_swap (Some k) q]> (spages s)) (with_swp w' s0)).
  destruct (evict_tail_eq s1 f (set_evicting true x) p (set_swap (Some k) q) i) as (m' & E & Hm' & Hrg & Hpg & Hhere & Helse);
    try done; [apply Hok|simpl; by rewrite lookup_insert_eq|apply Hre|simpl; by rewrite lookup_insert_eq|apply Hre|apply Hre|].
  assert (Es : evict_save p q (set_evicting true x) s0 = Ok (tt, s1)).
  { unfold evict_save, get_ram, on_swap, upd_spage, get_spage, mbind, st_bind, lift, deref, modify. rewrite Ht. unfold s0. run.
    cbn [phys_addr set_evicting]. rewrite Hram. run. rewrite Ew. run. rewrite Hq. reflexivity. }
  eexists. split; [unfold mbind, st_bind; rewrite Es, E; reflexivity|].
  constructor; unfold s1, s0; run; try done.
  - by rewrite delete_insert_eq.
  - split; [apply Hok|done].
  - rewrite Ht. exists k. rewrite insert_insert_eq, Hram. done.
Qed.

Lemma resident_bytes s cs p q f x i : fr q = Some f → resident s cs p q f x i → page_bytes s cs q = default [] (ram s !! phys_addr x).
Proof. intros Hfr Hre. unfold page_bytes. by rewrite Hfr, (re_frame _ _ _ _ _ _ _ Hre). Qed.

(** Evicting a page to its file: if it is dirty, its data is written back. *)
Lemma evict_file s cs f x p q i :
  vm_ok cs s → frame_lock s = true → spages s !! p = Some q → fr q = Some f → resident s cs p q f x i → ptype q = filesys →
  ∃ s' cs', frame_evict f s = Ok (tt, s') ∧ evicted cs cs' s s' f x p q i.
Proof.
  intros Hok Hl Hq Hfr Hre Ht. destruct (vo_page cs s Hok p q Hq) as (Hpd & _ & Hv & Ha & Hfile).
  assert (Hv32 : is_u32 (vaddr q)) by (unfold PHYS_BASE in *; unfold_ints; lia).
  destruct (vo_base cs s Hok) as (Hb & _). rewrite (frame_evict_eq s cs f x p q i Hl Hq Hfr Hre).
  destruct (re_ram _ _ _ _ _ _ _ Hre) as (b & Hram & Hbl & Hbf). destruct (Hfile Ht) as (n & c & Hn & Hc & Hcf & Ho & Hby & Hle).
  assert (Hpd' : page_data s cs q = take (Z.to_nat (bytes q)) b).
  { unfold page_data, data_len. rewrite (resident_bytes s cs p q f x i) by done. by rewrite Ht, Hram. }
  assert (Hlen : Z.of_nat (length (page_data s cs q)) = bytes q).
  { rewrite Hpd', length_take, Hbl. lia. }
  set (s0 := with_frames (<[f := set_evicting true x]> (frames s)) s).
  pose proof (is_flag_spec dirs (mm s) (pd q) (vaddr q) 6 (vo_mmu cs s Hok) Hpd Hv32 ltac:(lia)) as Ed.
  change (is_flag (2 ^ 6)) with pagedir_is_dirty in Ed. destruct (flag (mm s) (pd q) (vaddr q) 6) eqn:Edirty.
  - destruct (file_write_spec (files s) cs (fil q) n c (page_data s cs q) (offset q)) as (fs' & Ew & Hrep & Hino);
      [apply Hok|done|done|by rewrite Hpd'; apply Forall_take|lia| |].
    { destruct Hle as [H0|]; [left; apply nil_length_inv; lia|right; lia]. }
    rewrite Hlen in Ew.
    destruct (set_flag_view dirs (mm s) (pd q) (vaddr q) 6 false (vo_mmu cs s Hok) Hpd Hv32 ltac:(lia)) as (m1 & E1 & Hm1 & Hr1 & Hp1 & Hv1).
    change (set_flag (2 ^ 6)) with pagedir_set_dirty in E1. set (s1 := with_mm m1 (with_files fs' s0)).
    destruct (evict_tail_eq s1 f (set_evicting true x) p q i) as (m' & E & Hm' & Hrg & Hpg & Hhere & Helse);
      try done; [simpl; by rewrite lookup_insert_eq|apply Hre|apply Hre|apply Hre|].
    assert (Es : evict_save p q (set_evicting true x) s0 = Ok (tt, s1)).
    { unfold evict_save, get_ram, on_files, on_mmu, mbind, st_bind, lift, deref. rewrite Ht. unfold s0. run. rewrite Ed. run.
      cbn [phys_addr set_evicting]. rewrite Hram. run. rewrite <- Hpd', Ew. run. rewrite E1. reflexivity. }
    eexists _, (<[n := put_bytes c (Z.to_nat (offset q)) (page_data s cs q)]> cs).
    split; [unfold mbind, st_bind; rewrite Es, E; reflexivity|].
    constructor; unfold s1, s0 in *; run; try done.
    + cbn [mm with_mm with_files with_frames] in *. split; [done|]. split; [unfold same_regs in *; naive_solver congruence|congruence].
    + cbn [mm with_mm with_files with_frames] in Helse. eapply else_same_trans; [|exact Helse].
      intros d' u' Hd' Hu' Hs. destruct (Hv1 d' u' Hd' Hu') as [Mv Fv]. split; [done|]. intros j Hj. rewrite Fv by done. by rewrite Hs.
    + by rewrite delete_insert_eq.
    + rewrite Ht, Edirty. split; [done|]. split; [done|]. by exists n, c.
  - destruct (evict_tail_eq s0 f (set_evicting true x) p q i) as (m' & E & Hm' & Hrg & Hpg & Hhere & Helse);
      try done; [apply Hok|simpl; by rewrite lookup_insert_eq|apply Hre|apply Hre|apply Hre|].
    assert (Es : evict_save p q (set_evicting true x) s0 = Ok (tt, s0)).
    { unfold evict_save, on_mmu, mbind, st_bind. rewrite Ht. unfold s0. run. rewrite Ed. reflexivity. }
    eexists _, cs. split; [unfold mbind, st_bind; rewrite Es, E; reflexivity|].
    constructor; unfold s0 in *; run; try done.
    + by rewrite delete_insert_eq.
    + split; [apply Hok|done].
    + by rewrite Ht, Edirty.
Qed.

(** ** Eviction keeps the invariant and the data *)

Lemma slice_put_same (c d : list Z) o : (o + length d ≤ length c)%nat → take (length d) (drop o (put_bytes c o d)) = d.
Proof.
  intros H. unfold put_bytes. rewrite drop_app_length' by (rewrite length_take; lia). by rewrite take_app_length.
Qed.

Lemma slice_put_other (c d : list Z) o o' m :
  (o + length d ≤ length c)%nat → (o + length d ≤ o' ∨ o' + m ≤ o)%nat → take m (drop o' (put_bytes c o d)) = take m (drop o' c).
Proof.
  intros H Hd. apply list_eq. intros j. destruct (decide (j < m)%nat) as [Hj|]; [|by rewrite !lookup_take_ge by lia].
  rewrite !lookup_take_lt, !lookup_drop by done. unfold put_bytes. destruct Hd as [Hd|Hd].
  - rewrite lookup_app_r by (rewrite length_take; lia). rewrite length_take, lookup_app_r by lia. rewrite lookup_drop. f_equal. lia.
  - rewrite lookup_app_l by (rewrite length_take; lia). apply lookup_take_lt. lia.
Qed.

(** Writing nothing changes nothing, wherever it is. *)
Lemma put_nothing (c d : list Z) o : length d = 0%nat → put_bytes c o d = c.
Proof. intros ->%nil_length_inv. unfold put_bytes. rewrite Nat.add_0_r. apply take_drop. Qed.

(** The files after eviction, as another page sees them. *)
Lemma evicted_slice cs cs' s s' f x p q i p' q' :
  vm_ok cs s → evicted cs cs' s s' f x p q i → resident s cs p q f x i → spages s !! p = Some q → fr q = Some f →
  spages s !! p' = Some q' → p' ≠ p → ptype q' = filesys → file_slice s' cs' q' = file_slice s cs q' ∧ file_ok s' cs' q'.
Proof.
  intros Hok Hev Hre Hq Hfr Hq' Hne Ht'. destruct (ev_rep _ _ _ _ _ _ _ _ _ Hev) as [_ Hino].
  destruct (vo_page cs s Hok p' q' Hq') as (_ & _ & _ & _ & Hfile'). destruct (Hfile' Ht') as (n' & c' & Hn' & Hc' & Hcf' & Ho' & Hby' & Hle').
  assert (Hsame : cs' = cs → file_slice s' cs' q' = file_slice s cs q' ∧ file_ok s' cs' q').
  { intros ->. split; [unfold file_slice; by rewrite Hino|]. exists n', c'. by rewrite Hino. }
  pose proof (ev_data _ _ _ _ _ _ _ _ _ Hev) as Hdata. destruct (ptype q) eqn:Ht; [|destruct Hdata as (k & _ & Ec & _); auto].
  destruct Hdata as (_ & _ & Hdata). destruct (flag (mm s) (pd q) (vaddr q) 6) eqn:Edirty; [|auto].
  destruct Hdata as (n & c & Hn & Hc & ->). destruct (vo_page cs s Hok p q Hq) as (_ & _ & _ & _ & Hfile).
  destruct (Hfile Ht) as (n0 & c0 & Hn0 & Hc0 & Hcf & Ho & Hby & Hle). rewrite Hn in Hn0. injection Hn0 as <-. rewrite Hc in Hc0. injection Hc0 as <-.
  destruct (re_ram _ _ _ _ _ _ _ Hre) as (b & Hram & Hbl & Hbf).
  assert (Hpd' : page_data s cs q = take (Z.to_nat (bytes q)) b).
  { unfold page_data, data_len. rewrite (resident_bytes s cs p q f x i) by done. by rewrite Ht, Hram. }
  assert (Hlen : length (page_data s cs q) = Z.to_nat (bytes q)) by (rewrite Hpd', length_take, Hbl; lia).
  unfold file_slice, file_ok. rewrite Hino, Hn'. destruct (decide (n' = n)) as [->|Hnn].
  - rewrite Hc in Hc'. injection Hc' as <-. rewrite lookup_insert_eq, Hc. cbn [default from_option id].
    assert (Hsh : shared q).
    { split; [done|]. split; [by apply (re_write _ _ _ _ _ _ _ Hre)|]. apply (re_exec _ _ _ _ _ _ _ Hre); [done|]. by apply (re_write _ _ _ _ _ _ _ Hre). }
    destruct Hle as [Hle|Hle].
    { rewrite put_nothing by (rewrite Hlen, Hle; done). split; [done|]. exists n, c. rewrite lookup_insert_eq. split_and!.
    all: first [done|lia]. }
    destruct (vo_shared cs s Hok p p' q q' n Hq Hq' (not_eq_sym Hne) Hsh Ht' Hn Hn') as [Hd|Hd];
      (split; [apply slice_put_other; rewrite Hlen; lia|]; exists n, (put_bytes c (Z.to_nat (offset q)) (page_data s cs q));
       rewrite lookup_insert_eq, length_put_inside by (rewrite Hlen; lia); split_and!; try done; try lia;
       unfold put_bytes; rewrite !Forall_app; split_and!; [by apply Forall_take|rewrite Hpd'; by apply Forall_take|by apply Forall_drop]).
  - rewrite lookup_insert_ne by done. split; [done|]. exists n', c'. by rewrite lookup_insert_ne by done.
Qed.

(** The files after eviction, as the evicted page sees them: they hold its data. *)
Lemma evicted_own cs cs' s s' f x p q i :
  vm_ok cs s → evicted cs cs' s s' f x p q i → resident s cs p q f x i → spages s !! p = Some q → fr q = Some f →
  ptype q = filesys → file_slice s' cs' q = page_data s cs q ∧ file_ok s' cs' q.
Proof.
  intros Hok Hev Hre Hq Hfr Ht. destruct (ev_rep _ _ _ _ _ _ _ _ _ Hev) as [_ Hino].
  destruct (vo_page cs s Hok p q Hq) as (_ & _ & _ & _ & Hfile). destruct (Hfile Ht) as (n & c & Hn & Hc & Hcf & Ho & Hby & Hle).
  destruct (re_ram _ _ _ _ _ _ _ Hre) as (b & Hram & Hbl & Hbf).
  assert (Hpd' : page_data s cs q = take (Z.to_nat (bytes q)) b).
  { unfold page_data, data_len. rewrite (resident_bytes s cs p q f x i) by done. by rewrite Ht, Hram. }
  assert (Hlen : length (page_data s cs q) = Z.to_nat (bytes q)) by (rewrite Hpd', length_take, Hbl; lia).
  pose proof (ev_data _ _ _ _ _ _ _ _ _ Hev) as Hdata. rewrite Ht in Hdata. destruct Hdata as (_ & _ & Hdata).
  unfold file_slice, file_ok. rewrite Hino, Hn. destruct (flag (mm s) (pd q) (vaddr q) 6) eqn:Edirty.
  - destruct Hdata as (n0 & c0 & Hn0 & Hc0 & ->). rewrite Hn in Hn0. injection Hn0 as <-. rewrite Hc in Hc0. injection Hc0 as <-.
    rewrite lookup_insert_eq. cbn [default from_option id]. destruct Hle as [Hle|Hle].
    { rewrite Hle in *. rewrite put_nothing by done. split; [|exists n, c; rewrite lookup_insert_eq; split_and!; first [done|by left]].
      change (Z.to_nat 0) with 0%nat in *. by apply nil_length_inv in Hlen as ->. }
    rewrite <- Hlen at 1. split; [apply slice_put_same; rewrite Hlen; lia|].
    exists n, (put_bytes c (Z.to_nat (offset q)) (page_data s cs q)). rewrite lookup_insert_eq, length_put_inside by (rewrite Hlen; lia).
    split_and!; try done; try lia. unfold put_bytes. rewrite !Forall_app.
    split_and!; [by apply Forall_take|rewrite Hpd'; by apply Forall_take|by apply Forall_drop].
  - subst cs'. split; [|by exists n, c]. rewrite (re_clean _ _ _ _ _ _ _ Hre Ht Edirty). unfold file_slice. by rewrite Hn.
Qed.

(** The data of every page is what it was. *)
Definition kept cs s cs' s' : Prop :=
  ∀ p q, spages s !! p = Some q →
    ∃ q', spages s' !! p = Some q' ∧ pd q' = pd q ∧ vaddr q' = vaddr q ∧ wr q' = wr q ∧ fil q' = fil q ∧ ptype q' = ptype q
      ∧ page_data s' cs' q' = page_data s cs q.

(** Pages of the user pool have different addresses. *)
Lemma pool_page_inj s i j : pool_page s i = pool_page s j → i = j.
Proof. unfold pool_page, PGSIZE. lia. Qed.

Section evicted.
Context (cs cs' : gmap Z (list Z)) (s s' : vm D F) (f : Z) (x : frame) (p : Z) (q : supp_page) (i : nat).
Hypothesis Hok : vm_ok cs s.
Hypothesis Hev : evicted cs cs' s s' f x p q i.
Hypothesis Hre : resident s cs p q f x i.
Hypothesis Hq : spages s !! p = Some q.
Hypothesis Hfr : fr q = Some f.

(** The evicted page afterwards. *)
Definition page_after : supp_page :=
  match spages s' !! p with Some q' => q' | None => q end.

Lemma evicted_spages p' :
  spages s' !! p' = if decide (p' = p) then Some page_after else spages s !! p'.
Proof.
  pose proof (ev_data _ _ _ _ _ _ _ _ _ Hev) as Hd. unfold page_after.
  destruct (ptype q); [destruct Hd as (-> & _)|destruct Hd as (k & -> & _)];
    (destruct (decide (p' = p)) as [->|Hne]; [by rewrite !lookup_insert_eq|by rewrite lookup_insert_ne]).
Qed.

Lemma page_after_eq :
  fr page_after = None ∧ pd page_after = pd q ∧ vaddr page_after = vaddr q ∧ wr page_after = wr q ∧ fil page_after = fil q
  ∧ ptype page_after = ptype q ∧ offset page_after = offset q ∧ bytes page_after = bytes q.
Proof.
  pose proof (ev_data _ _ _ _ _ _ _ _ _ Hev) as Hd. unfold page_after.
  destruct (ptype q) eqn:Et; [destruct Hd as (-> & _)|destruct Hd as (k & -> & _)]; rewrite lookup_insert_eq; by rewrite <- Et.
Qed.

Lemma evicted_entry p' q' : spages s !! p' = Some q' → p' ≠ p →
  mapping (mm s') (pd q') (vaddr q') = mapping (mm s) (pd q') (vaddr q')
  ∧ ∀ j, 0 ≤ j → flag (mm s') (pd q') (vaddr q') j = flag (mm s) (pd q') (vaddr q') j.
Proof.
  intros Hq' Hne. destruct (vo_page cs s Hok p' q' Hq') as (Hpd & _ & Hv & _). apply (ev_else _ _ _ _ _ _ _ _ _ Hev); [done| |].
  - unfold PHYS_BASE in *; unfold_ints; lia.
  - by apply (vo_sep cs s Hok p p').
Qed.

(** Another frame keeps its memory. *)
Lemma evicted_frame p' q' f' x' j : spages s !! p' = Some q' → fr q' = Some f' → resident s cs p' q' f' x' j → p' ≠ p →
  frames s' !! f' = Some x' ∧ ram s' !! phys_addr x' = ram s !! phys_addr x' ∧ pool s' !! j = Some true.
Proof.
  intros Hq' Hfr' Hre' Hne. pose proof (re_frame _ _ _ _ _ _ _ Hre) as H1. pose proof (re_frame _ _ _ _ _ _ _ Hre') as H2.
  assert (Hff : f' ≠ f).
  { intros ->. rewrite H1 in H2. injection H2 as <-. pose proof (re_page _ _ _ _ _ _ _ Hre). pose proof (re_page _ _ _ _ _ _ _ Hre'). congruence. }
  rewrite (ev_frames _ _ _ _ _ _ _ _ _ Hev), lookup_delete_ne by done.
  assert (Hpp : phys_addr x' ≠ phys_addr x) by (intros E; by apply Hff, (vo_phys cs s Hok f' f x' x)).
  rewrite (ev_ram _ _ _ _ _ _ _ _ _ Hev), lookup_insert_ne by done. split; [done|]. split; [done|].
  destruct (ev_pool _ _ _ _ _ _ _ _ _ Hev) as [-> _]. rewrite list_lookup_insert_ne; [apply Hre'|]. intros ->.
  apply Hpp. by rewrite (re_phys _ _ _ _ _ _ _ Hre), (re_phys _ _ _ _ _ _ _ Hre').
Qed.

(** The bytes of another page are the same. *)
Lemma evicted_bytes p' q' : spages s !! p' = Some q' → p' ≠ p → page_bytes s' cs' q' = page_bytes s cs q'.
Proof.
  intros Hq' Hne. unfold page_bytes. destruct (fr q') as [f'|] eqn:Hfr'.
  - destruct (vo_resident cs s Hok p' q' f' Hq' Hfr') as (x' & j & Hre').
    destruct (evicted_frame p' q' f' x' j Hq' Hfr' Hre' Hne) as (-> & -> & _). by rewrite (re_frame _ _ _ _ _ _ _ Hre').
  - destruct (ptype q') eqn:Et'.
    + by destruct (evicted_slice cs cs' s s' f x p q i p' q') as [-> _].
    + destruct (ab_slot s q' (vo_absent cs s Hok p' q' Hq' Hfr') Et') as (k' & -> & [c Hc]).
      pose proof (ev_data _ _ _ _ _ _ _ _ _ Hev) as Hd. destruct (ptype q).
      * destruct Hd as (_ & -> & _). done.
      * destruct Hd as (k & _ & _ & _ & Hk & _ & Ho). rewrite Ho; [done|]. intros ->. congruence.
Qed.

Lemma evicted_kept : kept cs s cs' s'.
Proof.
  intros p' q' Hq'. rewrite evicted_spages. destruct (decide (p' = p)) as [->|Hne].
  - rewrite Hq in Hq'. injection Hq' as <-. destruct page_after_eq as (E1 & E2 & E3 & E4 & E5 & E6 & E7 & E8).
    exists page_after. split_and!; try done. destruct (ptype q) eqn:Et.
    + destruct (evicted_own cs cs' s s' f x p q i) as [Hs _]; try done.
      assert (Hsl : file_slice s' cs' page_after = page_data s cs q).
      { unfold file_slice in *. by rewrite E5, E7, E8. }
      unfold page_data at 1, data_len, page_bytes. rewrite E1, E6, E8, Hsl.
      destruct (vo_page cs s Hok p q Hq) as (_ & _ & _ & _ & Hfile). destruct (Hfile Et) as (n & c & _ & _ & _ & _ & Hby & _).
      destruct (re_ram _ _ _ _ _ _ _ Hre) as (b & Hram & Hbl & _).
      assert (Hlen : length (page_data s cs q) = Z.to_nat (bytes q)).
      { unfold page_data, data_len. rewrite (resident_bytes s cs p q f x i) by done. rewrite Et, Hram. cbn [default from_option id].
        rewrite length_take, Hbl. lia. }
      unfold put_bytes. rewrite take_0, app_nil_l. by rewrite take_app_length'.
    + pose proof (ev_data _ _ _ _ _ _ _ _ _ Hev) as Hd. rewrite Et in Hd. destruct Hd as (k & Hsp & _ & _ & _ & Hk & _).
      unfold page_data, data_len, page_bytes. rewrite E1, E6, Et. unfold page_after. rewrite Hsp, lookup_insert_eq. cbn [swap_at set_fr set_swap].
      rewrite Hk, Hfr, (re_frame _ _ _ _ _ _ _ Hre). done.
  - exists q'. split_and!; try done. unfold page_data. by rewrite (evicted_bytes p').
Qed.

(** A page afterwards is the evicted one or as it was. *)
Lemma evicted_view p' q' : spages s' !! p' = Some q' →
  ∃ q0, spages s !! p' = Some q0 ∧ pd q' = pd q0 ∧ vaddr q' = vaddr q0 ∧ wr q' = wr q0 ∧ fil q' = fil q0
    ∧ ptype q' = ptype q0 ∧ offset q' = offset q0 ∧ bytes q' = bytes q0
    ∧ ((p' = p ∧ q0 = q ∧ q' = page_after ∧ fr q' = None) ∨ (p' ≠ p ∧ q' = q0)).
Proof.
  rewrite evicted_spages. destruct (decide (p' = p)) as [->|Hne].
  - intros [= <-]. destruct page_after_eq as (E1 & E2 & E3 & E4 & E5 & E6 & E7 & E8). exists q. split_and!; try done. by left.
  - intros Hq'. exists q'. split_and!; try done. by right.
Qed.

Lemma evicted_slot_old k : is_Some (stored (swp s) k) → stored (swp s') k = stored (swp s) k.
Proof.
  intros [c Hc]. pose proof (ev_data _ _ _ _ _ _ _ _ _ Hev) as Hd. destruct (ptype q).
  - destruct Hd as (_ & -> & _). done.
  - destruct Hd as (k0 & _ & _ & _ & Hk & _ & Ho). apply Ho. intros ->. congruence.
Qed.

Lemma evicted_file_ok p' q' : spages s' !! p' = Some q' → ptype q' = filesys → file_ok s' cs' q'.
Proof.
  intros Hq' Ht. destruct (evicted_view p' q' Hq') as (q0 & Hq0 & _ & _ & _ & Ef & Et & Eo & Eb & [(-> & -> & _)|[Hne ->]]).
  - rewrite Et in Ht. destruct (evicted_own cs cs' s s' f x p q i) as [_ Hf]; try done. unfold file_ok in *. by rewrite Ef, Eo, Eb.
  - by destruct (evicted_slice cs cs' s s' f x p q i p' q0).
Qed.

Lemma evicted_resident p' q' f' : spages s !! p' = Some q' → p' ≠ p → fr q' = Some f' → ∃ x' j, resident s' cs' p' q' f' x' j.
Proof.
  intros Hq' Hne Hfr'. destruct (vo_resident cs s Hok p' q' f' Hq' Hfr') as (x' & j & Hre'). exists x', j.
  destruct (evicted_frame p' q' f' x' j Hq' Hfr' Hre' Hne) as (Ef & Er & Eu). destruct (evicted_entry p' q' Hq' Hne) as [Em Efl].
  constructor; rewrite ?Em, ?Efl by lia; try apply Hre'; try done.
  - rewrite (re_phys _ _ _ _ _ _ _ Hre'). unfold pool_page. by destruct (ev_pool _ _ _ _ _ _ _ _ _ Hev) as [_ ->].
  - rewrite Er. apply Hre'.
  - intros Ht Hd. unfold page_data. rewrite (evicted_bytes p') by done. fold (page_data s cs q').
    rewrite (re_clean _ _ _ _ _ _ _ Hre' Ht Hd). by destruct (evicted_slice cs cs' s s' f x p q i p' q') as [-> _].
Qed.

Lemma evicted_absent p' q' : spages s' !! p' = Some q' → fr q' = None → absent s' q'.
Proof.
  intros Hq' Hn. destruct (evicted_view p' q' Hq') as (q0 & Hq0 & Ep & Ev & _ & _ & Et & _ & _ & [(-> & -> & Ea & _)|[Hne ->]]).
  - constructor; [rewrite Ep, Ev; apply Hev|]. intros Ht. rewrite Et in Ht. pose proof (ev_data _ _ _ _ _ _ _ _ _ Hev) as Hd. rewrite Ht in Hd.
    destruct Hd as (k & Hsp & _ & _ & _ & Hk & _). exists k. rewrite Hsp, lookup_insert_eq in Hq'. injection Hq' as <-. split; [done|].
    rewrite Hk. destruct (re_ram _ _ _ _ _ _ _ Hre) as (b & -> & _). by eexists.
  - destruct (vo_absent cs s Hok p' q0 Hq0 Hn) as [Hm Hs]. destruct (evicted_entry p' q0 Hq0 Hne) as [Em _]. constructor; [by rewrite Em|].
    intros Ht. destruct (Hs Ht) as (k & Hk & Hst). exists k. split; [done|]. by rewrite evicted_slot_old.
Qed.

(** The slot of the evicted page was free before. *)
Lemma evicted_slot_new k : ptype q = swapslot → swap_at page_after = Some k → stored (swp s) k = None.
Proof.
  intros Ht. pose proof (ev_data _ _ _ _ _ _ _ _ _ Hev) as Hd. rewrite Ht in Hd. destruct Hd as (k0 & Hsp & _ & _ & Hk & _).
  unfold page_after. rewrite Hsp, lookup_insert_eq. intros [= <-]. done.
Qed.

Lemma evicted_ok : vm_ok cs' s'.
Proof.
  destruct (ev_mmu _ _ _ _ _ _ _ _ _ Hev) as (Hm & (Hr1 & Hr2 & Hr3) & Hpg). destruct (ev_pool _ _ _ _ _ _ _ _ _ Hev) as [Ep Eb].
  destruct (ev_same _ _ _ _ _ _ _ _ _ Hev) as (El & Est & Ec & Ect & Ecf & Enp & Emo). destruct (ev_rep _ _ _ _ _ _ _ _ _ Hev) as [Hrep Hino].
  pose proof (ev_frames _ _ _ _ _ _ _ _ _ Hev) as Efr.
  constructor.
  - done.
  - rewrite Ec. apply Hok.
  - pose proof (ev_data _ _ _ _ _ _ _ _ _ Hev) as Hd. destruct (ptype q); [destruct Hd as (_ & -> & _); apply Hok|]. by destruct Hd as (k & _ & _ & ? & _).
  - done.
  - rewrite Ep, Eb, Hr2, length_insert. apply Hok.
  - rewrite (ev_table _ _ _ _ _ _ _ _ _ Hev). apply NoDup_filter, Hok.
  - intros g Hg. rewrite (ev_table _ _ _ _ _ _ _ _ _ Hev) in Hg. apply list_elem_of_filter in Hg as [Hne Hg].
    rewrite Efr, lookup_delete_ne by done. by apply (vo_table cs s Hok).
  - intros g y Hg. rewrite Efr in Hg. apply lookup_delete_Some in Hg as [Hne Hg].
    destruct (vo_frame cs s Hok g y Hg) as (p' & q' & Hp' & Hq' & Hf'). exists p', q'. split; [done|]. split; [|done].
    rewrite evicted_spages. rewrite decide_False; [done|]. intros ->. congruence.
  - intros p' q' Hq'. pose proof (evicted_file_ok p' q' Hq') as Hfile.
    destruct (evicted_view p' q' Hq') as (q0 & Hq0 & -> & -> & _). destruct (vo_page cs s Hok p' q0 Hq0) as (P1 & P2 & P3 & P4 & _). by rewrite Hr1.
  - intros p' q' g Hq' Hg. destruct (evicted_view p' q' Hq') as (q0 & Hq0 & _ & _ & _ & _ & _ & _ & _ & [(-> & _ & _ & Hn)|[Hne ->]]); [congruence|].
    by apply evicted_resident.
  - apply evicted_absent.
  - intros p1 p2 q1 q2 H1 H2 Hne. destruct (evicted_view p1 q1 H1) as (r1 & R1 & -> & -> & _), (evicted_view p2 q2 H2) as (r2 & R2 & -> & -> & _).
    by apply (vo_sep cs s Hok p1 p2).
  - intros g g' y y'. rewrite Efr. intros [_ H1]%lookup_delete_Some [_ H2]%lookup_delete_Some. by apply (vo_phys cs s Hok).
  - intros p1 p2 q1 q2 k H1 H2 N1 N2 T1 T2 S1 S2.
    destruct (evicted_view p1 q1 H1) as (r1 & R1 & _ & _ & _ & _ & E1 & _ & _ & C1), (evicted_view p2 q2 H2) as (r2 & R2 & _ & _ & _ & _ & E2 & _ & _ & C2).
    destruct C1 as [(-> & -> & -> & _)|[Hn1 ->]], C2 as [(-> & -> & -> & _)|[Hn2 ->]]; [done|exfalso|exfalso|].
    + destruct (ab_slot s r2 (vo_absent cs s Hok p2 r2 R2 N2) T2) as (k' & E & [c Hc]). rewrite S2 in E. injection E as <-.
      rewrite evicted_slot_new in Hc; [done|congruence|done].
    + destruct (ab_slot s r1 (vo_absent cs s Hok p1 r1 R1 N1) T1) as (k' & E & [c Hc]). rewrite S1 in E. injection E as <-.
      rewrite evicted_slot_new in Hc; [done|congruence|done].
    + by apply (vo_slots cs s Hok p1 p2 r1 r2 k).
  - intros p1 p2 q1 q2 n H1 H2 Hne (S1 & S2 & S3) T2.
    destruct (evicted_view p1 q1 H1) as (r1 & R1 & _ & _ & W1 & F1 & T1 & O1 & B1 & _), (evicted_view p2 q2 H2) as (r2 & R2 & _ & _ & _ & F2 & T2' & O2 & B2 & _).
    rewrite !Hino, F1, F2, O1, O2, B1, B2. apply (vo_shared cs s Hok p1 p2); try done; [|congruence]. unfold shared. by rewrite <- T1, <- W1, <- F1.
  - intros p' Hp'. rewrite Enp in Hp'. destruct (vo_ptr cs s Hok p' Hp') as [H1 H2]. rewrite Efr, evicted_spages. split.
    + destruct (decide (f = p')) as [->|]; [by rewrite lookup_delete_eq|by rewrite lookup_delete_ne].
    + rewrite decide_False; [done|]. intros ->. congruence.
Qed.
End evicted.
End ops.
