(* ===== verification/VmThms.v ===== *)
(** * What demand paging promises

    A fault on a page that is not in a frame brings it in with the data it had, evicting another
    page if need be, and no page loses data; and three ways in which the code goes
    wrong. *)

From S2P Require Import Prelude Bytes Vaddr Block Pagedir Swap Vm VmVictim VmOps.

Section load.
Context {D F : Type} {drv : BlockDriver D} {laws : BlockDriverLaws D} {fst : FileStore F} {flaws : FileStoreLaws F}.
Context (dirs execs : gset Z).
Implicit Types s : vm D F.

(** ** Choosing a victim keeps the invariant *)

Lemma vm_queue_ok cs s : vm_ok dirs execs cs s → queue_ok dirs s.
Proof.
  intros Hok. destruct (vo_base _ _ _ _ Hok) as (Hb & Hb1 & Hb2 & _).
  assert (Hw : ∀ f, f ∈ frame_table s → ∃ x p q i, whereis s f = Some (x, q) ∧ spages s !! p = Some q ∧ resident execs s cs p q f x i).
  { intros f Hf. destruct (vo_table _ _ _ _ Hok f Hf) as [x Hx]. destruct (vo_frame _ _ _ _ Hok f x Hx) as (p & q & Hp & Hq & Hfr).
    destruct (vo_resident _ _ _ _ Hok p q f Hq Hfr) as (x' & i & Hre). pose proof (re_frame _ _ _ _ _ _ _ _ Hre) as Hx'.
    rewrite Hx in Hx'. injection Hx' as <-. exists x, p, q, i. split; [|done]. unfold whereis. by rewrite Hx, Hp, Hq. }
  constructor; [apply Hok|apply Hok| |].
  - intros f Hf. destruct (Hw f Hf) as (x & p & q & i & E & Hq & Hre). destruct (vo_page _ _ _ _ Hok p q Hq) as (Hpd & _ & Hv & _).
    exists x, q. split; [done|]. split; [done|]. split; [|done]. rewrite (re_phys _ _ _ _ _ _ _ _ Hre). unfold pool_page.
    pose proof (lookup_lt_Some _ _ _ (re_used _ _ _ _ _ _ _ _ Hre)). unfold PGSIZE in *. lia.
  - intros f g x q x' q' Hf Hg Hne E E'. destruct (Hw f Hf) as (x0 & p & q0 & i & E0 & Hq & Hre). rewrite E in E0. injection E0 as <- <-.
    destruct (Hw g Hg) as (x0 & p' & q0 & i' & E0 & Hq' & Hre'). rewrite E' in E0. injection E0 as <- <-.
    assert (Hpp : p ≠ p').
    { intros ->. rewrite Hq in Hq'. injection Hq' as <-. pose proof (re_page _ _ _ _ _ _ _ _ Hre). pose proof (re_page _ _ _ _ _ _ _ _ Hre').
      destruct (vo_frame _ _ _ _ Hok f x (re_frame _ _ _ _ _ _ _ _ Hre)) as (p1 & q1 & A1 & A2 & A3).
      destruct (vo_frame _ _ _ _ Hok g x' (re_frame _ _ _ _ _ _ _ _ Hre')) as (p2 & q2 & B1 & B2 & B3). congruence. }
    split.
    + unfold same_page. apply Z.eqb_neq. intros Eq. apply Hne, (vo_phys _ _ _ _ Hok f g x x'); [apply Hre|apply Hre'|].
      rewrite (re_phys _ _ _ _ _ _ _ _ Hre), (re_phys _ _ _ _ _ _ _ _ Hre') in *. unfold pool_page, PGSIZE in *.
      rewrite !(Z.mul_comm 4096), !Z_div_plus_full in Eq by lia. lia.
    + intros Epd. pose proof (vo_sep _ _ _ _ Hok p p' q q' Hq Hq' Hpp) as Hs. unfold same_entry in Hs. rewrite Epd, Z.eqb_refl in Hs.
      by rewrite andb_true_r in Hs.
Qed.

Lemma aged_ok cs s s' :
  vm_ok dirs execs cs s → aged dirs s s' → NoDup (frame_table s') → (∀ f, f ∈ frame_table s' → f ∈ frame_table s) →
  vm_ok dirs execs cs s' ∧ ∀ q, page_bytes s' cs q = page_bytes s cs q.
Proof.
  intros Hok (m' & E & Hm & (Hr1 & Hr2 & Hr3) & Hpg & Hv) Hn Hsub. rewrite E. split; [|done].
  assert (Hview : ∀ p q, spages s !! p = Some q → mapping m' (pd q) (vaddr q) = mapping (mm s) (pd q) (vaddr q)
    ∧ flag m' (pd q) (vaddr q) 6 = flag (mm s) (pd q) (vaddr q) 6).
  { intros p q Hq. destruct (vo_page _ _ _ _ Hok p q Hq) as (Hpd & _ & Hva & _). destruct (Hv (pd q) (vaddr q)) as [M1 F1]; [done| |].
    - unfold PHYS_BASE in *; unfold_ints; lia.
    - split; [done|]. apply F1; lia. }
  destruct Hok as [H1 H2 H3 H4 H5 H6 H7 H8 H9 H10 H11 H12 H13 H14 H15 H16]. constructor; run; try done.
  - by rewrite Hr2.
  - intros f Hf. by apply H7, Hsub.
  - intros p q Hq. rewrite Hr1. by apply (H9 p).
  - intros p q f Hq Hf. destruct (H10 p q f Hq Hf) as (x & i & Hre). exists x, i. destruct (Hview p q Hq) as [M1 F1].
    destruct Hre as [R1 R2 R3 R4 R5 R6 R7 R8 R9 R10]. constructor; run; rewrite ?M1, ?F1; try done.
  - intros p q Hq Hf. destruct (H11 p q Hq Hf) as [A1 A2]. destruct (Hview p q Hq) as [M1 _]. constructor; run; [by rewrite M1|done].
Qed.

(** ** A new frame *)

Lemma first_free_Some l i : first_free l = Some i → l !! i = Some false.
Proof.
  revert i. induction l as [|u l IH]; intros i; [done|]. simpl. destruct u; [|by intros [= <-]].
  destruct (first_free l) as [j|]; [|done]. intros [= <-]. simpl. by apply IH.
Qed.

Lemma first_free_None l : first_free l = None → ∀ i, l !! i ≠ Some false.
Proof.
  induction l as [|u l IH]; intros Hn i; [done|]. simpl in Hn. destruct u; [|done]. destruct (first_free l); [done|].
  destruct i; [done|]. simpl. by apply IH.
Qed.

(** There is a page in the user pool, or a frame that can be evicted and a slot for its page. *)
Definition room s : Prop :=
  (∃ i, pool s !! i = Some false)
  ∨ ((∃ f, f ∈ frame_table s ∧ busy s f = false) ∧ ∃ k, (k < length (swap_slots (swp s)))%nat ∧ stored (swp s) k = None).

(** The data of every page but [p]. *)
Definition kept_but (p : Z) cs s cs' s' : Prop :=
  ∀ p' q, p' ≠ p → spages s !! p' = Some q →
    ∃ q', spages s' !! p' = Some q' ∧ pd q' = pd q ∧ vaddr q' = vaddr q ∧ wr q' = wr q ∧ ptype q' = ptype q
      ∧ page_data s' cs' q' = page_data s cs q.

(** Making room: eviction when the pool is empty. *)
Definition make_room : ST (vm D F) unit := v ← frame_choose_victim; frame_evict v.

Lemma make_room_spec cs s :
  vm_ok dirs execs cs s → frame_lock s = true →
  (∃ f, f ∈ frame_table s ∧ busy s f = false) → (∃ k, (k < length (swap_slots (swp s)))%nat ∧ stored (swp s) k = None) →
  ∃ s' cs', make_room s = Ok (tt, s') ∧ vm_ok dirs execs cs' s' ∧ kept cs s cs' s'
    ∧ (∃ i, pool s' !! i = Some false) ∧ (∀ p q, spages s !! p = Some q → fr q = None → spages s' !! p = Some q)
    ∧ frame_lock s' = true ∧ supp_tables s' = supp_tables s ∧ cur_file s' = cur_file s
    ∧ next_ptr s' = next_ptr s ∧ malloc_ok s' = malloc_ok s ∧ pages (mm s') = pages (mm s).
Proof.
  intros Hok Hl Hbusy (k & Hk & Hks).
  destruct (choose_victim_spec dirs s (vm_queue_ok cs s Hok) Hbusy) as (pre & v & post & s1 & Ht & E1 & Ha & Ht1 & _).
  pose proof (vo_nodup _ _ _ _ Hok) as Hn. rewrite Ht in Hn.
  destruct (aged_ok cs s s1 Hok Ha) as [Hok1 Hby1].
  { rewrite Ht1. apply NoDup_app in Hn as (N1 & N2 & N3). apply NoDup_cons in N3 as [N3 N4].
    apply NoDup_app. split_and!; [done| |done]. intros y Hy Hy'. apply (N2 y Hy'). by right. }
  { intros y. rewrite Ht, Ht1. set_solver. }
  assert (Hx : is_Some (frames s !! v)) by (apply (vo_table _ _ _ _ Hok); rewrite Ht; set_solver).
  destruct Ha as (m1 & Es1 & _ & _ & Hpg1 & _).
  assert (Hs1 : frames s1 = frames s ∧ spages s1 = spages s ∧ frame_lock s1 = true ∧ swp s1 = swp s ∧ supp_tables s1 = supp_tables s
    ∧ cur_file s1 = cur_file s ∧ next_ptr s1 = next_ptr s ∧ malloc_ok s1 = malloc_ok s ∧ pages (mm s1) = pages (mm s)).
  { rewrite Es1. run. done. }
  destruct Hs1 as (Ef & Esp & El & Esw & Est & Ecf & Enp & Emo & Epg). rewrite <- Ef in Hx. destruct Hx as [x Hx].
  destruct (vo_frame _ _ _ _ Hok1 v x Hx) as (p & q & Hp & Hq & Hfr). destruct (vo_resident _ _ _ _ Hok1 p q v Hq Hfr) as (x' & i & Hre).
  pose proof (re_frame _ _ _ _ _ _ _ _ Hre) as Hx'. rewrite Hx in Hx'. injection Hx' as <-.
  assert (Hev : ∃ s' cs', frame_evict v s1 = Ok (tt, s') ∧ evicted dirs cs cs' s1 s' v x p q i).
  { destruct (ptype q) eqn:Et.
    - by apply (evict_file dirs execs).
    - destruct (evict_swap dirs execs s1 cs v x p q i) as (s' & E & Hev); try done; [|by exists s', cs]. exists k. by rewrite Esw. }
  destruct Hev as (s' & cs' & E2 & Hev). exists s', cs'. split; [unfold make_room, mbind, st_bind; by rewrite E1|].
  split; [by eapply evicted_ok|]. destruct (ev_same _ _ _ _ _ _ _ _ _ _ Hev) as (F1 & F2 & F3 & F4 & F5 & F6 & F7).
  split.
  { intros p' q' Hq'. rewrite <- Esp in Hq'. destruct (evicted_kept dirs execs cs cs' s1 s' v x p q i Hok1 Hev Hre Hq Hfr p' q' Hq')
      as (q1 & Q1 & Q2 & Q3 & Q4 & Q5 & Q6 & Q7). exists q1. split_and!; try done. rewrite Q7. unfold page_data. by rewrite Hby1. }
  split.
  { exists i. destruct (ev_pool _ _ _ _ _ _ _ _ _ _ Hev) as [-> _]. apply list_lookup_insert_eq.
    eapply lookup_lt_Some. apply Hre. }
  split.
  { intros p' q' Hq' Hfr'. rewrite <- Esp in Hq'. rewrite (evicted_spages dirs cs cs' s1 s' v x p q i Hev).
    rewrite decide_False; [done|]. intros ->. congruence. }
  destruct (ev_mmu _ _ _ _ _ _ _ _ _ _ Hev) as (_ & _ & Hpg). split_and!; congruence.
Qed.

Lemma lock_ok cs b s : vm_ok dirs execs cs s → vm_ok dirs execs cs (with_frame_lock b s).
Proof.
  intros [H1 H2 H3 H4 H5 H6 H7 H8 H9 H10 H11 H12 H13 H14 H15 H16]. constructor; run; try done.
  - intros p q f Hq Hf. destruct (H10 p q f Hq Hf) as (x & i & [R1 R2 R3 R4 R5 R6 R7 R8 R9 R10]). exists x, i. by constructor.
  - intros p q Hq Hf. destruct (H11 p q Hq Hf) as [A1 A2]. by constructor.
Qed.

(** The state after a new frame was made out of page [i] of the pool. *)
Definition with_new_frame (i : nat) (m : mmu) (pin : bool) s : vm D F :=
  with_frame_lock false (with_frame_table (frame_table s ++ [next_ptr s]) (with_mm m
    (with_frames (<[next_ptr s := Frame (pool_page s i) None (if pin then 1 else 0) false]> (frames s))
      (with_next_ptr (next_ptr s + 1) (with_ram (<[pool_page s i := zero_bytes]> (ram s)) (with_pool (<[i := true]> (pool s)) s)))))).

(** The part of [frame_create] that has a page. *)
Lemma palloc_get_page_eq s i : pool s !! i = Some false →
  ∃ j, pool s !! j = Some false
    ∧ palloc_get_page true s = Ok (Some (pool_page s j), with_ram (<[pool_page s j := zero_bytes]> (ram s)) (with_pool (<[j := true]> (pool s)) s)).
Proof.
  intros Hi. destruct (first_free (pool s)) as [j|] eqn:Ef; [|by apply first_free_None with (i := i) in Ef].
  exists j. split; [by apply first_free_Some|]. unfold palloc_get_page, mbind, st_bind, gets. run. by rewrite Ef.
Qed.

Lemma frame_create_spec cs s pin :
  vm_ok dirs execs cs s → frame_lock s = false → malloc_ok s (next_ptr s) = true → room s →
  ∃ s1 cs1 i m', vm_ok dirs execs cs1 s1 ∧ kept cs s cs1 s1 ∧ pool s1 !! i = Some false
    ∧ pagedir_set_dirty (cur_pd s1) (pool_page s1 i) false (mm s1) = Ok (tt, m')
    ∧ frame_create true pin s = Ok (next_ptr s1, with_new_frame i m' pin s1)
    ∧ (∀ p q, spages s !! p = Some q → fr q = None → spages s1 !! p = Some q)
    ∧ cur_file s1 = cur_file s ∧ pages (mm s1) = pages (mm s) ∧ supp_tables s1 = supp_tables s.
Proof.
  intros Hok Hl Hma Hroom. set (s0 := with_frame_lock true s). assert (Hok0 : vm_ok dirs execs cs s0) by by apply lock_ok.
  assert (Hstep : ∃ s1 cs1 i, vm_ok dirs execs cs1 s1 ∧ kept cs s cs1 s1 ∧ pool s1 !! i = Some false
    ∧ (kpage ← palloc_get_page true;
       match kpage with Some _ => mret kpage | None => v ← frame_choose_victim; frame_evict v;; palloc_get_page true end) s0
      = Ok (Some (pool_page s1 i), with_ram (<[pool_page s1 i := zero_bytes]> (ram s1)) (with_pool (<[i := true]> (pool s1)) s1))
    ∧ (∀ p q, spages s !! p = Some q → fr q = None → spages s1 !! p = Some q)
    ∧ frame_lock s1 = true ∧ next_ptr s1 = next_ptr s ∧ malloc_ok s1 = malloc_ok s
    ∧ cur_file s1 = cur_file s ∧ pages (mm s1) = pages (mm s) ∧ supp_tables s1 = supp_tables s).
  { destruct (first_free (pool s)) as [i|] eqn:Ef.
    - apply first_free_Some in Ef. destruct (palloc_get_page_eq s0 i Ef) as (j & Hj & E). exists s0, cs, j.
      split; [done|]. split; [intros p q Hq; exists q; done|]. split; [done|]. split; [|done]. unfold mbind, st_bind. by rewrite E.
    - destruct Hroom as [[i Hi]|[Hb Hk]]; [by apply first_free_None with (i := i) in Ef|].
      destruct (make_room_spec cs s0 Hok0 eq_refl Hb Hk) as (s1 & cs1 & E & Hok1 & Hkept & (i & Hi) & Habs & El & Est & Ecf & Enp & Emo & Epg).
      destruct (palloc_get_page_eq s1 i Hi) as (j & Hj & Eg). exists s1, cs1, j. split; [done|]. split; [done|]. split; [done|]. split; [|done].
      unfold make_room, mbind, st_bind in *. unfold palloc_get_page at 1, mbind, st_bind, gets. run. change (pool s0) with (pool s). rewrite Ef.
      unfold mret, st_ret. run. destruct (frame_choose_victim s0) as [[v s2]|]; [|done]. destruct (frame_evict v s2) as [[[] s3]|]; [|done].
      injection E as ->. by rewrite Eg. }
  destruct Hstep as (s1 & cs1 & i & Hok1 & Hkept & Hi & E & Habs & El & Enp & Emo & Ecf & Epg & Est).
  destruct (vo_base _ _ _ _ Hok1) as (Hb & Hb1 & Hb2 & _). pose proof (lookup_lt_Some _ _ _ Hi) as Hlt.
  assert (Hp32 : is_u32 (pool_page s1 i)) by (unfold pool_page, PHYS_BASE, PGSIZE in *; unfold_ints; lia).
  destruct (set_flag_view dirs (mm s1) (cur_pd s1) (pool_page s1 i) 6 false) as (m' & E' & _); [apply Hok1|apply Hok1|done|lia|].
  change (set_flag (2 ^ 6)) with pagedir_set_dirty in E'. exists s1, cs1, i, m'. split_and!; try done.
  unfold frame_create, lock_acquire, lock_release, malloc, on_mmu, assert, lift, ASSERT, modify, gets, deref, mret, st_ret.
  unfold mbind, st_bind in *. run. rewrite Hl. run. fold s0.
  destruct (palloc_get_page true s0) as [[o s2]|]; [|done]. unfold mret, st_ret in E.
  cbv beta iota in E. destruct o; cbv beta iota in E; run; [injection E as -> ->|rewrite E].
  all: run; rewrite Emo, Enp, Hma; run; rewrite E'; run; rewrite El; run; unfold with_new_frame; by rewrite Enp.
Qed.

(** ** Loading a page *)

(** What loading page [p] into page [i] of the pool changes. *)
Record loaded cs s s' (i : nat) (pin : bool) (p : Z) (q q' : supp_page) (b : list Z) : Prop := {
  lo_mmu : mmu_ok dirs (mm s') ∧ same_regs (mm s) (mm s');
  lo_here : mapping (mm s') (pd q) (vaddr q) = Some (pool_page s i, wr q) ∧ flag (mm s') (pd q) (vaddr q) 6 = false;
  lo_else d u : d ∈ dirs → 0 ≤ u < PHYS_BASE → same_entry (pd q) (vaddr q) d u = false →
    mapping (mm s') d u = mapping (mm s) d u ∧ flag (mm s') d u 6 = flag (mm s) d u 6;
  lo_frames : frames s' = <[next_ptr s := Frame (pool_page s i) (Some p) (if pin then 1 else 0) false]> (frames s);
  lo_table : frame_table s' = frame_table s ++ [next_ptr s];
  lo_pool : pool s' = <[i := true]> (pool s) ∧ pool_base s' = pool_base s;
  lo_ram : ram s' = <[pool_page s i := b]> (ram s) ∧ is_page b;
  lo_spages : spages s' = <[p := q']> (spages s);
  lo_page : fr q' = Some (next_ptr s) ∧ pd q' = pd q ∧ vaddr q' = vaddr q ∧ wr q' = wr q;
  lo_kind : (ptype q' = ptype q ∧ fil q' = fil q ∧ offset q' = offset q ∧ bytes q' = bytes q
      ∧ (ptype q = filesys → (wr q = true → fil q ∉ execs) ∧ take (Z.to_nat (bytes q)) b = file_slice s cs q))
    ∨ (ptype q = filesys ∧ ptype q' = swapslot);
  lo_data : take (data_len q) b = page_data s cs q;
  lo_swap : swap_ok (swp s') ∧ ∀ j, (ptype q = swapslot → swap_at q ≠ Some j) → stored (swp s') j = stored (swp s) j;
  lo_files : file_rep (files s') cs ∧ ∀ g, file_inode (files s') g = file_inode (files s) g;
  lo_rest : next_ptr s' = next_ptr s + 1 ∧ cur_pd s' = cur_pd s;
}.

Section loaded.
Context (cs : gmap Z (list Z)) (s s' : vm D F) (i : nat) (pin : bool) (p : Z) (q q' : supp_page) (b : list Z).
Hypothesis Hok : vm_ok dirs execs cs s.
Hypothesis Hlo : loaded cs s s' i pin p q q' b.
Hypothesis Hi : pool s !! i = Some false.
Hypothesis Hq : spages s !! p = Some q.
Hypothesis Hfr : fr q = None.

Lemma loaded_frame f x : frames s !! f = Some x → f ≠ next_ptr s ∧ phys_addr x ≠ pool_page s i ∧ frames s' !! f = Some x
  ∧ ram s' !! phys_addr x = ram s !! phys_addr x.
Proof.
  intros Hf. assert (Hne : f ≠ next_ptr s).
  { intros ->. destruct (vo_ptr _ _ _ _ Hok (next_ptr s)) as [Hn _]; [lia|]. congruence. }
  assert (Hph : phys_addr x ≠ pool_page s i).
  { destruct (vo_frame _ _ _ _ Hok f x Hf) as (p' & r & Hp' & Hr & Hfr'). destruct (vo_resident _ _ _ _ Hok p' r f Hr Hfr') as (x' & j & Hre).
    pose proof (re_frame _ _ _ _ _ _ _ _ Hre) as Hx'. rewrite Hf in Hx'. injection Hx' as <-. rewrite (re_phys _ _ _ _ _ _ _ _ Hre).
    intros ->%pool_page_inj. pose proof (re_used _ _ _ _ _ _ _ _ Hre). congruence. }
  split; [done|]. split; [done|]. rewrite (lo_frames _ _ _ _ _ _ _ _ _ Hlo), lookup_insert_ne by done.
  destruct (lo_ram _ _ _ _ _ _ _ _ _ Hlo) as [-> _]. by rewrite lookup_insert_ne by done.
Qed.

Lemma loaded_entry p' r : spages s !! p' = Some r → p' ≠ p →
  mapping (mm s') (pd r) (vaddr r) = mapping (mm s) (pd r) (vaddr r) ∧ flag (mm s') (pd r) (vaddr r) 6 = flag (mm s) (pd r) (vaddr r) 6.
Proof.
  intros Hr Hne. destruct (vo_page _ _ _ _ Hok p' r Hr) as (Hpd & _ & Hv & _). apply (lo_else _ _ _ _ _ _ _ _ _ Hlo); [done|done|].
  by apply (vo_sep _ _ _ _ Hok p p').
Qed.

Lemma loaded_slot p' r k : spages s !! p' = Some r → p' ≠ p → fr r = None → ptype r = swapslot → swap_at r = Some k →
  stored (swp s') k = stored (swp s) k.
Proof.
  intros Hr Hne Hn Ht Hk. destruct (lo_swap _ _ _ _ _ _ _ _ _ Hlo) as [_ Ho]. apply Ho. intros Htq Hkq.
  apply Hne. by apply (vo_slots _ _ _ _ Hok p' p r q k).
Qed.

Lemma loaded_slice r : file_slice s' cs r = file_slice s cs r.
Proof. unfold file_slice. destruct (lo_files _ _ _ _ _ _ _ _ _ Hlo) as [_ ->]. done. Qed.

Lemma loaded_bytes p' r : spages s !! p' = Some r → p' ≠ p → page_bytes s' cs r = page_bytes s cs r.
Proof.
  intros Hr Hne. unfold page_bytes. destruct (fr r) as [f|] eqn:Hfr'.
  - destruct (vo_resident _ _ _ _ Hok p' r f Hr Hfr') as (x & j & Hre). pose proof (re_frame _ _ _ _ _ _ _ _ Hre) as Hx.
    destruct (loaded_frame f x Hx) as (_ & _ & -> & ->). by rewrite Hx.
  - rewrite loaded_slice. destruct (ptype r) eqn:Et; [done|].
    destruct (ab_slot _ _ (vo_absent _ _ _ _ Hok p' r Hr Hfr') Et) as (k & Hk & _). rewrite Hk. by rewrite (loaded_slot p' r k).
Qed.

Lemma loaded_own_bytes : page_bytes s' cs q' = b.
Proof.
  unfold page_bytes. destruct (lo_page _ _ _ _ _ _ _ _ _ Hlo) as (-> & _). rewrite (lo_frames _ _ _ _ _ _ _ _ _ Hlo), lookup_insert_eq.
  destruct (lo_ram _ _ _ _ _ _ _ _ _ Hlo) as [-> _]. cbn [phys_addr]. by rewrite lookup_insert_eq.
Qed.

Lemma loaded_resident : resident execs s' cs p q' (next_ptr s) (Frame (pool_page s i) (Some p) (if pin then 1 else 0) false) i.
Proof.
  destruct (lo_page _ _ _ _ _ _ _ _ _ Hlo) as (E1 & E2 & E3 & E4). destruct (lo_here _ _ _ _ _ _ _ _ _ Hlo) as [Hm Hd].
  destruct (lo_pool _ _ _ _ _ _ _ _ _ Hlo) as [Hp Hb]. destruct (lo_ram _ _ _ _ _ _ _ _ _ Hlo) as [Hr Hbp].
  constructor; rewrite ?E2, ?E3, ?E4; try done.
  - by rewrite (lo_frames _ _ _ _ _ _ _ _ _ Hlo), lookup_insert_eq.
  - cbn [phys_addr]. unfold pool_page. by rewrite Hb.
  - rewrite Hp. apply list_lookup_insert_eq. by eapply lookup_lt_Some.
  - exists b. rewrite Hr. cbn [phys_addr]. by rewrite lookup_insert_eq.
  - by rewrite Hd.
  - intros Ht Hw. destruct (lo_kind _ _ _ _ _ _ _ _ _ Hlo) as [(K1 & K2 & _ & _ & K5)|[_ K]]; [|congruence].
    rewrite K2. apply K5; [congruence|done].
  - intros Ht _. unfold page_data, data_len. rewrite loaded_own_bytes, loaded_slice, Ht.
    destruct (lo_kind _ _ _ _ _ _ _ _ _ Hlo) as [(K1 & K2 & K3 & K4 & K5)|[_ K]]; [|congruence].
    destruct (K5 ltac:(congruence)) as [_ Hs]. rewrite K4, Hs. unfold file_slice. by rewrite K2, K3, K4.
Qed.

Lemma loaded_other p' r f : spages s !! p' = Some r → p' ≠ p → fr r = Some f → ∃ x j, resident execs s' cs p' r f x j.
Proof.
  intros Hr Hne Hf. destruct (vo_resident _ _ _ _ Hok p' r f Hr Hf) as (x & j & Hre). exists x, j.
  destruct (loaded_frame f x (re_frame _ _ _ _ _ _ _ _ Hre)) as (_ & Hph & Ef & Er). destruct (loaded_entry p' r Hr Hne) as [Em Ed].
  destruct (lo_pool _ _ _ _ _ _ _ _ _ Hlo) as [Hp Hb].
  constructor; rewrite ?Em, ?Ed; try apply Hre; try done.
  - rewrite (re_phys _ _ _ _ _ _ _ _ Hre). unfold pool_page. by rewrite Hb.
  - rewrite Hp. pose proof (re_used _ _ _ _ _ _ _ _ Hre). rewrite list_lookup_insert_ne; [done|]. intros ->. congruence.
  - rewrite Er. apply Hre.
  - intros Ht Hd. unfold page_data. rewrite (loaded_bytes p' r) by done. rewrite loaded_slice. by apply (re_clean _ _ _ _ _ _ _ _ Hre).
Qed.

(** A page afterwards is the one loaded or as it was. *)
Lemma loaded_view p' r' : spages s' !! p' = Some r' →
  ∃ r, spages s !! p' = Some r ∧ pd r' = pd r ∧ vaddr r' = vaddr r
    ∧ (ptype r' = filesys → ptype r = filesys ∧ wr r' = wr r ∧ fil r' = fil r ∧ offset r' = offset r ∧ bytes r' = bytes r)
    ∧ ((p' = p ∧ r' = q' ∧ fr r' = Some (next_ptr s)) ∨ (p' ≠ p ∧ r' = r)).
Proof.
  rewrite (lo_spages _ _ _ _ _ _ _ _ _ Hlo). destruct (decide (p' = p)) as [->|Hne].
  - rewrite lookup_insert_eq. intros [= <-]. destruct (lo_page _ _ _ _ _ _ _ _ _ Hlo) as (E1 & E2 & E3 & E4). exists q.
    split; [done|]. split; [done|]. split; [done|]. split; [|by left]. intros Ht.
    destruct (lo_kind _ _ _ _ _ _ _ _ _ Hlo) as [(K1 & K2 & K3 & K4 & _)|[_ K]]; [|congruence]. split_and!; congruence.
  - rewrite lookup_insert_ne by done. intros Hr. exists r'. split_and!; try done. by right.
Qed.

Lemma loaded_ok : vm_ok dirs execs cs s'.
Proof.
  destruct (lo_mmu _ _ _ _ _ _ _ _ _ Hlo) as (Hm & Hr1 & Hr2 & Hr3). destruct (lo_pool _ _ _ _ _ _ _ _ _ Hlo) as [Ep Eb].
  destruct (lo_rest _ _ _ _ _ _ _ _ _ Hlo) as [En Ec]. destruct (lo_files _ _ _ _ _ _ _ _ _ Hlo) as [Hrep Hino].
  pose proof (lo_frames _ _ _ _ _ _ _ _ _ Hlo) as Efr. pose proof (lo_table _ _ _ _ _ _ _ _ _ Hlo) as Et.
  constructor.
  - done.
  - rewrite Ec. apply Hok.
  - apply (lo_swap _ _ _ _ _ _ _ _ _ Hlo).
  - done.
  - rewrite Ep, Eb, Hr2, length_insert. apply Hok.
  - rewrite Et. apply NoDup_app. split_and!; [apply Hok| |apply NoDup_singleton]. intros f Hf ->%list_elem_of_singleton.
    destruct (vo_table _ _ _ _ Hok _ Hf) as [x Hx]. by destruct (loaded_frame _ x Hx).
  - intros f Hf. rewrite Et in Hf. apply elem_of_app in Hf as [Hf| ->%list_elem_of_singleton]; [|by rewrite Efr, lookup_insert_eq].
    destruct (vo_table _ _ _ _ Hok f Hf) as [x Hx]. destruct (loaded_frame f x Hx) as (_ & _ & -> & _). done.
  - intros f x Hf. rewrite Efr in Hf. rewrite (lo_spages _ _ _ _ _ _ _ _ _ Hlo).
    apply lookup_insert_Some in Hf as [[<- <-]|[Hne Hf]].
    + exists p, q'. rewrite lookup_insert_eq. split; [done|]. split; [done|]. apply (lo_page _ _ _ _ _ _ _ _ _ Hlo).
    + destruct (vo_frame _ _ _ _ Hok f x Hf) as (p' & r & Hp' & Hr & Hfr'). exists p', r. rewrite lookup_insert_ne; [done|]. intros ->. congruence.
  - intros p' r' Hr'. destruct (loaded_view p' r' Hr') as (r & Hr & -> & -> & Hk & _). destruct (vo_page _ _ _ _ Hok p' r Hr) as (P1 & P2 & P3 & P4 & P5).
    rewrite Hr1. split_and!; try done; try lia. intros Ht. destruct (Hk Ht) as (K1 & _ & K2 & K3 & K4). unfold file_ok. rewrite Hino, K2, K3, K4. by apply P5.
  - intros p' r' f Hr' Hf. destruct (loaded_view p' r' Hr') as (r & Hr & _ & _ & _ & [(-> & -> & E)|[Hne ->]]); [|by apply loaded_other].
    rewrite Hf in E. injection E as ->. eexists _, i. apply loaded_resident.
  - intros p' r' Hr' Hn. destruct (loaded_view p' r' Hr') as (r & Hr & _ & _ & _ & [(_ & _ & E)|[Hne ->]]); [congruence|].
    destruct (vo_absent _ _ _ _ Hok p' r Hr Hn) as [A1 A2]. destruct (loaded_entry p' r Hr Hne) as [Em _]. constructor; [by rewrite Em|].
    intros Ht. destruct (A2 Ht) as (k & Hk & Hst). exists k. split; [done|]. by rewrite (loaded_slot p' r k).
  - intros p1 p2 r1 r2 H1 H2 Hne. destruct (loaded_view p1 r1 H1) as (t1 & T1 & -> & -> & _), (loaded_view p2 r2 H2) as (t2 & T2 & -> & -> & _).
    by apply (vo_sep _ _ _ _ Hok p1 p2).
  - intros f1 f2 x1 x2. rewrite Efr. intros [[<- <-]|[Hn1 H1]]%lookup_insert_Some [[<- <-]|[Hn2 H2]]%lookup_insert_Some Heq; try done.
    + destruct (loaded_frame f2 x2 H2) as (_ & Hp & _). cbn [phys_addr] in Heq. congruence.
    + destruct (loaded_frame f1 x1 H1) as (_ & Hp & _). cbn [phys_addr] in Heq. congruence.
    + by apply (vo_phys _ _ _ _ Hok f1 f2 x1 x2).
  - intros p1 p2 r1 r2 k H1 H2 N1 N2.
    destruct (loaded_view p1 r1 H1) as (t1 & T1 & _ & _ & _ & [(_ & _ & C1)|[_ ->]]); [congruence|].
    destruct (loaded_view p2 r2 H2) as (t2 & T2 & _ & _ & _ & [(_ & _ & C2)|[_ ->]]); [congruence|]. by apply (vo_slots _ _ _ _ Hok p1 p2).
  - intros p1 p2 r1 r2 n H1 H2 Hne (S1 & S2 & S3) Ht2. rewrite !Hino.
    destruct (loaded_view p1 r1 H1) as (t1 & T1 & _ & _ & K1 & _), (loaded_view p2 r2 H2) as (t2 & T2 & _ & _ & K2 & _).
    destruct (K1 S1) as (A1 & A2 & A3 & A4 & A5), (K2 Ht2) as (B1 & B2 & B3 & B4 & B5). rewrite A3, A4, A5, B3, B4, B5.
    apply (vo_shared _ _ _ _ Hok p1 p2); try done. unfold shared. by rewrite <- A2, <- A3.
  - intros p' Hp'. rewrite En in Hp'. destruct (vo_ptr _ _ _ _ Hok p') as [H1 H2]; [lia|]. rewrite Efr, (lo_spages _ _ _ _ _ _ _ _ _ Hlo).
    rewrite !lookup_insert_ne; [done| |lia]. intros ->. congruence.
Qed.
End loaded.

(** The page directories after a new frame was made and its page mapped. *)
Lemma map_new_page cs s i m' p q :
  vm_ok dirs execs cs s → pool s !! i = Some false → spages s !! p = Some q → fr q = None → pages (mm s) ≠ [] →
  pagedir_set_dirty (cur_pd s) (pool_page s i) false (mm s) = Ok (tt, m') →
  ∃ m2 : mmu, pagedir_set_page (pd q) (vaddr q) (pool_page s i) (wr q) m' = Ok (true, m2) ∧ mmu_ok dirs m2 ∧ same_regs (mm s) m2
    ∧ (mapping m2 (pd q) (vaddr q) = Some (pool_page s i, wr q) ∧ flag m2 (pd q) (vaddr q) 6 = false)
    ∧ ∀ d u, d ∈ dirs → 0 ≤ u < PHYS_BASE → same_entry (pd q) (vaddr q) d u = false →
        mapping m2 d u = mapping (mm s) d u ∧ flag m2 d u 6 = flag (mm s) d u 6.
Proof.
  intros Hok Hi Hq Hfr Hpg E. destruct (vo_base _ _ _ _ Hok) as (Hb & Hb1 & Hb2 & Hb3). pose proof (lookup_lt_Some _ _ _ Hi) as Hlt.
  destruct (vo_page _ _ _ _ Hok p q Hq) as (Hpd & Hini & Hv & Ha & _). set (a := pool_page s i) in *.
  assert (Ha1 : PHYS_BASE ≤ a < 2 ^ 32) by (unfold a, pool_page, PGSIZE in *; lia).
  assert (Ha2 : a mod PGSIZE = 0).
  { unfold a, pool_page, PGSIZE in *. by rewrite Z.mul_comm, Z_mod_plus_full. }
  assert (Ha3 : (a - PHYS_BASE) / PGSIZE < init_ram_pages (mm s)).
  { unfold a, pool_page, PGSIZE in *. replace (pool_base s + 4096 * Z.of_nat i - PHYS_BASE) with (pool_base s - PHYS_BASE + Z.of_nat i * 4096) by lia.
    rewrite Z_div_plus_full by lia. lia. }
  assert (H32 : ∀ u, 0 ≤ u < PHYS_BASE → is_u32 u) by (intros u; unfold PHYS_BASE; unfold_ints; lia).
  destruct (set_flag_view dirs (mm s) (cur_pd s) a 6 false) as (m1 & E1 & Hm1 & (R1 & R2 & R3) & Hpg1 & Hv1); [apply Hok|apply Hok|unfold_ints; lia|lia|].
  change (set_flag (2 ^ 6)) with pagedir_set_dirty in E1. rewrite E in E1. injection E1 as <-.
  assert (Hsame : ∀ d u, d ∈ dirs → 0 ≤ u < PHYS_BASE → mapping m' d u = mapping (mm s) d u ∧ flag m' d u 6 = flag (mm s) d u 6).
  { intros d u Hd Hu. destruct (Hv1 d u Hd (H32 u Hu)) as [M1 F1]. split; [done|]. rewrite F1 by lia.
    destruct (user_kernel_page d u (cur_pd s) a) as [_ ->]; [done|lia|done]. }
  pose proof (ab_map _ _ (vo_absent _ _ _ _ Hok p q Hq Hfr)) as Hnone. destruct (Hsame (pd q) (vaddr q) Hpd Hv) as [Hn0 _]. rewrite Hnone in Hn0.
  destruct (pagedir_set_spec dirs m' (pd q) (vaddr q) a (wr q) Hm1 Hpd Hv Ha Ha1 Ha2) as [(H0 & _)|[(_ & _ & Hp & _)|(m2 & e & _ & Es & Hch & Ct & C0 & C1 & _ & C6 & _)]];
    [by rewrite R2|by rewrite R1|by unfold mapping in Hn0; rewrite H0 in Hn0|congruence|].
  exists m2. pose proof (changed_update dirs m' m2 (pd q) (vaddr q) e Hch) as Hup. pose proof (changed_else dirs _ _ _ _ _ Hch) as Hel.
  destruct Hch as (Hm2 & (S1 & S2 & S3) & Hpte). split; [done|]. split; [done|]. split; [unfold same_regs; split_and!; congruence|]. split.
  - split; [rewrite Hup, same_entry_refl, C0, Ct, C1 by auto; done|]. unfold flag. by rewrite Hpte, same_entry_refl by auto.
  - intros d u Hd Hu Hs. destruct (Hel d u Hd (H32 u Hu) Hs) as [M2 F2]. destruct (Hsame d u Hd Hu) as [M1 F1]. rewrite M2, F2 by lia. done.
Qed.

Lemma zero_page_ok : is_page zero_bytes.
Proof. split; [apply length_replicate|]. apply Forall_replicate. unfold_ints. lia. Qed.

Lemma stored_slot (w : swap D) k b : stored w k = Some b → (k < length (swap_slots w))%nat ∧ b = slot_bytes w k.
Proof.
  unfold stored. destruct (swap_slots w !! k) as [sl|] eqn:E; [|done]. destruct (in_use sl); [|done]. intros [= <-].
  split; [by eapply lookup_lt_Some|done].
Qed.

(** The state with the new frame [x] in page [p]. *)
Definition in_frame (p : Z) (q : supp_page) (x : frame) (i : nat) (m' : mmu) (pin : bool) s : vm D F :=
  with_spages (<[p := set_fr (Some (next_ptr s)) q]> (spages s)) (with_frames (<[next_ptr s := x]> (frames s)) (with_new_frame i m' pin s)).

(** Filling the frame: what is read, what becomes of the page, and where the data came from. *)
Lemma fill_page cs s s2 p q i (pin : bool) m' :
  vm_ok dirs execs cs s → pool s !! i = Some false → spages s !! p = Some q → fr q = None →
  (wr q = true → fil q ∈ execs → fil q = cur_file s) →
  let f := next_ptr s in
  let q1 := set_fr (Some f) q in
  s2 = in_frame p q (Frame (pool_page s i) (Some p) (if pin then 1 else 0) false) i m' pin s →
  ∃ w' fs' q' b, page_fill p q1 (Frame (pool_page s i) (Some p) (if pin then 1 else 0) false) s2
      = Ok (tt, with_spages (<[p := q']> (spages s)) (with_ram (<[pool_page s i := b]> (ram s)) (with_swp w' (with_files fs' s2))))
    ∧ is_page b ∧ b = page_bytes s cs q
    ∧ (fr q' = Some f ∧ pd q' = pd q ∧ vaddr q' = vaddr q ∧ wr q' = wr q)
    ∧ ((ptype q' = ptype q ∧ fil q' = fil q ∧ offset q' = offset q ∧ bytes q' = bytes q
        ∧ (ptype q = filesys → (wr q = true → fil q ∉ execs) ∧ take (Z.to_nat (bytes q)) b = file_slice s cs q))
       ∨ (ptype q = filesys ∧ ptype q' = swapslot))
    ∧ (swap_ok w' ∧ ∀ j, (ptype q = swapslot → swap_at q ≠ Some j) → stored w' j = stored (swp s) j)
    ∧ file_rep fs' cs ∧ ∀ g, file_inode fs' g = file_inode (files s) g.
Proof.
  intros Hok Hi Hq Hfr Hex f q1 ->. set (a := pool_page s i). unfold page_fill. cbn [ptype set_fr q1]. destruct (ptype q) eqn:Ht.
  - destruct (vo_page _ _ _ _ Hok p q Hq) as (_ & _ & _ & _ & Hfile). destruct (Hfile Ht) as (n & c & Hn & Hc & Hcf & Ho & Hby & Hle).
    destruct (file_read_spec (files s) cs (fil q) n c (bytes q) (offset q)) as (fs' & Er & Hrep & Hino); [apply Hok|done|done|lia|lia|done|].
    set (d := take (Z.to_nat (bytes q)) (drop (Z.to_nat (offset q)) c)) in *.
    assert (Hd : Z.of_nat (length d) = bytes q) by (unfold d; rewrite length_take, length_drop; destruct Hle; lia).
    assert (Hds : d = file_slice s cs q) by (unfold file_slice; rewrite Hn, Hc; done).
    assert (Hdp : is_page (put_bytes zero_bytes 0 d)).
    { destruct zero_page_ok as [Z1 Z2]. split; [rewrite length_put_inside; [done|]; unfold PGSIZE in *; lia|].
      unfold put_bytes. rewrite !Forall_app. split_and!; [by apply Forall_take|by apply Forall_take, Forall_drop|by apply Forall_drop]. }
    assert (Hdt : take (Z.to_nat (bytes q)) (put_bytes zero_bytes 0 d) = d).
    { unfold put_bytes. rewrite take_0, app_nil_l. apply take_app_length'. lia. }
    assert (Hdata : put_bytes zero_bytes 0 d = page_bytes s cs q) by (unfold page_bytes; by rewrite Hfr, Ht, <- Hds).
    set (conv := wr q && (fil q =? cur_file s)).
    exists (swp s), fs', (if conv then SuppPage (Some f) (pd q) (vaddr q) swapslot (wr q) 0 0 0 None else q1), (put_bytes zero_bytes 0 d).
    split; [|split_and!; try done].
    + unfold on_files, get_ram, set_ram, upd_spage, get_spage, mbind, st_bind, gets, modify, lift, deref, in_frame, with_new_frame. run.
      cbn [fil bytes offset set_fr q1 phys_addr wr]. rewrite Er. run. fold a. rewrite lookup_insert_eq. run. rewrite Hd, Z.eqb_refl. run. fold conv.
      destruct conv; run; rewrite ?lookup_insert_eq; run; rewrite ?insert_insert_eq; done.
    + by destruct conv.
    + by destruct conv.
    + by destruct conv.
    + by destruct conv.
    + unfold conv. destruct (wr q) eqn:Ew; cbn [andb].
      * destruct (Z.eqb_spec (fil q) (cur_file s)) as [Ec|Ec]; [right; done|]. left. split_and!; try done. intros _. split; [|by rewrite Hdt].
        intros _ Hin. by apply Ec, Hex.
      * left. split_and!; try done. intros _. split; [done|by rewrite Hdt].
    + apply Hok.
  - destruct (ab_slot _ _ (vo_absent _ _ _ _ Hok p q Hq Hfr) Ht) as (k & Hk & [b Hb]). destruct (stored_slot (swp s) k b Hb) as [Hkl ->].
    destruct (swap_retrieve_spec (swp s) k (vo_swap _ _ _ _ Hok) Hkl) as (w' & Er & Hw & _ & _ & Hother).
    exists w', (files s), q1, (slot_bytes (swp s) k). split; [|split_and!; try done].
    + unfold on_swap, set_ram, mbind, st_bind, modify, in_frame, with_new_frame. run. cbn [swap_at set_fr q1]. rewrite Hk, Er. run.
      rewrite insert_insert_eq. done.
    + by apply slot_bytes_page; [apply Hok|].
    + unfold page_bytes. by rewrite Hfr, Ht, Hk, Hb.
    + left. by split_and!.
    + intros j Hj. apply Hother. intros ->. by apply Hj.
    + apply Hok.
Qed.

Lemma new_frame_fields i m' (pin : bool) s :
  let s' := with_new_frame i m' pin s in
  frames s' = <[next_ptr s := Frame (pool_page s i) None (if pin then 1 else 0) false]> (frames s)
  ∧ spages s' = spages s ∧ mm s' = m'.
Proof. done. Qed.

Lemma in_frame_fields p q x i m' pin s :
  let s2 := in_frame p q x i m' pin s in
  frames s2 = <[next_ptr s := x]> (frames s) ∧ frame_table s2 = frame_table s ++ [next_ptr s]
  ∧ pool s2 = <[i := true]> (pool s) ∧ pool_base s2 = pool_base s ∧ next_ptr s2 = next_ptr s + 1 ∧ cur_pd s2 = cur_pd s
  ∧ mm s2 = m' ∧ frame_lock s2 = false.
Proof. done. Qed.

Lemma filled_fields sp r w fs s :
  let s3 := with_spages sp (with_ram r (with_swp w (with_files fs s))) in
  frames s3 = frames s ∧ frame_table s3 = frame_table s ∧ pool s3 = pool s ∧ pool_base s3 = pool_base s
  ∧ next_ptr s3 = next_ptr s ∧ cur_pd s3 = cur_pd s ∧ mm s3 = mm s ∧ frame_lock s3 = frame_lock s
  ∧ spages s3 = sp ∧ ram s3 = r ∧ swp s3 = w ∧ files s3 = fs.
Proof. done. Qed.

(** [page_to_new_frame] step by step. *)
Lemma page_to_new_frame_eq p q (pin : bool) s s1 s2 s3 i m' m2 q' :
  let x := Frame (pool_page s1 i) (Some p) (if pin then 1 else 0) false in
  spages s !! p = Some q → fr q = None → frame_create true pin s = Ok (next_ptr s1, with_new_frame i m' pin s1) →
  spages s1 !! p = Some q → s2 = in_frame p q x i m' pin s1 →
  page_fill p (set_fr (Some (next_ptr s1)) q) x s2 = Ok (tt, s3) →
  spages s3 !! p = Some q' → mm s3 = m' →
  pagedir_set_page (pd q') (vaddr q') (pool_page s1 i) (wr q') m' = Ok (true, m2) →
  page_to_new_frame p pin s = Ok (next_ptr s1, with_mm m2 s3).
Proof.
  intros x Hq Hfr Ec Hq1 -> Ef Hq3 Hm3 Es. destruct (new_frame_fields i m' pin s1) as (E1 & E2 & _).
  unfold page_to_new_frame, assert, upd_frame, upd_spage, get_spage, get_frame, on_mmu, mbind, st_bind, lift, ASSERT, deref, modify.
  rewrite Hq. run. rewrite Hfr. unfold mret, st_ret. run. rewrite Ec. run. rewrite E1, lookup_insert_eq. run.
  rewrite E2, Hq1. run. rewrite lookup_insert_eq. run. rewrite lookup_insert_eq. run. rewrite E1, E2, insert_insert_eq.
  unfold set_page. cbn [phys_addr pinned evicting]. fold x. unfold in_frame in Ef. rewrite Ef. run. rewrite Hq3. run. rewrite Hm3.
  cbn [phys_addr x]. rewrite Es. done.
Qed.

(** A page that is not in a frame has no other bytes than its data and zeros. *)
Lemma absent_bytes cs s p q :
  vm_ok dirs execs cs s → spages s !! p = Some q → fr q = None → page_bytes s cs q = put_bytes zero_bytes 0 (page_data s cs q).
Proof.
  intros Hok Hq Hfr. unfold page_data, page_bytes, data_len. rewrite Hfr. destruct (ptype q) eqn:Ht.
  - destruct (vo_page _ _ _ _ Hok p q Hq) as (_ & _ & _ & _ & Hfile). destruct (Hfile Ht) as (n & c & Hn & Hc & _ & Ho & Hby & Hle).
    assert (Hl : length (file_slice s cs q) = Z.to_nat (bytes q)).
    { unfold file_slice. rewrite Hn, Hc. cbn [default from_option id]. rewrite length_take, length_drop. destruct Hle; lia. }
    f_equal. unfold put_bytes. rewrite take_0, app_nil_l. by rewrite take_app_length'.
  - destruct (ab_slot _ _ (vo_absent _ _ _ _ Hok p q Hq Hfr) Ht) as (k & Hk & [b Hb]). rewrite Hk, Hb. cbn [default from_option id].
    destruct (stored_slot (swp s) k b Hb) as [Hkl ->].
    destruct (slot_bytes_page (swp s) k) as [Hlen _]; [apply Hok|done|].
    rewrite take_ge by lia. symmetry. apply put_bytes_all. rewrite Hlen. unfold zero_bytes. apply length_replicate.
Qed.

Lemma page_to_new_frame_spec cs s p q (pin : bool) :
  vm_ok dirs execs cs s → frame_lock s = false → malloc_ok s (next_ptr s) = true → room s → pages (mm s) ≠ [] →
  spages s !! p = Some q → fr q = None → (wr q = true → fil q ∈ execs → fil q = cur_file s) →
  ∃ f s' cs' q' x, page_to_new_frame p pin s = Ok (f, s') ∧ vm_ok dirs execs cs' s' ∧ frame_lock s' = false
    ∧ spages s' !! p = Some q' ∧ fr q' = Some f ∧ frames s' !! f = Some x
    ∧ mapping (mm s') (pd q) (vaddr q) = Some (phys_addr x, wr q)
    ∧ page_bytes s' cs' q' = page_bytes s cs q
    ∧ kept_but p cs s cs' s'.
Proof.
  intros Hok Hl Hma Hroom Hpg Hq Hfr Hex.
  destruct (frame_create_spec cs s pin Hok Hl Hma Hroom) as (s1 & cs1 & i & m' & Hok1 & Hkept & Hi & Em & Ec & Habs & Ecf & Epg & _).
  pose proof (Habs p q Hq Hfr) as Hq1. rewrite <- Ecf in Hex. rewrite <- Epg in Hpg.
  pose (x := Frame (pool_page s1 i) (Some p) (if pin then 1 else 0) false).
  remember (in_frame p q x i m' pin s1) as s2 eqn:Hs2.
  destruct (fill_page cs1 s1 s2 p q i pin m' Hok1 Hi Hq1 Hfr Hex Hs2)
    as (w' & fs' & q' & b & Ef & Hbp & Hdata & (Q1 & Q2 & Q3 & Q4) & Hkind & Hsw & Hrep & Hino).
  destruct (map_new_page cs1 s1 i m' p q Hok1 Hi Hq1 Hfr Hpg Em) as (m2 & Es & Hm2 & Hrg & Hhere & Helse).
  destruct (in_frame_fields p q x i m' pin s1) as (F1 & F2 & F3 & F4 & F5 & F6 & F7 & F8). rewrite <- Hs2 in F1, F2, F3, F4, F5, F6, F7, F8.
  remember (with_spages (<[p := q']> (spages s1)) (with_ram (<[pool_page s1 i := b]> (ram s1)) (with_swp w' (with_files fs' s2)))) as s3 eqn:Hs3.
  destruct (filled_fields (<[p := q']> (spages s1)) (<[pool_page s1 i := b]> (ram s1)) w' fs' s2)
    as (G1 & G2 & G3 & G4 & G5 & G6 & G7 & G8 & G9 & G10 & G11 & G12).
  rewrite <- Hs3 in G1, G2, G3, G4, G5, G6, G7, G8, G9, G10, G11, G12.
  assert (Hlo : loaded cs1 s1 (with_mm m2 s3) i pin p q q' b).
  { constructor; run; rewrite ?G1, ?G2, ?G3, ?G4, ?G5, ?G6, ?G9, ?G10, ?G11, ?G12, ?F1, ?F2, ?F3, ?F4, ?F5, ?F6; try done.
    by rewrite Hdata. }
  exists (next_ptr s1), (with_mm m2 s3), cs1, q', x. split.
  { apply (page_to_new_frame_eq p q pin s s1 s2 s3 i m' m2 q'); try done; [by rewrite G9, lookup_insert_eq|congruence|by rewrite Q2, Q3, Q4]. }
  split; [by apply (loaded_ok cs1 s1 (with_mm m2 s3) i pin p q q' b)|]. run.
  split; [by rewrite G8|]. split; [by rewrite G9, lookup_insert_eq|]. split; [done|]. split; [by rewrite G1, F1, lookup_insert_eq|].
  split; [apply Hhere|].
  assert (Hown : page_data s1 cs1 q = page_data s cs q).
  { destruct (Hkept p q Hq) as (q0 & Hq0 & _ & _ & _ & _ & _ & <-). by rewrite Hq1 in Hq0; injection Hq0 as <-. }
  split.
  { rewrite (loaded_own_bytes cs1 s1 (with_mm m2 s3) i pin p q q' b) by done.
    by rewrite Hdata, (absent_bytes cs1 s1 p q), (absent_bytes cs s p q), Hown. }
  intros p' r Hne Hr. destruct (Hkept p' r Hr) as (r1 & Hr1 & K1 & K2 & K3 & _ & K4 & K5). exists r1. run.
  split; [by rewrite G9, lookup_insert_ne|]. split_and!; try done. rewrite <- K5. unfold page_data.
  by rewrite (loaded_bytes cs1 s1 (with_mm m2 s3) i pin p q q' b Hok1 Hlo Hi Hq1 Hfr p' r1).
Qed.

(** What is needed to bring in page [p]: it is not in a frame, memory and page tables can be had, and a
    page of an executable that may be written belongs to the current process. *)
Record loadable cs s (p : Z) (q : supp_page) : Prop := {
  ld_ok : vm_ok dirs execs cs s;
  ld_lock : frame_lock s = false;
  ld_malloc : malloc_ok s (next_ptr s) = true;
  ld_room : room s;
  ld_pages : pages (mm s) ≠ [];
  ld_page : spages s !! p = Some q;
  ld_absent : fr q = None;
  ld_exec : wr q = true → fil q ∈ execs → fil q = cur_file s;
}.

End load.

(** ** A small machine *)

(** A process with one page of a file, nothing in memory, and a pool of [n] pages. *)
Definition code_page : supp_page := SuppPage None 0xC0100000 0x08048000 filesys false 50 0 3 None.

Definition small_vm (n : nat) : vm disk (gmap Z (list Z)) :=
  VM small_mmu small_swap {[50 := [1; 2; 3]]} (replicate n false) 0xC0300000 ∅ ∅ [] false {[7 := code_page]}
     {[1 := {[0x08048000 := 7]}]} 0xC0100000 1 50 10 (λ _, true).

Lemma small_vm_page p q : spages (small_vm 1) !! p = Some q → p = 7 ∧ q = code_page.
Proof. simpl. intros [<- <-]%lookup_singleton_Some. done. Qed.

Lemma small_vm_ok : vm_ok small_dirs {[50]} {[50 := [1; 2; 3]]} (small_vm 1).
Proof.
  constructor.
  - apply small_ok.
  - exact small_dir.
  - apply small_swap_ok.
  - done.
  - by vm_compute.
  - constructor.
  - intros f Hf. by apply elem_of_nil in Hf.
  - intros f x Hf. done.
  - intros p q [-> ->]%small_vm_page. split; [exact small_dir|]. split; [done|]. split; [by vm_compute|]. split; [done|].
    intros _. exists 50, [1; 2; 3]. split; [done|]. split; [done|].
    split; [repeat constructor; unfold_ints; lia|]. split; [by vm_compute|]. split; [by vm_compute|by right].
  - intros p q f [-> ->]%small_vm_page. done.
  - intros p q [-> ->]%small_vm_page _. constructor; [by vm_compute|done].
  - intros p p' q q' [-> ->]%small_vm_page [-> ->]%small_vm_page. done.
  - intros f f' x x' Hf. done.
  - intros p p' q q' i [-> ->]%small_vm_page [-> ->]%small_vm_page. done.
  - intros p p' q q' i [-> ->]%small_vm_page [-> ->]%small_vm_page. done.
  - intros p Hp. cbn [next_ptr small_vm] in Hp. split; [apply lookup_empty|]. apply lookup_singleton_ne. lia.
Qed.

Lemma small_loadable : loadable small_dirs {[50]} {[50 := [1; 2; 3]]} (small_vm 1) 7 code_page.
Proof.
  constructor; try done; [apply small_vm_ok|]. left. by exists 0%nat.
Qed.


(** ** Two processes *)

(** Process [n] runs. *)
Definition switch (pd table file : Z) : ST (vm disk (gmap Z (list Z))) unit := λ s,
  Ok (tt, VM (mm s) (swp s) (files s) (pool s) (pool_base s) (ram s) (frames s) (frame_table s) (frame_lock s) (spages s)
            (supp_tables s) pd table file (next_ptr s) (malloc_ok s)).
Definition proc_A := switch 0xC0100000 1 50.
Definition proc_B := switch 0xC0110000 2 51.

(** The process writes byte [x] all over its page [p], which is in a frame. *)
Definition write_page (p x : Z) : ST (vm disk (gmap Z (list Z))) unit :=
  spg ← get_spage p;
  f ← lift (deref (fr spg));
  fr ← get_frame f;
  set_ram (phys_addr fr) (replicate (Z.to_nat PGSIZE) x).

(** The first byte of page [p], which is in a frame. *)
Definition read_page (p : Z) : ST (vm disk (gmap Z (list Z))) Z :=
  spg ← get_spage p;
  f ← lift (deref (fr spg));
  fr ← get_frame f;
  b ← get_ram (phys_addr fr);
  lift (deref (b !! 0%nat)).

Definition two_vm : vm disk (gmap Z (list Z)) :=
  VM (MMU {[0xC0100000 := zero_page; 0xC0110000 := zero_page; 0xC0200000 := zero_page]}
          [0xC0101000; 0xC0102000; 0xC0103000; 0xC0104000] 0xC0200000 1024 0x200000)
     (init_swap_table (Block BLOCK_SWAP 32 (Disk 32 ∅) 0 0)) ∅ [false; false] 0xC0300000 ∅ ∅ [] false ∅ {[1 := ∅; 2 := ∅]} 0xC0100000 1 50 10 (λ _, true).

Definition result_of {A} (m : ST (vm disk (gmap Z (list Z))) A) s : result A :=
  match m s with Ok (x, _) => Ok x | Err e => Err e end.

(** Page c of process B is written and evicted; process A, whose page was in that slot before,
    exits or not; B goes on and reads page c. *)
Definition stale_run (exit : bool) : ST (vm disk (gmap Z (list Z))) Z :=
  proc_A;; grow_stack 0xBFFFF000;;
  proc_B;; grow_stack 0xBFFFF000;; c ← grow_stack 0xBFFFE000; write_page c 7;;
  proc_A;; page_fault 0xBFFFF000 4 0xBFFFF000;;
  proc_B;; d ← grow_stack 0xBFFFD000; write_page d 9;;
  (if exit then proc_A;; free_supp_page_table 1 (λ t, snd <$> map_to_list t) else mret tt);;
  proc_B;; page_fault 0xBFFFF000 4 0xBFFFD000;; grow_stack 0xBFFFC000;;
  page_fault 0xBFFFE000 4 0xBFFFC000;;
  read_page c.


