(* ===== verification/Elf.v ===== *)
(** * userprog/process.c: loading executables

    [load] reads the headers of an ELF file and makes a supplemental page for each page of each
    segment; nothing of a segment is read until there is a page fault ([Vm]).  The state is that of
    [Vm]; the files are its class, with the calls of filesys.h and file.h that [load] uses.  A
    header is what its bytes say; a file position is passed on instead of kept in the file.
    [create_filesys_page] does not return a null pointer, so that this branch of
    [load_segment] is left out, as are the messages. *)

From S2P Require Import Prelude Bytes Vaddr Block Pagedir Swap Vm.

(** Opening by name, and the rest of what [load] does with files. *)
Class FileCalls (F : Type) : Type := {
  filesys_open : Z → ST F (option Z);
  file_length : Z → F → Z;
  file_deny_write : Z → ST F unit;
  file_close : Z → ST F unit;
}.

(** Files in memory, named by their address. *)
#[export] Instance flat_calls : FileCalls (gmap Z (list Z)) := {|
  filesys_open name := λ s, Ok (match s !! name with Some _ => Some name | None => None end, s);
  file_length f s := match s !! f with Some c => Z.of_nat (length c) | None => 0 end;
  file_deny_write f := mret tt;
  file_close f := mret tt;
|}.

(** ** Headers *)

Record Elf32_Ehdr : Type := Ehdr {
  e_ident : list Z;
  e_type : Z;
  e_machine : Z;
  e_version : Z;
  e_entry : Z;
  e_phoff : Z;
  e_phentsize : Z;
  e_phnum : Z;
}.

Record Elf32_Phdr : Type := Phdr {
  p_type : Z;
  p_offset : Z;
  p_vaddr : Z;
  p_filesz : Z;
  p_memsz : Z;
  p_flags : Z;
}.

Definition EHDR_SIZE : Z := 52.
Definition PHDR_SIZE : Z := 32.

Definition ehdr_of (b : list Z) : Elf32_Ehdr :=
  Ehdr (take 16 b) (get16 b 16) (get16 b 18) (get32 b 20) (get32 b 24) (get32 b 28) (get16 b 42) (get16 b 44).

Definition phdr_of (b : list Z) : Elf32_Phdr :=
  Phdr (get32 b 0) (get32 b 4) (get32 b 8) (get32 b 16) (get32 b 20) (get32 b 24).

Definition PT_LOAD : Z := 1.
Definition PT_DYNAMIC : Z := 2.
Definition PT_INTERP : Z := 3.
Definition PT_SHLIB : Z := 5.
Definition PF_W : Z := 2.

Definition ROUND_UP (x step : Z) : Z := u32 (u32 (x + step - 1) / step * step).

(** "\177ELF\1\1\1", an executable for the 80386 with at most 1024 program headers. *)
Definition valid_ehdr (e : Elf32_Ehdr) : bool :=
  bool_decide (take 7 (e_ident e) = [127; 69; 76; 70; 1; 1; 1]) && (e_type e =? 2) && (e_machine e =? 3)
  && (e_version e =? 1) && (e_phentsize e =? PHDR_SIZE) && (e_phnum e <=? 1024).

Definition validate_segment (phdr : Elf32_Phdr) (length : Z) : bool :=
  if negb (Z.land (p_offset phdr) PGMASK =? Z.land (p_vaddr phdr) PGMASK) then false
  else if u32 length <? p_offset phdr then false
  else if p_memsz phdr <? p_filesz phdr then false
  else if p_memsz phdr =? 0 then false
  else if negb (is_user_vaddr (p_vaddr phdr)) then false
  else if negb (is_user_vaddr (u32 (p_vaddr phdr + p_memsz phdr))) then false
  else if u32 (p_vaddr phdr + p_memsz phdr) <? p_vaddr phdr then false
  else if p_vaddr phdr <? PGSIZE then false
  else true.

(** What [load] computes for [load_segment]: [file_page], [mem_page], [read_bytes], [zero_bytes]. *)
Record segment : Type := Segment {
  file_page : Z;
  mem_page : Z;
  read_bytes : Z;
  zero_bytes : Z;
  writable : bool;
}.

Definition segment_of (phdr : Elf32_Phdr) : segment :=
  let mask := Z.lxor (2 ^ 32 - 1) PGMASK in
  let page_offset := Z.land (p_vaddr phdr) PGMASK in
  let '(read_bytes, zero_bytes) :=
    if 0 <? p_filesz phdr then
      let read_bytes := u32 (page_offset + p_filesz phdr) in
      (read_bytes, u32 (ROUND_UP (u32 (page_offset + p_memsz phdr)) PGSIZE - read_bytes))
    else (0, ROUND_UP (u32 (page_offset + p_memsz phdr)) PGSIZE) in
  Segment (Z.land (p_offset phdr) mask) (Z.land (p_vaddr phdr) mask) read_bytes zero_bytes
    (negb (Z.land (p_flags phdr) PF_W =? 0)).

(** ** load *)

Section code.
Context {D F : Type} {drv : BlockDriver D} {fst : FileStore F} {calls : FileCalls F}.
Abbreviation M := (ST (vm D F)).

Definition set_cur_pd (pd : Z) (s : vm D F) : vm D F :=
  VM (mm s) (swp s) (files s) (pool s) (pool_base s) (ram s) (frames s) (frame_table s) (frame_lock s) (spages s) (supp_tables s) pd (cur_table s) (cur_file s) (next_ptr s) (malloc_ok s).
Definition set_cur_file (f : Z) (s : vm D F) : vm D F :=
  VM (mm s) (swp s) (files s) (pool s) (pool_base s) (ram s) (frames s) (frame_table s) (frame_lock s) (spages s) (supp_tables s) (cur_pd s) (cur_table s) f (next_ptr s) (malloc_ok s).

(** One turn for each page. *)
Fixpoint segment_loop (fuel : nat) (file upage read_bytes zero_bytes total_ofs : Z) (writable : bool) : M bool :=
  if (0 <? read_bytes) || (0 <? zero_bytes) then
    match fuel with
    | O => fail OutOfFuel
    | S fuel =>
        let page_read_bytes := if read_bytes <? PGSIZE then read_bytes else PGSIZE in
        let page_zero_bytes := PGSIZE - page_read_bytes in
        s ← gets id;
        create_filesys_page (cur_table s) upage (cur_pd s) None file total_ofs page_read_bytes writable;;
        segment_loop fuel file (u32 (upage + PGSIZE)) (u32 (read_bytes - page_read_bytes)) (u32 (zero_bytes - page_zero_bytes))
          (i32 (total_ofs + PGSIZE)) writable
    end
  else mret true.

Definition load_segment (file : Z) (sg : segment) : M bool :=
  assert (u32 (read_bytes sg + zero_bytes sg) mod PGSIZE =? 0);;
  assert (pg_ofs (mem_page sg) =? 0);;
  assert (file_page sg mod PGSIZE =? 0);;
  segment_loop (Z.to_nat (2 ^ 32 / PGSIZE)) file (mem_page sg) (read_bytes sg) (zero_bytes sg) (i32 (file_page sg)) (writable sg).

(** The stack pointer, if there is a stack. *)
Definition setup_stack : M (option Z) :=
  let upage := PHYS_BASE - PGSIZE in
  new_fr ← frame_create true false;
  s ← gets id;
  p ← create_swapslot_page (cur_table s) upage (cur_pd s) (Some new_fr) true;
  upd_frame new_fr (set_page (Some p));;
  x ← get_frame new_fr;
  success ← install_page upage (phys_addr x) true;
  if success : bool then mret (Some (PHYS_BASE - 1)) else frame_free (Some new_fr);; mret None.

Definition file_length_now (file : Z) : M Z := gets (λ s, file_length file (files s)).

(** The program headers from [file_ofs] on; false for [goto done]. *)
Fixpoint phdr_loop (n : nat) (file file_ofs : Z) : M bool :=
  match n with
  | O => mret true
  | S n =>
      length ← file_length_now file;
      if (file_ofs <? 0) || (length <? file_ofs) then mret false
      else
        b ← on_files (file_read_at file PHDR_SIZE file_ofs);
        if negb (Z.of_nat (List.length b) =? PHDR_SIZE) then mret false
        else
          let phdr := phdr_of b in
          let next := i32 (file_ofs + PHDR_SIZE) in
          if (p_type phdr =? PT_DYNAMIC) || (p_type phdr =? PT_INTERP) || (p_type phdr =? PT_SHLIB) then mret false
          else if p_type phdr =? PT_LOAD then
            if validate_segment phdr length then
              ok ← load_segment file (segment_of phdr);
              if ok : bool then phdr_loop n file next else mret false
            else mret false
          else phdr_loop n file next
  end.

(** From the open file to the entry point and the stack pointer. *)
Definition load_file (file : Z) : M (option (Z * Z)) :=
  on_files (file_deny_write file);;
  b ← on_files (file_read_at file EHDR_SIZE 0);
  let ehdr := ehdr_of b in
  if negb (Z.of_nat (List.length b) =? EHDR_SIZE) || negb (valid_ehdr ehdr) then mret None
  else
    ok ← phdr_loop (Z.to_nat (e_phnum ehdr)) file (i32 (e_phoff ehdr));
    if ok : bool then
      esp ← setup_stack;
      match esp with Some esp => mret (Some (e_entry ehdr, esp)) | None => mret None end
    else mret None.

Definition load (name : Z) : M (option (Z * Z)) :=
  pd ← on_mmu pagedir_create;
  match pd with
  | None => modify (set_cur_pd 0);; mret None
  | Some pd =>
      modify (set_cur_pd pd);;
      on_mmu (pagedir_activate (Some pd));;
      file ← on_files (filesys_open name);
      match file with
      | None => mret None
      | Some file =>
          r ← load_file file;
          match r with
          | Some _ => modify (set_cur_file file);; mret r
          | None => on_files (file_close file);; mret None
          end
      end
  end.
End code.
