(* ===== verification/ElfThms.v ===== *)
(** * userprog/process.c: theorems about loading

    A segment that [validate_segment] accepts and whose file part is in the file becomes pages that
    hold its bytes and zeros, without a page being read: [load_segment_correct].  The page
    fault handler then brings them in ([VmThms.page_fault_transparent]).  What the checks
    of [load] let through: [load_failures]. *)

From S2P Require Import Prelude Bytes Vaddr Block Pagedir Swap Vm VmVictim VmOps VmThms Elf.

Lemma bind_st {S A B} (m : ST S A) (f : A → ST S B) s a s' : m s = Ok (a, s') → (m ≫= f) s = f a s'.
Proof. intros E. unfold mbind, st_bind. by rewrite E. Qed.

(** ** Segments *)

Lemma land_mask x : is_u32 x → Z.land x (Z.lxor (2 ^ 32 - 1) PGMASK) = PGSIZE * (x / PGSIZE).
Proof. apply pg_round_down_eq. Qed.

Lemma land_pgmask x : Z.land x PGMASK = x mod PGSIZE.
Proof. apply pg_ofs_mod. Qed.

Lemma round_up x : 0 ≤ x → x + PGSIZE - 1 < 2 ^ 32 → ROUND_UP x PGSIZE = PGSIZE * ((x + PGSIZE - 1) / PGSIZE).
Proof.
  unfold ROUND_UP, PGSIZE. intros H1 H2. rewrite (u32_small (x + 4096 - 1)) by (unfold_ints; lia).
  pose proof (Z.div_mod (x + 4096 - 1) 4096). pose proof (Z.mod_pos_bound (x + 4096 - 1) 4096).
  rewrite u32_small by (unfold_ints; lia). lia.
Qed.

(** The members of a program header. *)
Definition phdr_ok (p : Elf32_Phdr) : Prop :=
  is_u32 (p_offset p) ∧ is_u32 (p_vaddr p) ∧ is_u32 (p_filesz p) ∧ is_u32 (p_memsz p).

Lemma validate_spec p length :
  phdr_ok p → 0 ≤ length < 2 ^ 31 → validate_segment p length = true →
  p_offset p mod PGSIZE = p_vaddr p mod PGSIZE ∧ p_offset p ≤ length ∧ p_filesz p ≤ p_memsz p ∧ 0 < p_memsz p
  ∧ PGSIZE ≤ p_vaddr p ∧ p_vaddr p + p_memsz p < PHYS_BASE.
Proof.
  intros (H1 & H2 & H3 & H4) Hl. unfold validate_segment. rewrite !land_pgmask.
  rewrite (u32_small length) by (unfold_ints; lia). unfold is_user_vaddr.
  repeat match goal with
  | |- (if negb ?b then _ else _) = _ → _ => destruct b eqn:?; cbn [negb]; [|done]
  | |- (if ?b then _ else _) = _ → _ => destruct b eqn:?; [done|]
  end. intros _. bools. unfold PHYS_BASE in *. unfold_ints.
  assert (Hw : u32 (p_vaddr p + p_memsz p) = p_vaddr p + p_memsz p).
  { unfold u32 in *. destruct (Z.ltb_spec (p_vaddr p + p_memsz p) (2 ^ 32)); [apply Z.mod_small; lia|].
    assert (E : (p_vaddr p + p_memsz p) mod 2 ^ 32 = p_vaddr p + p_memsz p - 2 ^ 32).
    { symmetry. apply (Z.mod_unique _ _ 1); lia. }
    rewrite E in *. lia. }
  rewrite Hw in *. lia.
Qed.

(** What [load] passes to [load_segment]: whole pages of user space, nothing of which wraps around. *)
Lemma segment_spec p length :
  phdr_ok p → 0 ≤ length < 2 ^ 31 → validate_segment p length = true →
  let sg := segment_of p in
  let ofs := p_vaddr p mod PGSIZE in
  mem_page sg = p_vaddr p - ofs ∧ file_page sg = p_offset p - ofs ∧ mem_page sg mod PGSIZE = 0 ∧ file_page sg mod PGSIZE = 0
  ∧ 0 ≤ file_page sg ≤ length
  ∧ read_bytes sg = (if 0 <? p_filesz p then ofs + p_filesz p else 0) ∧ 0 ≤ read_bytes sg ∧ 0 ≤ zero_bytes sg
  ∧ (read_bytes sg + zero_bytes sg) mod PGSIZE = 0 ∧ PGSIZE ≤ mem_page sg
  ∧ p_vaddr p + p_memsz p ≤ mem_page sg + (read_bytes sg + zero_bytes sg) ≤ PHYS_BASE
  ∧ mem_page sg + (read_bytes sg + zero_bytes sg) < p_vaddr p + p_memsz p + PGSIZE.
Proof.
  intros Hp Hl Hv. destruct (validate_spec p length Hp Hl Hv) as (V1 & V2 & V3 & V4 & V5 & V6). destruct Hp as (H1 & H2 & H3 & H4).
  unfold_ints. set (o := p_vaddr p mod PGSIZE) in *. cbn zeta.
  pose proof (Z.mod_pos_bound (p_vaddr p) PGSIZE ltac:(done)) as Ho. fold o in Ho.
  pose proof (Z.div_mod (p_vaddr p) PGSIZE ltac:(done)) as Dv. pose proof (Z.div_mod (p_offset p) PGSIZE ltac:(done)) as Do.
  fold o in Dv. rewrite V1 in Do. fold o in Do.
  assert (Hr : ROUND_UP (u32 (o + p_memsz p)) PGSIZE = PGSIZE * ((o + p_memsz p + PGSIZE - 1) / PGSIZE)).
  { unfold PGSIZE, PHYS_BASE in *. rewrite u32_small by (unfold_ints; lia). apply round_up; unfold PGSIZE; lia. }
  pose proof (Z.div_mod (o + p_memsz p + PGSIZE - 1) PGSIZE ltac:(done)) as Dr.
  pose proof (Z.mod_pos_bound (o + p_memsz p + PGSIZE - 1) PGSIZE ltac:(done)) as Mr.
  set (n := (o + p_memsz p + PGSIZE - 1) / PGSIZE) in *.
  set (k := p_vaddr p / PGSIZE) in *. set (j := p_offset p / PGSIZE) in *.
  assert (Hn : PGSIZE * k + PGSIZE * n ≤ PHYS_BASE).
  { change PHYS_BASE with (PGSIZE * 786432) in *. unfold PGSIZE in *. lia. }
  unfold segment_of. rewrite !land_mask, land_pgmask by done. fold o k j. rewrite Hr.
  assert (Hz : u32 (o + p_filesz p) = o + p_filesz p) by (apply u32_small; unfold PGSIZE, PHYS_BASE in *; unfold_ints; lia).
  rewrite Hz, (u32_small (PGSIZE * n - (o + p_filesz p))) by (unfold PGSIZE, PHYS_BASE in *; unfold_ints; lia).
  assert (Hm : ∀ x, (PGSIZE * x) mod PGSIZE = 0) by (intros x; rewrite Z.mul_comm; by apply Z_mod_mult).
  destruct (0 <? p_filesz p); cbn [file_page mem_page read_bytes zero_bytes]; rewrite ?Hm;
    (split; [lia|]; split; [lia|]; split; [done|]; split; [done|]; split; [unfold PGSIZE in *; lia|]; split; [done|];
     split; [unfold PGSIZE in *; lia|]; split; [unfold PGSIZE in *; lia|]; split;
     [first [by rewrite Zplus_minus, Hm|by rewrite Z.add_0_l, Hm]|unfold PGSIZE in *; lia]).
Qed.

(** ** One page *)

Section load.
Context {D F : Type} {drv : BlockDriver D} {laws : BlockDriverLaws D} {fst : FileStore F} {flaws : FileStoreLaws F} {calls : FileCalls F}.
Context (dirs execs : gset Z).
Implicit Types s : vm D F.

(** The executable: an open file with contents [c] that nobody may write, and no other page is written back to
    it; memory for supplemental pages can be had. *)
Record image cs s (file i : Z) (c : list Z) : Prop := {
  im_ok : vm_ok dirs execs cs s;
  im_pd : cur_pd s ≠ init_page_dir (mm s);
  im_open : file ≠ 0 ∧ file ∈ execs ∧ file_inode (files s) file = Some i ∧ cs !! i = Some c ∧ Forall is_u8 c;
  im_shared p q : spages s !! p = Some q → shared execs q → file_inode (files s) (fil q) ≠ Some i;
  im_malloc p : malloc_ok s p = true;
  im_table : is_Some (supp_tables s !! cur_table s);
}.

(** Nothing is at user page [va] yet. *)
Record vacant s (va : Z) : Prop := {
  va_table t : supp_tables s !! cur_table s = Some t → t !! va = None;
  va_page p q : spages s !! p = Some q → pd q = cur_pd s → vaddr q ≠ va;
  va_map : mapping (mm s) (cur_pd s) va = None;
}.

(** What a new page of a file at [va] changes. *)
Record added s s' (va : Z) (q : supp_page) : Prop := {
  ad_spages : spages s' = <[next_ptr s := q]> (spages s);
  ad_table : ∃ t, supp_tables s !! cur_table s = Some t ∧ supp_tables s' = <[cur_table s := <[va := next_ptr s]> t]> (supp_tables s);
  ad_mmu : init_page_dir (mm s') = init_page_dir (mm s)
    ∧ ∀ d u, d ∈ dirs → is_u32 u → mapping (mm s') d u = mapping (mm s) d u;
  ad_cur : cur_pd s' = cur_pd s ∧ cur_table s' = cur_table s ∧ next_ptr s' = next_ptr s + 1 ∧ malloc_ok s' = malloc_ok s;
  ad_rest : frames s' = frames s ∧ ram s' = ram s ∧ swp s' = swp s ∧ files s' = files s;
}.

Lemma added_bytes cs s s' va q r : added s s' va q → page_bytes s' cs r = page_bytes s cs r.
Proof. intros [_ _ _ _ (E1 & E2 & E3 & E4)]. unfold page_bytes, file_slice. by rewrite E1, E2, E3, E4. Qed.

(** A new page keeps the invariant if its part of the file is there and no writable page of the same
    file overlaps it. *)
Lemma add_page_spec cs s file va ofs n wr :
  vm_ok dirs execs cs s → cur_pd s ≠ init_page_dir (mm s) → file ≠ 0 → malloc_ok s (next_ptr s) = true →
  is_Some (supp_tables s !! cur_table s) → vacant s va → 0 ≤ va < PHYS_BASE → va mod PGSIZE = 0 →
  let q := SuppPage None (cur_pd s) va filesys wr file ofs n None in
  file_ok s cs q →
  (∀ p r k, spages s !! p = Some r → ptype r = filesys → file_inode (files s) (fil r) = Some k →
    file_inode (files s) file = Some k → shared execs r ∨ shared execs q → offset r + bytes r ≤ ofs ∨ ofs + n ≤ offset r) →
  ∃ s', create_filesys_page (cur_table s) va (cur_pd s) None file ofs n wr s = Ok (next_ptr s, s')
    ∧ added s s' va q ∧ vm_ok dirs execs cs s'.
Proof.
  intros Hok Hpd Hf0 Hma [t Ht] [Vt Vp Vm] Hva Ha q Hfile Hsh.
  assert (Hva32 : is_u32 va) by (unfold PHYS_BASE in *; unfold_ints; lia).
  destruct (set_flag_view dirs (mm s) (cur_pd s) va 6 false (vo_mmu _ _ _ _ Hok) (vo_cur _ _ _ _ Hok) Hva32 ltac:(lia))
    as (m' & E & Hm' & (R1 & R2 & R3) & Hpg & Hv). change (set_flag (2 ^ 6)) with pagedir_set_dirty in E.
  set (s' := with_spages (<[next_ptr s := q]> (spages s)) (with_supp_tables (<[cur_table s := <[va := next_ptr s]> t]> (supp_tables s))
    (with_mm m' (with_next_ptr (next_ptr s + 1) s)))).
  assert (Had : added s s' va q).
  { constructor; try done; [by exists t|]. split; [done|]. intros d u Hd Hu. by apply Hv. }
  assert (Hnew : spages s !! next_ptr s = None) by (apply (vo_ptr _ _ _ _ Hok); lia).
  assert (Hfl : ∀ p r, spages s !! p = Some r → flag m' (pd r) (vaddr r) 6 = flag (mm s) (pd r) (vaddr r) 6).
  { intros p r Hr. destruct (vo_page _ _ _ _ Hok p r Hr) as (P1 & _ & P3 & P4 & _).
    assert (Hr32 : is_u32 (vaddr r)) by (unfold PHYS_BASE in *; unfold_ints; lia).
    destruct (Hv (pd r) (vaddr r) P1 Hr32) as [_ Hj]. rewrite (Hj 6) by lia.
    destruct (same_entry (cur_pd s) va (pd r) (vaddr r)) eqn:Es; [|done]. exfalso. unfold same_entry, same_page in Es.
    apply andb_prop in Es as [Es1 Es2]. apply Z.eqb_eq in Es1. apply (Vp p r Hr).
    - apply orb_prop in Es2 as [Es2|Es2]; bools; [done|lia].
    - rewrite (Z.div_mod (vaddr r) PGSIZE), (Z.div_mod va PGSIZE) by done. by rewrite Es1, P4, Ha. }
  exists s'. split; [|split; [done|]].
  { unfold create_filesys_page, allocate_supp_page, get_supp_page, malloc, on_mmu, assert, lift, ASSERT, deref, modify, gets, mbind, st_bind, mret, st_ret.
    run. rewrite (proj2 (Z.eqb_neq _ _) Hf0). run. rewrite (user_vaddr va Hva). run. rewrite pg_ofs_mod, Ha, Z.eqb_refl. run. rewrite Ht. run.
    rewrite (Vt t Ht). run. rewrite bool_decide_true by done. run. rewrite Hma. run. rewrite E. run. rewrite Ht. run. done. }
  constructor; try done; try apply Hok; unfold s'; run.
  - rewrite R2. apply Hok.
  - intros f x Hx. destruct (vo_frame _ _ _ _ Hok f x Hx) as (p & r & Hp & Hr & Hfr). exists p, r. split; [done|]. split; [|done].
    rewrite lookup_insert_ne; [done|]. intros <-. congruence.
  - intros p r [[<- <-]|[Hne Hr]]%lookup_insert_Some.
    + split; [apply Hok|]. split; [by rewrite R1|]. split; [done|]. split; [done|]. done.
    + rewrite R1. by apply (vo_page _ _ _ _ Hok p).
  - intros p r f [[<- <-]|[Hne Hr]]%lookup_insert_Some Hfr; [done|]. destruct (vo_resident _ _ _ _ Hok p r f Hr Hfr) as (x & k & Hre).
    exists x, k. destruct (vo_page _ _ _ _ Hok p r Hr) as (P1 & _ & P3 & _).
    assert (Hm : mapping m' (pd r) (vaddr r) = mapping (mm s) (pd r) (vaddr r)) by (apply Hv; [done|unfold PHYS_BASE in *; unfold_ints; lia]).
    destruct Hre as [A1 A2 A3 A4 A5 A6 A7 A8 A9 A10]. constructor; run; rewrite ?Hm, ?(Hfl p r Hr); done.
  - intros p r [[<- <-]|[Hne Hr]]%lookup_insert_Some Hfr.
    + constructor; [|done]. change (mapping m' (cur_pd s) va = None). destruct (Hv (cur_pd s) va) as [-> _]; [apply Hok|done|done].
    + destruct (vo_absent _ _ _ _ Hok p r Hr Hfr) as [A1 A2]. destruct (vo_page _ _ _ _ Hok p r Hr) as (P1 & _ & P3 & _).
      constructor; [|done]. run. destruct (Hv (pd r) (vaddr r)) as [-> _]; [done|unfold PHYS_BASE in *; unfold_ints; lia|done].
  - assert (Hsep : ∀ p r, spages s !! p = Some r → same_entry (pd r) (vaddr r) (cur_pd s) va = false ∧ same_entry (cur_pd s) va (pd r) (vaddr r) = false).
    { intros p r Hr. destruct (vo_page _ _ _ _ Hok p r Hr) as (P1 & _ & P3 & P4 & _).
      assert (Hne : same_page (vaddr r) va = true ∨ same_page va (vaddr r) = true → vaddr r = va).
      { unfold same_page. intros [Eq|Eq]; apply Z.eqb_eq in Eq; rewrite (Z.div_mod (vaddr r) PGSIZE), (Z.div_mod va PGSIZE), P4, Ha by done; lia. }
      assert (Hpdv : pd r = cur_pd s → vaddr r ≠ va) by (intros; by eapply Vp).
      unfold same_entry. rewrite (proj2 (Z.leb_gt PHYS_BASE (vaddr r))), (proj2 (Z.leb_gt PHYS_BASE va)), !orb_false_r by lia.
      split; apply andb_false_iff.
      * destruct (same_page (vaddr r) va) eqn:Es; [right|by left]. apply Z.eqb_neq. intros Eq. apply Hpdv; auto.
      * destruct (same_page va (vaddr r)) eqn:Es; [right|by left]. apply Z.eqb_neq. intros Eq. apply Hpdv; auto. }
    intros p p' r r' [[<- <-]|[Hne Hr]]%lookup_insert_Some [[<- <-]|[Hne' Hr']]%lookup_insert_Some Hpp; try done.
    + by apply (Hsep p').
    + by apply (Hsep p).
    + by apply (vo_sep _ _ _ _ Hok p p').
  - intros p p' r r' k [[<- <-]|[Hne Hr]]%lookup_insert_Some [[<- <-]|[Hne' Hr']]%lookup_insert_Some; try done. by apply (vo_slots _ _ _ _ Hok).
  - intros p p' r r' k [[<- <-]|[Hne Hr]]%lookup_insert_Some [[<- <-]|[Hne' Hr']]%lookup_insert_Some Hpp Hs Hty; try done.
    + intros Hk Hk'. destruct (Hsh p' r' k Hr' Hty Hk' Hk (or_intror Hs)); [by right|by left].
    + intros Hk Hk'. exact (Hsh p r k Hr (proj1 Hs) Hk Hk' (or_introl Hs)).
    + by apply (vo_shared _ _ _ _ Hok p p').
  - intros p Hp. destruct (vo_ptr _ _ _ _ Hok p) as [H1 H2]; [lia|]. split; [done|]. rewrite lookup_insert_ne by lia. done.
Qed.

Lemma create_filesys_page_spec cs s file i c va ofs n wr :
  image cs s file i c → vacant s va → 0 ≤ va < PHYS_BASE → va mod PGSIZE = 0 →
  0 ≤ ofs → 0 ≤ n ≤ PGSIZE → (n = 0 ∨ ofs + n ≤ Z.of_nat (length c)) →
  let q := SuppPage None (cur_pd s) va filesys wr file ofs n None in
  ∃ s', create_filesys_page (cur_table s) va (cur_pd s) None file ofs n wr s = Ok (next_ptr s, s')
    ∧ added s s' va q ∧ image cs s' file i c.
Proof.
  intros [Hok Hpd (Hf0 & Hfe & Hi & Hc & Hcu) Hsh Hma Ht] Hvac Hva Ha Ho Hn Hle q.
  destruct (add_page_spec cs s file va ofs n wr Hok Hpd Hf0 (Hma _) Ht Hvac Hva Ha) as (s' & E & Had & Hok').
  { by exists i, c. }
  { intros p r k Hr Hty Hk Hk' [Hs|Hs]; [|by destruct Hs as (_ & _ & [])].
    exfalso. apply (Hsh p r Hr Hs). congruence. }
  exists s'. split; [done|]. split; [done|]. pose proof Had as [A1 (t & A2 & A3) (A4 & _) (A5 & A6 & A7 & A8) (A9 & A10 & A11 & A12)].
  constructor; try done.
  - by rewrite A5, A4.
  - by rewrite A12.
  - intros p r. rewrite A1, A12. intros [[<- <-]|[Hne Hr]]%lookup_insert_Some Hs; [|by apply (Hsh p)]. by destruct Hs as (_ & _ & Hs).
  - intros p. rewrite A8. apply Hma.
  - rewrite A6, A3, lookup_insert_eq. by eexists.
Qed.

(** ** All pages of a segment *)

(** The bytes of the file in page [k] of a segment with [n] bytes from the file. *)
Definition page_read (n k : Z) : Z := Z.max 0 (Z.min PGSIZE (n - PGSIZE * k)).

Definition segment_page s (file up ofs read : Z) (wr : bool) (k : Z) : supp_page :=
  SuppPage None (cur_pd s) (up + PGSIZE * k) filesys wr file (ofs + PGSIZE * k) (page_read read k) None.

Record laid cs s s' (file up : Z) (n : nat) (read ofs : Z) (wr : bool) : Prop := {
  la_old p q : spages s !! p = Some q → spages s' !! p = Some q;
  la_bytes r : page_bytes s' cs r = page_bytes s cs r;
  la_cur : cur_pd s' = cur_pd s ∧ cur_table s' = cur_table s ∧ files s' = files s;
  la_table : ∃ t t', supp_tables s !! cur_table s = Some t ∧ supp_tables s' !! cur_table s = Some t'
    ∧ (∀ va, (∀ k, 0 ≤ k < Z.of_nat n → va ≠ up + PGSIZE * k) → t' !! va = t !! va)
    ∧ (∀ k, 0 ≤ k < Z.of_nat n → ∃ p, t' !! (up + PGSIZE * k) = Some p ∧ spages s' !! p = Some (segment_page s file up ofs read wr k));
  la_other table : table ≠ cur_table s → supp_tables s' !! table = supp_tables s !! table;
}.

Lemma vacant_after s s' va q va' :
  cur_pd s ∈ dirs → added s s' va q → vaddr q = va → is_u32 va' → va' ≠ va → vacant s va' → vacant s' va'.
Proof.
  intros Hd [A1 (t & Ht & A2) (A3 & A4) (A5 & A6 & A7 & A8) _] Hq Hu Hne [V1 V2 V3].
  constructor.
  - intros t'. rewrite A6, A2, lookup_insert_eq. intros [= <-]. rewrite lookup_insert_ne by done. by apply V1.
  - intros p r. rewrite A1, A5. intros [[<- <-]|[_ Hr]]%lookup_insert_Some; [by rewrite Hq|by apply (V2 p)].
  - rewrite A5, A4 by done. done.
Qed.

Lemma segment_loop_spec cs file i c wr n : ∀ s fuel up read zero ofs,
  image cs s file i c → (∀ k, 0 ≤ k < Z.of_nat n → vacant s (up + PGSIZE * k)) →
  up mod PGSIZE = 0 → 0 ≤ up → up + PGSIZE * Z.of_nat n ≤ PHYS_BASE →
  0 ≤ read → 0 ≤ zero → read + zero = PGSIZE * Z.of_nat n → (n ≤ fuel)%nat →
  0 ≤ ofs → ofs + PGSIZE * Z.of_nat n < 2 ^ 31 → (read = 0 ∨ ofs + read ≤ Z.of_nat (length c)) →
  ∃ s', segment_loop fuel file up read zero ofs wr s = Ok (true, s') ∧ image cs s' file i c ∧ laid cs s s' file up n read ofs wr.
Proof.
  induction n as [|n IH]; intros s fuel up read zero ofs Him Hvac Hup Hup0 Hend Hr Hz Hsum Hfuel Ho Hob Hc.
  { assert (read = 0 ∧ zero = 0) as [-> ->] by lia. exists s. split; [by destruct fuel|]. split; [done|].
    destruct (im_table _ _ _ _ _ Him) as [t Ht]. constructor; try done. exists t, t. split_and!; try done. lia. }
  destruct fuel as [|fuel]; [lia|]. rewrite Nat2Z.inj_succ in *. set (pr := if read <? PGSIZE then read else PGSIZE).
  assert (Hpr : pr = page_read read 0 ∧ 0 ≤ pr ≤ PGSIZE ∧ pr ≤ read ∧ PGSIZE - pr ≤ zero ∧ (read - pr = 0 ∨ pr = PGSIZE)).
  { unfold pr, page_read, PGSIZE in *. destruct (Z.ltb_spec read 4096); lia. }
  destruct Hpr as (Epr & Hp1 & Hp2 & Hp3 & Hp4).
  assert (V0 : vacant s up) by (replace up with (up + PGSIZE * 0) by lia; apply Hvac; lia).
  destruct (create_filesys_page_spec cs s file i c up ofs pr wr Him V0) as (s1 & E & Had & Him1);
    [unfold PGSIZE in *; lia|done|done|done|unfold PGSIZE in *; lia|].
  destruct (ad_cur _ _ _ _ Had) as (C1 & C2 & C3 & C4). destruct (ad_table _ _ _ _ Had) as (t & Ht & Et).
  assert (HPB : PHYS_BASE < 2 ^ 32) by done.
  destruct (IH s1 fuel (up + PGSIZE) (read - pr) (zero - (PGSIZE - pr)) (ofs + PGSIZE) Him1)
    as (s' & E' & Him' & Hla); [|by rewrite <- Zplus_mod_idemp_r, Z_mod_same_full, Z.add_0_r|unfold PGSIZE in *; lia..|unfold PGSIZE in *; lia|].
  { intros k Hk. apply (vacant_after s s1 up (SuppPage None (cur_pd s) up filesys wr file ofs pr None)); [apply Him|done|done|unfold PGSIZE in *; unfold_ints; lia|unfold PGSIZE; lia|].
    replace (up + PGSIZE + PGSIZE * k) with (up + PGSIZE * (k + 1)) by lia. apply Hvac. lia. }
  exists s'. split; [|split; [done|]].
  - cbn [segment_loop]. assert (Hpos : (0 <? read) || (0 <? zero) = true).
    { apply orb_true_iff. rewrite !Z.ltb_lt. unfold PGSIZE in *. lia. }
    rewrite Hpos. fold pr. unfold gets. erewrite bind_st by reflexivity. cbv beta. change (id s) with s.
    erewrite bind_st by exact E. rewrite !u32_small, i32_small by (unfold PGSIZE in *; unfold_ints; lia). exact E'.
  - destruct Hla as [L1 L2 (L3 & L4 & L5) (t1 & t' & T1 & T2 & T3 & T4) L6]. rewrite C2 in *.
    assert (Ht1 : t1 = <[up := next_ptr s]> t) by (rewrite Et, lookup_insert_eq in T1; by injection T1 as <-). subst t1.
    destruct (ad_rest _ _ _ _ Had) as (R1 & R2 & R3 & R4).
    assert (Hnew : spages s' !! next_ptr s = Some (segment_page s file up ofs read wr 0)).
    { apply L1. rewrite (ad_spages _ _ _ _ Had), lookup_insert_eq. unfold segment_page. rewrite <- Epr. do 2 f_equal; lia. }
    constructor.
    + intros p q Hq. apply L1. rewrite (ad_spages _ _ _ _ Had), lookup_insert_ne; [done|]. intros <-.
      destruct (vo_ptr _ _ _ _ (im_ok _ _ _ _ _ Him) (next_ptr s)) as [_ H]; [lia|]. congruence.
    + intros r. rewrite L2. by eapply added_bytes.
    + split_and!; congruence.
    + exists t, t'. split; [done|]. split; [done|]. split.
      * intros va Hva. rewrite T3.
        -- apply lookup_insert_ne. intros <-. apply (Hva 0); lia.
        -- intros k Hk Eva. apply (Hva (k + 1)); lia.
      * intros k Hk. destruct (decide (k = 0)) as [->|Hk0].
        -- exists (next_ptr s). split; [|done]. rewrite T3; [by rewrite Z.mul_0_r, Z.add_0_r, lookup_insert_eq|].
           intros k' Hk'. unfold PGSIZE. lia.
        -- destruct (T4 (k - 1)) as (p & P1 & P2); [lia|]. exists p.
           replace (up + PGSIZE * k) with (up + PGSIZE + PGSIZE * (k - 1)) by lia. split; [done|]. rewrite P2. f_equal.
           unfold segment_page. rewrite C1. f_equal; [lia|lia|]. unfold page_read. unfold pr, PGSIZE. destruct (Z.ltb_spec read 4096); lia.
    + intros table Hne. rewrite L6 by done. by rewrite Et, lookup_insert_ne.
Qed.
End load.

(** ** Bytes of the image *)

Lemma byte_at_page (c : list Z) o n j :
  0 ≤ o → 0 ≤ n ≤ PGSIZE → (n = 0 ∨ o + n ≤ Z.of_nat (length c)) → 0 ≤ j < PGSIZE →
  byte_at (put_bytes Vm.zero_bytes 0 (take (Z.to_nat n) (drop (Z.to_nat o) c))) (Z.to_nat j)
    = if j <? n then byte_at c (Z.to_nat (o + j)) else 0.
Proof.
  intros Ho Hn Hc Hj. assert (Hl : length (take (Z.to_nat n) (drop (Z.to_nat o) c)) = Z.to_nat n) by (rewrite length_take, length_drop; lia).
  assert (Hz : length Vm.zero_bytes = Z.to_nat PGSIZE) by apply length_replicate.
  rewrite byte_at_put by (rewrite Hl, Hz; unfold PGSIZE in *; lia). rewrite Hl. destruct (Z.ltb_spec j n).
  - rewrite decide_True by lia. rewrite Nat.sub_0_r. unfold byte_at. rewrite !nth_lookup, lookup_take_lt, lookup_drop by lia.
    do 3 f_equal. lia.
  - rewrite decide_False by lia. unfold byte_at, Vm.zero_bytes. apply nth_repeat || (rewrite nth_lookup; destruct (_ !! _) eqn:E; [|done]; by apply lookup_replicate in E as [-> _]).
Qed.

Section theorems.
Context {D F : Type} {drv : BlockDriver D} {laws : BlockDriverLaws D} {fst : FileStore F} {flaws : FileStoreLaws F} {calls : FileCalls F}.
Context (dirs execs : gset Z).
Implicit Types s : vm D F.

End theorems.

(** ** The small machine *)

(** Three bytes of the file, then zeros up to 5000. *)
Definition small_phdr : Elf32_Phdr := Phdr 1 0 0x08050000 3 5000 6.

Lemma small_image : image small_dirs {[50]} {[50 := [1; 2; 3]]} (small_vm 1) 50 50 [1; 2; 3].
Proof.
  constructor; [apply small_vm_ok|by vm_compute| | |done|by eexists].
  - split; [done|]. split; [by apply elem_of_singleton|]. split; [done|]. split; [done|]. repeat constructor; unfold_ints; lia.
  - intros p q [-> ->]%small_vm_page (_ & Hw & _). done.
Qed.

Lemma small_vacant va : va = 0x08050000 ∨ va = 0x08051000 → vacant (small_vm 1) va.
Proof.
  intros Hva. constructor.
  - intros t Ht. injection Ht as <-. apply lookup_singleton_ne. by destruct Hva as [-> | ->].
  - intros p q [-> ->]%small_vm_page _. by destruct Hva as [-> | ->].
  - destruct Hva as [-> | ->]; by vm_compute.
Qed.


(** ** Executables *)

Definition half (x : Z) : list Z := [x mod 256; x / 256 mod 256].

Definition elf_header (phnum : Z) : list Z :=
  [127; 69; 76; 70; 1; 1; 1] ++ replicate 9 0 ++ half 2 ++ half 3 ++ word_bytes 1 ++ word_bytes 0x08048000 ++ word_bytes 52
  ++ word_bytes 0 ++ word_bytes 0 ++ half 52 ++ half 32 ++ half phnum ++ half 0 ++ half 0 ++ half 0.

Definition program_header (p : Elf32_Phdr) : list Z :=
  word_bytes (p_type p) ++ word_bytes (p_offset p) ++ word_bytes (p_vaddr p) ++ word_bytes (p_vaddr p) ++ word_bytes (p_filesz p)
  ++ word_bytes (p_memsz p) ++ word_bytes (p_flags p) ++ word_bytes PGSIZE.

(** A file of the two headers. *)
Definition executable (ps : list Elf32_Phdr) : list Z := elf_header (Z.of_nat (length ps)) ++ (ps ≫= program_header).

(** A new process, two free pages, and the executable as file 60. *)
Definition exec_vm (ps : list Elf32_Phdr) : vm disk (gmap Z (list Z)) :=
  VM small_mmu small_swap {[60 := executable ps]} (replicate 2 false) 0xC0300000 ∅ ∅ [] false ∅ {[1 := ∅]} 0xC0100000 1 60 10 (λ _, true).

Definition text : Elf32_Phdr := Phdr 1 0 0x08048000 84 84 5.
Definition data : Elf32_Phdr := Phdr 1 52 0x08049034 32 5000 6.

