(* ===== verification/Args.v ===== *)
(** * userprog/process.c: the arguments of a new process

    [start_process] splits the command line at its spaces, in the page that [process_execute]
    copied it to, and lays the arguments out on the stack page of the new process for
    its [main].  The command line and the stack page are their bytes; [stack] is the page at
    [PHYS_BASE - PGSIZE] that [setup_stack] maps.  A store outside that page is a fault: the
    pages around it are not mapped.

    The loop over the command line has the length of the page as fuel. *)

From S2P Require Import Prelude Bytes Vaddr.

Definition MAX_ARGS : Z := 100.

(** The local variables of the parser: the page, the offsets in [argv], [in_word] and
    [num_chars], which is also [next - file_name]. *)
Record parser : Type := Parser {
  file_name : list Z;
  argv : list Z;
  in_word : bool;
  num_chars : Z;
}.

Definition argc (p : parser) : Z := Z.of_nat (length (argv p)).

Definition SPACE : Z := 32.

(** The body of the loop at character [c]. *)
Definition parse_char (c : Z) (p : parser) : parser :=
  if negb (in_word p) && negb (c =? SPACE) then
    Parser (file_name p) (argv p ++ [num_chars p]) true (num_chars p + 1)
  else if in_word p && (c =? SPACE) then
    Parser (<[Z.to_nat (num_chars p) := 0]> (file_name p)) (argv p) false (num_chars p + 1)
  else Parser (file_name p) (argv p) (in_word p) (num_chars p + 1).

Fixpoint parse_loop (fuel : nat) (p : parser) : result parser :=
  match fuel with
  | O => Err OutOfFuel
  | S fuel =>
      c ← deref (file_name p !! Z.to_nat (num_chars p));
      if negb (c =? 0) && (argc p <? MAX_ARGS - 1) then
        let p := parse_char c p in
        if PGSIZE <=? u32 ((argc p + 5) * 4 + num_chars p) then Ok p else parse_loop fuel p
      else Ok p
  end.

(** [num_chars] counts the null at the end too. *)
Definition parse_args (page : list Z) : result parser :=
  p ← parse_loop (S (length page)) (Parser page [] false 0);
  Ok (Parser (file_name p) (argv p) (in_word p) (num_chars p + 1)).

(** ** The stack *)

Definition STACK_PAGE : Z := PHYS_BASE - PGSIZE.

Definition store (a : Z) (bs : list Z) (stack : list Z) : result (list Z) :=
  if (STACK_PAGE <=? a) && (a + Z.of_nat (length bs) <=? PHYS_BASE)
  then Ok (put_bytes stack (Z.to_nat (a - STACK_PAGE)) bs)
  else Err MemoryFault.

Definition store32 (a x : Z) (stack : list Z) : result (list Z) := store a (word_bytes x) stack.

(** [esp -= 4] and a store there, for each word. *)
Fixpoint push_all (ws : list Z) (esp : Z) (stack : list Z) : result (Z * list Z) :=
  match ws with
  | [] => Ok (esp, stack)
  | w :: ws => let esp := u32 (esp - 4) in stack ← store32 esp w stack; push_all ws esp stack
  end.

(** What [start_process] does to the stack after [load] returned [esp]. *)
Definition put_args (p : parser) (esp : Z) (stack : list Z) : result (Z * list Z) :=
  let esp := u32 (esp - 1) in
  let esp := u32 (esp - num_chars p) in
  stack ← (if num_chars p <=? Z.of_nat (length (file_name p))
           then store esp (take (Z.to_nat (num_chars p)) (file_name p)) stack
           else Err MemoryFault);
  stack ← store (u32 (esp + num_chars p)) [0] stack;
  let argv := (λ ofs, u32 (esp + ofs)) <$> argv p in
  let esp := Z.land esp (2 ^ 32 - 4) in
  '(esp, stack) ← push_all (reverse (argv ++ [0])) esp stack;
  '(esp, stack) ← push_all [esp] esp stack;
  '(esp, stack) ← push_all [argc p] esp stack;
  push_all [0] esp stack.

(** [start_process] on the copy of the command line, with the stack page that [setup_stack]
    made: [esp] and the stack when the process starts. *)
Definition start_args (page stack : list Z) : result (Z * list Z) :=
  p ← parse_args page;
  put_args p (PHYS_BASE - 1) stack.

(** ** The words of a command line *)

(** The words of [cmd], with [w] the beginning of the first one. *)
Fixpoint words (w cmd : list Z) : list (list Z) :=
  match cmd with
  | [] => if bool_decide (w = []) then [] else [w]
  | c :: cmd =>
      if c =? SPACE then if bool_decide (w = []) then words [] cmd else w :: words [] cmd
      else words (w ++ [c]) cmd
  end.

Lemma words_cons w c cmd :
  words w (c :: cmd)
  = if c =? SPACE then (if bool_decide (w = []) then words [] cmd else w :: words [] cmd) else words (w ++ [c]) cmd.
Proof. done. Qed.

(** Everything the parser has to do fits the array and the stack page. *)
Definition fits (cmd : list Z) : Prop :=
  Z.of_nat (length (words [] cmd)) < MAX_ARGS - 1
  ∧ (Z.of_nat (length (words [] cmd)) + 5) * 4 + Z.of_nat (length cmd) < PGSIZE.

(** The string [w] is at offset [o], with its null. *)
Definition string_at (page : list Z) (o : Z) (w : list Z) : Prop :=
  0 ≤ o ∧ ∃ rest, drop (Z.to_nat o) page = w ++ 0 :: rest.

Lemma string_at_app page o w c : string_at page o w → string_at (page ++ c) o w.
Proof.
  intros [Ho [rest Hr]]. split; [done|]. exists (rest ++ c). rewrite drop_app_le, Hr.
  - by rewrite <- app_assoc.
  - apply (f_equal (@length Z)) in Hr. rewrite length_drop, length_app in Hr. simpl in Hr. lia.
Qed.

(** The state of the parser when the characters of [cmd] before [post] have become [out]:
    [fin] are the words that are complete, [w] is the one in progress. *)
Record parsed (cmd junk out post : list Z) (fin : list (list Z)) (w : list Z) (p : parser) : Prop := {
  pd_page : file_name p = out ++ post ++ 0 :: junk;
  pd_cmd : (length cmd = length out + length post)%nat;
  pd_num : num_chars p = Z.of_nat (length out);
  pd_words : words [] cmd = fin ++ words w post;
  pd_w : if in_word p then w ≠ [] ∧ ∃ x, out = x ++ w else w = [];
  pd_argv : ∃ os, argv p = os ++ (if in_word p then [Z.of_nat (length out - length w)] else [])
    ∧ Forall2 (string_at out) os fin;
}.

Lemma words_word w cmd : w ≠ [] → (1 ≤ length (words w cmd))%nat.
Proof.
  revert w. induction cmd as [|c cmd IH]; intros w Hw; simpl.
  - by rewrite bool_decide_false.
  - rewrite bool_decide_false by done. case_match; simpl; [lia|]. apply IH. by destruct w.
Qed.

Lemma parsed_argc cmd junk out post fin w p :
  parsed cmd junk out post fin w p → argc p ≤ Z.of_nat (length (words [] cmd)).
Proof.
  intros [_ _ _ Hwd Hw (os & Ha & Hf)]. unfold argc. rewrite Ha, Hwd, !length_app, (Forall2_length _ _ _ Hf).
  destruct (in_word p); simpl; [|lia]. destruct Hw as [Hw _]. pose proof (words_word w post Hw). lia.
Qed.

(** One character. *)
Lemma parse_char_spec cmd junk out c post fin w p :
  parsed cmd junk out (c :: post) fin w p → ∃ c' fin' w', parsed cmd junk (out ++ [c']) post fin' w' (parse_char c p).
Proof.
  intros [Hpg Hc Hn Hwd Hw (os & Ha & Hf)]. rewrite words_cons in Hwd. unfold parse_char.
  assert (Hf' : ∀ y, Forall2 (string_at (out ++ [y])) os fin).
  { intros y. eapply Forall2_impl; [exact Hf|]. intros o d. apply string_at_app. }
  assert (Hlen : ∀ y, (length cmd = length (out ++ [y]) + length post)%nat) by (intros y; rewrite length_app; simpl in *; lia).
  assert (Hnum : ∀ y, num_chars p + 1 = Z.of_nat (length (out ++ [y]))) by (intros y; rewrite length_app; simpl; lia).
  assert (Hsame : file_name p = (out ++ [c]) ++ post ++ 0 :: junk) by (by rewrite Hpg, <- app_assoc).
  destruct (in_word p) eqn:Eiw, (Z.eqb_spec c SPACE) as [->|Hne]; cbn [negb andb].
  - destruct Hw as [Hw [x Hx]]. rewrite bool_decide_false in Hwd by done. exists 0, (fin ++ [w]), [].
    constructor; cbn [file_name argv in_word num_chars]; try done.
    + rewrite Hpg, Hn, Nat2Z.id, insert_app_r_alt, Nat.sub_diag by lia. by rewrite <- app_assoc.
    + by rewrite Hwd, <- app_assoc.
    + eexists. rewrite app_nil_r. split; [exact Ha|]. apply Forall2_app; [done|]. constructor; [|constructor].
      subst out. rewrite length_app. replace (length x + length w - length w)%nat with (length x) by lia.
      split; [lia|]. exists []. by rewrite Nat2Z.id, <- app_assoc, drop_app_length.
  - destruct Hw as [Hw [x Hx]]. exists c, fin, (w ++ [c]).
    constructor; cbn [file_name argv in_word num_chars]; try done.
    + split; [by destruct w|]. exists x. by rewrite Hx, <- app_assoc.
    + exists os. split; [|done]. rewrite Ha, !length_app. simpl. do 3 f_equal. lia.
  - subst w. rewrite bool_decide_true in Hwd by done. exists SPACE, fin, [].
    constructor; cbn [file_name argv in_word num_chars]; try done. by exists os.
  - subst w. exists c, fin, [c]. constructor; cbn [file_name argv in_word num_chars]; try done.
    + split; [done|]. by exists out.
    + exists os. split; [|done]. rewrite Ha, app_nil_r, Hn, length_app. simpl. do 3 f_equal. lia.
Qed.

Lemma parse_loop_spec fuel cmd junk out post fin w p :
  parsed cmd junk out post fin w p → is_name post → fits cmd → (length post < fuel)%nat →
  ∃ out' fin' w' p', parse_loop fuel p = Ok p' ∧ parsed cmd junk out' [] fin' w' p'.
Proof.
  revert out post fin w p. induction fuel as [|fuel IH]; intros out post fin w p Hp Hpost Hfit Hfuel; [lia|].
  cbn [parse_loop]. destruct (Hp) as [Hpg Hc Hn _ _ _].
  rewrite Hpg, Hn, Nat2Z.id, lookup_app_r, Nat.sub_diag by lia. destruct post as [|c post].
  - simpl. by exists out, fin, w, p.
  - apply Forall_cons in Hpost as [[_ Hc0] Hpost]. cbn [app lookup list_lookup deref mbind result_bind].
    destruct (Z.eqb_spec c 0); [done|]. pose proof (parsed_argc _ _ _ _ _ _ _ Hp) as Hargc.
    destruct Hfit as [Hfit1 Hfit2]. destruct (Z.ltb_spec (argc p) (MAX_ARGS - 1)); [|lia]. cbn [negb andb].
    destruct (parse_char_spec _ _ _ _ _ _ _ _ Hp) as (c' & fin' & w' & Hp').
    pose proof (parsed_argc _ _ _ _ _ _ _ Hp') as Hargc'. pose proof (pd_num _ _ _ _ _ _ _ Hp') as Hn'.
    pose proof (pd_cmd _ _ _ _ _ _ _ Hp') as Hc'.
    rewrite u32_small by (unfold is_u32, argc, PGSIZE, MAX_ARGS in *; lia).
    destruct (Z.leb_spec PGSIZE ((argc (parse_char c p) + 5) * 4 + num_chars (parse_char c p))); [lia|].
    eapply IH; try done. simpl in Hfuel. lia.
Qed.

Lemma parse_args_spec cmd junk :
  is_name cmd → fits cmd →
  ∃ out os iw, parse_args (cmd ++ 0 :: junk) = Ok (Parser (out ++ 0 :: junk) os iw (Z.of_nat (length cmd) + 1))
    ∧ length out = length cmd ∧ Forall2 (string_at (out ++ [0])) os (words [] cmd).
Proof.
  intros Hcmd Hfit.
  destruct (parse_loop_spec (S (length (cmd ++ 0 :: junk))) cmd junk [] cmd [] [] (Parser (cmd ++ 0 :: junk) [] false 0))
    as (out & fin & w & p & E & [Hpg Hc Hn Hwd Hw (os & Ha & Hf)]); try done.
  - constructor; try done. by exists [].
  - rewrite length_app. lia.
  - exists out, (argv p), (in_word p). unfold parse_args. rewrite E. cbn [mbind result_bind]. rewrite Hpg, Hn.
    simpl in Hc. rewrite Nat.add_0_r in Hc. rewrite Hc. split; [done|]. split; [done|]. rewrite Hwd, Ha.
    assert (Hf' : Forall2 (string_at (out ++ [0])) os fin).
    { eapply Forall2_impl; [exact Hf|]. intros o d. apply string_at_app. }
    destruct (in_word p); simpl in *.
    + destruct Hw as [Hw [x Hx]]. rewrite bool_decide_false by done. apply Forall2_app; [done|]. constructor; [|constructor].
      subst out. rewrite length_app. replace (length x + length w - length w)%nat with (length x) by lia.
      split; [lia|]. exists []. by rewrite Nat2Z.id, <- app_assoc, drop_app_length.
    + subst w. rewrite bool_decide_true by done. by rewrite !app_nil_r.
Qed.

(** ** The stack the process sees *)

Definition load32 (stack : list Z) (a : Z) : Z := get32 stack (Z.to_nat (a - STACK_PAGE)).

Definition load_string (stack : list Z) (a : Z) : result (list Z) :=
  if (STACK_PAGE <=? a) && (a <? PHYS_BASE) then c_string (drop (Z.to_nat (a - STACK_PAGE)) stack) else Err MemoryFault.

Ltac stack_lia := unfold STACK_PAGE, PHYS_BASE, PGSIZE in *; lia.

Lemma store_in_page a bs stack :
  STACK_PAGE ≤ a → a + Z.of_nat (length bs) ≤ PHYS_BASE →
  store a bs stack = Ok (put_bytes stack (Z.to_nat (a - STACK_PAGE)) bs).
Proof. intros H1 H2. unfold store. by rewrite (proj2 (Z.leb_le _ _) H1), (proj2 (Z.leb_le _ _) H2). Qed.

Lemma push_all_spec ws esp stack :
  Z.of_nat (length stack) = PGSIZE → STACK_PAGE + 4 * Z.of_nat (length ws) ≤ esp ≤ PHYS_BASE →
  push_all ws esp stack
  = Ok (esp - 4 * Z.of_nat (length ws),
        put_bytes stack (Z.to_nat (esp - 4 * Z.of_nat (length ws) - STACK_PAGE)) (words_bytes (reverse ws))).
Proof.
  revert esp stack. induction ws as [|w ws IH]; intros esp stack Hl He; cbn [push_all length] in *.
  - do 2 f_equal; [lia|]. unfold put_bytes. cbn [reverse rev_append words_bytes mbind list_bind length app].
    by rewrite Nat.add_0_r, take_drop.
  - rewrite u32_small by (unfold is_u32; stack_lia). unfold store32. change (length (word_bytes w)) with 4%nat.
    rewrite store_in_page by (simpl length; stack_lia). cbn [mbind result_bind]. 
    assert (Hl' : length (put_bytes stack (Z.to_nat (esp - 4 - STACK_PAGE)) (word_bytes w)) = length stack).
    { apply length_put_inside. simpl length. stack_lia. }
    rewrite IH by (rewrite ?Hl'; stack_lia). do 2 f_equal; [lia|].
    rewrite reverse_cons. unfold words_bytes at 2. rewrite bind_app. fold (words_bytes (reverse ws)).
    rewrite bind_singleton, <- put_bytes_join by (rewrite length_words_bytes, length_reverse; simpl length; stack_lia).
    rewrite length_words_bytes, length_reverse. f_equal; [f_equal|]; stack_lia.
Qed.

Lemma push_all_ok ws esp stack :
  Z.of_nat (length stack) = PGSIZE → STACK_PAGE + 4 * Z.of_nat (length ws) ≤ esp ≤ PHYS_BASE →
  ∃ stack', push_all ws esp stack = Ok (esp - 4 * Z.of_nat (length ws), stack') ∧ length stack' = length stack.
Proof.
  intros Hl He. eexists. split; [by apply push_all_spec|]. apply length_put_inside.
  rewrite length_words_bytes, length_reverse. stack_lia.
Qed.

Lemma push_all_app ws ws' esp stack e s :
  push_all ws esp stack = Ok (e, s) → push_all (ws ++ ws') esp stack = push_all ws' e s.
Proof.
  revert esp stack. induction ws as [|w ws IH]; intros esp stack; cbn [push_all app]; [by intros [= -> ->]|].
  destruct (store32 (u32 (esp - 4)) w stack); [|done]. apply IH.
Qed.

Lemma align4 x : is_u32 x → Z.land x (2 ^ 32 - 4) = 4 * (x / 4).
Proof.
  intros Hx. change (2 ^ 32 - 4) with (Z.shiftl (Z.ones 30) 2). apply Z.bits_inj'. intros k Hk.
  rewrite Z.land_spec, Z.shiftl_spec by done. replace (4 * (x / 4)) with (Z.shiftl (Z.shiftr x 2) 2)
    by (rewrite Z.shiftl_mul_pow2, Z.shiftr_div_pow2 by lia; apply Z.mul_comm).
  rewrite Z.shiftl_spec by done. destruct (Z.ltb_spec k 2).
  - rewrite !(Z.testbit_neg_r _ (k - 2)) by lia. by rewrite andb_false_r.
  - rewrite Z.shiftr_spec by lia. replace (k - 2 + 2) with k by lia. rewrite Z.testbit_ones_nonneg by lia.
    destruct (Z.ltb_spec (k - 2) 30); [by rewrite andb_true_r|]. rewrite andb_false_r. symmetry.
    apply Z.testbit_false; [done|]. rewrite Z.div_small; [done|]. unfold_ints. split; [lia|].
    apply (Z.lt_le_trans _ (2 ^ 32)); [lia|]. apply Z.pow_le_mono_r; lia.
Qed.

(** The strings are at [str], and the words below them from [esp] on. *)
Definition frame (str esp : Z) (out os stack : list Z) : list Z :=
  put_bytes (put_bytes stack (Z.to_nat (str - STACK_PAGE)) (out ++ [0; 0])) (Z.to_nat (esp - STACK_PAGE))
    (words_bytes ([0; Z.of_nat (length os); esp + 12] ++ ((λ o, str + o) <$> os) ++ [0])).

Lemma put_args_spec out junk os iw stack :
  let n := Z.of_nat (length out) + 1 in
  let str := PHYS_BASE - 2 - n in
  let esp := 4 * (str / 4) - 4 * (Z.of_nat (length os) + 4) in
  Z.of_nat (length stack) = PGSIZE → (Z.of_nat (length os) + 5) * 4 + Z.of_nat (length out) < PGSIZE →
  Forall (λ o, 0 ≤ o < n) os →
  put_args (Parser (out ++ 0 :: junk) os iw n) (PHYS_BASE - 1) stack = Ok (esp, frame str esp out os stack)
  ∧ STACK_PAGE ≤ esp ∧ esp + 4 * (Z.of_nat (length os) + 4) ≤ str.
Proof.
  intros n str esp Hst Hfit Hos. set (k := Z.of_nat (length os)) in *.
  assert (Hdiv : str = 4 * (str / 4) + str mod 4) by (apply Z_div_mod_eq_full).
  pose proof (Z.mod_pos_bound str 4 ltac:(lia)) as Hmod.
  assert (Hesp : STACK_PAGE ≤ esp).
  { unfold esp. set (q := str / 4) in *. set (r := str mod 4) in *. subst str. stack_lia. }
  split; [|split; [done|unfold esp; lia]].
  unfold put_args. cbn [num_chars file_name argv].
  rewrite (u32_small (PHYS_BASE - 1 - 1)), (u32_small (PHYS_BASE - 1 - 1 - n)) by (unfold is_u32; stack_lia).
  replace (PHYS_BASE - 1 - 1 - n) with str by lia.
  destruct (Z.leb_spec n (Z.of_nat (length (out ++ 0 :: junk)))) as [_|Hbad]; [|rewrite length_app in Hbad; simpl in Hbad; lia].
  assert (Htk : take (Z.to_nat n) (out ++ 0 :: junk) = out ++ [0]).
  { rewrite take_app_ge by lia. replace (Z.to_nat n - length out)%nat with 1%nat by lia. done. }
  assert (Hlo : length (out ++ [0]) = Z.to_nat n) by (rewrite length_app; simpl; lia).
  rewrite Htk, store_in_page by (rewrite ?Hlo; stack_lia). cbn [mbind result_bind].
  rewrite (u32_small (str + n)), store_in_page by (unfold is_u32; simpl length; stack_lia). cbn [mbind result_bind].
  set (st2 := put_bytes _ _ [0]).
  assert (Est2 : st2 = put_bytes stack (Z.to_nat (str - STACK_PAGE)) (out ++ [0; 0])).
  { unfold st2. change (out ++ [0; 0]) with (out ++ [0] ++ [0]). rewrite app_assoc.
    rewrite <- (put_bytes_append _ _ (out ++ [0])), Hlo by (rewrite Hlo; simpl; stack_lia). f_equal. stack_lia. }
  assert (Hst2 : length st2 = length stack).
  { rewrite Est2. apply length_put_inside. rewrite length_app. simpl. stack_lia. }
  rewrite align4 by (unfold is_u32; stack_lia).
  assert (Eargv : ((λ o, u32 (str + o)) <$> os) = ((λ o, str + o) <$> os)).
  { apply list_fmap_ext. intros j o Ho. eapply Forall_lookup_1 in Hos; [|done]. apply u32_small. unfold is_u32. stack_lia. }
  rewrite Eargv. set (ptrs := (λ o, str + o) <$> os).
  assert (Hp : length ptrs = length os) by (apply length_fmap).
  set (l := reverse (ptrs ++ [0])). assert (Hl : length l = S (length os)) by (unfold l; rewrite length_reverse, length_app; simpl; lia).
  set (top := 4 * (str / 4)). destruct (push_all_ok l top st2) as (s1 & E1 & L1); [by rewrite Hst2|rewrite Hl; stack_lia|].
  set (e1 := top - 4 * Z.of_nat (length l)) in *. assert (He1 : e1 = esp + 12) by (unfold e1, esp, top; lia).
  destruct (push_all_ok [e1] e1 s1) as (s2 & E2 & L2); [by rewrite L1, Hst2|simpl length; stack_lia|].
  destruct (push_all_ok [k] (e1 - 4) s2) as (s3 & E3 & L3); [by rewrite L2, L1, Hst2|simpl length; stack_lia|].
  change (e1 - 4 * Z.of_nat (length [e1])) with (e1 - 4) in E2.
  pose proof (push_all_app l [e1] _ _ _ _ E1) as P2. rewrite E2 in P2.
  pose proof (push_all_app _ [k] _ _ _ _ P2) as P3. rewrite E3 in P3.
  rewrite E1. cbn [mbind result_bind]. rewrite E2. cbn [mbind result_bind]. unfold argc. cbn [argv]. fold k. rewrite E3.
  cbn [mbind result_bind]. rewrite <- (push_all_app _ [0] _ _ _ _ P3).
  rewrite push_all_spec by (rewrite ?length_app, ?Hst2, ?Hl; simpl length; unfold top; stack_lia).
  rewrite !length_app, Hl. simpl length.
  replace (top - 4 * Z.of_nat (S (length os) + 1 + 1 + 1)) with esp by (unfold top, esp; lia).
  do 2 f_equal. unfold frame. rewrite Est2. f_equal. f_equal. unfold l. rewrite <- !app_assoc, reverse_app, reverse_involutive.
  by rewrite He1.
Qed.

(** Reading the frame back. *)
Lemma frame_word str esp out os stack i w :
  Z.of_nat (length stack) = PGSIZE → STACK_PAGE ≤ esp → 0 ≤ esp + 12 < 2 ^ 32 → 0 ≤ i →
  esp + 4 * (Z.of_nat (length os) + 4) ≤ str → str + Z.of_nat (length out) + 2 ≤ PHYS_BASE →
  Forall (λ o, 0 ≤ o < Z.of_nat (length out) + 1) os →
  ([0; Z.of_nat (length os); esp + 12] ++ ((λ o, str + o) <$> os) ++ [0]) !! Z.to_nat i = Some w →
  load32 (frame str esp out os stack) (esp + 4 * i) = w.
Proof.
  intros Hl He H12 Hi0 Hs Hp Hos Hi. unfold load32, frame. set (ws := [_; _; _] ++ _) in *.
  assert (Hws : length ws = (length os + 4)%nat) by (unfold ws; rewrite !length_app, length_fmap; simpl; lia).
  pose proof (lookup_lt_Some _ _ _ Hi) as Hlt.
  replace (Z.to_nat (esp + 4 * i - STACK_PAGE)) with (Z.to_nat (esp - STACK_PAGE) + 4 * Z.to_nat i)%nat by lia.
  rewrite get32_put_in by (rewrite ?length_put_inside, length_words_bytes by (rewrite length_app; simpl; stack_lia);
    rewrite Hws in *; stack_lia).
  apply get32_words_bytes; [|done]. unfold ws. rewrite !Forall_app, Forall_fmap. split_and!.
  - repeat constructor; unfold is_u32; stack_lia.
  - eapply Forall_impl; [exact Hos|]. intros o Ho. unfold compose, is_u32. simpl. stack_lia.
  - by repeat constructor.
Qed.

Lemma frame_string str esp out os stack o w :
  Z.of_nat (length stack) = PGSIZE → STACK_PAGE ≤ esp → esp + 4 * (Z.of_nat (length os) + 4) ≤ str →
  str + Z.of_nat (length out) + 2 ≤ PHYS_BASE → is_name w → string_at (out ++ [0]) o w →
  load_string (frame str esp out os stack) (str + o) = Ok w.
Proof.
  intros Hl He Hs Hp Hw [Ho [rest Hr]]. pose proof (f_equal (@length Z) Hr) as Hlen.
  rewrite length_drop, !length_app in Hlen. simpl in Hlen. unfold load_string.
  rewrite (proj2 (Z.leb_le _ _)), (proj2 (Z.ltb_lt _ _)) by stack_lia. cbn [andb]. unfold frame.
  rewrite drop_put_above.
  - replace (Z.to_nat (str + o - STACK_PAGE)) with (Z.to_nat (str - STACK_PAGE) + Z.to_nat o)%nat by stack_lia.
    rewrite drop_put_in by (rewrite ?length_app; simpl; stack_lia).
    change (out ++ [0; 0]) with (out ++ [0] ++ [0]). rewrite (app_assoc out), drop_app_le by (rewrite length_app; simpl; lia).
    rewrite Hr, <- !app_assoc. by apply c_string_app.
  - rewrite length_words_bytes, !length_app, length_fmap, length_put_inside by (rewrite length_app; simpl; stack_lia).
    simpl. stack_lia.
Qed.

Lemma words_names w cmd : is_name w → is_name cmd → Forall is_name (words w cmd).
Proof.
  revert w. induction cmd as [|c cmd IH]; intros w Hw Hc; simpl.
  - case_match; by repeat constructor.
  - apply Forall_cons in Hc as [Hc Hcmd]. assert (is_name (w ++ [c])) by (apply Forall_app; split; [done|by apply Forall_singleton]).
    assert (is_name []) by constructor. repeat case_match; auto.
Qed.

(** C5.  Every command line whose words fit the array of arguments and the stack page reaches the
    process as main (argc, argv): start_process returns, the stack pointer is aligned and
    inside the stack page, above the return address are argc, the number of words, and argv,
    which points to as many pointers to null-terminated strings, the words of the command line in
    order, and a null pointer. *)
Theorem args_on_stack cmd junk stack :
  let ws := words [] cmd in
  let n := Z.of_nat (length ws) in
  is_name cmd → fits cmd → Z.of_nat (length stack) = PGSIZE →
  ∃ esp stack', start_args (cmd ++ 0 :: junk) stack = Ok (esp, stack')
    ∧ esp mod 4 = 0 ∧ STACK_PAGE ≤ esp < PHYS_BASE ∧ length stack' = length stack
    ∧ load32 stack' esp = 0 ∧ load32 stack' (esp + 4) = n ∧ load32 stack' (esp + 8) = esp + 12
    ∧ (∀ i w, ws !! i = Some w → load_string stack' (load32 stack' (esp + 12 + 4 * Z.of_nat i)) = Ok w)
    ∧ load32 stack' (esp + 12 + 4 * n) = 0.
Proof.
  intros ws n Hname Hfit Hst. destruct (parse_args_spec cmd junk Hname Hfit) as (out & os & iw & E & Hlo & Hos).
  pose proof (Forall2_length _ _ _ Hos) as Hn. fold ws in Hn, Hos. destruct Hfit as [_ Hfit]. fold ws n in Hfit.
  assert (Hb : Forall (λ o, 0 ≤ o < Z.of_nat (length out) + 1) os).
  { eapply Forall2_Forall_l; [exact Hos|]. apply Forall_true. intros w o [Ho [rest Hr]].
    apply (f_equal (@length Z)) in Hr. rewrite length_drop, !length_app in Hr. simpl in Hr. lia. }
  destruct (put_args_spec out junk os iw stack Hst) as (E2 & He1 & He2); [rewrite Hn, Hlo; exact Hfit|done|].
  rewrite Hlo in E2 at 1. set (str := PHYS_BASE - 2 - (Z.of_nat (length out) + 1)) in *.
  set (esp := 4 * (str / 4) - 4 * (Z.of_nat (length os) + 4)) in *.
  assert (Hread : ∀ i w, 0 ≤ i →
    ([0; Z.of_nat (length os); esp + 12] ++ ((λ o, str + o) <$> os) ++ [0]) !! Z.to_nat i = Some w →
    load32 (frame str esp out os stack) (esp + 4 * i) = w).
  { intros i w Hi Hlk. apply frame_word; try done; unfold str; stack_lia. }
  assert (Hargv : ∀ i o, os !! i = Some o → load32 (frame str esp out os stack) (esp + 12 + 4 * Z.of_nat i) = str + o).
  { intros i o Ho. replace (esp + 12 + 4 * Z.of_nat i) with (esp + 4 * (Z.of_nat i + 3)) by lia. apply Hread; [lia|].
    replace (Z.to_nat (Z.of_nat i + 3)) with (3 + i)%nat by lia. change ([?a; ?b; ?c] ++ ?l) with (a :: b :: c :: l).
    simpl. rewrite lookup_app_l by (rewrite length_fmap; by eapply lookup_lt_Some). by rewrite list_lookup_fmap, Ho. }
  exists esp, (frame str esp out os stack). split_and!; try done.
  - unfold start_args. rewrite E. cbn [mbind result_bind]. exact E2.
  - unfold esp. rewrite <- Z.mul_sub_distr_l, Z.mul_comm. by apply Z.mod_mul.
  - unfold str in *. stack_lia.
  - unfold frame. rewrite !length_put_inside; [done| |rewrite length_put_inside]; rewrite ?length_words_bytes, ?length_app, ?length_fmap;
      simpl; unfold str in *; stack_lia.
  - rewrite <- (Hread 0 0) by done. f_equal. lia.
  - unfold n. rewrite <- Hn. apply (Hread 1); [done|done].
  - apply (Hread 2); [done|done].
  - intros i w Hi. destruct (Forall2_lookup_r _ _ _ _ _ Hos Hi) as (o & Ho & Hstr). rewrite (Hargv i o Ho).
    apply frame_string; try done; [unfold str; stack_lia|]. 
    eapply (Forall_lookup_1 _ ws); [apply words_names; [constructor|done]|done].
  - replace (esp + 12 + 4 * n) with (esp + 4 * (n + 3)) by lia. apply Hread; [lia|].
    replace (Z.to_nat (n + 3)) with (3 + length os)%nat by (unfold n; lia). simpl.
    rewrite lookup_app_r by (by rewrite length_fmap). by rewrite length_fmap, Nat.sub_diag.
Qed.

Definition empty_stack : list Z := replicate 4096 0.

(** "ls -l" *)
Definition ls_l : list Z := [108; 115; 32; 45; 108].

Lemma args_on_stack_witness :
  ∃ esp stack', start_args (ls_l ++ 0 :: replicate 4090 0) empty_stack = Ok (esp, stack')
    ∧ load32 stack' (esp + 4) = 2 ∧ load_string stack' (load32 stack' (esp + 12)) = Ok [108; 115]
    ∧ load_string stack' (load32 stack' (esp + 16)) = Ok [45; 108].
Proof.
  destruct (args_on_stack ls_l (replicate 4090 0) empty_stack) as (esp & st & E & _ & _ & _ & _ & H1 & _ & H2 & _).
  - apply (bool_decide_unpack (is_name ls_l)). vm_compute. exact I.
  - vm_compute. split; reflexivity.
  - reflexivity.
  - pose proof (H2 0%nat [108; 115] eq_refl) as H3. pose proof (H2 1%nat [45; 108] eq_refl) as H4.
    rewrite Z.mul_0_r, Z.add_0_r in H3. replace (esp + 12 + 4 * Z.of_nat 1) with (esp + 16) in H4 by lia.
    exact (ex_intro _ esp (ex_intro _ st (conj E (conj H1 (conj H3 H4))))).
Defined.

(** Command lines at the limits, in their page. *)
Definition in_page (cmd : list Z) : list Z := cmd ++ replicate (4096 - length cmd) 0.
Definition long_line : list Z := replicate 4068 97 ++ [SPACE; 98].
Definition many_words : list Z := concat (replicate 120 [97; 98; 99; SPACE]).

(** Beyond these limits: a command line of 4070 characters whose last word begins where the
    page is almost used up makes start_process store the return address below the stack page;
    of a command line with more than 99 words the 99th argument is cut to two characters and
    the others are dropped; and the name given to load keeps a space the command line
    begins with. *)
Theorem args_limits :
  start_args (in_page long_line) empty_stack = Err MemoryFault
  ∧ (∃ esp stack', start_args (in_page many_words) empty_stack = Ok (esp, stack')
       ∧ load32 stack' (esp + 4) = 99 ∧ load_string stack' (load32 stack' (esp + 12 + 4 * 98)) = Ok [97; 98])
  ∧ ∃ p, parse_args (in_page (SPACE :: ls_l)) = Ok p ∧ c_string (file_name p) = Ok [SPACE; 108; 115].
Proof.
  split; [vm_compute; reflexivity|]. split.
  - destruct (start_args (in_page many_words) empty_stack) as [[esp st]|] eqn:E; [|by vm_compute in E].
    exists esp, st. split; [done|]. vm_compute in E. injection E as <- <-. split; vm_compute; reflexivity.
  - destruct (parse_args (in_page (SPACE :: ls_l))) as [p|] eqn:E; [|by vm_compute in E].
    exists p. split; [done|]. vm_compute in E. injection E as <-. vm_compute. reflexivity.
Qed.
