(* ===== verification/Process.v ===== *)
(** * userprog/process.c: the process table

    The entries of the table by pid, and the list elements of the entries, of their lists of
    children and of the free list in memory, as in [DList]: one element of an entry is on the
    free list while the entry is free and on the list of its parent after that.  The address of
    an entry and of its members is that of the array in the source; a list element that is not in
    an entry is not a process.

    [thread_block] puts the current thread to sleep in the middle of [process_execute] and
    [process_wait], and the child may run as soon as its thread has been created; these functions
    are cut there.  A step is one such part, or the part of [start_process] or [process_exit] that deals with the table, run by a thread
    that is not asleep.  What [process_exit] gives back to other components (files,
    mappings, pages, the page directory) and prints is not part of the table. *)

From S2P Require Import Prelude DList.

Definition MAX_PROCESSES : Z := 512.
Definition PID_ERROR : Z := -1.
Definition INIT_PID : Z := 0.
Definition MAX_FILES_PER_PROCESS : nat := 16.
Definition MAX_MMAPPINGS : nat := 16.

Record process : Type := Process {
  thread_ptr : Z;
  parent_pid : Z;
  working_dir : Z;
  files : list Z;
  mmappings : list Z;
  file : Z;
  return_code : Z;
  running : bool;
  valid : bool;
  blocked : bool;
  loaded : bool;
  load_success : bool;
}.

Definition set_thread t p := Process t (parent_pid p) (working_dir p) (files p) (mmappings p) (file p) (return_code p) (running p) (valid p) (blocked p) (loaded p) (load_success p).
Definition set_parent x p := Process (thread_ptr p) x (working_dir p) (files p) (mmappings p) (file p) (return_code p) (running p) (valid p) (blocked p) (loaded p) (load_success p).
Definition set_wd x p := Process (thread_ptr p) (parent_pid p) x (files p) (mmappings p) (file p) (return_code p) (running p) (valid p) (blocked p) (loaded p) (load_success p).
Definition set_code x p := Process (thread_ptr p) (parent_pid p) (working_dir p) (files p) (mmappings p) (file p) x (running p) (valid p) (blocked p) (loaded p) (load_success p).
Definition set_running x p := Process (thread_ptr p) (parent_pid p) (working_dir p) (files p) (mmappings p) (file p) (return_code p) x (valid p) (blocked p) (loaded p) (load_success p).
Definition set_valid x p := Process (thread_ptr p) (parent_pid p) (working_dir p) (files p) (mmappings p) (file p) (return_code p) (running p) x (blocked p) (loaded p) (load_success p).
Definition set_blocked x p := Process (thread_ptr p) (parent_pid p) (working_dir p) (files p) (mmappings p) (file p) (return_code p) (running p) (valid p) x (loaded p) (load_success p).
Definition set_loaded ok p := Process (thread_ptr p) (parent_pid p) (working_dir p) (files p) (mmappings p) (file p) (return_code p) (running p) (valid p) (blocked p) true ok.

Record ptable : Type := PTable {
  procs : gmap Z process;
  elems : heap;
  asleep : gset Z;           (* the threads that are blocked *)
}.

Abbreviation M := (ST ptable).

(** ** Addresses *)

Definition PROCESS_SIZE : Z := 272.
Definition CHILDREN_OFS : Z := 236.
Definition ELEM_OFS : Z := 256.
Definition process_table : Z := 0xc0060000.
Definition free_list : Z := process_table + MAX_PROCESSES * PROCESS_SIZE.

Definition elem_of (pid : Z) : Z := process_table + PROCESS_SIZE * pid + ELEM_OFS.
Definition children_of (pid : Z) : Z := process_table + PROCESS_SIZE * pid + CHILDREN_OFS.

(** [list_entry (elem, struct process, elem)]. *)
Definition entry_of (elem : Z) : result Z :=
  let x := elem - process_table - ELEM_OFS in
  if (x mod PROCESS_SIZE =? 0) && (0 <=? x) && (x <? MAX_PROCESSES * PROCESS_SIZE) then Ok (x / PROCESS_SIZE)
  else Err MemoryFault.

(** ** Access *)

Definition on_elems {A} (m : ST heap A) : M A := λ s,
  match m (elems s) with
  | Ok (a, h) => Ok (a, PTable (procs s) h (asleep s))
  | Err e => Err e
  end.

Definition get_proc (pid : Z) : M process := λ s, lift (deref (procs s !! pid)) s.
Definition put_proc (pid : Z) (p : process) : M unit := modify (λ s, PTable (<[pid := p]> (procs s)) (elems s) (asleep s)).
Definition upd_proc (pid : Z) (f : process → process) : M unit := p ← get_proc pid; put_proc pid (f p).

(** [thread_block] of thread [th], and [thread_unblock]. *)
Definition thread_block (th : Z) : M unit := modify (λ s, PTable (procs s) (elems s) ({[th]} ∪ asleep s)).
Definition thread_unblock (th : Z) : M unit :=
  s ← gets id;
  assert (bool_decide (th ∈ asleep s));;
  modify (λ s, PTable (procs s) (elems s) (asleep s ∖ {[th]})).

(** ** The table *)

Definition new_entry (cur : Z) (p : process) : process :=
  Process (thread_ptr p) cur (working_dir p) (replicate MAX_FILES_PER_PROCESS (-1)) (replicate MAX_MMAPPINGS (-1)) 0
    (return_code p) false true false false (load_success p).

(** [cur] is the pid of the current thread. *)
Definition process_table_get (cur : Z) : M Z :=
  e ← on_elems (list_empty free_list);
  if e : bool then mret PID_ERROR
  else
    elem ← on_elems (list_pop_back free_list);
    pid ← lift (entry_of elem);
    p ← get_proc pid;
    assert (negb (valid p));;
    on_elems (list_init (children_of pid));;
    put_proc pid (new_entry cur p);;
    mret pid.

Definition process_table_free (pid : Z) : M unit :=
  p ← get_proc pid;
  assert (valid p);;
  put_proc pid (set_valid false p);;
  on_elems (list_remove (elem_of pid));;
  on_elems (list_push_back free_list (elem_of pid)).

Definition process_count : M Z := on_elems (list_size free_list).

Fixpoint init_loop (i : nat) : M unit :=
  match i with
  | O => mret tt
  | S i =>
      upd_proc (Z.of_nat i) (set_valid false);;
      on_elems (list_push_back free_list (elem_of (Z.of_nat i)));;
      init_loop i
  end.

(** [th] is the first thread; its pid is 0 before it gets one. *)
Definition process_init (th : Z) : M unit :=
  on_elems (list_init free_list);;
  init_loop (Z.to_nat MAX_PROCESSES);;
  pid ← process_table_get 0;
  assert (pid =? INIT_PID);;
  upd_proc INIT_PID (set_thread th).

(** ** Starting *)

(** [process_execute] up to the new thread; [page] and [thread] are what [palloc_get_page] and
    [thread_create_ptr] return, 0 for a null pointer. *)
Definition process_execute_create (cur page thread : Z) : M Z :=
  if page =? 0 then mret PID_ERROR
  else
    pid ← process_table_get cur;
    if pid =? PID_ERROR then mret PID_ERROR
    else
      upd_proc pid (set_thread thread);;
      if thread =? 0 then process_table_free pid;; mret PID_ERROR
      else mret pid.

(** From there to [thread_block]; [wd] is what [dir_reopen] returns. *)
Definition process_execute_block (th pid wd : Z) : M unit :=
  upd_proc pid (set_wd wd);;
  p ← get_proc pid;
  if loaded p then mret tt
  else upd_proc pid (set_blocked true);; thread_block th.

(** The rest, when the child has been loaded. *)
Definition process_execute_end (cur pid : Z) : M Z :=
  p ← get_proc pid;
  assert (loaded p);;
  if negb (load_success p) then mret PID_ERROR
  else on_elems (list_push_back (children_of cur) (elem_of pid));; mret pid.

(** [start_process] after [load] returned [success], up to the check of it. *)
Definition start_process_loaded (pid : Z) (success : bool) : M unit :=
  upd_proc pid (set_running true);;
  upd_proc pid (set_loaded success);;
  p ← get_proc pid;
  if blocked p then
    upd_proc pid (set_blocked false);;
    parent ← get_proc (parent_pid p);
    thread_unblock (thread_ptr parent)
  else mret tt.

(** ** Waiting *)

(** [process_wait] up to [thread_block]: it has returned, or goes on when the child has exited. *)
Inductive progress : Type := Done (x : Z) | Waits (child : Z).

Definition process_wait_begin (cur th child_id : Z) : M progress :=
  if (child_id <? 0) || (MAX_PROCESSES - 1 <? child_id) then mret (Done (-1))
  else
    p ← get_proc child_id;
    if negb (valid p) || negb (parent_pid p =? cur) then mret (Done (-1))
    else
      (if running p then upd_proc child_id (set_blocked true);; thread_block th else mret tt);;
      mret (Waits child_id).

Definition process_wait_end (child_id : Z) : M Z :=
  p ← get_proc child_id;
  assert (negb (running p));;
  process_table_free child_id;;
  mret (return_code p).

(** ** Exiting *)

Fixpoint orphan_loop (fuel : nat) (list e : Z) : M unit :=
  match fuel with
  | O => fail OutOfFuel
  | S fuel =>
      stop ← on_elems (list_end list);
      if e =? stop then mret tt
      else
        child ← lift (entry_of e);
        c ← get_proc child;
        (if running c then put_proc child (set_parent (-1) c) else process_table_free child);;
        e ← on_elems (list_next e);
        orphan_loop fuel list e
  end.

Definition process_exit (cur code : Z) : M unit :=
  upd_proc cur (set_code code);;
  e ← on_elems (list_empty (children_of cur));
  (if negb e then
     fuel ← on_elems heap_fuel;
     b ← on_elems (list_begin (children_of cur));
     orphan_loop fuel (children_of cur) b
   else mret tt);;
  p ← get_proc cur;
  (if parent_pid p =? -1 then process_table_free cur else mret tt);;
  p ← get_proc cur;
  (if blocked p then
     put_proc cur (set_blocked false p);;
     parent ← get_proc (parent_pid p);
     thread_unblock (thread_ptr parent)
   else mret tt);;
  upd_proc cur (set_running false).
