(* ===== verification/ProcessThms.v ===== *)
(** * userprog/process.c: theorems about the process table

    [table_ok]: the free entries are on the free list, every other entry is on at most one list of
    children, and the lists have no element in common.  Starting a process and waiting
    for it keep this, and pass on the code it exits with, in either order of the exit
    and the wait.  Exiting with children does not: see [process_failures]. *)

From S2P Require Import Prelude DList Process.

(** ** The invariant *)

Definition in_table (pid : Z) : Prop := 0 ≤ pid < MAX_PROCESSES.

(** Where the list elements and lists of the table are. *)
Lemma elem_of_inj a b : elem_of a = elem_of b → a = b.
Proof. unfold elem_of, PROCESS_SIZE. intros. lia. Qed.

Lemma entry_of_elem pid : in_table pid → entry_of (elem_of pid) = Ok pid.
Proof.
  unfold in_table, entry_of. intros ?. replace (elem_of pid - process_table - ELEM_OFS) with (pid * PROCESS_SIZE) by (unfold elem_of; lia).
  rewrite Z_mod_mult, Z_div_mult by done. unfold MAX_PROCESSES, PROCESS_SIZE in *. simpl.
  destruct (Z.leb_spec 0 (pid * 272)); [|lia]. destruct (Z.ltb_spec (pid * 272) (512 * 272)); [done|lia].
Qed.

Definition not_elem (l : Z) : Prop := ∀ q, l ≠ elem_of q ∧ l + 8 ≠ elem_of q.

Lemma elem_nodes pid l xs : not_elem l → elem_of pid ∈ nodes l (elem_of <$> xs) → pid ∈ xs.
Proof.
  intros Hl. unfold nodes, list_head, list_tail. rewrite elem_of_cons, elem_of_app, list_elem_of_singleton.
  intros [E|[Hx|E]]; [by destruct (Hl pid)| |by destruct (Hl pid)].
  apply list_elem_of_fmap in Hx as (q & E & ?). by apply elem_of_inj in E as ->.
Qed.

Lemma children_not_elem pid : not_elem (children_of pid).
Proof. intros q. unfold children_of, elem_of, CHILDREN_OFS, ELEM_OFS, PROCESS_SIZE. lia. Qed.

Lemma free_not_elem : not_elem free_list.
Proof. intros q. unfold free_list, elem_of, ELEM_OFS, PROCESS_SIZE, MAX_PROCESSES. lia. Qed.

(** Lists with other headers and other elements have no node in common. *)
Definition apart (l l' : Z) : Prop := l ≠ l' ∧ l ≠ l' + 8 ∧ l + 8 ≠ l'.

Lemma children_apart p q : p ≠ q → apart (children_of p) (children_of q).
Proof. unfold apart, children_of, CHILDREN_OFS, PROCESS_SIZE. lia. Qed.

Lemma children_free_apart p : apart (children_of p) free_list.
Proof. unfold apart, free_list, children_of, CHILDREN_OFS, PROCESS_SIZE, MAX_PROCESSES. lia. Qed.

Lemma apart_sym l l' : apart l l' → apart l' l.
Proof. unfold apart. lia. Qed.

Lemma nodes_apart l l' xs ys a :
  apart l l' → not_elem l → not_elem l' → xs ## ys →
  a ∈ nodes l (elem_of <$> xs) → a ∉ nodes l' (elem_of <$> ys).
Proof.
  intros (A1 & A2 & A3) N N' Hd Ha Hb. unfold nodes, list_head, list_tail in *.
  rewrite elem_of_cons, elem_of_app, list_elem_of_singleton, list_elem_of_fmap in Ha, Hb.
  destruct Ha as [->|[(x & -> & Hx)| ->]], Hb as [E|[(y & E & Hy)|E]];
    try (by destruct (N y)); try (by destruct (N' x)); try lia.
  apply elem_of_inj in E as <-. by apply (Hd x).
Qed.

Lemma dlist_pids_nodup h l xs : dlist h l (elem_of <$> xs) → NoDup xs.
Proof. intros [N _]%dlist_distinct. by apply NoDup_fmap_1 in N. Qed.

(** [free] are the free entries and [kids] the children of the others. *)
Record table_ok (s : ptable) (free : list Z) (kids : Z → list Z) : Prop := {
  ok_entries : ∀ pid, in_table pid → ∃ p, procs s !! pid = Some p ∧ valid p = bool_decide (pid ∉ free);
  ok_free : dlist (elems s) free_list (elem_of <$> free);
  ok_kids : ∀ pid, in_table pid → pid ∉ free → dlist (elems s) (children_of pid) (elem_of <$> kids pid);
  ok_free_range : Forall in_table free;
  ok_kids_used : ∀ pid k, in_table pid → pid ∉ free → k ∈ kids pid → in_table k ∧ k ∉ free;
  ok_one_parent : ∀ p q k, in_table p → in_table q → p ∉ free → q ∉ free → k ∈ kids p → k ∈ kids q → p = q;
  ok_cells : ∀ pid, in_table pid → is_Some (elems s !! elem_of pid) ∧
    is_Some (elems s !! list_head (children_of pid)) ∧ is_Some (elems s !! list_tail (children_of pid));
}.

Lemma on_elems_run {A} (m : ST heap A) s a h :
  m (elems s) = Ok (a, h) → on_elems m s = Ok (a, PTable (procs s) h (asleep s)).
Proof. intros E. unfold on_elems. by rewrite E. Qed.

Lemma get_proc_run s pid p : procs s !! pid = Some p → get_proc pid s = Ok (p, s).
Proof. intros E. unfold get_proc, lift, deref. by rewrite E. Qed.

Lemma upd_proc_run s pid p f :
  procs s !! pid = Some p → upd_proc pid f s = Ok (tt, PTable (<[pid := f p]> (procs s)) (elems s) (asleep s)).
Proof. intros E. unfold upd_proc. by erewrite bind_run by (by apply get_proc_run). Qed.

(** A change of an entry that leaves its validity keeps the table. *)
Lemma upd_proc_ok s free kids pid p f a :
  table_ok s free kids → procs s !! pid = Some p → valid (f p) = valid p →
  table_ok (PTable (<[pid := f p]> (procs s)) (elems s) a) free kids.
Proof.
  intros [] Hp Hv. split; [|done..]. simpl. intros q Hq. destruct (ok_entries0 q Hq) as (pq & Eq & Vq).
  destruct (decide (pid = q)) as [<-|]; [|rewrite lookup_insert_ne by done; eauto].
  rewrite lookup_insert_eq. exists (f p). rewrite Hp in Eq. injection Eq as <-. by rewrite Hv.
Qed.

(** ** Allocation *)

Lemma process_table_get_spec s fs pid kids cur p :
  table_ok s (fs ++ [pid]) kids → procs s !! pid = Some p →
  ∃ h, process_table_get cur s = Ok (pid, PTable (<[pid := new_entry cur p]> (procs s)) h (asleep s)) ∧
       table_ok (PTable (<[pid := new_entry cur p]> (procs s)) h (asleep s)) fs (λ q, if q =? pid then [] else kids q).
Proof.
  intros H Hp. destruct H as [He Hf Hk Hr Hu H1 Hc].
  assert (Hpid : in_table pid) by (rewrite Forall_app, Forall_singleton in Hr; tauto).
  assert (Hnd : NoDup (fs ++ [pid])).
  { by eapply dlist_pids_nodup. }
  assert (Hnf : pid ∉ fs) by (rewrite NoDup_app in Hnd; intros ?; destruct Hnd as (_ & D & _); apply (D pid); set_solver).
  assert (Hv : valid p = false).
  { destruct (He pid Hpid) as (p' & E & V). rewrite Hp in E. injection E as <-. rewrite V.
    apply bool_decide_eq_false_2. set_solver. }
  rewrite fmap_app in Hf. simpl in Hf.
  destruct (list_pop_back_spec _ _ _ _ Hf) as (h1 & R1 & D1 & T1).
  destruct (Hc pid Hpid) as (_ & C1 & C2).
  destruct (list_init_spec h1 (children_of pid)) as (h2 & R2 & D2 & T2).
  { unfold NULL, children_of, process_table, CHILDREN_OFS, PROCESS_SIZE, in_table in *. lia. }
  { unfold list_tail, NULL, children_of, process_table, CHILDREN_OFS, PROCESS_SIZE, in_table in *. lia. }
  1,2: by rewrite (touches_alloc _ _ _ _ T1).
  exists h2. split.
  - unfold process_table_get. erewrite bind_run by (eapply on_elems_run, list_empty_spec, Hf).
    rewrite bool_decide_eq_false_2 by (by destruct (elem_of <$> fs)).
    erewrite bind_run by (eapply on_elems_run, R1). simpl.
    erewrite bind_run by (unfold lift; by rewrite entry_of_elem).
    erewrite bind_run by (by apply get_proc_run). rewrite Hv.
    erewrite bind_run by done. erewrite bind_run by (eapply on_elems_run, R2). simpl.
    by erewrite bind_run by done.
  - split; simpl.
    + intros q Hq. destruct (He q Hq) as (pq & Eq & Vq). destruct (decide (q = pid)) as [->|].
      * rewrite lookup_insert_eq. eexists. split; [done|]. simpl. by rewrite bool_decide_eq_true_2.
      * rewrite lookup_insert_ne by done. exists pq. split; [done|]. rewrite Vq. apply bool_decide_ext. set_solver.
    + eapply (dlist_frame (λ _ _, true)); [exact T2| |exact D1]. intros a Ha. 
      eapply (nodes_apart _ (children_of pid) fs []); [apply apart_sym, children_free_apart|exact free_not_elem|apply children_not_elem|set_solver|done].
    + intros q Hq Hqf. destruct (Z.eqb_spec q pid) as [->|]; [done|].
      assert (Hqf' : q ∉ fs ++ [pid]) by set_solver.
      eapply (dlist_frame (λ _ _, true)); [exact T2| |eapply (dlist_frame (λ _ _, true)); [exact T1| |by apply Hk]].
      * intros a Ha. eapply (nodes_apart _ (children_of pid) (kids q) []); [by apply children_apart|apply children_not_elem..|set_solver|done].
      * intros a Ha. eapply (nodes_apart _ free_list (kids q) fs); [apply children_free_apart|apply children_not_elem|exact free_not_elem| |done].
        intros k Hk1 Hk2. destruct (Hu q k Hq Hqf' Hk1). set_solver.
    + by apply Forall_app in Hr as [? _].
    + intros q k Hq Hqf. destruct (Z.eqb_spec q pid) as [->|]; [set_solver|].
      intros Hk'. destruct (Hu q k Hq) as [? ?]; set_solver.
    + intros a b k Ha Hb Haf Hbf. destruct (Z.eqb_spec a pid) as [->|], (Z.eqb_spec b pid) as [->|]; [done|set_solver..|].
      apply H1; set_solver.
    + intros q Hq. rewrite !(touches_alloc _ _ _ _ T2), !(touches_alloc _ _ _ _ T1). by apply Hc.
Qed.


(** Changing the children of one entry. *)
Definition with_kids (pid : Z) (l : list Z) (kids : Z → list Z) : Z → list Z := λ q, if q =? pid then l else kids q.

(** ** Release *)

Lemma process_table_free_spec s free kids cur pid p xs ys :
  table_ok s free kids → procs s !! pid = Some p → in_table cur → cur ∉ free → kids cur = xs ++ pid :: ys →
  ∃ h, process_table_free pid s = Ok (tt, PTable (<[pid := set_valid false p]> (procs s)) h (asleep s)) ∧
       table_ok (PTable (<[pid := set_valid false p]> (procs s)) h (asleep s)) (free ++ [pid]) (with_kids cur (xs ++ ys) kids).
Proof.
  intros [He Hf Hk Hr Hu H1 Hc] Hp Hcur Hcf Ek.
  destruct (Hu cur pid) as [Hpid Hpf]; [done..|rewrite Ek; set_solver|].
  assert (Hv : valid p = true).
  { destruct (He pid Hpid) as (p' & E & V). rewrite Hp in E. injection E as <-. rewrite V. by apply bool_decide_eq_true_2. }
  pose proof (Hk cur Hcur Hcf) as Hd. rewrite Ek, fmap_app in Hd. simpl in Hd.
  assert (Hnx : pid ∉ xs ++ ys).
  { pose proof (dlist_pids_nodup _ _ _ (Hk cur Hcur Hcf)) as N. rewrite Ek, NoDup_app, NoDup_cons in N.
    destruct N as (_ & D & N & _). rewrite elem_of_app. intros [Hx|]; [|done]. apply (D pid Hx). set_solver. }
  destruct (list_remove_spec _ _ _ _ _ Hd) as (h1 & R1 & D1 & T1). rewrite <- fmap_app in D1, T1.
  assert (Df1 : dlist h1 free_list (elem_of <$> free)).
  { eapply (dlist_frame (λ _ _, true)); [exact T1| |done]. intros a Ha.
    eapply (nodes_apart _ (children_of cur) free (xs ++ ys)); [apply apart_sym, children_free_apart|exact free_not_elem|apply children_not_elem| |done].
    intros k K1 K2. destruct (Hu cur k) as [_ ?]; [done..|rewrite Ek; set_solver|done]. }
  destruct (list_push_back_spec h1 free_list (elem_of <$> free) (elem_of pid)) as (h2 & R2 & D2 & T2).
  { done. } { rewrite (touches_alloc _ _ _ _ T1). by apply Hc. }
  { unfold elem_of, NULL, process_table, ELEM_OFS, PROCESS_SIZE, in_table in *. lia. }
  { intros Hx. apply Hpf, (elem_nodes pid free_list free); [exact free_not_elem|done]. }
  exists h2. split.
  - unfold process_table_free. erewrite bind_run by (by apply get_proc_run). rewrite Hv.
    erewrite bind_run by done. erewrite bind_run by done.
    erewrite bind_run by (eapply on_elems_run, R1). by erewrite on_elems_run by (exact R2).
  - assert (Hother : ∀ q, in_table q → q ∉ free → q ≠ pid → ∀ l, (q = cur ∧ l = xs ++ ys ∨ q ≠ cur ∧ l = kids q) →
      dlist h2 (children_of q) (elem_of <$> l)).
    { intros q Hq Hqf Hqp l Hl.
      assert (Hpl : pid ∉ l).
      { destruct Hl as [[-> ->]|[Hne ->]]; [done|]. intros Hin. apply Hne. apply (H1 q cur pid); [done..|rewrite Ek; set_solver]. }
      eapply (dlist_frame (λ _ _, true)); [exact T2| |].
      - intros a Ha. rewrite elem_of_cons. intros [->|Hb].
        + by apply Hpl, (elem_nodes pid (children_of q) l); [apply children_not_elem|].
        + revert Hb. eapply (nodes_apart _ free_list l free); [apply children_free_apart|apply children_not_elem|exact free_not_elem| |done].
          intros k K1 K2. assert (k ∈ kids q) by (destruct Hl as [[-> ->]|[_ ->]]; [rewrite Ek; set_solver|done]).
          by destruct (Hu q k).
      - destruct Hl as [[-> ->]|[Hne ->]]; [done|]. eapply (dlist_frame (λ _ _, true)); [exact T1| |by apply Hk].
        intros a Ha. eapply (nodes_apart _ (children_of cur) (kids q) (xs ++ ys)); [by apply children_apart|apply children_not_elem..| |done].
        intros k K1 K2. apply Hne, (H1 q cur k); [done..|rewrite Ek; set_solver]. }
    split; simpl.
    + intros q Hq. destruct (He q Hq) as (pq & Eq & Vq). destruct (decide (q = pid)) as [->|].
      * rewrite lookup_insert_eq. eexists. split; [done|]. simpl. symmetry. apply bool_decide_eq_false_2. set_solver.
      * rewrite lookup_insert_ne by done. exists pq. split; [done|]. rewrite Vq. apply bool_decide_ext. set_solver.
    + by rewrite fmap_app.
    + intros q Hq Hqf. apply Hother; [done|set_solver..|]. unfold with_kids. destruct (Z.eqb_spec q cur); auto.
    + rewrite Forall_app. split; [done|by apply Forall_singleton].
    + intros q k Hq Hqf. unfold with_kids. destruct (Z.eqb_spec q cur) as [->|Hne]; intros Hin.
      * destruct (Hu cur k) as [? ?]; [done..|rewrite Ek; set_solver|]. split; [done|]. set_solver.
      * destruct (Hu q k) as [? ?]; [done|set_solver|done|]. split; [done|]. rewrite elem_of_app, list_elem_of_singleton.
        intros [| ->]; [done|]. apply Hne, (H1 q cur pid); [done..|set_solver|done|done|rewrite Ek; set_solver].
    + intros a b k Ha Hb Haf Hbf. unfold with_kids. intros Hka Hkb.
      apply (H1 a b k); [done..|set_solver|set_solver| |];
        [destruct (Z.eqb_spec a cur) as [->|]|destruct (Z.eqb_spec b cur) as [->|]]; try done; rewrite Ek; set_solver.
    + intros q Hq. rewrite !(touches_alloc _ _ _ _ T2), !(touches_alloc _ _ _ _ T1). by apply Hc.
Qed.

(** A new child at the end of the list of its parent. *)
Lemma add_child_spec s free kids cur pid :
  table_ok s free kids → in_table cur → cur ∉ free → in_table pid → pid ∉ free →
  (∀ q, in_table q → q ∉ free → pid ∉ kids q) →
  ∃ h, on_elems (list_push_back (children_of cur) (elem_of pid)) s = Ok (tt, PTable (procs s) h (asleep s)) ∧
       table_ok (PTable (procs s) h (asleep s)) free (with_kids cur (kids cur ++ [pid]) kids).
Proof.
  intros [He Hf Hk Hr Hu H1 Hc] Hcur Hcf Hpid Hpf Hno.
  destruct (list_push_back_spec (elems s) (children_of cur) (elem_of <$> kids cur) (elem_of pid)) as (h & R & D & T).
  { by apply Hk. } { by apply Hc. } { unfold elem_of, NULL, process_table, ELEM_OFS, PROCESS_SIZE, in_table in *. lia. }
  { intros Hx. by eapply (Hno cur), elem_nodes; [..|done|apply children_not_elem|]. }
  exists h. split; [by erewrite on_elems_run by (exact R)|]. split; simpl; [done| | |done|..].
  - eapply (dlist_frame (λ _ _, true)); [exact T| |done]. intros a Ha. rewrite elem_of_cons. intros [->|Hb].
    + apply Hpf. by eapply elem_nodes; [exact free_not_elem|].
    + revert Hb. eapply (nodes_apart _ (children_of cur) free (kids cur)); [apply apart_sym, children_free_apart|exact free_not_elem|apply children_not_elem| |done].
      intros k K1 K2. by destruct (Hu cur k).
  - intros q Hq Hqf. unfold with_kids. destruct (Z.eqb_spec q cur) as [->|Hne]; [by rewrite fmap_app|].
    eapply (dlist_frame (λ _ _, true)); [exact T| |by apply Hk]. intros a Ha. rewrite elem_of_cons. intros [->|Hb].
    + by eapply (Hno q), elem_nodes; [..|apply children_not_elem|].
    + revert Hb. eapply (nodes_apart _ (children_of cur) (kids q) (kids cur)); [by apply children_apart|apply children_not_elem..| |done].
      intros k K1 K2. by apply Hne, (H1 q cur k).
  - intros q k Hq Hqf. unfold with_kids. destruct (Z.eqb_spec q cur) as [->|]; [|by apply Hu].
    rewrite elem_of_app, list_elem_of_singleton. intros [| ->]; [by apply (Hu cur)|done].
  - intros a b k Ha Hb Haf Hbf. unfold with_kids.
    destruct (Z.eqb_spec a cur) as [->|], (Z.eqb_spec b cur) as [->|]; [done|..|by apply H1];
      rewrite elem_of_app, list_elem_of_singleton.
    + intros [| ->] ?; [by apply (H1 cur b k)|by destruct (Hno b)].
    + intros ? [| ->]; [by apply (H1 a cur k)|by destruct (Hno a)].
  - intros q Hq. rewrite !(touches_alloc _ _ _ _ T). by apply Hc.
Qed.

(** ** One call *)

Definition thread_of (s : ptable) (pid th : Z) : Prop := ∃ p, procs s !! pid = Some p ∧ thread_ptr p = th.

Definition set_entry (s : ptable) (pid : Z) (p : process) (a : gset Z) : ptable := PTable (<[pid := p]> (procs s)) (elems s) a.

Lemma set_entry_again s pid p q a b : set_entry (set_entry s pid p a) pid q b = set_entry s pid q b.
Proof. unfold set_entry. simpl. by rewrite insert_insert_eq. Qed.

Lemma set_entry_get s pid p a : procs (set_entry s pid p a) !! pid = Some p.
Proof. apply lookup_insert_eq. Qed.

Lemma set_entry_ok s free kids pid p q a :
  table_ok s free kids → procs s !! pid = Some p → valid q = valid p → table_ok (set_entry s pid q a) free kids.
Proof. intros H Hp Hv. exact (upd_proc_ok s free kids pid p (λ _, q) a H Hp Hv). Qed.

Lemma thread_of_other s pid q p a th : thread_of s pid th → pid ≠ q → thread_of (set_entry s q p a) pid th.
Proof. intros (x & E & Et) Hne. exists x. split; [|done]. simpl. by rewrite lookup_insert_ne. Qed.

Lemma upd_run s pid p f : procs s !! pid = Some p → upd_proc pid f s = Ok (tt, set_entry s pid (f p) (asleep s)).
Proof. apply upd_proc_run. Qed.

Lemma put_run s pid p : put_proc pid p s = Ok (tt, set_entry s pid p (asleep s)).
Proof. done. Qed.

Lemma unblock_run s th : th ∈ asleep s → thread_unblock th s = Ok (tt, PTable (procs s) (elems s) (asleep s ∖ {[th]})).
Proof. intros H. unfold thread_unblock. erewrite bind_run by done. by rewrite (bool_decide_eq_true_2 _ H). Qed.

Lemma sleep_wake (a : gset Z) th : th ∉ a → ({[th]} ∪ a) ∖ {[th]} = a.
Proof. set_solver. Qed.

(** [process_exit] of a process without children whose parent is alive: a parent that waits is woken. *)
Definition exited (code : Z) (p : process) : process := set_running false (set_blocked false (set_code code p)).

Lemma process_exit_spec s pid code p th :
  procs s !! pid = Some p → dlist (elems s) (children_of pid) [] → parent_pid p ≠ -1 → parent_pid p ≠ pid →
  thread_of s (parent_pid p) th → (blocked p = true → th ∈ asleep s) →
  process_exit pid code s =
    Ok (tt, set_entry s pid (exited code p) (if blocked p then asleep s ∖ {[th]} else asleep s)).
Proof.
  intros Hp Hd Hpar Hne Hth Hsl. unfold process_exit. erewrite bind_run by (by apply upd_run).
  erewrite bind_run by (by eapply on_elems_run, list_empty_spec). simpl.
  erewrite bind_run by done. fold (set_entry s pid (set_code code p) (asleep s)).
  erewrite bind_run by (apply get_proc_run, set_entry_get). simpl.
  rewrite (proj2 (Z.eqb_neq _ _) Hpar). erewrite bind_run by done.
  erewrite bind_run by (apply get_proc_run, set_entry_get). simpl.
  destruct (blocked p) eqn:Eb.
  - destruct (thread_of_other _ _ pid (set_blocked false (set_code code p)) (asleep s) _ Hth Hne) as (q & Eq & Et).
    erewrite bind_run; last first.
    { erewrite bind_run by apply put_run. rewrite set_entry_again. erewrite bind_run by (apply get_proc_run; exact Eq).
      rewrite Et. apply unblock_run. exact (Hsl eq_refl). }
    rewrite (upd_run _ _ (set_blocked false (set_code code p))) by (apply lookup_insert_eq).
    unfold set_entry. simpl. by rewrite insert_insert_eq.
  - erewrite bind_run by done. rewrite (upd_run _ _ (set_code code p)) by (apply set_entry_get). rewrite set_entry_again.
    unfold exited. do 3 f_equal. destruct p; simpl in *. by subst.
Qed.

Lemma process_wait_begin_spec s cur th pid p :
  in_table pid → procs s !! pid = Some p →
  process_wait_begin cur th pid s =
    if valid p && (parent_pid p =? cur) then
      if running p then Ok (Waits pid, set_entry s pid (set_blocked true p) ({[th]} ∪ asleep s)) else Ok (Waits pid, s)
    else Ok (Done (-1), s).
Proof.
  intros Hr Hp. unfold process_wait_begin, in_table, MAX_PROCESSES in *.
  destruct (Z.ltb_spec pid 0); [lia|]. destruct (Z.ltb_spec (512 - 1) pid); [lia|]. simpl.
  erewrite bind_run by (by apply get_proc_run).
  destruct (valid p); simpl; [|done]. destruct (Z.eqb_spec (parent_pid p) cur); simpl; [|done].
  destruct (running p); [|done].
  erewrite bind_run; last first. { erewrite bind_run by (by apply upd_run). done. } done.
Qed.

Lemma process_wait_end_spec s free kids cur pid p xs ys :
  table_ok s free kids → procs s !! pid = Some p → in_table cur → cur ∉ free → kids cur = xs ++ pid :: ys → running p = false →
  ∃ s', process_wait_end pid s = Ok (return_code p, s') ∧ asleep s' = asleep s ∧
        table_ok s' (free ++ [pid]) (with_kids cur (xs ++ ys) kids) ∧ procs s' !! pid = Some (set_valid false p).
Proof.
  intros H Hp Hcur Hcf Ek Hr. edestruct process_table_free_spec as (h & R & T); [done..|].
  exists (PTable (<[pid := set_valid false p]> (procs s)) h (asleep s)).
  split_and!; [|done|exact T|simpl; by rewrite lookup_insert_eq].
  unfold process_wait_end. erewrite bind_run by (by apply get_proc_run). rewrite Hr.
  erewrite bind_run by done. by erewrite bind_run by (exact R).
Qed.

(** ** process_init *)

Definition cells (h : heap) : Prop :=
  is_Some (h !! list_head free_list) ∧ is_Some (h !! list_tail free_list) ∧
  ∀ pid, in_table pid → is_Some (h !! elem_of pid) ∧
    is_Some (h !! list_head (children_of pid)) ∧ is_Some (h !! list_tail (children_of pid)).

Lemma cells_touches S h h' : touches S h h' → cells h → cells h'.
Proof. intros T (C1 & C2 & C). split_and!; [..|intros pid Hp]; rewrite !(touches_alloc _ _ _ _ T); auto. Qed.

Definition entries (s : ptable) : Prop := ∀ pid, in_table pid → is_Some (procs s !! pid).

Lemma init_loop_spec i s xs :
  Z.of_nat i ≤ MAX_PROCESSES → dlist (elems s) free_list (elem_of <$> xs) → Forall (λ x, Z.of_nat i ≤ x) xs →
  cells (elems s) → entries s →
  ∃ s', init_loop i s = Ok (tt, s') ∧ asleep s' = asleep s ∧ cells (elems s') ∧ entries s' ∧
        dlist (elems s') free_list (elem_of <$> (xs ++ reverse (seqZ 0 (Z.of_nat i)))) ∧
        (∀ pid p, 0 ≤ pid < Z.of_nat i → procs s' !! pid = Some p → valid p = false) ∧
        (∀ pid, Z.of_nat i ≤ pid → procs s' !! pid = procs s !! pid).
Proof.
  revert s xs. induction i as [|i IH]; intros s xs Hi Hd Hx Hc He.
  { exists s. rewrite app_nil_r. split_and!; [done..|lia|done]. }
  assert (Hpid : in_table (Z.of_nat i)) by (unfold in_table; lia).
  destruct (He _ Hpid) as [p Hp].
  destruct (list_push_back_spec (elems s) free_list (elem_of <$> xs) (elem_of (Z.of_nat i))) as (h & R & D & T); [done|by apply Hc|..].
  { unfold elem_of, NULL, process_table, ELEM_OFS, PROCESS_SIZE, in_table in *. lia. }
  { intros Hin%elem_nodes; [|exact free_not_elem]. rewrite Forall_forall in Hx. specialize (Hx _ Hin). lia. }
  set (s1 := PTable (<[Z.of_nat i := set_valid false p]> (procs s)) h (asleep s)).
  destruct (IH s1 (xs ++ [Z.of_nat i])) as (s' & Rl & A & Hc' & He' & D' & V & Hk); [lia|simpl; by rewrite fmap_app|..].
  { rewrite Forall_app, Forall_singleton. split; [|lia]. eapply Forall_impl; [exact Hx|]. simpl. lia. }
  { by eapply cells_touches. }
  { intros q Hq. simpl. destruct (decide (q = Z.of_nat i)) as [->|]; [by rewrite lookup_insert_eq|].
    rewrite lookup_insert_ne by done. by apply He. }
  exists s'. split_and!; try done.
  - simpl. erewrite bind_run by (by apply upd_proc_run). by erewrite bind_run by (eapply on_elems_run, R).
  - rewrite seqZ_S, reverse_snoc. rewrite <- app_assoc in D'. exact D'.
  - intros q pq Hq Eq. destruct (decide (q = Z.of_nat i)) as [->|]; [|apply (V q); [lia|done]].
    rewrite Hk in Eq by lia. simpl in Eq. rewrite lookup_insert_eq in Eq. by injection Eq as <-.
  - intros q Hq. rewrite Hk by lia. simpl. by rewrite lookup_insert_ne by lia.
Qed.

(** [process_init] makes a table in which the first thread is process 0 and all others are free. *)
Definition first_free : list Z := reverse (seqZ 1 511).

Lemma process_init_spec s th :
  cells (elems s) → entries s →
  ∃ s', process_init th s = Ok (tt, s') ∧ table_ok s' first_free (λ _, []) ∧ thread_of s' 0 th ∧ asleep s' = asleep s.
Proof.
  intros Hc He.
  destruct (list_init_spec (elems s) free_list) as (h0 & R0 & D0 & T0); [done|done|apply Hc|apply Hc|].
  destruct (init_loop_spec 512 (PTable (procs s) h0 (asleep s)) []) as (s1 & R1 & A1 & C1 & E1 & D1 & V1 & _); [done|done|done|by eapply cells_touches|done|].
  rewrite app_nil_l in D1. change (seqZ 0 (Z.of_nat 512)) with (0 :: seqZ 1 511) in D1. rewrite reverse_cons in D1. fold first_free in D1.
  assert (Hall : ∀ pid, in_table pid ↔ pid ∈ first_free ++ [0]).
  { intros pid. unfold first_free, in_table, MAX_PROCESSES. rewrite elem_of_app, elem_of_reverse, elem_of_seqZ, list_elem_of_singleton. lia. }
  assert (H1 : table_ok s1 (first_free ++ [0]) (λ _, [])).
  { split; [|exact D1|..].
    - intros pid Hp. destruct (E1 pid Hp) as [p Ep]. exists p. split; [done|].
      rewrite (V1 pid p Hp Ep).
      symmetry. apply bool_decide_eq_false_2. intros Hn. by apply Hn, Hall.
    - intros pid Hp Hn. by apply Hall in Hp.
    - apply Forall_forall. intros x. apply Hall.
    - intros pid k Hp Hn. by apply Hall in Hp.
    - intros a b k Ha _ Hn. by apply Hall in Ha.
    - intros pid Hp. by apply C1. }
  destruct (E1 0) as [p Ep]; [done|].
  destruct (process_table_get_spec s1 first_free 0 _ 0 p H1 Ep) as (h & R & T).
  exists (set_entry (PTable (<[0 := new_entry 0 p]> (procs s1)) h (asleep s1)) 0 (set_thread th (new_entry 0 p)) (asleep s1)).
  split_and!; [| | |exact A1].
  - unfold process_init. erewrite bind_run by (eapply on_elems_run, R0). change (Z.to_nat MAX_PROCESSES) with 512%nat.
    erewrite bind_run by (exact R1). erewrite bind_run by (exact R). erewrite bind_run by done.
    by erewrite upd_run by (apply lookup_insert_eq).
  - eapply set_entry_ok; [|apply lookup_insert_eq|done]. destruct T as [T1 T2 T3 T4 T5 T6 T7]. split; [done|done| |done| | |done].
    + intros pid Hp Hn. specialize (T3 pid Hp Hn). by destruct (pid =? 0).
    + intros pid k _ _ Hk%not_elem_of_nil. done.
    + intros a b k _ _ _ _ Hk%not_elem_of_nil. done.
  - eexists. split; [apply set_entry_get|done].
Qed.

(** ** Starting *)

Definition running_child (s : ptable) (cur pid : Z) : Prop :=
  ∃ p, procs s !! pid = Some p ∧ parent_pid p = cur ∧ running p = true ∧ blocked p = false.

Section start.
Context (s : ptable) (fs : list Z) (pid : Z) (kids : Z → list Z) (cur th : Z).
Hypotheses (H : table_ok s (fs ++ [pid]) kids) (Hcur : in_table cur) (Hcf : cur ∉ fs ++ [pid])
  (Hth : thread_of s cur th) (Hsl : th ∉ asleep s).

Lemma parent_not_child : cur ≠ pid.
Proof. intros ->. apply Hcf. set_solver. Qed.

Lemma last_free_in_table : in_table pid.
Proof. pose proof (ok_free_range _ _ _ H) as F. rewrite Forall_forall in F. apply F. set_solver. Qed.

(** The entry of the new process while it starts. *)
Definition started (thread : Z) (p : process) : process := set_thread thread (new_entry cur p).
Definition loaded_entry (thread wd : Z) (ok : bool) (p : process) : process :=
  set_blocked false (set_loaded ok (set_running true (set_wd wd (started thread p)))).

Lemma started_table p thread page :
  procs s !! pid = Some p → page ≠ 0 → thread ≠ 0 →
  ∃ s0, process_execute_create cur page thread s = Ok (pid, set_entry s0 pid (started thread p) (asleep s)) ∧
    thread_of s0 cur th ∧ procs s0 !! pid = Some (new_entry cur p) ∧ asleep s0 = asleep s ∧ table_ok s0 fs (with_kids pid [] kids).
Proof.
  intros Hp Hpage Hthread. destruct (process_table_get_spec s fs pid kids cur p H Hp) as (h & R & T).
  pose proof last_free_in_table as Hpid.
  exists (PTable (<[pid := new_entry cur p]> (procs s)) h (asleep s)).
  split_and!; [|by apply (thread_of_other s cur pid _ (asleep s) th Hth), parent_not_child|apply lookup_insert_eq|done|exact T].
  unfold process_execute_create. rewrite (proj2 (Z.eqb_neq _ _) Hpage). erewrite bind_run by (exact R).
  destruct (Z.eqb_spec pid PID_ERROR); [unfold in_table, PID_ERROR in *; lia|].
  erewrite bind_run by (apply upd_run; apply lookup_insert_eq). by rewrite (proj2 (Z.eqb_neq _ _) Hthread).
Qed.

(** The parent sleeps before the child has been loaded, or finds it loaded; then the state is the same. *)
Lemma load_orders s0 p thread wd ok :
  procs s0 !! pid = Some (new_entry cur p) → thread_of s0 cur th → asleep s0 = asleep s →
  let s1 := set_entry s0 pid (started thread p) (asleep s) in
  let s3 := set_entry s0 pid (loaded_entry thread wd ok p) (asleep s) in
  ∃ s2 s2', process_execute_block th pid wd s1 = Ok (tt, s2) ∧ asleep s2 = {[th]} ∪ asleep s ∧
    start_process_loaded pid ok s2 = Ok (tt, s3) ∧
    start_process_loaded pid ok s1 = Ok (tt, s2') ∧ process_execute_block th pid wd s2' = Ok (tt, s3).
Proof.
  intros Hp Ht Ha s1 s3. pose proof parent_not_child as Hne.
  exists (set_entry s0 pid (set_blocked true (set_wd wd (started thread p))) ({[th]} ∪ asleep s)),
    (set_entry s0 pid (set_loaded ok (set_running true (started thread p))) (asleep s)).
  split_and!; try done; subst s1 s3.
  - unfold process_execute_block. erewrite bind_run by (by apply upd_run, set_entry_get). rewrite set_entry_again.
    erewrite bind_run by (apply get_proc_run, set_entry_get). simpl.
    erewrite bind_run by (by apply upd_run, set_entry_get). rewrite set_entry_again. done.
  - unfold start_process_loaded. erewrite bind_run by (by apply upd_run, set_entry_get). rewrite set_entry_again.
    erewrite bind_run by (by apply upd_run, set_entry_get). rewrite set_entry_again.
    erewrite bind_run by (apply get_proc_run, set_entry_get). simpl.
    erewrite bind_run by (by apply upd_run, set_entry_get). rewrite set_entry_again.
    destruct (thread_of_other s0 cur pid (loaded_entry thread wd ok p) ({[th]} ∪ asleep s) th Ht Hne) as (q & Eq & Et).
    erewrite bind_run by (apply get_proc_run; exact Eq). rewrite Et, unblock_run by (simpl; set_solver).
    unfold set_entry. simpl. by rewrite sleep_wake.
  - unfold start_process_loaded. erewrite bind_run by (by apply upd_run, set_entry_get). rewrite set_entry_again.
    erewrite bind_run by (by apply upd_run, set_entry_get). rewrite set_entry_again.
    by erewrite bind_run by (apply get_proc_run, set_entry_get).
  - unfold process_execute_block. erewrite bind_run by (by apply upd_run, set_entry_get). rewrite set_entry_again.
    by erewrite bind_run by (apply get_proc_run, set_entry_get).
Qed.

Lemma execute_end s0 p thread wd ok :
  procs s0 !! pid = Some (new_entry cur p) → table_ok s0 fs (with_kids pid [] kids) →
  let s3 := set_entry s0 pid (loaded_entry thread wd ok p) (asleep s) in
  table_ok s3 fs (with_kids pid [] kids) ∧
  if ok then ∃ s4, process_execute_end cur pid s3 = Ok (pid, s4) ∧ asleep s4 = asleep s ∧ running_child s4 cur pid ∧
    table_ok s4 fs (with_kids cur (kids cur ++ [pid]) (with_kids pid [] kids)) ∧ (∀ t, thread_of s0 cur t → thread_of s4 cur t)
  else process_execute_end cur pid s3 = Ok (PID_ERROR, s3).
Proof.
  intros Hp T s3. pose proof parent_not_child as Hne.
  assert (T3 : table_ok s3 fs (with_kids pid [] kids)) by (by eapply set_entry_ok).
  split; [done|]. destruct ok.
  - pose proof last_free_in_table as Hpid.
    assert (Hpf : pid ∉ fs).
    { destruct (ok_entries _ _ _ T3 pid Hpid) as (q & Eq & V). unfold s3 in Eq. rewrite set_entry_get in Eq. injection Eq as <-.
      symmetry in V. by apply bool_decide_eq_true in V. }
    destruct (add_child_spec s3 fs (with_kids pid [] kids) cur pid T3) as (h & R & T4); try done; [set_solver| |].
    { intros q Hq Hqf. unfold with_kids. destruct (Z.eqb_spec q pid) as [->|]; [set_solver|].
      intros Hin. destruct (ok_kids_used _ _ _ H q pid) as [_ Hn]; [done|set_solver|done|]. set_solver. }
    eexists. split_and!; [| | | |].
    + unfold process_execute_end. erewrite bind_run by (apply get_proc_run, set_entry_get). erewrite bind_run by done. simpl.
      by erewrite bind_run by (exact R).
    + done.
    + eexists. split; [apply set_entry_get|done].
    + unfold with_kids at 2 in T4. by rewrite (proj2 (Z.eqb_neq _ _) Hne) in T4.
    + intros t Ht. by apply (thread_of_other s0 cur pid _ (asleep s)).
  - unfold process_execute_end. erewrite bind_run by (apply get_proc_run, set_entry_get). by erewrite bind_run by done.
Qed.
End start.

(** ** A table *)

Definition empty_entry : process := Process 0 0 0 [] [] 0 0 false false false false false.

Definition boot_heap : heap := list_to_map
  (concat ((λ pid, (λ a, (a, ListElem 0 0)) <$> [elem_of pid; list_head (children_of pid); list_tail (children_of pid)]) <$> seqZ 0 512)
   ++ [(list_head free_list, ListElem 0 0); (list_tail free_list, ListElem 0 0)]).

Definition at_boot : ptable := PTable (list_to_map ((λ pid, (pid, empty_entry)) <$> seqZ 0 512)) boot_heap ∅.

Lemma all_in_table (P : Z → Prop) : Forall P (seqZ 0 512) → ∀ pid, in_table pid → P pid.
Proof. rewrite Forall_forall. intros H pid Hp. apply H, elem_of_seqZ. unfold in_table, MAX_PROCESSES in Hp. lia. Qed.

Definition present {A} (m : gmap Z A) (a : Z) : bool := match m !! a with Some _ => true | None => false end.

Lemma present_some {A} (m : gmap Z A) a : present m a = true → is_Some (m !! a).
Proof. unfold present. destruct (m !! a); [by eexists|done]. Qed.

Lemma boot_cells : cells boot_heap.
Proof.
  split_and!; [by apply present_some; vm_compute..|].
  assert (F : forallb (λ pid, present boot_heap (elem_of pid) && (present boot_heap (list_head (children_of pid)) && present boot_heap (list_tail (children_of pid)))) (seqZ 0 512) = true)
    by (vm_compute; reflexivity).
  apply all_in_table, Forall_forall. intros pid Hp. rewrite forallb_forall in F.
  specialize (F pid). rewrite !andb_true_iff in F.
  destruct F as (? & ? & ?); [by apply list_elem_of_In|]. split_and!; apply present_some; assumption.
Qed.

Lemma boot_entries : entries at_boot.
Proof.
  assert (F : forallb (present (procs at_boot)) (seqZ 0 512) = true) by (vm_compute; reflexivity).
  intros pid Hp. apply present_some. rewrite forallb_forall in F. apply F, list_elem_of_In, elem_of_seqZ.
  unfold in_table, MAX_PROCESSES in Hp. lia.
Qed.

Definition others_free : list Z := reverse (seqZ 2 510).

Lemma first_free_last : first_free = others_free ++ [1].
Proof. unfold first_free, others_free. change (seqZ 1 511) with (1 :: seqZ 2 510). apply reverse_cons. Qed.

Lemma zero_in_table : in_table 0.
Proof. done. Qed.

Lemma one_in_table : in_table 1.
Proof. done. Qed.

Lemma zero_not_free : 0 ∉ first_free.
Proof. unfold first_free. rewrite elem_of_reverse, elem_of_seqZ. lia. Qed.

(** Starting a child from the first process. *)
Definition start (cur th thread : Z) (ok : bool) : M Z :=
  pid ← process_execute_create cur 1 thread;
  process_execute_block th pid 0;;
  start_process_loaded pid ok;;
  process_execute_end cur pid.

(** ** Theorems *)

(** C8.  Starting a process.  [process_execute] takes the entry at the end of the free list; the
    parent sleeps until the child has been loaded, or goes on at once if the child
    was faster, with the same result: the pid with the child, running, at the end of the parent's
    children; or, if the load failed, PID_ERROR.  The table stays well formed. *)
Theorem process_execute_correct s fs pid kids cur th page thread wd ok :
  table_ok s (fs ++ [pid]) kids → in_table cur → cur ∉ fs ++ [pid] → thread_of s cur th → th ∉ asleep s →
  page ≠ 0 → thread ≠ 0 →
  ∃ s1 s2 s2' s3,
    process_execute_create cur page thread s = Ok (pid, s1) ∧
    process_execute_block th pid wd s1 = Ok (tt, s2) ∧ asleep s2 = {[th]} ∪ asleep s ∧
    start_process_loaded pid ok s2 = Ok (tt, s3) ∧
    start_process_loaded pid ok s1 = Ok (tt, s2') ∧ process_execute_block th pid wd s2' = Ok (tt, s3) ∧
    asleep s3 = asleep s ∧ table_ok s3 fs (with_kids pid [] kids) ∧
    if ok then ∃ s4, process_execute_end cur pid s3 = Ok (pid, s4) ∧ asleep s4 = asleep s ∧ running_child s4 cur pid ∧
      table_ok s4 fs (with_kids cur (kids cur ++ [pid]) (with_kids pid [] kids)) ∧ thread_of s4 cur th
    else process_execute_end cur pid s3 = Ok (PID_ERROR, s3).
Proof.
  intros H Hcur Hcf Hth Hsl Hpage Hthread.
  destruct (ok_entries _ _ _ H pid) as (p & Hp & _); [by eapply last_free_in_table|].
  destruct (started_table s fs pid kids cur th H Hcur Hcf Hth Hsl p thread page Hp Hpage Hthread) as (s0 & R & Ht & E & A & T).
  destruct (load_orders s fs pid kids cur th H Hcur Hcf Hth Hsl s0 p thread wd ok E Ht A) as (s2 & s2' & R1 & A1 & R2 & R3 & R4).
  destruct (execute_end s fs pid kids cur th H Hcur Hcf Hth Hsl s0 p thread wd ok E T) as [T3 Hend].
  eexists _, s2, s2', _. split_and!; [exact R|done..|].
  destruct ok; [|done]. destruct Hend as (s4 & Re & A4 & Hr & T4 & Hk). exists s4. split_and!; auto.
Qed.

Lemma process_execute_correct_witness :
  ∃ s s1 s2 s3 s4, process_init 1 at_boot = Ok (tt, s) ∧ process_execute_create 0 1 2 s = Ok (1, s1) ∧
    process_execute_block 1 1 0 s1 = Ok (tt, s2) ∧ start_process_loaded 1 true s2 = Ok (tt, s3) ∧
    process_execute_end 0 1 s3 = Ok (1, s4) ∧ running_child s4 0 1.
Proof.
  destruct (process_init_spec at_boot 1 boot_cells boot_entries) as (s & R & T & Ht & A).
  pose proof zero_not_free as Z0. rewrite first_free_last in T, Z0.
  assert (Hsl : 1 ∉ asleep s) by (rewrite A; apply not_elem_of_empty). pose proof zero_in_table as H0.
  destruct (process_execute_correct s others_free 1 (λ _, []) 0 1 1 2 0 true T H0 Z0 Ht Hsl)
    as (s1 & s2 & _ & s3 & R1 & R2 & _ & R3 & _ & _ & _ & _ & s4 & R4 & _ & Hr & _); [discriminate|discriminate|].
  exists s, s1, s2, s3, s4. exact (conj R (conj R1 (conj R2 (conj R3 (conj R4 Hr))))).
Defined.


(** The first process and its running child 1. *)
Lemma one_child : ∃ s, table_ok s others_free (with_kids 0 [1] (with_kids 1 [] (λ _, []))) ∧ thread_of s 0 1 ∧ asleep s = ∅ ∧ running_child s 0 1.
Proof.
  destruct (process_init_spec at_boot 1 boot_cells boot_entries) as (s & R & T & Ht & A).
  pose proof zero_not_free as Z0. rewrite first_free_last in T, Z0.
  destruct (ok_entries _ _ _ T 1 one_in_table) as (p & Hp & _).
  assert (Hsl : 1 ∉ asleep s) by (rewrite A; apply not_elem_of_empty). pose proof zero_in_table as H0.
  destruct (started_table s others_free 1 (λ _, []) 0 1 T H0 Z0 Ht Hsl p 2 1 Hp) as (s0 & _ & Ht0 & E & _ & T0); [discriminate|discriminate|].
  destruct (execute_end s others_free 1 (λ _, []) 0 1 T H0 Z0 Ht Hsl s0 p 2 0 true E T0) as (_ & s4 & _ & A4 & Hr & T4 & Hk).
  exists s4. exact (conj T4 (conj (Hk 1 Ht0) (conj (eq_trans A4 A) Hr))).
Qed.


(** Runs [m] after [process_init]. *)
Definition after_boot {A} (m : M A) : result A := '(_, s) ← process_init 1 at_boot; '(a, _) ← m s; Ok a.

(** [n] times an executable that cannot be loaded. *)
Fixpoint failed_execs (n : nat) : M unit :=
  match n with
  | O => mret tt
  | S n => pid ← process_execute_create 0 1 2; process_execute_block 1 pid 0;; start_process_loaded pid false;; 
      process_execute_end 0 pid;; process_exit pid (-1);; failed_execs n
  end.

