(* ===== verification/Syscall.v ===== *)
(** * userprog/syscall.c: the system calls on files and directories

    The state adds the descriptors of the current process, the system-wide table of open files,
    the user memory and what was written to the console to the state of [Directory].  User memory
    is the bytes a user program can reach, some of them read-only; the check of an
    address ([r_valid], [w_valid]) succeeds on these, as the page fault handler makes it.  One
    thread runs at a time, so [filesys_lock] is free; pinning pages is left to [Vm].

    A call returns a value to the program or ends the process ([Exits]).  The calls on processes and
    on mappings are what the handler hands on ([Delegates]). *)

From S2P Require Import Prelude Bytes Bitmap Vaddr Block Cache Inode Directory.

Definition MAX_FILES : Z := 16.
Definition MAX_GLOBAL_FILES : Z := 1024.
Definition EXIT_FAILURE : Z := -1.

Record sys (D : Type) : Type := Sys {
  fsys : dfs D;
  open_files : list (option Z);
  fds : list Z;                    (* process_current ()->files *)
  umem : gmap Z Z;
  uread_only : Z → bool;
  console : list Z;
}.
Arguments Sys {D} _ _ _ _ _ _.
Arguments fsys {D} _.
Arguments open_files {D} _.
Arguments fds {D} _.
Arguments umem {D} _.
Arguments uread_only {D} _ _.
Arguments console {D} _.

Inductive outcome (A : Type) : Type :=
  | Returns (a : A)
  | Exits (code : Z)
  | Delegates (number : Z) (args : list Z).
Arguments Returns {A} _.
Arguments Exits {A} _.
Arguments Delegates {A} _ _.

Section code.
Context {D : Type} {drv : BlockDriver D}.
Context (fuel : nat) (junk : list Z).    (* as in [Directory]; [fuel] also bounds user strings *)
Abbreviation M := (ST (sys D)).

Definition on_dfs {A} (m : ST (dfs D) A) : M A := λ s,
  match m (fsys s) with
  | Ok (a, d) => Ok (a, Sys d (open_files s) (fds s) (umem s) (uread_only s) (console s))
  | Err e => Err e
  end.
Definition on_files {A} (m : ST (fs D) A) : M A := on_dfs (on_fs m).

Definition set_open_file (i : nat) (o : option Z) : M unit :=
  modify (λ s, Sys (fsys s) (<[i := o]> (open_files s)) (fds s) (umem s) (uread_only s) (console s)).
Definition set_fd (fd : nat) (x : Z) : M unit :=
  modify (λ s, Sys (fsys s) (open_files s) (<[fd := x]> (fds s)) (umem s) (uread_only s) (console s)).

(** ** User memory *)

Definition r_valid (a : Z) : M bool :=
  gets (λ s, negb (a =? 0) && is_user_vaddr a && bool_decide (is_Some (umem s !! a))).

Definition w_valid (a : Z) : M bool :=
  gets (λ s, if (a =? 0) || is_kernel_vaddr a then false
             else bool_decide (is_Some (umem s !! a)) && negb (uread_only s a)).

Definition load_user (a : Z) : M Z := s ← gets id; lift (deref (umem s !! a)).

Definition store_user (a x : Z) : M unit :=
  s ← gets id;
  if bool_decide (is_Some (umem s !! a)) && negb (uread_only s a)
  then modify (λ s, Sys (fsys s) (open_files s) (fds s) (<[a := x]> (umem s)) (uread_only s) (console s))
  else fail MemoryFault.

Fixpoint store_bytes (a : Z) (bs : list Z) : M unit :=
  match bs with
  | [] => mret tt
  | b :: bs => store_user a b;; store_bytes (a + 1) bs
  end.

Fixpoint load_bytes (a : Z) (n : nat) : M (list Z) :=
  match n with
  | O => mret []
  | S n => b ← load_user a; bs ← load_bytes (a + 1) n; mret (b :: bs)
  end.

Fixpoint user_string (n : nat) (a : Z) : M (list Z) :=
  match n with
  | O => fail OutOfFuel
  | S n => c ← load_user a; if c =? 0 then mret [] else r ← user_string n (a + 1); mret (c :: r)
  end.

Definition getArg (argnum esp : Z) : M (outcome Z) :=
  let addr := u32 (esp + 4 * argnum) in
  r ← r_valid addr; w ← w_valid addr;
  if negb r || negb w then mret (Exits EXIT_FAILURE)
  else bs ← load_bytes addr 4; mret (Returns (get32 bs 0)).

(** ** Descriptors *)

(** The file of a descriptor, if it has one: what most handlers look up first. *)
Definition fd_file (fd : Z) : M (option Z) :=
  if (0 <=? fd) && (fd <? MAX_FILES) then
    s ← gets id;
    index ← lift (deref (fds s !! Z.to_nat fd));
    if index =? -1 then mret None else lift (deref (open_files s !! Z.to_nat index))
  else mret None.

Definition create_dir_entry (path initial_size : Z) (is_dir : bool) : M (outcome bool) :=
  ok ← r_valid path;
  if negb ok then mret (Exits EXIT_FAILURE)
  else
    p ← user_string fuel path;
    status ← on_dfs (filesys_create fuel junk p (i32 initial_size) is_dir);
    mret (Returns status).

Definition create (file initial_size : Z) : M (outcome bool) := create_dir_entry file initial_size false.
Definition mkdir (dir : Z) : M (outcome bool) := create_dir_entry dir 4 true.

Definition remove (file : Z) : M (outcome bool) :=
  ok ← r_valid file;
  if negb ok then mret (Exits EXIT_FAILURE)
  else p ← user_string fuel file; status ← on_dfs (filesys_remove fuel p); mret (Returns status).

(** The first descriptor from [fd] on that is free, or [MAX_FILES]. *)
Fixpoint free_fd (l : list Z) (fd : Z) : Z :=
  match l with
  | [] => fd
  | x :: l => if x =? -1 then fd else free_fd l (fd + 1)
  end.

(** The first free slot of [open_files] from [slot] on, or [MAX_GLOBAL_FILES]. *)
Fixpoint free_global (l : list (option Z)) (slot : Z) : Z :=
  match l with
  | [] => slot
  | Some _ :: l => free_global l (slot + 1)
  | None :: _ => slot
  end.

Definition open (file : Z) : M (outcome Z) :=
  ok ← r_valid file;
  if negb ok then mret (Exits EXIT_FAILURE)
  else
    s ← gets id;
    let fd := free_fd (drop 2 (fds s)) 2 in
    if fd =? MAX_FILES then mret (Returns EXIT_FAILURE)
    else
      p ← user_string fuel file;
      f ← on_dfs (filesys_open fuel p);
      match f with
      | None => mret (Returns EXIT_FAILURE)
      | Some f =>
          s ← gets id;
          let global_slot := free_global (open_files s) 0 in
          if global_slot =? MAX_GLOBAL_FILES then
            on_files (file_close (Some f));; mret (Returns EXIT_FAILURE)
          else
            set_open_file (Z.to_nat global_slot) (Some f);;
            set_fd (Z.to_nat fd) global_slot;;
            mret (Returns fd)
      end.

Definition filesize (fd : Z) : M Z :=
  o ← fd_file fd;
  match o with Some f => on_files (file_length f) | None => mret (-1) end.

(** How much of [length] bytes goes to the page of [buffer]. *)
Definition first_chunk (buffer length : Z) : Z :=
  if negb (pg_ofs buffer =? 0) then
    let c := PGSIZE - pg_ofs buffer in if i32 length <? c then i32 length else c
  else if Z.quot (i32 length) PGSIZE =? 0 then length mod PGSIZE else PGSIZE.

Definition next_chunk (length : Z) : Z :=
  if Z.quot (i32 length) PGSIZE =? 0 then length mod PGSIZE else PGSIZE.

(** The loop of [read]; every turn takes from [length], so that [length] turns are enough. *)
Fixpoint sys_read_loop (n : nat) (f buffer length to_read bytes_read : Z) : M (outcome Z) :=
  if 0 <? length then
    match n with
    | O => fail OutOfFuel
    | S n =>
        ok ← w_valid buffer;
        if negb ok then mret (Exits EXIT_FAILURE)
        else
          bs ← on_files (file_read f to_read);
          store_bytes buffer bs;;
          let chunk_read := Z.of_nat (List.length bs) in
          let bytes_read := i32 (bytes_read + chunk_read) in
          let length := u32 (length - to_read) in
          if 0 <? chunk_read then
            sys_read_loop n f (u32 (buffer + to_read)) length (next_chunk length) bytes_read
          else mret (Returns bytes_read)
    end
  else mret (Returns bytes_read).

Definition read (fd buffer length : Z) : M (outcome Z) :=
  o ← fd_file fd;
  match o with
  | None => mret (Returns EXIT_FAILURE)
  | Some f =>
      d ← on_files (file_is_dir f);
      if d : bool then mret (Returns EXIT_FAILURE)
      else sys_read_loop (Z.to_nat length) f buffer length (first_chunk buffer length) 0
  end.

Fixpoint sys_write_loop (n : nat) (f buffer length to_write bytes_written : Z) : M (outcome Z) :=
  if 0 <? length then
    match n with
    | O => fail OutOfFuel
    | S n =>
        ok ← r_valid buffer;
        if negb ok then mret (Exits EXIT_FAILURE)
        else
          bs ← load_bytes buffer (Z.to_nat to_write);
          chunk_written ← on_files (file_write (free_map_allocate DEPTH) f bs to_write);
          let bytes_written := i32 (bytes_written + chunk_written) in
          let length := u32 (length - to_write) in
          if 0 <? chunk_written then
            sys_write_loop n f (u32 (buffer + to_write)) length (next_chunk length) bytes_written
          else mret (Returns bytes_written)
    end
  else mret (Returns bytes_written).

(** The check of the pages of a buffer for the console. *)
Fixpoint check_pages (n : nat) (addr limit : Z) : M bool :=
  if addr <? limit then
    match n with
    | O => fail OutOfFuel
    | S n => ok ← r_valid addr; if ok : bool then check_pages n (u32 (addr + PGSIZE)) limit else mret false
    end
  else mret true.

Definition write (fd buffer length : Z) : M (outcome Z) :=
  if fd =? 1 then
    ok ← check_pages (Z.to_nat length) buffer (u32 (buffer + length));
    if negb ok then mret (Exits EXIT_FAILURE)
    else
      bs ← load_bytes buffer (Z.to_nat length);
      modify (λ s, Sys (fsys s) (open_files s) (fds s) (umem s) (uread_only s) (console s ++ bs));;
      mret (Returns length)
  else
    o ← fd_file fd;
    match o with
    | None => mret (Returns EXIT_FAILURE)
    | Some f =>
        d ← on_files (file_is_dir f);
        if d : bool then mret (Returns EXIT_FAILURE)
        else sys_write_loop (Z.to_nat length) f buffer length (first_chunk buffer length) 0
    end.

(** As the source is parsed: [return] takes the call of [file_seek] as its operand, so that it is
    reached for a null pointer only. *)
Definition seek (fd position : Z) : M unit :=
  if (0 <=? fd) && (fd <? MAX_FILES) then
    s ← gets id;
    index ← lift (deref (fds s !! Z.to_nat fd));
    if negb (index =? -1) then
      o ← lift (deref (open_files s !! Z.to_nat index));
      match o with
      | None => fail AssertFailed
      | Some _ => mret tt
      end
    else mret tt
  else mret tt.

Definition tell (fd : Z) : M Z :=
  o ← fd_file fd;
  match o with Some f => p ← on_files (file_tell f); mret (u32 p) | None => mret (u32 (-1)) end.

Definition close (fd : Z) : M unit :=
  if (0 <=? fd) && (fd <? MAX_FILES) then
    s ← gets id;
    index ← lift (deref (fds s !! Z.to_nat fd));
    (if negb (index =? -1) then
       o ← lift (deref (open_files s !! Z.to_nat index));
       on_files (file_close o);;
       set_open_file (Z.to_nat index) None
     else mret tt);;
    set_fd (Z.to_nat fd) (-1)
  else mret tt.

Fixpoint close_all (n : nat) (fd : Z) : M unit :=
  match n with
  | O => mret tt
  | S n => close fd;; close_all n (fd + 1)
  end.

Definition free_open_files : M unit := close_all (Z.to_nat MAX_FILES) 0.

(** ** Directories

    [chdir], [readdir] and [inumber] take a [struct file *] for a [struct dir *]; both begin with
    the inode and the position. *)

Definition chdir (dir : Z) : M (outcome bool) :=
  ok ← r_valid dir;
  if negb ok then mret (Exits EXIT_FAILURE)
  else
    p ← user_string fuel dir;
    f ← on_dfs (filesys_open fuel p);
    match f with
    | None => mret (Returns false)
    | Some f =>
        d ← on_files (file_is_dir f);
        if negb d then on_files (file_close (Some f));; mret (Returns false)
        else
          ino ← on_files (file_get_inode f);
          new_dir ← on_dfs (i ← on_fs (inode_reopen ino); dir_open (Some i));
          on_files (file_close (Some f));;
          old_dir ← gets (λ s, working_dir (fsys s));
          on_dfs (modify (λ s, DFS (base s) (dirs s) (default 0 new_dir)));;
          on_dfs (dir_close (if old_dir =? 0 then None else Some old_dir));;
          mret (Returns true)
    end.

(** [dir_readdir] on a file: the directory it is taken for begins at its position, and the
    position goes back to the file. *)
Definition file_readdir (f : Z) : M (option (list Z)) :=
  fl ← on_files (get_file f);
  on_dfs (put_dir f (Dir (f_inode fl) (pos fl)));;
  r ← on_dfs (dir_readdir fuel f);
  d ← on_dfs (get_dir f);
  on_dfs (free_dir f);;
  on_files (put_file f (set_pos (d_pos d) fl));;
  mret r.

Fixpoint sys_readdir_loop (n : nat) (f name : Z) : M bool :=
  match n with
  | O => fail OutOfFuel
  | S n =>
      r ← file_readdir f;
      match r with
      | None => mret false
      | Some nm =>
          store_bytes name (nm ++ [0]);;
          if bool_decide (nm = PATH_WD ∨ nm = PATH_PARENT) then sys_readdir_loop n f name else mret true
      end
  end.

Definition readdir (fd name : Z) : M (outcome bool) :=
  ok ← w_valid name;
  if negb ok then mret (Exits EXIT_FAILURE)
  else
    o ← fd_file fd;
    match o with
    | None => mret (Returns false)
    | Some f =>
        d ← on_files (file_is_dir f);
        if d : bool then status ← sys_readdir_loop fuel f name; mret (Returns status) else mret (Returns false)
    end.

Definition isdir (fd : Z) : M bool :=
  o ← fd_file fd;
  match o with Some f => on_files (file_is_dir f) | None => mret false end.

Definition inumber (fd : Z) : M Z :=
  o ← fd_file fd;
  match o with
  | Some f => ino ← on_files (file_get_inode f); on_files (inode_get_inumber ino)
  | None => mret (-1)
  end.

(** ** The handler *)

Definition SYS_HALT : Z := 0.
Definition SYS_EXIT : Z := 1.
Definition SYS_EXEC : Z := 2.
Definition SYS_WAIT : Z := 3.
Definition SYS_CREATE : Z := 4.
Definition SYS_REMOVE : Z := 5.
Definition SYS_OPEN : Z := 6.
Definition SYS_FILESIZE : Z := 7.
Definition SYS_READ : Z := 8.
Definition SYS_WRITE : Z := 9.
Definition SYS_SEEK : Z := 10.
Definition SYS_TELL : Z := 11.
Definition SYS_CLOSE : Z := 12.
Definition SYS_MMAP : Z := 13.
Definition SYS_MUNMAP : Z := 14.
Definition SYS_CHDIR : Z := 15.
Definition SYS_MKDIR : Z := 16.
Definition SYS_READDIR : Z := 17.
Definition SYS_ISDIR : Z := 18.
Definition SYS_INUMBER : Z := 19.

(** How many arguments the handler fetches for a call. *)
Definition arg_cnt (n : Z) : nat :=
  if bool_decide (n ∈ [SYS_HALT]) then 0
  else if bool_decide (n ∈ [SYS_READ; SYS_WRITE]) then 3
  else if bool_decide (n ∈ [SYS_CREATE; SYS_SEEK; SYS_MMAP; SYS_READDIR]) then 2
  else 1.

Fixpoint get_args (k : nat) (argnum esp : Z) : M (outcome (list Z)) :=
  match k with
  | O => mret (Returns [])
  | S k =>
      r ← getArg argnum esp;
      match r with
      | Returns x =>
          rest ← get_args k (argnum + 1) esp;
          mret (match rest with Returns xs => Returns (x :: xs) | r => r end)
      | Exits c => mret (Exits c)
      | Delegates a b => mret (Delegates a b)
      end
  end.

(** What goes into [eax]. *)
Definition eax {A} (f : A → Z) (m : M (outcome A)) : M (outcome (option Z)) :=
  r ← m;
  mret (match r with Returns a => Returns (Some (u32 (f a))) | Exits c => Exits c | Delegates a b => Delegates a b end).
Definition returning {A} (m : M A) : M (outcome A) := a ← m; mret (Returns a).
Definition no_eax (m : M unit) : M (outcome (option Z)) := m;; mret (Returns None).

Definition dispatch (n : Z) (args : list Z) : M (outcome (option Z)) :=
  match args with
  | [a; b; c] =>
      if n =? SYS_READ then eax id (read (i32 a) b c)
      else eax id (write (i32 a) b c)
  | [a; b] =>
      if n =? SYS_CREATE then eax bool_byte (create a b)
      else if n =? SYS_SEEK then no_eax (seek (i32 a) b)
      else if n =? SYS_READDIR then eax bool_byte (readdir (i32 a) b)
      else mret (Delegates n args)
  | [a] =>
      if n =? SYS_EXIT then mret (Exits (i32 a))
      else if n =? SYS_REMOVE then eax bool_byte (remove a)
      else if n =? SYS_OPEN then eax id (open a)
      else if n =? SYS_FILESIZE then eax id (returning (filesize (i32 a)))
      else if n =? SYS_TELL then eax id (returning (tell (i32 a)))
      else if n =? SYS_CLOSE then no_eax (close (i32 a))
      else if n =? SYS_CHDIR then eax bool_byte (chdir a)
      else if n =? SYS_MKDIR then eax bool_byte (mkdir a)
      else if n =? SYS_ISDIR then eax bool_byte (returning (isdir (i32 a)))
      else if n =? SYS_INUMBER then eax id (returning (inumber (i32 a)))
      else mret (Delegates n args)
  | _ => mret (Delegates n args)
  end.

Definition syscall_handler (esp : Z) : M (outcome (option Z)) :=
  ok ← w_valid esp;
  if negb ok then mret (Exits EXIT_FAILURE)
  else
    r ← getArg 0 esp;
    match r with
    | Exits c => mret (Exits c)
    | Delegates a b => mret (Delegates a b)
    | Returns n =>
        let n := i32 n in
        if (SYS_HALT <=? n) && (n <=? SYS_INUMBER) then
          args ← get_args (arg_cnt n) 1 esp;
          match args with
          | Returns args => dispatch n args
          | Exits c => mret (Exits c)
          | Delegates a b => mret (Delegates a b)
          end
        else mret (Exits EXIT_FAILURE)
    end.
End code.
