(* ===== verification/SyscallThms.v ===== *)
(** * What the system calls promise

    The descriptors of a process as a map, [read] as one read of the file, and [seek], which has no
    effect. *)

From S2P Require Import Prelude Bytes Bitmap Vaddr Block Cache CacheThms Inode InodeIO FileThms Directory DirThms Syscall.

(** ** Descriptors *)

Section descriptors.
Context {D : Type} {drv : BlockDriver D}.
Implicit Types s : sys D.

(** The file a descriptor stands for. *)
Definition descriptor s (fd : nat) : option Z :=
  match fds s !! fd with
  | Some idx => if idx =? -1 then None else open_files s !! Z.to_nat idx ≫= id
  | None => None
  end.

Record fds_ok s : Prop := {
  fd_cnt : Z.of_nat (length (fds s)) = MAX_FILES;
  fd_global : Z.of_nat (length (open_files s)) = MAX_GLOBAL_FILES;
  fd_open fd idx : fds s !! fd = Some idx → idx = -1 ∨ 0 ≤ idx ∧ ∃ f, open_files s !! Z.to_nat idx = Some (Some f);
  fd_own fd fd' idx : fds s !! fd = Some idx → fds s !! fd' = Some idx → idx ≠ -1 → fd = fd';
}.

Lemma free_fd_spec l k :
  let fd := free_fd l k in
  k ≤ fd ≤ k + Z.of_nat (length l)
  ∧ (fd < k + Z.of_nat (length l) → l !! Z.to_nat (fd - k) = Some (-1))
  ∧ ∀ j, k ≤ j < fd → ∃ x, l !! Z.to_nat (j - k) = Some x ∧ x ≠ -1.
Proof.
  revert k. induction l as [|x l IH]; intros k; cbn [free_fd length].
  - split_and!; [lia..|]. intros j Hj. lia.
  - destruct (Z.eqb_spec x (-1)) as [->|Hx].
    + split_and!; [lia|lia| |intros j Hj; lia]. intros _. by rewrite Z.sub_diag.
    + destruct (IH (k + 1)) as (H1 & H2 & H3). split_and!; [lia|lia| |].
      * intros Hlt. rewrite <- H2 by lia. replace (Z.to_nat (free_fd l (k + 1) - k)) with (S (Z.to_nat (free_fd l (k + 1) - (k + 1)))) by lia. done.
      * intros j Hj. destruct (decide (j = k)) as [->|Hne]; [rewrite Z.sub_diag; by exists x|].
        destruct (H3 j) as (y & Hy & Hy'); [lia|]. exists y. split; [|done].
        replace (Z.to_nat (j - k)) with (S (Z.to_nat (j - (k + 1)))) by lia. done.
Qed.

Lemma free_global_spec l k :
  k ≤ free_global l k ≤ k + Z.of_nat (length l)
  ∧ (free_global l k < k + Z.of_nat (length l) → l !! Z.to_nat (free_global l k - k) = Some None).
Proof.
  revert k. induction l as [|[f|] l IH]; intros k; cbn [free_global length].
  - split; lia.
  - destruct (IH (k + 1)) as (H1 & H2). split; [lia|]. intros Hlt. rewrite <- H2 by lia.
    replace (Z.to_nat (free_global l (k + 1) - k)) with (S (Z.to_nat (free_global l (k + 1) - (k + 1)))) by lia. done.
  - split; [lia|]. intros _. by rewrite Z.sub_diag.
Qed.

(** Binding a free descriptor to a free slot. *)
Definition bind_fd (fd : nat) (slot f : Z) s : sys D :=
  Sys (fsys s) (<[Z.to_nat slot := Some f]> (open_files s)) (<[fd := slot]> (fds s)) (umem s) (uread_only s) (console s).

Lemma bind_fd_ok s fd slot f :
  fds_ok s → fds s !! fd = Some (-1) → 0 ≤ slot → open_files s !! Z.to_nat slot = Some None →
  fds_ok (bind_fd fd slot f s) ∧ ∀ k, descriptor (bind_fd fd slot f s) k = if decide (k = fd) then Some f else descriptor s k.
Proof.
  intros [H1 H2 H3 H4] Hfd Hs0 Hslot. pose proof (lookup_lt_Some _ _ _ Hfd) as Hl1. pose proof (lookup_lt_Some _ _ _ Hslot) as Hl2.
  assert (Hother : ∀ k idx, k ≠ fd → fds s !! k = Some idx → idx ≠ -1 → Z.to_nat idx ≠ Z.to_nat slot).
  { intros k idx _ Hk Hi Heq. destruct (H3 k idx Hk) as [?|[_ [g Hg]]]; [done|]. rewrite Heq, Hslot in Hg. done. }
  assert (Hothers : ∀ k idx, fds s !! k = Some idx → idx = slot → idx = -1).
  { intros k idx Hk ->. destruct (H3 k slot Hk) as [?|[_ [g Hg]]]; [done|]. by rewrite Hslot in Hg. }
  split; [constructor|]; cbn [fds open_files bind_fd].
  - by rewrite length_insert.
  - by rewrite length_insert.
  - intros k idx Hk. apply list_lookup_insert_Some in Hk as [(-> & <- & _)|[Hne Hk]].
    + right. split; [done|]. exists f. by apply list_lookup_insert_eq.
    + destruct (H3 k idx Hk) as [?|[H0 [g Hg]]]; [by left|right]. split; [done|]. exists g.
      rewrite list_lookup_insert_ne; [done|]. intros Heq. rewrite <- Heq, Hslot in Hg. done.
  - intros k k' idx Hk Hk' Hi.
    apply list_lookup_insert_Some in Hk as [(-> & <- & _)|[Hne Hk]];
      apply list_lookup_insert_Some in Hk' as [(-> & Heq & _)|[Hne' Hk']]; try done.
    + by pose proof (Hothers _ _ Hk' eq_refl).
    + subst idx. by pose proof (Hothers _ _ Hk eq_refl).
    + by eapply H4.
  - intros k. unfold descriptor. cbn [fds open_files bind_fd]. case_decide as Hk; [subst k|].
    + rewrite list_lookup_insert_eq by done. destruct (Z.eqb_spec slot (-1)); [lia|]. by rewrite list_lookup_insert_eq.
    + rewrite list_lookup_insert_ne by done. destruct (fds s !! k) as [idx|] eqn:Ek; [|done].
      destruct (Z.eqb_spec idx (-1)); [done|]. rewrite list_lookup_insert_ne; [done|]. intros Heq. by apply (Hother k idx).
Qed.

(** Closing a descriptor. *)
Definition unbind_fd (d : dfs D) (fd : nat) (idx : Z) s : sys D :=
  Sys d (<[Z.to_nat idx := None]> (open_files s)) (<[fd := -1]> (fds s)) (umem s) (uread_only s) (console s).

Lemma unbind_fd_ok s d fd idx :
  fds_ok s → fds s !! fd = Some idx → idx ≠ -1 →
  fds_ok (unbind_fd d fd idx s) ∧ ∀ k, descriptor (unbind_fd d fd idx s) k = if decide (k = fd) then None else descriptor s k.
Proof.
  intros [H1 H2 H3 H4] Hfd Hidx. pose proof (lookup_lt_Some _ _ _ Hfd) as Hl1.
  destruct (H3 fd idx Hfd) as [?|[H0 [f Hf]]]; [done|].
  assert (Hother : ∀ k idx', k ≠ fd → fds s !! k = Some idx' → idx' ≠ -1 → Z.to_nat idx' ≠ Z.to_nat idx).
  { intros k idx' Hk Hk' Hi Heq. destruct (H3 k idx' Hk') as [?|[H0' _]]; [done|]. apply Hk, (H4 k fd idx); [|done|done].
    by replace idx with idx' by lia. }
  split; [constructor|]; cbn [fds open_files unbind_fd].
  - by rewrite length_insert.
  - by rewrite length_insert.
  - intros k idx' Hk. apply list_lookup_insert_Some in Hk as [(-> & <- & _)|[Hne Hk]]; [by left|].
    destruct (decide (idx' = -1)) as [|Hi]; [by left|]. destruct (H3 k idx' Hk) as [?|[H0' [g Hg]]]; [done|right].
    split; [done|]. exists g. rewrite list_lookup_insert_ne; [done|]. intros Heq. by apply (Hother k idx').
  - intros k k' idx' Hk Hk' Hi.
    apply list_lookup_insert_Some in Hk as [(-> & <- & _)|[Hne Hk]]; [done|].
    apply list_lookup_insert_Some in Hk' as [(-> & <- & _)|[Hne' Hk']]; [done|]. by eapply H4.
  - intros k. unfold descriptor. cbn [fds open_files unbind_fd]. case_decide as Hk; [subst k|].
    + by rewrite list_lookup_insert_eq.
    + rewrite list_lookup_insert_ne by done. destruct (fds s !! k) as [idx'|] eqn:Ek; [|done].
      destruct (Z.eqb_spec idx' (-1)); [done|]. rewrite list_lookup_insert_ne; [done|]. intros Heq. by apply (Hother k idx').
Qed.

Definition with_dfs (d : dfs D) s : sys D := Sys d (open_files s) (fds s) (umem s) (uread_only s) (console s).

Lemma open_spec fuel file s p f d' :
  fds_ok s → r_valid file s = Ok (true, s) → user_string fuel file s = Ok (p, s) →
  filesys_open fuel p (fsys s) = Ok (Some f, d') →
  let fd := free_fd (drop 2 (fds s)) 2 in
  let slot := free_global (open_files s) 0 in
  fd < MAX_FILES → slot < MAX_GLOBAL_FILES →
  open fuel file s = Ok (Returns fd, bind_fd (Z.to_nat fd) slot f (with_dfs d' s))
  ∧ 2 ≤ fd ∧ fds s !! Z.to_nat fd = Some (-1) ∧ (∀ k : nat, 2 ≤ Z.of_nat k < fd → descriptor s k ≠ None)
  ∧ open_files s !! Z.to_nat slot = Some None.
Proof.
  intros Hok Hv Hstr Hf fd slot Hfd Hslot. destruct Hok as [H1 H2 H3 _].
  destruct (free_fd_spec (drop 2 (fds s)) 2) as (F1 & F2 & F3). fold fd in F1, F2, F3. rewrite length_drop in *.
  destruct (free_global_spec (open_files s) 0) as (G1 & G2). fold slot in G1, G2. rewrite Z.sub_0_r in G2.
  assert (Hfree : fds s !! Z.to_nat fd = Some (-1)).
  { specialize (F2 ltac:(unfold MAX_FILES in *; lia)). rewrite lookup_drop in F2. by replace (2 + Z.to_nat (fd - 2))%nat with (Z.to_nat fd) in F2 by lia. }
  split_and!; [|lia|done| |apply G2; lia].
  - unfold open, mbind, st_bind. rewrite Hv. cbn [negb]. unfold gets. cbn [id]. fold fd.
    destruct (Z.eqb_spec fd MAX_FILES); [lia|]. rewrite Hstr. unfold on_dfs at 1. rewrite Hf. cbn [open_files]. fold slot.
    destruct (Z.eqb_spec slot MAX_GLOBAL_FILES); [lia|]. done.
  - intros k Hk. destruct (F3 (Z.of_nat k)) as (x & Hx & Hx'); [lia|]. rewrite lookup_drop in Hx.
    replace (2 + Z.to_nat (Z.of_nat k - 2))%nat with k in Hx by lia. unfold descriptor. rewrite Hx.
    destruct (Z.eqb_spec x (-1)); [done|]. destruct (H3 k x Hx) as [?|[_ [g Hg]]]; [done|]. by rewrite Hg.
Qed.

Lemma fd_file_spec s (fd : nat) :
  fds_ok s → Z.of_nat fd < MAX_FILES → fd_file (Z.of_nat fd) s = Ok (descriptor s fd, s).
Proof.
  intros [H1 H2 H3 _] Hfd. unfold fd_file. rewrite (proj2 (Z.leb_le _ _)), (proj2 (Z.ltb_lt _ _)) by lia. cbn [andb].
  unfold mbind, st_bind, gets. cbn [id]. rewrite Nat2Z.id.
  destruct (lookup_lt_is_Some_2 (fds s) fd) as [idx Hi]; [lia|]. unfold descriptor. rewrite Hi. cbn [lift deref].
  destruct (Z.eqb_spec idx (-1)); [done|]. destruct (H3 fd idx Hi) as [?|[_ [f Hf]]]; [done|]. by rewrite Hf.
Qed.

Lemma close_spec s (fd : nat) f d' :
  fds_ok s → Z.of_nat fd < MAX_FILES → descriptor s fd = Some f →
  on_fs (file_close (Some f)) (fsys s) = Ok (tt, d') →
  ∃ idx, fds s !! fd = Some idx ∧ idx ≠ -1 ∧ open_files s !! Z.to_nat idx = Some (Some f)
    ∧ close (Z.of_nat fd) s = Ok (tt, unbind_fd d' fd idx s).
Proof.
  intros Hok Hfd Hd Hc. unfold descriptor in Hd. destruct (fds s !! fd) as [idx|] eqn:Ei; [|done].
  destruct (Z.eqb_spec idx (-1)) as [|Hne]; [done|]. destruct (open_files s !! Z.to_nat idx) as [[g|]|] eqn:Eo; try done.
  injection Hd as ->. exists idx. split_and!; try done. unfold close.
  rewrite (proj2 (Z.leb_le _ _)), (proj2 (Z.ltb_lt _ _)) by lia. cbn [andb]. unfold mbind, st_bind, gets. cbn [id].
  rewrite Nat2Z.id, Ei. cbn [lift deref]. destruct (Z.eqb_spec idx (-1)); [done|]. cbn [negb]. rewrite Eo. cbn [lift deref].
  unfold on_files, on_dfs. rewrite Hc. done.
Qed.

Lemma close_free s (fd : nat) :
  fds_ok s → Z.of_nat fd < MAX_FILES → descriptor s fd = None → close (Z.of_nat fd) s = Ok (tt, s).
Proof.
  intros [H1 H2 H3 _] Hfd Hd. unfold close. rewrite (proj2 (Z.leb_le _ _)), (proj2 (Z.ltb_lt _ _)) by lia. cbn [andb].
  unfold mbind, st_bind, gets. cbn [id]. rewrite Nat2Z.id.
  destruct (lookup_lt_is_Some_2 (fds s) fd) as [idx Hi]; [lia|]. unfold descriptor in Hd. rewrite Hi in *. cbn [lift deref].
  destruct (Z.eqb_spec idx (-1)) as [Em|Hne]; [|destruct (H3 fd idx Hi) as [?|[_ [f Hf]]]; [done|by rewrite Hf in Hd]].
  cbn [negb]. subst idx. unfold set_fd, modify, mret, st_ret. rewrite list_insert_id by done. by destruct s.
Qed.
End descriptors.

(** ** Reading *)

(** User memory after bytes are stored in it. *)
Fixpoint store_map (a : Z) (bs : list Z) (mem : gmap Z Z) : gmap Z Z :=
  match bs with
  | [] => mem
  | b :: bs => store_map (a + 1) bs (<[a := b]> mem)
  end.

Lemma store_map_lookup a bs mem x :
  store_map a bs mem !! x = if decide (a ≤ x < a + Z.of_nat (length bs)) then bs !! Z.to_nat (x - a) else mem !! x.
Proof.
  revert a mem. induction bs as [|b bs IH]; intros a mem; cbn [store_map length].
  - by rewrite decide_False by lia.
  - rewrite IH. destruct (decide (x = a)) as [->|Hne].
    + rewrite decide_False, decide_True, lookup_insert_eq, Z.sub_diag by lia. done.
    + rewrite lookup_insert_ne by done. repeat case_decide; try lia; try done.
      by replace (Z.to_nat (x - a)) with (S (Z.to_nat (x - (a + 1)))) by lia.
Qed.

Lemma store_map_app a b1 b2 mem : store_map a (b1 ++ b2) mem = store_map (a + Z.of_nat (length b1)) b2 (store_map a b1 mem).
Proof.
  revert a mem. induction b1 as [|b b1 IH]; intros a mem; cbn [store_map app length]; [by rewrite Z.add_0_r|].
  rewrite IH. f_equal. lia.
Qed.

(** A buffer the process can write. *)
Definition writable {D} (s : sys D) (buffer len : Z) : Prop :=
  0 < buffer ∧ buffer + len ≤ PHYS_BASE
  ∧ ∀ a, buffer ≤ a < buffer + len → is_Some (umem s !! a) ∧ uread_only s a = false.

Section reads.
Context {D : Type} {drv : BlockDriver D} {laws : BlockDriverLaws D}.
Implicit Types s : sys D.

Definition with_umem (mem : gmap Z Z) s : sys D := Sys (fsys s) (open_files s) (fds s) mem (uread_only s) (console s).

Lemma store_bytes_spec bs a s :
  (∀ x, a ≤ x < a + Z.of_nat (length bs) → is_Some (umem s !! x) ∧ uread_only s x = false) →
  store_bytes a bs s = Ok (tt, with_umem (store_map a bs (umem s)) s).
Proof.
  revert a s. induction bs as [|b bs IH]; intros a s Hw; cbn [store_bytes store_map length] in *; [by destruct s|].
  destruct (Hw a) as [Hm Hr]; [lia|]. unfold store_user, mbind, st_bind, gets, id. rewrite bool_decide_true, Hr by done.
  cbn [negb andb]. unfold modify. rewrite IH; [done|]. intros x Hx. cbn [umem uread_only]. destruct (Hw x) as [Hm' Hr']; [lia|].
  split; [|done]. destruct (decide (x = a)) as [->|]; [rewrite lookup_insert_eq; by eexists|by rewrite lookup_insert_ne].
Qed.

(** An open file, with what its reads need. *)
Record open_file (n : Z) (m : Z → list Z) s (f : Z) (fl : file) (i : inode) : Prop := {
  of_holds : holds n m (fcache (base (fsys s)));
  of_file : files (base (fsys s)) !! f = Some fl;
  of_inode : inodes (base (fsys s)) !! f_inode fl = Some i;
  of_ok : file_ok m n (i_sector i);
}.

(** After a read: the cache, the position and the user memory. *)
Definition after_read (f : Z) (fl : file) (data : list Z) (buffer : Z) (c : cache D) s : sys D :=
  Sys (DFS (with_files (<[f := set_pos (pos fl + Z.of_nat (length data)) fl]> (files (base (fsys s)))) (with_cache c (base (fsys s))))
        (dirs (fsys s)) (working_dir (fsys s)))
    (open_files s) (fds s) (store_map buffer data (umem s)) (uread_only s) (console s).

Lemma after_read_open n m s f fl i data buffer c :
  open_file n m s f fl i → holds n m c →
  open_file n m (after_read f fl data buffer c s) f (set_pos (pos fl + Z.of_nat (length data)) fl) i.
Proof.
  intros [H1 H2 H3 H4] Hh. constructor; try done; simpl; [apply lookup_insert_eq|by destruct fl].
Qed.

Lemma after_read_app f fl d1 d2 buffer c1 c2 s :
  after_read f (set_pos (pos fl + Z.of_nat (length d1)) fl) d2 (buffer + Z.of_nat (length d1)) c2 (after_read f fl d1 buffer c1 s)
  = after_read f fl (d1 ++ d2) buffer c2 s.
Proof.
  unfold after_read, with_files, with_cache.
  cbn [fsys base dirs working_dir fcache inodes open_inodes files free_map free_map_file next_ptr mallocs open_files fds umem uread_only console].
  rewrite insert_insert_eq, store_map_app, length_app, Nat2Z.inj_add. destruct fl; simpl. do 4 f_equal. f_equal. lia.
Qed.

Lemma after_read_nil f fl buffer s :
  files (base (fsys s)) !! f = Some fl → after_read f fl [] buffer (fcache (base (fsys s))) s = s.
Proof.
  intros Hf. unfold after_read, with_files, with_cache. simpl. rewrite Z.add_0_r.
  replace (set_pos (pos fl) fl) with fl by (by destruct fl). rewrite insert_id by done.
  destruct s as [[[] ? ?] ? ? ? ? ?]. done.
Qed.

Lemma chunk_bounds buffer len :
  0 < len < 2 ^ 31 → 1 ≤ first_chunk buffer len ≤ len ∧ 1 ≤ next_chunk len ≤ len.
Proof.
  intros Hl. assert (Hn : 1 ≤ next_chunk len ≤ len).
  { unfold next_chunk, PGSIZE. rewrite i32_small by (unfold_ints; lia). rewrite Z.quot_div_nonneg by lia.
    destruct (Z.eqb_spec (len / 4096) 0) as [E|E].
    - rewrite Z.mod_small by (apply Z.div_small_iff in E; lia). lia.
    - assert (0 < len / 4096) by (pose proof (Z.div_pos len 4096); lia). pose proof (Z.mul_div_le len 4096). lia. }
  split; [|done]. unfold first_chunk. fold (next_chunk len). destruct (negb (pg_ofs buffer =? 0)); [|done].
  rewrite pg_ofs_mod, i32_small by (unfold_ints; lia). pose proof (Z.mod_pos_bound buffer PGSIZE ltac:(done)).
  destruct (Z.ltb_spec len (PGSIZE - buffer mod PGSIZE)); lia.
Qed.

Lemma writable_next s buffer len c d f fl ca :
  writable s buffer len → 0 ≤ c ≤ len → writable (after_read f fl d buffer ca s) (buffer + c) (len - c).
Proof.
  intros (H1 & H2 & H3) Hc. split; [lia|]. split; [lia|]. intros a Ha. destruct (H3 a) as [Hm Hr]; [lia|].
  split; [|done]. simpl. rewrite store_map_lookup. case_decide; [|done]. apply lookup_lt_is_Some. lia.
Qed.

Lemma length_file_bytes n m i : file_ok m n (i_sector i) →
  Z.of_nat (length (file_bytes m (i_sector i))) = i_length (m (i_sector i)) ∧ 0 ≤ i_length (m (i_sector i)).
Proof. intros Hf. destruct (fo_length _ _ _ Hf). unfold file_bytes. rewrite length_slice. lia. Qed.

Lemma take_split {A} (l : list A) c k : (c ≤ k)%nat → take k l = take c l ++ take (k - c) (drop c l).
Proof.
  intros Hc. rewrite <- (take_drop c l) at 1. destruct (decide (c ≤ length l)%nat).
  - rewrite take_app_ge, length_take by (rewrite length_take; lia). f_equal. f_equal. lia.
  - rewrite (drop_ge l) by lia. rewrite take_nil, !app_nil_r, !take_ge; [done|lia|]. rewrite length_take. lia.
Qed.

Section loop.
Context (n : Z) (m : Z → list Z) (f : Z) (i : inode).
Abbreviation bytes := (file_bytes m (i_sector i)).

Lemma chunk_read_spec s fl size buffer len :
  open_file n m s f fl i → may_read (i_length (m (i_sector i))) size (pos fl) → size ≤ len → writable s buffer len →
  let data := take (Z.to_nat size) (drop (Z.to_nat (pos fl)) bytes) in
  ∃ c', (bs ← on_files (file_read f size); store_bytes buffer bs;; mret bs) s
      = Ok (data, after_read f fl data buffer c' s) ∧ holds n m c'.
Proof.
  intros [H1 H2 H3 H4] Hr Hs (W1 & W2 & W3) data.
  destruct (inode_read_at_spec n m (base (fsys s)) _ i size (pos fl) H1 H3 H4 Hr) as (c' & E & Hh). fold data in E.
  assert (Hd : Z.of_nat (length data) ≤ size) by (unfold data; destruct Hr; rewrite length_take; lia).
  exists c'. split; [|done]. unfold mbind, st_bind, on_files, on_dfs, on_fs, file_read. unfold mbind, st_bind, get_file.
  rewrite H2. cbn [lift deref]. rewrite E. unfold put_file, modify, mret, st_ret.
  rewrite i32_small by (unfold_ints; destruct Hr; lia).
  rewrite store_bytes_spec; [done|]. intros x Hx. cbn [umem uread_only]. apply W3. lia.
Qed.

Lemma sys_read_loop_spec k s fl buffer len chunk acc :
  open_file n m s f fl i → 0 ≤ len < 2 ^ 31 → len ≤ Z.of_nat k → (0 < len → 1 ≤ chunk ≤ len) → writable s buffer len →
  may_read (i_length (m (i_sector i))) len (pos fl) → 0 ≤ acc → acc + len < 2 ^ 31 →
  let data := take (Z.to_nat len) (drop (Z.to_nat (pos fl)) bytes) in
  ∃ c', sys_read_loop k f buffer len chunk acc s
      = Ok (Returns (acc + Z.of_nat (length data)), after_read f fl data buffer c' s) ∧ holds n m c'.
Proof.
  revert s fl buffer len chunk acc. induction k as [|k IH]; intros s fl buffer len chunk acc Hof Hlen Hk Hch Hw Hr Ha Hal data;
    cbn [sys_read_loop]; destruct (Z.ltb_spec 0 len) as [Hpos|Hz]; try lia.
  1, 3: assert (len = 0) as -> by lia; exists (fcache (base (fsys s))); split; [|apply Hof]; unfold data;
    change (Z.to_nat 0) with 0%nat; rewrite take_0, after_read_nil by apply Hof; simpl; by rewrite Z.add_0_r.
  specialize (Hch Hpos). pose proof (Hw) as (W1 & W2 & W3). destruct (W3 buffer) as [Wm Wr]; [lia|].
  destruct (length_file_bytes n m i) as [Hfl Hfl0]; [apply Hof|]. set (flen := i_length (m (i_sector i))) in *.
  assert (Hr1 : may_read flen chunk (pos fl)).
  { destruct Hr as (R1 & R2 & R3 & R4). split_and!; [lia..|]. destruct R4 as [R4|R4]; [left; lia|by right]. }
  destruct (chunk_read_spec s fl chunk buffer len Hof Hr1 ltac:(lia) Hw) as (c1 & E1 & Hh1).
  set (d1 := take (Z.to_nat chunk) (drop (Z.to_nat (pos fl)) bytes)) in *.
  assert (Hd1 : length d1 = Z.to_nat (Z.min chunk (Z.max 0 (flen - pos fl)))).
  { unfold d1. rewrite length_take, length_drop. destruct Hr. lia. }
  unfold mbind, st_bind at 1. unfold w_valid, gets. unfold is_kernel_vaddr.
  rewrite (proj2 (Z.eqb_neq _ _)), (proj2 (Z.leb_gt _ _)) by lia. cbn [orb]. rewrite bool_decide_true, Wr by done. cbn [negb andb].
  unfold mbind, st_bind. unfold mbind, st_bind in E1. destruct (on_files (file_read f chunk) s) as [[a s1]|]; [|done].
  destruct (store_bytes buffer a s1) as [[[] s2]|]; [|done]. injection E1 as -> ->.
  destruct Hr as (R1 & R2 & R3 & R4). rewrite (u32_small (buffer + chunk)), (u32_small (len - chunk)), (i32_small (acc + _))
    by (unfold_ints; unfold PHYS_BASE in *; rewrite ?Hd1; lia).
  destruct (Z.ltb_spec 0 (Z.of_nat (length d1))) as [Hd1p|Hd1z].
  - destruct (IH (after_read f fl d1 buffer c1 s) (set_pos (pos fl + Z.of_nat (length d1)) fl) (buffer + chunk) (len - chunk)
      (next_chunk (len - chunk)) (acc + Z.of_nat (length d1))) as (c2 & E2 & Hh2).
    + by apply after_read_open.
    + lia.
    + lia.
    + intros Hp. apply (chunk_bounds 0). lia.
    + apply writable_next; [done|lia].
    + replace (pos (set_pos _ fl)) with (pos fl + Z.of_nat (length d1)) by (by destruct fl).
      split_and!; [lia..|]. destruct R4 as [R4|R4]; [left; lia|right; lia].
    + lia.
    + rewrite Hd1. lia.
    + exists c2. split; [|done]. rewrite E2. replace (pos (set_pos _ fl)) with (pos fl + Z.of_nat (length d1)) by (by destruct fl).
      set (d2 := take _ (drop _ bytes)).
      assert (data = d1 ++ d2 ∧ (d2 ≠ [] → Z.of_nat (length d1) = chunk)) as [Ed Hfull].
      { unfold data, d2. replace (Z.to_nat (pos fl + Z.of_nat (length d1))) with (Z.to_nat (pos fl) + length d1)%nat by lia.
        rewrite <- drop_drop. set (l := drop (Z.to_nat (pos fl)) bytes) in *.
        assert (Hl : length l = Z.to_nat (Z.max 0 (flen - pos fl))) by (unfold l; rewrite length_drop; lia).
        replace (Z.to_nat (len - chunk)) with (Z.to_nat len - Z.to_nat chunk)%nat by lia.
        destruct (decide (Z.of_nat (length d1) = chunk)) as [Efull|Hshort]; split; try done.
        - replace (length d1) with (Z.to_nat chunk) by lia. apply take_split. lia.
        - rewrite (drop_ge l) by lia. rewrite take_nil, app_nil_r. unfold d1. by rewrite !take_ge by lia.
        - rewrite (drop_ge l) by lia. by rewrite take_nil. }
      rewrite Ed, length_app, Nat2Z.inj_add, Z.add_assoc, <- (after_read_app f fl d1 d2 buffer c1 c2 s). do 2 f_equal.
      destruct d2; [done|]. by rewrite Hfull.
  - exists c1. split; [|done]. assert (d1 = []) as Ed1 by (destruct d1; [done|simpl in Hd1z; lia]).
    assert (data = []) as ->.
    { unfold data. rewrite drop_ge; [by rewrite take_nil|]. rewrite Ed1 in Hd1. simpl in Hd1. lia. }
    by rewrite Ed1.
Qed.
End loop.
End reads.

(** ** The claims *)

(** C6.  The descriptors of a process are a finite map to open files, with no two bound to the same
    slot of the system-wide table.  open returns the smallest free descriptor from 2 on, binds it to
    the file that filesys_open returned and no other descriptor, and takes no slot that is in use;
    it returns -1 and changes nothing when all 16 are taken, and returns -1 when the file
    does not open.  close unbinds its descriptor only, after closing the file, and leaves the
    other slots; it changes nothing on a descriptor that is free.  The map stays well formed. *)
Theorem descriptor_table {D} {drv : BlockDriver D} fuel (s : sys D) :
  fds_ok s →
  (∀ file p f d', r_valid file s = Ok (true, s) → user_string fuel file s = Ok (p, s) →
     filesys_open fuel p (fsys s) = Ok (Some f, d') →
     let fd := free_fd (drop 2 (fds s)) 2 in
     fd < MAX_FILES → free_global (open_files s) 0 < MAX_GLOBAL_FILES →
     ∃ s', open fuel file s = Ok (Returns fd, s') ∧ fds_ok s' ∧ fsys s' = d'
       ∧ 2 ≤ fd ∧ descriptor s (Z.to_nat fd) = None ∧ (∀ k : nat, 2 ≤ Z.of_nat k < fd → descriptor s k ≠ None)
       ∧ (∀ k, descriptor s' k = if decide (k = Z.to_nat fd) then Some f else descriptor s k)
       ∧ ∀ j g, open_files s !! j = Some (Some g) → open_files s' !! j = Some (Some g))
  ∧ (∀ file, r_valid file s = Ok (true, s) → free_fd (drop 2 (fds s)) 2 = MAX_FILES →
     open fuel file s = Ok (Returns EXIT_FAILURE, s))
  ∧ (∀ file p d', r_valid file s = Ok (true, s) → user_string fuel file s = Ok (p, s) →
     filesys_open fuel p (fsys s) = Ok (None, d') → free_fd (drop 2 (fds s)) 2 < MAX_FILES →
     open fuel file s = Ok (Returns EXIT_FAILURE, with_dfs d' s))
  ∧ (∀ (fd : nat) f d', Z.of_nat fd < MAX_FILES → descriptor s fd = Some f →
     on_fs (file_close (Some f)) (fsys s) = Ok (tt, d') →
     ∃ s', close (Z.of_nat fd) s = Ok (tt, s') ∧ fds_ok s' ∧ fsys s' = d'
       ∧ (∀ k, descriptor s' k = if decide (k = fd) then None else descriptor s k)
       ∧ ∀ j g, open_files s !! j = Some (Some g) → fds s !! fd = Some (Z.of_nat j) ∨ open_files s' !! j = Some (Some g))
  ∧ (∀ fd : nat, Z.of_nat fd < MAX_FILES → descriptor s fd = None → close (Z.of_nat fd) s = Ok (tt, s)).
Proof.
  intros Hok. split_and!.
  - intros file p f d' Hv Hstr Hf fd Hfd Hslot.
    destruct (open_spec fuel file s p f d' Hok Hv Hstr Hf Hfd Hslot) as (E & H1 & H2 & H3 & H4). fold fd in E, H1, H2, H3.
    destruct (free_global_spec (open_files s) 0) as [G1 _].
    destruct (bind_fd_ok (with_dfs d' s) (Z.to_nat fd) (free_global (open_files s) 0) f) as [Hok' Hd'];
      [by destruct Hok|done|lia|done|].
    eexists. split; [exact E|]. split; [done|]. split; [done|]. split; [done|]. split.
    { unfold descriptor. by rewrite H2. }
    split; [done|]. split; [exact Hd'|]. intros j g Hj. simpl. rewrite list_lookup_insert_ne; [done|]. intros Heq. by rewrite <- Heq, H4 in Hj.
  - intros file Hv Hfd. unfold open, mbind, st_bind. rewrite Hv. cbn [negb]. unfold gets. cbn [id]. by rewrite Hfd.
  - intros file p d' Hv Hstr Hf Hfd. unfold open, mbind, st_bind. rewrite Hv. cbn [negb]. unfold gets. cbn [id].
    destruct (Z.eqb_spec (free_fd (drop 2 (fds s)) 2) MAX_FILES); [lia|]. rewrite Hstr. unfold on_dfs. by rewrite Hf.
  - intros fd f d' Hfd Hd Hc. destruct (close_spec s fd f d' Hok Hfd Hd Hc) as (idx & H1 & H2 & H3 & E).
    destruct (unbind_fd_ok s d' fd idx Hok H1 H2) as [Hok' Hd']. eexists. split; [exact E|]. split; [done|]. split; [done|].
    split; [exact Hd'|]. intros j g Hj. destruct (fd_open s Hok fd idx H1) as [?|[H0 _]]; [done|].
    destruct (decide (j = Z.to_nat idx)) as [->|Hne]; [left; by rewrite Z2Nat.id by lia|right].
    simpl. by rewrite list_lookup_insert_ne by done.
  - intros fd. by apply close_free.
Qed.

(** A process that has the root directory of [dir_fs], and the name "a" in its memory. *)
Definition new_process {D} (d : dfs D) (mem : gmap Z Z) : sys D :=
  Sys d (replicate 1024 None) (replicate 16 (-1)) mem (λ _, false) [].
Definition a_memory : gmap Z Z := <[4096 := 97]> {[4097 := 0]}.

Lemma new_process_ok {D} (d : dfs D) mem : fds_ok (new_process d mem).
Proof.
  assert (H : ∀ fd idx, fds (new_process d mem) !! fd = Some idx → idx = -1).
  { intros fd idx Hi. by apply lookup_replicate in Hi as [-> _]. }
  constructor; [done|done| |].
  - intros fd idx Hi. left. by eapply H.
  - intros fd fd' idx Hi _ Hne. by apply H in Hi.
Qed.

Lemma dir_fs_opens_a : ∃ f d', filesys_open 9 [97] dir_fs = Ok (Some f, d').
Proof.
  assert (match filesys_open 9 [97] dir_fs with Ok (Some _, _) => true | _ => false end = true) as H by (vm_compute; reflexivity).
  destruct (filesys_open 9 [97] dir_fs) as [[[f|] d']|]; try done. by exists f, d'.
Qed.

Lemma descriptor_table_witness :
  (∃ s' f, open 9 4096 (new_process dir_fs a_memory) = Ok (Returns 2, s') ∧ fds_ok s' ∧ descriptor s' 2 = Some f)
  ∧ close 5 (new_process dir_fs a_memory) = Ok (tt, new_process dir_fs a_memory).
Proof.
  destruct (descriptor_table 9 (new_process dir_fs a_memory) (new_process_ok _ _)) as (H1 & _ & _ & _ & H5). split.
  - destruct dir_fs_opens_a as (f & d' & E).
    destruct (H1 4096 [97] f d' eq_refl eq_refl E eq_refl eq_refl) as (s' & E' & Hok & _ & _ & _ & _ & Hd & _).
    exact (ex_intro _ s' (ex_intro _ f (conj E' (conj Hok (Hd 2%nat))))).
  - exact (H5 5%nat eq_refl eq_refl).
Defined.


(** The file of [small_disk] is open as descriptor 3, at byte 95 of 100; the buffer crosses a
    page. *)
Definition buffer_memory : gmap Z Z := list_to_map ((λ j, (8190 + Z.of_nat j, 7)) <$> seq 0 10).
Definition reader : sys disk :=
  Sys (DFS (with_files {[7 := File 1 95 false false]} small_fs) ∅ 0)
    (Some 7 :: replicate 1023 None) ([-1; -1; -1; 0] ++ replicate 12 (-1)) buffer_memory (λ _, false) [].

Lemma reader_ok : fds_ok reader.
Proof.
  assert (H : ∀ fd idx, fds reader !! fd = Some idx → idx = -1 ∨ fd = 3%nat ∧ idx = 0).
  { intros fd idx. unfold reader. cbn [fds]. do 16 (destruct fd as [|fd]; [intros [= <-]; auto|]). done. }
  constructor; [done|done| |].
  - intros fd idx Hi. destruct (H fd idx Hi) as [->|[_ ->]]; [by left|right]. split; [done|]. by exists 7.
  - intros fd fd' idx Hi Hi' Hne. destruct (H fd idx Hi) as [?|[-> _]]; [done|]. by destruct (H fd' idx Hi') as [?|[-> _]].
Qed.

Lemma reader_open : open_file 200 (dev_get small_disk) reader 7 (File 1 95 false false) (Inode 5 1 false 0 false).
Proof. constructor; [exact small_holds|reflexivity|reflexivity|exact small_file]. Qed.

Lemma reader_writable : writable reader 8190 10.
Proof.
  split; [done|]. split; [done|]. intros a Ha. split; [|done].
  assert (∃ k, (k < 10)%nat ∧ a = 8190 + Z.of_nat k) as (k & Hk & ->) by (exists (Z.to_nat (a - 8190)); lia).
  do 10 (destruct k as [|k]; [by eexists|]). lia.
Qed.


(** "a" at 4096 and "xyz" at 8192, where the process can write. *)
Definition scene_memory : gmap Z Z := <[8192 := 120]> (<[8193 := 121]> (<[8194 := 122]> a_memory)).

(** A process that runs on a formatted disk. *)
Definition scene {A} (m : ST (sys disk) A) : result A :=
  match boot (DFS blank ∅ 0) with
  | Ok (_, d) => match m (new_process d scene_memory) with Ok (a, _) => Ok a | Err e => Err e end
  | Err e => Err e
  end.

(** seek has no effect on an open descriptor: the return before the call of file_seek takes
    the call as its operand and is reached for a missing file only.  After three bytes are written
    to a new file and seek to its beginning, tell still says 3 and read returns nothing; and a
    program that passes an address it cannot read to create is ended. *)
Theorem seek_has_no_effect {D} (s : sys D) (fd : nat) f position :
  (fds_ok s → Z.of_nat fd < MAX_FILES → descriptor s fd = Some f → seek (Z.of_nat fd) position s = Ok (tt, s))
  ∧ scene (r ← create 100 stack_entry 4096 0; fd ← open 100 4096; w ← write 2 8192 3; seek 2 0;; p ← tell 2;
           n ← read 2 8192 3; mret (r, fd, w, p, n))
    = Ok (Returns true, Returns 2, Returns 3, 3, Returns 0)
  ∧ scene (create 100 stack_entry 5000 0) = Ok (Exits EXIT_FAILURE).
Proof.
  split; [|split; vm_compute; reflexivity]. intros Hok Hfd Hd. unfold descriptor in Hd.
  destruct (fds s !! fd) as [idx|] eqn:Ei; [|done]. unfold seek.
  rewrite (proj2 (Z.leb_le _ _)), (proj2 (Z.ltb_lt _ _)) by lia. cbn [andb]. unfold mbind, st_bind, gets. cbn [id].
  rewrite Nat2Z.id, Ei. cbn [lift deref]. destruct (Z.eqb_spec idx (-1)); [done|]. cbn [negb].
  destruct (open_files s !! Z.to_nat idx) as [[g|]|]; done.
Qed.

Lemma seek_has_no_effect_witness : seek 3 0 reader = Ok (tt, reader).
Proof. exact (proj1 (seek_has_no_effect reader 3 7 0) reader_ok eq_refl eq_refl). Defined.
