(* ===== verification/Stdio.v ===== *)
(** * lib/stdio.c: formatted output

    [__vprintf] hands its output to a function one character at a time, in order; here it
    returns the characters.  A format is its bytes up to and with the null; the arguments are
    the 32-bit words of the [va_list], two for a 64-bit argument; strings are read from
    [mem], as in [CString], which the output does not change.

    The digits of a number go to a buffer of 64 bytes; a store past its end is a fault.  Loops
    over the format have its length as fuel, the loop over the digits 64 turns.

    Shown: a conversion fits its buffer, fills its field and denotes the value in its
    base; [atoi] reads back what "%d" and its variants print; [vsnprintf] stays in the
    buffer and terminates it. *)

From Stdlib Require Import String Ascii.
From S2P Require Import Prelude Bytes CString HeapSort.

Definition i16 (x : Z) : Z := (x + 2 ^ 15) mod 2 ^ 16 - 2 ^ 15.

(** A string literal. *)
Definition chars (s : string) : list Z := (λ a, Z.of_nat (nat_of_ascii a)) <$> list_ascii_of_string s.
Definition literal (s : string) : list Z := chars s ++ [0].

(** ** Conversions *)

Definition MINUS : Z := 1.
Definition PLUS : Z := 2.
Definition SPACE_FLAG : Z := 4.
Definition POUND : Z := 8.
Definition ZERO : Z := 16.
Definition GROUP : Z := 32.

Inductive arg_type : Type := CHAR | SHORT | INT | INTMAX | LONG | LONGLONG | PTRDIFFT | SIZET.

Record printf_conversion : Type := Conversion {
  flags : Z;
  width : Z;
  precision : Z;
  type : arg_type;
}.

Definition has (f : Z) (flags : Z) : bool := negb (Z.land flags f =? 0).

Record integer_base : Type := Base {
  radix : Z;
  digits : list Z;
  x_char : Z;
  group : Z;
}.

Definition base_d : integer_base := Base 10 (chars "0123456789") 0 3.
Definition base_o : integer_base := Base 8 (chars "01234567") 0 3.
Definition base_x : integer_base := Base 16 (chars "0123456789abcdef") 120 4.
Definition base_X : integer_base := Base 16 (chars "0123456789ABCDEF") 88 4.

(** ** format_integer *)

Definition BUF_SIZE : nat := 64.

(** [*cp++ = ch]: the buffer up to [cp], last character first. *)
Definition put_char (ch : Z) (buf : list Z) : result (list Z) :=
  if bool_decide (List.length buf < BUF_SIZE)%nat then Ok (ch :: buf) else Err MemoryFault.

Fixpoint digit_loop (fuel : nat) (b : integer_base) (grouped : bool) (value digit_cnt : Z) (buf : list Z) : result (list Z) :=
  if 0 <? value then
    match fuel with
    | O => Err OutOfFuel
    | S fuel =>
        buf ← (if grouped && (0 <? digit_cnt) && (digit_cnt mod group b =? 0) then put_char 44 buf else Ok buf);
        d ← deref (digits b !! Z.to_nat (value mod radix b));
        buf ← put_char d buf;
        digit_loop fuel b grouped (value / radix b) (digit_cnt + 1) buf
    end
  else Ok buf.

(** Zeros up to the precision, as far as the buffer goes. *)
Fixpoint precision_loop (fuel : nat) (precision : Z) (buf : list Z) : result (list Z) :=
  if (Z.of_nat (List.length buf) <? precision) && bool_decide (List.length buf < BUF_SIZE - 1)%nat then
    match fuel with
    | O => Err OutOfFuel
    | S fuel => buf ← put_char 48 buf; precision_loop fuel precision buf
    end
  else Ok buf.

Definition sign_char (is_signed negative : bool) (flags : Z) : Z :=
  if is_signed then
    if has PLUS flags then (if negative then 45 else 43)
    else if has SPACE_FLAG flags then (if negative then 45 else 32)
    else if negative then 45 else 0
  else 0.

(** [cnt] is a [size_t]. *)
Definition output_dup (ch cnt : Z) : list Z := replicate (Z.to_nat (u32 cnt)) ch.

Definition format_integer (value : Z) (is_signed negative : bool) (b : integer_base) (c : printf_conversion) : result (list Z) :=
  let sign := sign_char is_signed negative (flags c) in
  let x := if has POUND (flags c) && negb (value =? 0) then x_char b else 0 in
  buf ← digit_loop 64 b (has GROUP (flags c)) value 0 [];
  let precision := if precision c <? 0 then 1 else precision c in
  buf ← precision_loop 64 precision buf;
  buf ← (if has POUND (flags c) && (radix b =? 8) && negb (bool_decide (head buf = Some 48)) then put_char 48 buf else Ok buf);
  let pad_cnt := i32 (width c - Z.of_nat (List.length buf) - (if x =? 0 then 0 else 2) - (if sign =? 0 then 0 else 1)) in
  let pad_cnt := if pad_cnt <? 0 then 0 else pad_cnt in
  Ok ((if Z.land (flags c) (Z.lor MINUS ZERO) =? 0 then output_dup 32 pad_cnt else [])
      ++ (if sign =? 0 then [] else [sign])
      ++ (if x =? 0 then [] else [48; x])
      ++ (if has ZERO (flags c) then output_dup 48 pad_cnt else [])
      ++ buf
      ++ (if has MINUS (flags c) then output_dup 32 pad_cnt else [])).

Definition format_string (string : list Z) (c : printf_conversion) : list Z :=
  let length := Z.of_nat (List.length string) in
  (if (length <? width c) && negb (has MINUS (flags c)) then output_dup 32 (width c - length) else [])
  ++ string
  ++ (if (length <? width c) && has MINUS (flags c) then output_dup 32 (width c - length) else []).

(** ** Arguments *)

Abbreviation M := (ST (list Z)).

Definition va_word : M Z := λ args, match args with w :: args => Ok (w, args) | [] => Err MemoryFault end.
Definition va_int : M Z := w ← va_word; mret (i32 w).
Definition va_quad : M Z := lo ← va_word; hi ← va_word; mret (lo + 2 ^ 32 * hi).

Definition signed_arg (t : arg_type) : M Z :=
  match t with
  | CHAR => w ← va_word; mret (i8 w)
  | SHORT => w ← va_word; mret (i16 w)
  | INT | LONG | PTRDIFFT => va_int
  | INTMAX | LONGLONG => q ← va_quad; mret (i64 q)
  | SIZET =>
      value ← va_word;
      mret (if (2 ^ 32 - 1) / 2 <? value then value - (2 ^ 32 - 1) - 1 else value)
  end.

Definition unsigned_arg (t : arg_type) : M Z :=
  match t with
  | CHAR => w ← va_word; mret (u8 w)
  | SHORT => w ← va_word; mret (w mod 2 ^ 16)
  | INT | LONG | SIZET => va_word
  | INTMAX | LONGLONG => va_quad
  | PTRDIFFT => w ← va_int; mret (Z.land (u64 w) (2 ^ 32 - 1))
  end.

(** ** parse_conversion *)

Fixpoint parse_flags (format : list Z) (flags : Z) : result (Z * list Z) :=
  match format with
  | [] => Err MemoryFault
  | c :: rest =>
      if c =? 45 then parse_flags rest (Z.lor flags MINUS)
      else if c =? 43 then parse_flags rest (Z.lor flags PLUS)
      else if c =? 32 then parse_flags rest (Z.lor flags SPACE_FLAG)
      else if c =? 35 then parse_flags rest (Z.lor flags POUND)
      else if c =? 48 then parse_flags rest (Z.lor flags ZERO)
      else if c =? 39 then parse_flags rest (Z.lor flags GROUP)
      else Ok (flags, format)
  end.

Fixpoint parse_number (format : list Z) (n : Z) : result (Z * list Z) :=
  match format with
  | [] => Err MemoryFault
  | c :: rest => if isdigit c then parse_number rest (i32 (n * 10 + c - 48)) else Ok (n, format)
  end.

(** The character at the front of the format. *)
Definition front (format : list Z) : result Z := deref (head format).

(** A number or [*]. *)
Definition number_or_star (format : list Z) : M (Z * list Z) :=
  c ← lift (front format);
  if c =? 42 then n ← va_int; mret (n, tail format) else lift (parse_number format 0).

Definition parse_type (format : list Z) : result (arg_type * list Z) :=
  c ← front format;
  if c =? 104 then
    c' ← front (tail format);
    Ok (if c' =? 104 then (CHAR, tail (tail format)) else (SHORT, tail format))
  else if c =? 106 then Ok (INTMAX, tail format)
  else if c =? 108 then
    c' ← front (tail format);
    Ok (if c' =? 108 then (LONGLONG, tail (tail format)) else (LONG, tail format))
  else if c =? 116 then Ok (PTRDIFFT, tail format)
  else if c =? 122 then Ok (SIZET, tail format)
  else Ok (INT, format).

Definition without (f flags : Z) : Z := Z.land flags (Z.lnot f).

Definition parse_conversion (format : list Z) : M (printf_conversion * list Z) :=
  '(fl, format) ← lift (parse_flags format 0);
  let fl := if has MINUS fl then without ZERO fl else fl in
  let fl := if has PLUS fl then without SPACE_FLAG fl else fl in
  '(width, format) ← number_or_star format;
  let '(width, fl) := if width <? 0 then (i32 (- width), Z.lor fl MINUS) else (width, fl) in
  c ← lift (front format);
  '(precision, format) ← (if c =? 46 then
      '(p, format) ← number_or_star (tail format); mret (if p <? 0 then -1 else p, format)
    else mret (-1, format));
  let fl := if 0 <=? precision then without ZERO fl else fl in
  '(type, format) ← lift (parse_type format);
  mret (Conversion fl width precision type, format).

(** ** __vprintf *)

Section vprintf.
Context (m : mem).                     (* the memory of the strings *)

Fixpoint load_chars (s : Z) (n : nat) : result (list Z) :=
  match n with
  | O => Ok []
  | S n => c ← deref (m !! s); r ← load_chars (s + 1) n; Ok (c :: r)
  end.

(** The characters of an argument of [%s], cut to [maxlen]. *)
Definition string_arg (s maxlen : Z) : result (list Z) :=
  if s =? 0 then Ok (take (Z.to_nat (Z.min maxlen 6)) (chars "(null)"))
  else
    '(n, _) ← strnlen s maxlen m;
    load_chars s (Z.to_nat n).

Definition base_of (c : Z) : integer_base :=
  if c =? 111 then base_o else if c =? 117 then base_d else if c =? 120 then base_x else base_X.

(** One conversion; [nested] is the call of [__printf] for conversions there are none of. *)
Definition convert (nested : list Z → list Z → result (list Z)) (ch : Z) (c : printf_conversion) : M (list Z) :=
  if (ch =? 100) || (ch =? 105) then
    value ← signed_arg (type c);
    lift (format_integer (u64 (if value <? 0 then - value else value)) true (value <? 0) base_d c)
  else if (ch =? 111) || (ch =? 117) || (ch =? 120) || (ch =? 88) then
    value ← unsigned_arg (type c); lift (format_integer value false false (base_of ch) c)
  else if ch =? 99 then w ← va_word; mret (format_string [u8 w] c)
  else if ch =? 115 then
    s ← va_word; str ← lift (string_arg s (u32 (precision c))); mret (format_string str c)
  else if ch =? 112 then
    p ← va_word; lift (format_integer p false false base_x (Conversion POUND (width c) (precision c) (type c)))
  else if bool_decide (ch ∈ chars "feEgGn") then lift (nested (literal "<<no %%%c in kernel>>") [ch])
  else lift (nested (literal "<<no %%%c conversion>>") [ch]).

Fixpoint vprintf_loop (nested : list Z → list Z → result (list Z)) (fuel : nat) (format : list Z) : M (list Z) :=
  match fuel with
  | O => fail OutOfFuel
  | S fuel =>
      ch ← lift (front format);
      if ch =? 0 then mret []
      else if negb (ch =? 37) then
        out ← vprintf_loop nested fuel (tail format); mret (ch :: out)
      else
        let format := tail format in
        ch ← lift (front format);
        if ch =? 37 then out ← vprintf_loop nested fuel (tail format); mret (37 :: out)
        else
          '(c, format) ← parse_conversion format;
          ch ← lift (front format);
          o ← convert nested ch c;
          out ← vprintf_loop nested fuel (tail format);
          mret (o ++ out)
  end.

(** The messages for missing conversions have none themselves. *)
Definition printf_message (format args : list Z) : result (list Z) :=
  '(out, _) ← vprintf_loop (λ _ _, Err AssertFailed) (S (List.length format)) format args; Ok out.

Definition vprintf (format : list Z) : M (list Z) := vprintf_loop printf_message (S (List.length format)) format.

Definition printf (format args : list Z) : result (list Z) := '(out, _) ← vprintf format args; Ok out.
End vprintf.

(** ** vsnprintf *)

(** [vsnprintf_helper] for each character of the output: [aux.p] and [aux.length]. *)
Fixpoint vsnprintf_helper (out : list Z) (p length max_length : Z) : ST mem (Z * Z) :=
  match out with
  | [] => mret (p, length)
  | ch :: out =>
      if length <? max_length then store p ch;; vsnprintf_helper out (p + 1) (i32 (length + 1)) max_length
      else vsnprintf_helper out p (i32 (length + 1)) max_length
  end.

Definition vsnprintf (strings : mem) (buffer buf_size : Z) (format args : list Z) : ST mem Z :=
  let max_length := if 0 <? buf_size then i32 (u32 (buf_size - 1)) else 0 in
  out ← lift (printf strings format args);
  '(p, length) ← vsnprintf_helper out buffer 0 max_length;
  (if 0 <? buf_size then store p 0 else mret tt);;
  mret length.

(** ** hex_dump and print_human_readable_size *)

Definition no_strings : mem := ∅.
Definition out (format : string) (args : list Z) : result (list Z) := printf no_strings (literal format) args.

Fixpoint repeat_out (n : nat) (format : string) : result (list Z) :=
  match n with
  | O => Ok []
  | S n => a ← out format []; r ← repeat_out n format; Ok (a ++ r)
  end.

Definition isprint (c : Z) : bool := (32 <=? c) && (c <? 127).

Definition quad (x : Z) : list Z := [x mod 2 ^ 32; x / 2 ^ 32].

Fixpoint dump_bytes (i : Z) (line : list Z) : result (list Z) :=
  match line with
  | [] => Ok []
  | b :: line => a ← out "%02hhx%c" [b; if i =? 7 then 45 else 32]; r ← dump_bytes (i + 1) line; Ok (a ++ r)
  end.

Fixpoint dump_ascii (line : list Z) : result (list Z) :=
  match line with
  | [] => Ok []
  | b :: line => a ← out "%c" [if isprint b then b else 46]; r ← dump_ascii line; Ok (a ++ r)
  end.

Fixpoint hex_dump (fuel : nat) (ofs : Z) (buf : list Z) (ascii : bool) : result (list Z) :=
  match fuel, buf with
  | _, [] => Ok []
  | O, _ => Err OutOfFuel
  | S fuel, _ =>
      let size := Z.of_nat (List.length buf) in
      let start := ofs mod 16 in
      let end_ := if size <? 16 - start then start + size else 16 in
      let n := end_ - start in
      let line := take (Z.to_nat n) buf in
      l1 ← out "%08jx  " (quad (ofs / 16 * 16));
      l2 ← repeat_out (Z.to_nat start) "   ";
      l3 ← dump_bytes start line;
      l4 ← (if ascii then
              a1 ← repeat_out (Z.to_nat (16 - end_)) "   ";
              a2 ← out "|" [];
              a3 ← repeat_out (Z.to_nat start) " ";
              a4 ← dump_ascii line;
              a5 ← repeat_out (Z.to_nat (16 - end_)) " ";
              a6 ← out "|" [];
              Ok (a1 ++ a2 ++ a3 ++ a4 ++ a5 ++ a6)
            else Ok []);
      l5 ← out (String (ascii_of_nat 10) EmptyString) [];
      rest ← hex_dump fuel (u32 (ofs + n)) (drop (Z.to_nat n) buf) ascii;
      Ok (l1 ++ l2 ++ l3 ++ l4 ++ l5 ++ rest)
  end.

Fixpoint scale (size : Z) (factors : list string) : Z * string :=
  match factors with
  | [] => (size, EmptyString)
  | [f] => (size, f)
  | f :: factors => if 1024 <=? size then scale (size / 1024) factors else (size, f)
  end.

(** The unit is printed as the string it is; the literals are not in [mem]. *)
Definition print_human_readable_size (size : Z) : result (list Z) :=
  if size =? 1 then out "1 byte" []
  else
    let '(n, f) := scale size ["bytes"; "kB"; "MB"; "GB"; "TB"]%string in
    a ← out "%llu " (quad n); Ok (a ++ chars f).

(** ** The digits of a number *)

Definition good_base (b : integer_base) : Prop := b ∈ [base_d; base_o; base_x; base_X].

(** The value of a digit. *)
Definition digit_val (b : integer_base) (ch : Z) : Z :=
  match list_find (λ d, d = ch) (digits b) with Some (k, _) => Z.of_nat k | None => 0 end.

Definition COMMA : Z := 44.

Definition is_digit_of (b : integer_base) (ch : Z) : Prop := ch ∈ digits b.

(** The number a list of digits denotes in a base, most significant first; commas between them do
    not count. *)
Fixpoint digit_cnt (l : list Z) : Z :=
  match l with
  | [] => 0
  | ch :: l => if ch =? COMMA then digit_cnt l else digit_cnt l + 1
  end.

Fixpoint denotes (b : integer_base) (l : list Z) : Z :=
  match l with
  | [] => 0
  | ch :: l => if ch =? COMMA then denotes b l else digit_val b ch * radix b ^ digit_cnt l + denotes b l
  end.

Lemma digit_cnt_nonneg l : 0 ≤ digit_cnt l ≤ Z.of_nat (List.length l).
Proof. induction l as [|ch l IH]; simpl; [lia|]. case_match; lia. Qed.

Lemma digit_of b k :
  good_base b → 0 ≤ k < radix b →
  ∃ d, digits b !! Z.to_nat k = Some d ∧ digit_val b d = k ∧ d ≠ COMMA ∧ is_digit_of b d.
Proof.
  intros Hb Hk. assert (∃ j, k = Z.of_nat j ∧ (j < 16)%nat) as (j & -> & Hj).
  { exists (Z.to_nat k). unfold good_base in Hb. rewrite !elem_of_cons in Hb.
    destruct Hb as [->|[->|[->|[->|Hb]]]]; [simpl in Hk; lia..|by apply not_elem_of_nil in Hb]. }
  rewrite Nat2Z.id. unfold good_base in Hb. rewrite !elem_of_cons in Hb.
  assert (Hd : ∀ b' d, digits b' !! j = Some d → digit_val b' d = Z.of_nat j → d ≠ COMMA →
    ∃ d, digits b' !! j = Some d ∧ digit_val b' d = Z.of_nat j ∧ d ≠ COMMA ∧ is_digit_of b' d).
  { intros b' d H1 H2 H3. exists d. split_and!; try done. by apply list_elem_of_lookup_2 in H1. }
  destruct Hb as [->|[->|[->|[->|Hb]]]]; [..|by apply not_elem_of_nil in Hb]; simpl in Hk;
    repeat (destruct j as [|j]; [eapply Hd; [reflexivity|reflexivity|done]|]); lia.
Qed.

Lemma good_radix b : good_base b → 8 ≤ radix b ∧ 0 < group b.
Proof.
  unfold good_base. rewrite !elem_of_cons. intros [->|[->|[->|[->|Hb]]]]; [done..|by apply not_elem_of_nil in Hb].
Qed.

(** What the buffer holds while the digits are put in. *)
Record digit_inv (b : integer_base) (grouped : bool) (v value cnt : Z) (buf : list Z) : Prop := {
  di_value : 0 ≤ value;
  di_cnt : cnt = digit_cnt buf;
  di_denotes : value * radix b ^ cnt + denotes b buf = v;
  di_left : value * 8 ^ cnt ≤ v;
  di_len : Z.of_nat (List.length buf) ≤ 2 * cnt;
  di_small : cnt ≤ 22;
  di_chars : Forall (λ ch, is_digit_of b ch ∨ grouped = true ∧ ch = COMMA) buf;
}.

Lemma put_char_ok ch buf : (List.length buf < BUF_SIZE)%nat → put_char ch buf = Ok (ch :: buf).
Proof. intros H. unfold put_char. by rewrite bool_decide_true. Qed.

Lemma digit_step b grouped v value cnt buf :
  good_base b → v < 2 ^ 64 → 0 < value → digit_inv b grouped v value cnt buf →
  ∃ buf1 d, (if grouped && (0 <? cnt) && (cnt mod group b =? 0) then put_char 44 buf else Ok buf) = Ok buf1
    ∧ digits b !! Z.to_nat (value mod radix b) = Some d ∧ put_char d buf1 = Ok (d :: buf1)
    ∧ digit_inv b grouped v (value / radix b) (cnt + 1) (d :: buf1).
Proof.
  intros Hb Hv Hpos [H1 H2 H3 H4 H5 H6 H7]. destruct (good_radix b Hb) as [Hr _].
  pose proof (digit_cnt_nonneg buf) as Hc0.
  assert (Hc : cnt ≤ 21).
  { destruct (Z.le_gt_cases cnt 21) as [|Hgt]; [done|]. assert (8 ^ 22 ≤ 8 ^ cnt) by (apply Z.pow_le_mono_r; lia). nia. }
  destruct (digit_of b (value mod radix b) Hb) as (d & Hd & Hdv & Hdc & Hdd); [apply Z.mod_pos_bound; lia|].
  assert (Hcomma : ∃ buf1, (if grouped && (0 <? cnt) && (cnt mod group b =? 0) then put_char 44 buf else Ok buf) = Ok buf1
    ∧ digit_cnt buf1 = cnt ∧ denotes b buf1 = denotes b buf ∧ Z.of_nat (List.length buf1) ≤ 2 * cnt + 1
    ∧ Forall (λ ch, is_digit_of b ch ∨ grouped = true ∧ ch = COMMA) buf1).
  { destruct (grouped && (0 <? cnt) && (cnt mod group b =? 0)) eqn:Eg.
    - rewrite put_char_ok by (unfold BUF_SIZE; lia). exists (44 :: buf). simpl. split_and!; try done; [lia|].
      constructor; [|done]. right. split; [|done]. by destruct grouped.
    - exists buf. split_and!; try done. lia. }
  destruct Hcomma as (buf1 & E1 & C1 & C2 & C3 & C4). exists buf1, d. split; [done|]. split; [done|].
  split; [apply put_char_ok; unfold BUF_SIZE; lia|].
  assert (Hdiv : value = radix b * (value / radix b) + value mod radix b) by (apply Z_div_mod_eq_full).
  assert (0 ≤ value / radix b) by (apply Z.div_pos; lia).
  assert (0 ≤ value mod radix b) by (apply Z.mod_pos_bound; lia).
  constructor; cbn [digit_cnt denotes List.length]; rewrite ?(proj2 (Z.eqb_neq _ _) Hdc); try done; try lia.
  - rewrite C1, C2, Hdv, <- H3, Z.pow_add_r, Z.pow_1_r by lia. rewrite Hdiv at 3. ring.
  - rewrite Z.pow_add_r, Z.pow_1_r by lia. assert (0 < 8 ^ cnt) by (apply Z.pow_pos_nonneg; lia). nia.
  - constructor; [by left|done].
Qed.

Lemma digit_loop_spec fuel b grouped v value cnt buf :
  good_base b → v < 2 ^ 64 → digit_inv b grouped v value cnt buf → 23 ≤ cnt + Z.of_nat fuel →
  ∃ buf', digit_loop fuel b grouped value cnt buf = Ok buf' ∧ ∃ cnt', digit_inv b grouped v 0 cnt' buf'.
Proof.
  intros Hb Hv. revert value cnt buf. induction fuel as [|fuel IH]; intros value cnt buf Hi Hf; cbn [digit_loop];
    destruct (Z.ltb_spec 0 value) as [Hpos|Hz].
  - pose proof (di_small _ _ _ _ _ _ Hi). lia.
  - exists buf. split; [done|]. exists cnt. by replace 0 with value by (pose proof (di_value _ _ _ _ _ _ Hi); lia).
  - destruct (digit_step b grouped v value cnt buf Hb Hv Hpos Hi) as (buf1 & d & E1 & E2 & E3 & Hi').
    rewrite E1. cbn [mbind result_bind]. rewrite E2. cbn [deref mbind result_bind]. rewrite E3. apply IH; [done|lia].
  - exists buf. split; [done|]. exists cnt. by replace 0 with value by (pose proof (di_value _ _ _ _ _ _ Hi); lia).
Qed.

Lemma precision_loop_spec fuel p buf :
  (List.length buf ≤ BUF_SIZE - 1)%nat → (BUF_SIZE - 1 ≤ List.length buf + fuel)%nat →
  ∃ k, precision_loop fuel p buf = Ok (replicate k 48 ++ buf)
    ∧ Z.of_nat (k + List.length buf) = Z.max (Z.of_nat (List.length buf)) (Z.min p 63).
Proof.
  unfold BUF_SIZE. revert buf. induction fuel as [|fuel IH]; intros buf Hl Hf; cbn [precision_loop].
  - rewrite bool_decide_false, andb_false_r by (unfold BUF_SIZE; lia). exists 0%nat. split; [done|]. lia.
  - destruct (Z.ltb_spec (Z.of_nat (List.length buf)) p) as [Hp|Hp]; [|exists 0%nat; split; [done|lia]].
    destruct (bool_decide_reflect (List.length buf < BUF_SIZE - 1)%nat) as [Hb|Hb]; unfold BUF_SIZE in Hb; cbn [andb];
      [|exists 0%nat; split; [done|lia]].
    rewrite put_char_ok by (unfold BUF_SIZE; lia). cbn [mbind result_bind].
    destruct (IH (48 :: buf)) as (k & E & Hk); [simpl; lia|simpl; lia|]. exists (S k). rewrite E. split; [|simpl in *; lia].
    change (48 :: buf) with ([48] ++ buf). by rewrite app_assoc, <- replicate_cons_app.
Qed.

Lemma denotes_zeros b k l : good_base b → denotes b (replicate k 48 ++ l) = denotes b l.
Proof.
  intros Hb. assert (digit_val b 48 = 0) as H0.
  { unfold good_base in Hb. rewrite !elem_of_cons in Hb. by destruct Hb as [->|[->|[->|[->|Hb]]]]; [..|apply not_elem_of_nil in Hb]. }
  induction k as [|k IH]; [done|]. simpl. by rewrite H0, IH.
Qed.

(** The buffer of [format_integer]. *)
Lemma buffer_spec value b c :
  good_base b → 0 ≤ value < 2 ^ 64 →
  ∃ buf1 buf2 buf, digit_loop 64 b (has GROUP (flags c)) value 0 [] = Ok buf1
    ∧ precision_loop 64 (if precision c <? 0 then 1 else precision c) buf1 = Ok buf2
    ∧ (if has POUND (flags c) && (radix b =? 8) && negb (bool_decide (head buf2 = Some 48)) then put_char 48 buf2 else Ok buf2) = Ok buf
    ∧ denotes b buf = value ∧ (List.length buf ≤ BUF_SIZE)%nat
    ∧ Forall (λ ch, is_digit_of b ch ∨ has GROUP (flags c) = true ∧ ch = COMMA) buf
    ∧ Z.min (precision c) 63 ≤ Z.of_nat (List.length buf) ∧ (precision c ≠ 0 ∨ value ≠ 0 → buf ≠ []).
Proof.
  intros Hb Hv. set (g := has GROUP (flags c)).
  destruct (digit_loop_spec 64 b g value value 0 []) as (buf1 & E1 & cnt & [_ _ Hd _ Hl Hs Hc]); [done|lia| |done|].
  { constructor; try done; simpl; try lia. }
  rewrite Z.mul_0_l, Z.add_0_l in Hd. set (p := if precision c <? 0 then 1 else precision c).
  assert (Hp : precision c ≤ p ∧ (precision c ≠ 0 → 1 ≤ p)) by (unfold p; destruct (Z.ltb_spec (precision c) 0); lia).
  destruct (precision_loop_spec 64 p buf1) as (k & E2 & Hk); [unfold BUF_SIZE; lia|unfold BUF_SIZE; lia|].
  set (buf2 := replicate k 48 ++ buf1) in *.
  assert (L2 : List.length buf2 = (k + List.length buf1)%nat) by (unfold buf2; by rewrite length_app, length_replicate).
  assert (D2 : denotes b buf2 = value) by (unfold buf2; by rewrite denotes_zeros).
  assert (H48 : is_digit_of b 48).
  { unfold is_digit_of, good_base in *. rewrite !elem_of_cons in Hb.
    destruct Hb as [->|[->|[->|[->|Hb]]]]; [by left..|by apply not_elem_of_nil in Hb]. }
  assert (C2 : Forall (λ ch, is_digit_of b ch ∨ g = true ∧ ch = COMMA) buf2).
  { apply Forall_app. split; [|done]. apply Forall_replicate. by left. }
  assert (Hne : precision c ≠ 0 ∨ value ≠ 0 → buf2 ≠ []).
  { intros Hor ->. simpl in L2. destruct Hor as [Hor|Hor]; [lia|]. simpl in D2. lia. }
  exists buf1, buf2. set (test := has POUND (flags c) && (radix b =? 8) && negb (bool_decide (head buf2 = Some 48))).
  exists (if test then 48 :: buf2 else buf2). split; [done|]. split; [done|]. destruct test.
  - rewrite put_char_ok by (unfold BUF_SIZE; lia). split; [done|]. split; [|split; [simpl; unfold BUF_SIZE; lia|split; [|split]]].
    + rewrite <- D2. exact (denotes_zeros b 1 buf2 Hb).
    + constructor; [by left|done].
    + simpl List.length. lia.
    + done.
  - split_and!; try done; [unfold BUF_SIZE; lia|lia].
Qed.

(** A conversion never pads on two sides: [parse_conversion] clears [ZERO] for [MINUS]. *)
Definition one_pad (flags : Z) : Prop := has MINUS flags = true → has ZERO flags = false.

Lemma pad_flags flags : (Z.land flags (Z.lor MINUS ZERO) =? 0) = negb (has MINUS flags) && negb (has ZERO flags).
Proof.
  unfold has. rewrite Z.land_lor_distr_r, !negb_involutive. destruct (Z.eqb_spec (Z.land flags MINUS) 0) as [->|H1].
  - by rewrite Z.lor_0_l.
  - cbn [andb]. apply Z.eqb_neq. intros H. by apply Z.lor_eq_0_iff in H as [H _].
Qed.

Lemma length_output_dup ch cnt : 0 ≤ cnt < 2 ^ 32 → Z.of_nat (List.length (output_dup ch cnt)) = cnt.
Proof. intros H. unfold output_dup. rewrite length_replicate, u32_small by done. lia. Qed.

Definition prefix_of (value : Z) (b : integer_base) (c : printf_conversion) : list Z :=
  if has POUND (flags c) && negb (value =? 0) && negb (x_char b =? 0) then [48; x_char b] else [].

Definition sign_of (is_signed negative : bool) (c : printf_conversion) : list Z :=
  let sign := sign_char is_signed negative (flags c) in if sign =? 0 then [] else [sign].

(** An integer conversion, in each of the four bases and with any flags, width and precision,
    fits its buffer of 64 bytes; its output is the sign and the prefix of the flags, then digits
    (with commas only if the flag for groups is set) that denote the value in the base, at least
    as many as the precision, and it is padded on one side, with spaces or zeros, to
    exactly the field width if it is shorter. *)
Lemma format_integer_spec value is_signed negative b c :
  good_base b → 0 ≤ value < 2 ^ 64 → 0 ≤ width c < 2 ^ 31 → one_pad (flags c) →
  ∃ left zeros ds right, format_integer value is_signed negative b c
      = Ok (replicate left 32 ++ sign_of is_signed negative c ++ prefix_of value b c ++ replicate zeros 48 ++ ds ++ replicate right 32)
    ∧ denotes b ds = value ∧ Forall (λ ch, is_digit_of b ch ∨ has GROUP (flags c) = true ∧ ch = COMMA) ds
    ∧ (List.length ds ≤ BUF_SIZE)%nat ∧ Z.min (precision c) 63 ≤ Z.of_nat (List.length ds)
    ∧ (precision c ≠ 0 ∨ value ≠ 0 → ds ≠ [])
    ∧ Z.of_nat (left + zeros + right)
      = Z.max 0 (width c - Z.of_nat (List.length (sign_of is_signed negative c) + List.length (prefix_of value b c) + List.length ds))
    ∧ (has MINUS (flags c) = true → left = 0 ∧ zeros = 0)%nat
    ∧ (has MINUS (flags c) = false → right = 0 ∧ (if has ZERO (flags c) then left else zeros) = 0)%nat.
Proof.
  intros Hb Hv Hw Hone. destruct (buffer_spec value b c Hb Hv) as (buf1 & buf2 & ds & E1 & E2 & E3 & Hd & Hl & Hc & Hp & Hne).
  unfold format_integer. rewrite E1. cbn [mbind result_bind]. rewrite E2. cbn [mbind result_bind]. rewrite E3. cbn [mbind result_bind].
  set (x := if has POUND (flags c) && negb (value =? 0) then x_char b else 0).
  assert (Hx : (if x =? 0 then [] else [48; x]) = prefix_of value b c ∧ (if x =? 0 then 0 else 2) = Z.of_nat (List.length (prefix_of value b c))).
  { unfold prefix_of, x. destruct (has POUND (flags c) && negb (value =? 0)); [|done]. by destruct (x_char b =? 0). }
  destruct Hx as [Hx1 Hx2]. set (sg := sign_char is_signed negative (flags c)).
  assert (Hs : (if sg =? 0 then [] else [sg]) = sign_of is_signed negative c
    ∧ (if sg =? 0 then 0 else 1) = Z.of_nat (List.length (sign_of is_signed negative c))).
  { unfold sign_of. fold sg. cbn zeta. by destruct (sg =? 0). }
  destruct Hs as [Hs1 Hs2]. rewrite Hx1, Hx2, Hs1, Hs2, pad_flags.
  assert (Hlx : (List.length (prefix_of value b c) ≤ 2)%nat) by (rewrite <- Hx1; destruct (x =? 0); simpl; lia).
  assert (Hls : (List.length (sign_of is_signed negative c) ≤ 1)%nat) by (rewrite <- Hs1; destruct (sg =? 0); simpl; lia).
  rewrite i32_small by (unfold is_i32, BUF_SIZE in *; lia).
  set (n := width c - _ - _ - _). set (pad := if n <? 0 then 0 else n).
  assert (Hpad : pad = Z.max 0 n ∧ 0 ≤ pad < 2 ^ 32) by (assert (n ≤ width c) by (unfold n; lia); unfold pad; destruct (Z.ltb_spec n 0); lia).
  assert (Hdup : ∀ ch, output_dup ch pad = replicate (Z.to_nat pad) ch) by (intros ch; unfold output_dup; by rewrite u32_small by apply Hpad).
  rewrite !Hdup. set (k := Z.to_nat pad).
  exists (if negb (has MINUS (flags c)) && negb (has ZERO (flags c)) then k else 0%nat),
    (if has ZERO (flags c) then k else 0%nat), ds, (if has MINUS (flags c) then k else 0%nat).
  unfold one_pad in Hone. split.
  - by destruct (has MINUS (flags c)), (has ZERO (flags c)).
  - split_and!; try done; destruct (has MINUS (flags c)), (has ZERO (flags c)); try (by specialize (Hone eq_refl)); cbn [negb andb];
      try done; unfold k, n in *; lia.
Qed.

(** ** Reading a number back *)

Lemma decimal_digit ch : is_digit_of base_d ch → isdigit ch = true ∧ ch ≠ COMMA ∧ digit_val base_d ch = ch - 48.
Proof.
  unfold is_digit_of. change (digits base_d) with [48; 49; 50; 51; 52; 53; 54; 55; 56; 57]. rewrite !elem_of_cons.
  intros [->|[->|[->|[->|[->|[->|[->|[->|[->|[->|H]]]]]]]]]]; [done..|by apply not_elem_of_nil in H].
Qed.

Lemma denotes_decimal ds acc :
  Forall (is_digit_of base_d) ds →
  foldl (λ v c, v * 10 + (c - 48)) acc ds = acc * 10 ^ digit_cnt ds + denotes base_d ds.
Proof.
  intros Hd. revert acc. induction Hd as [|ch ds Hch _ IH]; intros acc; cbn [foldl digit_cnt denotes]; [lia|].
  destruct (decimal_digit ch Hch) as (_ & Hc & Hv). rewrite (proj2 (Z.eqb_neq _ _) Hc), IH, Hv.
  pose proof (digit_cnt_nonneg ds). rewrite Z.pow_add_r by lia. change (radix base_d) with 10. ring.
Qed.

Lemma u32_i32 i : is_i32 i → i32 (u32 i) = i.
Proof.
  intros Hi. rewrite (i32_mod (u32 i) i); [by apply i32_small|]. unfold u32. by rewrite Z.mod_mod by lia.
Qed.

Lemma format_atoi i c :
  is_i32 i → 0 ≤ width c < 2 ^ 31 → one_pad (flags c) → has GROUP (flags c) = false → precision c ≠ 0 ∨ i ≠ 0 →
  ∃ out, format_integer (u64 (if i <? 0 then - i else i)) true (i <? 0) base_d c = Ok out
    ∧ ∀ rest, atoi (out ++ 0 :: rest) = Ok i.
Proof.
  intros Hi Hw Hone Hg Hne. set (v := if i <? 0 then - i else i).
  assert (Hv : v = Z.abs i) by (unfold v; destruct (Z.ltb_spec i 0); lia).
  rewrite u64_small by (unfold_ints; lia).
  destruct (format_integer_spec v true (i <? 0) base_d c) as (nl & zeros & ds & nr & E & Hd & Hc & _ & _ & Hnil & _ & Hm1 & Hm2);
    [by left|unfold_ints; lia|done|done|]. eexists. split; [exact E|]. intros rest.
  assert (Hds : Forall (is_digit_of base_d) (replicate zeros 48 ++ ds)).
  { apply Forall_app. split; [apply Forall_replicate; by left|].
    eapply Forall_impl; [exact Hc|]. intros ch [?|[H _]]; [done|by rewrite Hg in H]. }
  assert (Hval : digits_value (replicate zeros 48 ++ ds) = v).
  { unfold digits_value. rewrite denotes_decimal by done. rewrite Z.mul_0_l, Z.add_0_l, denotes_zeros by (by left). done. }
  assert (Hpre : prefix_of v base_d c = []) by (unfold prefix_of; change (x_char base_d =? 0) with true; by rewrite andb_false_r).
  rewrite Hpre, app_nil_l.
  assert (Hend : ∃ e rest', replicate nr 32 ++ 0 :: rest = e :: rest' ∧ isdigit e = false).
  { destruct nr; [by exists 0, rest|by exists 32, (replicate nr 32 ++ 0 :: rest)]. }
  destruct Hend as (e & rest' & He & Hed).
  assert (Hdig : Forall (λ d, isdigit d = true) (replicate zeros 48 ++ ds)).
  { eapply Forall_impl; [exact Hds|]. intros ch Hch. by destruct (decimal_digit ch Hch). }
  assert (Hnn : replicate zeros 48 ++ ds ≠ []).
  { intros Hn. apply app_eq_nil in Hn as [_ Hn]. destruct Hnil; [|done]. lia. }
  assert (Hsign : ∃ ws sign, replicate nl 32 ++ sign_of true (i <? 0) c = ws ++ sign ∧ Forall (λ w, isspace w = true) ws
    ∧ (sign = [] ∨ sign = [43] ∨ sign = [45]) ∧ (sign = [45] ↔ i < 0)).
  { assert (Hsp : Forall (λ w, isspace w = true) (replicate nl 32)) by (by apply Forall_replicate).
    unfold sign_of, sign_char. cbn zeta.
    destruct (has PLUS (flags c)); [|destruct (has SPACE_FLAG (flags c))]; destruct (Z.ltb_spec i 0) as [Hlt|Hge]; cbn [Z.eqb Pos.eqb].
    all: [> exists (replicate nl 32), [45]|exists (replicate nl 32), [43]|exists (replicate nl 32), [45]
         |exists (replicate nl 32 ++ [32]), []|exists (replicate nl 32), [45]|exists (replicate nl 32), []].
    all: split_and!; rewrite ?app_nil_r; auto; try (split; [intros; done || lia|intros; done || lia]).
    apply Forall_app. split; [done|]. by apply Forall_singleton. }
  destruct Hsign as (ws & sign & Hws & Hsp & Hs & Hneg).
  rewrite <- !app_assoc, He, (app_assoc _ (sign_of _ _ _)), Hws, <- app_assoc, (app_assoc (replicate zeros 48)).
  destruct (atoi_correct ws sign (replicate zeros 48 ++ ds) e rest' Hsp Hdig Hnn Hed Hs) as [_ H].
  rewrite Hval in H. assert (Hn : (if bool_decide (sign = [45]) then - v else v) = i).
  { destruct (bool_decide_reflect (sign = [45])) as [Hs'|Hs']; rewrite Hneg in Hs'; lia. }
  rewrite Hn in H. by apply H.
Qed.

Lemma vsnprintf_helper_spec out p length max (m : mem) :
  0 ≤ length → length + Z.of_nat (List.length out) < 2 ^ 31 → (∀ a, p ≤ a < p + (max - length) → is_Some (m !! a)) →
  let k := Z.max 0 (Z.min (Z.of_nat (List.length out)) (max - length)) in
  ∃ m', vsnprintf_helper out p length max m = Ok ((p + k, length + Z.of_nat (List.length out)), m')
    ∧ ∀ a, m' !! a = if decide (p ≤ a < p + k) then out !! Z.to_nat (a - p) else m !! a.
Proof.
  revert p length m. induction out as [|ch out IH]; intros p length m H0 Hl Hm k; cbn [vsnprintf_helper List.length] in *.
  - exists m. unfold k, mret, st_ret. split; [repeat f_equal; lia|]. intros a. by rewrite decide_False by lia.
  - rewrite i32_small by (unfold is_i32; lia). destruct (Z.ltb_spec length max) as [Hlt|Hge].
    + destruct (Hm p) as [x Hx]; [lia|]. unfold mbind, st_bind, store. rewrite Hx.
      destruct (IH (p + 1) (length + 1) (<[p := ch]> m)) as (m' & E & Hm'); [lia|lia| |].
      { intros a Ha. destruct (decide (a = p)) as [->|]; [rewrite lookup_insert_eq; by eexists|].
        rewrite lookup_insert_ne by done. apply Hm. lia. }
      exists m'. rewrite E. split; [unfold k; do 3 f_equal; lia|]. intros a. rewrite Hm'. unfold k.
      destruct (decide (a = p)) as [->|Hne].
      * rewrite decide_False, decide_True, lookup_insert_eq, Z.sub_diag by lia. done.
      * rewrite lookup_insert_ne by done. repeat case_decide; try lia; try done.
        by replace (Z.to_nat (a - p)) with (S (Z.to_nat (a - (p + 1)))) by lia.
    + destruct (IH p (length + 1) m) as (m' & E & Hm'); [lia|lia|intros a Ha; lia|].
      exists m'. rewrite E. split; [unfold k; do 3 f_equal; lia|]. intros a. rewrite Hm'. unfold k.
      by rewrite !decide_False by lia.
Qed.

Lemma parse_d args : parse_conversion [100; 0] args = Ok ((Conversion 0 0 (-1) INT, [100; 0]), args).
Proof. vm_compute. reflexivity. Qed.

(** ** The claims *)

(** C16.  What printf prints for an int with "%d", or with any flags but the one for groups, any width
    and any precision but 0, atoi reads back as the same int, also the most negative one. *)
Theorem print_read_back m i c :
  is_i32 i →
  (∃ out, printf m (literal "%d") [u32 i] = Ok out ∧ ∀ rest, atoi (out ++ 0 :: rest) = Ok i)
  ∧ (0 ≤ width c < 2 ^ 31 → one_pad (flags c) → has GROUP (flags c) = false → precision c ≠ 0 ∨ i ≠ 0 →
     ∃ out, format_integer (u64 (if i <? 0 then - i else i)) true (i <? 0) base_d c = Ok out
       ∧ ∀ rest, atoi (out ++ 0 :: rest) = Ok i).
Proof.
  intros Hi. split; [|intros; by apply format_atoi].
  destruct (format_atoi i (Conversion 0 0 (-1) INT) Hi) as (o & E & Ha); [simpl; lia|done|done|by left|].
  exists o. split; [|done]. unfold printf, vprintf. change (literal "%d") with [37; 100; 0].
  cbn [vprintf_loop List.length]. unfold mbind, st_bind, result_bind, front, lift. cbn [head tail deref Z.eqb Pos.eqb negb].
  rewrite parse_d. cbn [head deref]. unfold convert. cbn [Z.eqb Pos.eqb orb type]. unfold mbind, st_bind, signed_arg, va_int, va_word, mret, st_ret, lift.
  unfold mbind, st_bind. rewrite (u32_i32 i Hi), E. cbn [tail head deref Z.eqb Pos.eqb]. by rewrite app_nil_r.
Qed.

Lemma print_read_back_witness :
  ∃ out, printf ∅ (literal "%d") [u32 (-2147483648)] = Ok out ∧ atoi (out ++ [0]) = Ok (-2147483648).
Proof.
  destruct (print_read_back ∅ (-2147483648) (Conversion 0 0 (-1) INT)) as [(o & E & H) _]; [unfold_ints; lia|].
  exact (ex_intro _ o (conj E (H []))).
Defined.

(** C18.  vsnprintf writes only inside the buffer it is given: the first buf_size - 1 characters of
    the output, or all of it, then a null; with a size of 0 nothing.  It returns the
    length of the whole output, so that a caller can see that it was cut. *)
Theorem vsnprintf_bounded strings (m : mem) buffer buf_size format args out :
  printf strings format args = Ok out → Z.of_nat (List.length out) < 2 ^ 31 → 0 ≤ buf_size < 2 ^ 31 →
  (∀ a, buffer ≤ a < buffer + buf_size → is_Some (m !! a)) →
  let k := Z.min (Z.of_nat (List.length out)) (buf_size - 1) in
  ∃ m', vsnprintf strings buffer buf_size format args m = Ok (Z.of_nat (List.length out), m')
    ∧ ∀ a, m' !! a = if decide (buffer ≤ a < buffer + k) then out !! Z.to_nat (a - buffer)
                     else if decide (0 < buf_size ∧ a = buffer + k) then Some 0 else m !! a.
Proof.
  intros Hp Hl Hs Hm k. unfold vsnprintf. set (max := if 0 <? buf_size then i32 (u32 (buf_size - 1)) else 0).
  assert (Hmax : max = Z.max 0 (buf_size - 1)).
  { unfold max. destruct (Z.ltb_spec 0 buf_size); [|lia]. rewrite u32_small, i32_small by (unfold_ints; lia). lia. }
  destruct (vsnprintf_helper_spec out buffer 0 max m) as (m1 & E & H1); [lia|lia|intros a Ha; apply Hm; lia|].
  rewrite Z.sub_0_r, Z.add_0_l in *. unfold mbind, st_bind, lift. rewrite Hp, E.
  destruct (Z.ltb_spec 0 buf_size) as [Hpos|Hz].
  - replace (Z.max 0 (Z.min (Z.of_nat (List.length out)) max)) with k in * by (unfold k; lia).
    unfold store. assert (is_Some (m1 !! (buffer + k))) as [x Hx].
    { rewrite H1, decide_False by lia. apply Hm. unfold k. lia. }
    rewrite Hx. eexists. split; [done|]. intros a. destruct (decide (a = buffer + k)) as [->|Hne].
    + rewrite lookup_insert_eq, decide_False, decide_True by lia. done.
    + rewrite lookup_insert_ne, H1 by done. case_decide; [done|]. by rewrite decide_False by lia.
  - exists m1. split; [done|]. intros a. rewrite H1. rewrite !decide_False by (unfold k; lia). done.
Qed.

(** "hello, %s" into a buffer of 8 bytes at 100. *)
Definition eight_bytes : mem := list_to_map ((λ j, (100 + Z.of_nat j, 255)) <$> seq 0 8).

Lemma vsnprintf_bounded_witness :
  ∃ m', vsnprintf ∅ 100 8 (literal "hello, %s") [0] eight_bytes = Ok (13, m') ∧ m' !! 106 = Some 32 ∧ m' !! 107 = Some 0.
Proof.
  destruct (vsnprintf_bounded ∅ eight_bytes 100 8 (literal "hello, %s") [0] (chars "hello, (null)")) as (m' & E & H).
  - vm_compute. reflexivity.
  - vm_compute. reflexivity.
  - lia.
  - intros a Ha. assert (∃ j, (j < 8)%nat ∧ a = 100 + Z.of_nat j) as (j & Hj & ->) by (exists (Z.to_nat (a - 100)); lia).
    do 8 (destruct j as [|j]; [by eexists|]). lia.
  - exact (ex_intro _ m' (conj E (conj (H 106) (H 107)))).
Defined.
