(* ===== verification/Ustar.v ===== *)
(** * lib/ustar.c: headers of tar archives

    A header is its 512 bytes; a file name is its bytes without the null.  [snprintf] and
    [strlcpy] into a member of the header put there what they put into a buffer of its size ([CString]
    and [Stdio.vsnprintf_bounded]).  The message for a name that is too long is left out.

    Shown: parsing the header made for a file gives back its name, without the prefixes that are
    taken off, its type and its size; and a parsed name never leads out of the
    directory by its beginning. *)

From Stdlib Require Import String.
From S2P Require Import Prelude Bytes CString HeapSort Stdio.

Definition USTAR_REGULAR : Z := 48.
Definition USTAR_DIRECTORY : Z := 53.
Definition USTAR_HEADER_SIZE : nat := 512.
Definition ULONG_MAX : Z := 2 ^ 32 - 1.
Definition INT_MAX : Z := 2 ^ 31 - 1.

Definition SLASH : Z := 47.
Definition DOT : Z := 46.

(** ** struct ustar_header: offset and size of the members *)

Definition NAME : nat * nat := (0, 100)%nat.
Definition MODE : nat * nat := (100, 8)%nat.
Definition UID : nat * nat := (108, 8)%nat.
Definition GID : nat * nat := (116, 8)%nat.
Definition SIZE : nat * nat := (124, 12)%nat.
Definition MTIME : nat * nat := (136, 12)%nat.
Definition CHKSUM : nat * nat := (148, 8)%nat.
Definition TYPEFLAG : nat * nat := (156, 1)%nat.
Definition MAGIC : nat * nat := (257, 6)%nat.
Definition VERSION : nat * nat := (263, 2)%nat.
Definition UNAME : nat * nat := (265, 32)%nat.
Definition GNAME : nat * nat := (297, 32)%nat.
Definition PREFIX : nat * nat := (345, 155)%nat.

Definition field (h : list Z) (f : nat * nat) : list Z := take f.2 (drop f.1 h).
Definition set_field (h : list Z) (f : nat * nat) (bs : list Z) : list Z := put_bytes h f.1 bs.

(** [strlcpy (h->f, s, sizeof h->f)] and [snprintf (h->f, sizeof h->f, format, x)]. *)
Definition put_string (h : list Z) (f : nat * nat) (s : list Z) : list Z := set_field h f (take (f.2 - 1) s ++ [0]).
Definition print_field (h : list Z) (f : nat * nat) (format : string) (x : Z) : result (list Z) :=
  s ← out format [u32 x]; Ok (put_string h f s).

(** ** The code *)

Definition in_chksum_field (i : Z) : bool := (148 <=? i) && (i <? 156).

Fixpoint chksum_loop (i : Z) (h : list Z) (chksum : Z) : Z :=
  match h with
  | [] => chksum
  | b :: h => chksum_loop (i + 1) h (u32 (chksum + (if in_chksum_field i then 32 else b)))
  end.

Definition calculate_chksum (h : list Z) : Z := chksum_loop 0 (take USTAR_HEADER_SIZE h) 0.

Fixpoint strip_loop (name : list Z) : list Z :=
  match name with
  | c :: rest =>
      if c =? SLASH then strip_loop rest
      else if c =? DOT then
        match rest with
        | d :: rest' =>
            if d =? SLASH then strip_loop rest'
            else if d =? DOT then
              match rest' with
              | e :: rest'' => if e =? SLASH then strip_loop rest'' else name
              | [] => name
              end
            else name
        | [] => name
        end
      else name
  | [] => name
  end.

Definition strip_antisocial_prefixes (name : list Z) : list Z :=
  let name := strip_loop name in
  if bool_decide (name = [] ∨ name = [DOT; DOT]) then [DOT] else name.

(** [None] if the name is too long.  The modes are 0644 and 0755. *)
Definition ustar_make_header (name : list Z) (type size : Z) : result (option (list Z)) :=
  ASSERT ((type =? USTAR_REGULAR) || (type =? USTAR_DIRECTORY));;
  let name := strip_antisocial_prefixes name in
  if bool_decide (99 < List.length name)%nat then Ok None
  else
    let h := put_string (replicate USTAR_HEADER_SIZE 0) NAME name in
    h ← print_field h MODE "%07o" (if type =? USTAR_REGULAR then 420 else 493);
    let h := put_string h UID (chars "0000000") in
    let h := put_string h GID (chars "0000000") in
    h ← print_field h SIZE "%011o" size;
    h ← print_field h MTIME "%011o" 1136102400;
    let h := set_field h TYPEFLAG [type] in
    let h := put_string h MAGIC (chars "ustar") in
    let h := set_field h VERSION [48; 48] in
    let h := put_string h GNAME (chars "root") in
    let h := put_string h UNAME (chars "root") in
    h ← print_field h CHKSUM "%07o" (calculate_chksum h);
    Ok (Some h).

(** The value of an octal field, [None] if it is not one; [ofs] is positive from the second byte on. *)
Fixpoint parse_octal_loop (s : list Z) (ofs value : Z) : option Z :=
  match s with
  | [] => None
  | c :: s =>
      if (48 <=? c) && (c <=? 55) then
        if ULONG_MAX / 8 <? value then None else parse_octal_loop s (ofs + 1) (u32 (c - 48 + value * 8))
      else if (c =? 32) || (c =? 0) then (if 0 <? ofs then Some value else None)
      else None
  end.

Definition parse_octal_field (s : list Z) : option Z := parse_octal_loop s 0 0.

Definition is_all_zeros (block : list Z) : bool := forallb (λ b, b =? 0) block.

Inductive parsed : Type :=
  | EndOfArchive
  | Entry (name : list Z) (type size : Z)
  | Bad (message : string).

Definition ustar_parse_header (h : list Z) : result parsed :=
  if is_all_zeros (take USTAR_HEADER_SIZE h) then Ok EndOfArchive
  else if negb (bool_decide (field h MAGIC = literal "ustar")) then Ok (Bad "not a ustar archive")
  else if negb (bool_decide (field h VERSION = [48; 48])) then Ok (Bad "invalid ustar version")
  else
    match parse_octal_field (field h CHKSUM) with
    | None => Ok (Bad "corrupt chksum field")
    | Some chksum =>
        if negb (chksum =? calculate_chksum h) then Ok (Bad "checksum mismatch")
        else if negb (byte_at h 99 =? 0) || negb (byte_at h PREFIX.1 =? 0) then Ok (Bad "file name too long")
        else
          let type := byte_at h TYPEFLAG.1 in
          if negb (type =? USTAR_REGULAR) && negb (type =? USTAR_DIRECTORY) then Ok (Bad "unimplemented file type")
          else
            match (if type =? USTAR_REGULAR then
                match parse_octal_field (field h SIZE) with
                | None => inr "corrupt file size field"%string
                | Some size => if INT_MAX <? size then inr "file too large"%string else inl size
                end
              else inl 0) with
            | inr message => Ok (Bad message)
            | inl size => name ← c_string (drop NAME.1 h); Ok (Entry (strip_antisocial_prefixes name) type size)
            end
    end.

(** ** Names *)

(** Names that do not begin with a slash, "./" or "../". *)
Definition sociable (n : list Z) : Prop :=
  ∀ rest, n ≠ SLASH :: rest ∧ n ≠ DOT :: SLASH :: rest ∧ n ≠ DOT :: DOT :: SLASH :: rest.

(** One turn of the loop: nothing to strip, or one of the three prefixes is taken off. *)
Lemma strip_loop_step n :
  sociable n ∧ strip_loop n = n ∨ ∃ pre m, pre ≠ [] ∧ n = pre ++ m ∧ ¬ sociable n ∧ strip_loop n = strip_loop m.
Proof.
  assert (Hs : ∀ m, ¬ sociable (SLASH :: m) ∧ ¬ sociable (DOT :: SLASH :: m) ∧ ¬ sociable (DOT :: DOT :: SLASH :: m)).
  { intros m. split_and!; intros H; by destruct (H m) as (? & ? & ?). }
  destruct n as [|c n]; [left; split; [intros rest|]; done|].
  destruct (decide (c = SLASH)) as [->|Hc]; [right; exists [SLASH], n; split_and!; [done..|apply Hs|done]|].
  destruct (decide (c = DOT)) as [->|Hc']; [|left; split; [intros rest; split_and!; congruence|]].
  2: { cbn [strip_loop]. by rewrite (proj2 (Z.eqb_neq _ _) Hc), (proj2 (Z.eqb_neq _ _) Hc'). }
  destruct n as [|d n]; [left; split; [intros rest|]; done|].
  destruct (decide (d = SLASH)) as [->|Hd]; [right; exists [DOT; SLASH], n; split_and!; [done..|apply Hs|done]|].
  destruct (decide (d = DOT)) as [->|Hd']; [|left; split; [intros rest; split_and!; congruence|]].
  2: { cbn [strip_loop]. change (DOT =? SLASH) with false. change (DOT =? DOT) with true. cbn match.
       by rewrite (proj2 (Z.eqb_neq _ _) Hd), (proj2 (Z.eqb_neq _ _) Hd'). }
  destruct n as [|e n]; [left; split; [intros rest|]; done|].
  destruct (decide (e = SLASH)) as [->|He]; [right; exists [DOT; DOT; SLASH], n; split_and!; [done..|apply Hs|done]|].
  left. split; [intros rest; split_and!; congruence|].
  cbn [strip_loop]. change (DOT =? SLASH) with false. change (DOT =? DOT) with true. cbn match.
  by rewrite (proj2 (Z.eqb_neq _ _) He).
Qed.

Lemma strip_loop_sociable n : sociable (strip_loop n) ∧ strip_loop n `suffix_of` n.
Proof.
  remember (List.length n) as k eqn:Hk. revert n Hk. induction (lt_wf k) as [k _ IH]. intros n ->.
  destruct (strip_loop_step n) as [[H ->]|(pre & m & Hp & E & _ & ->)]; [done|].
  destruct (IH (List.length m)) with (n := m) as [H1 H2]; [|done|].
  - rewrite E, length_app. destruct pre; [done|]. simpl. lia.
  - split; [done|]. rewrite E. by apply suffix_app_r.
Qed.

Lemma strip_loop_id n : sociable n → strip_loop n = n.
Proof. intros H. by destruct (strip_loop_step n) as [[_ ?]|(pre & m & _ & _ & ? & _)]. Qed.

Lemma strip_sociable n :
  sociable (strip_antisocial_prefixes n) ∧ strip_antisocial_prefixes n ≠ [] ∧ strip_antisocial_prefixes n ≠ [DOT; DOT].
Proof.
  unfold strip_antisocial_prefixes. case_bool_decide as H; [split_and!; [intros rest|..]; done|].
  split; [by apply strip_loop_sociable|]. tauto.
Qed.

Lemma strip_idem n : strip_antisocial_prefixes (strip_antisocial_prefixes n) = strip_antisocial_prefixes n.
Proof.
  destruct (strip_sociable n) as (H1 & H2 & H3). unfold strip_antisocial_prefixes at 1. rewrite (strip_loop_id _ H1).
  by rewrite bool_decide_false by tauto.
Qed.

Lemma strip_name n : is_name n → is_name (strip_antisocial_prefixes n).
Proof.
  intros H. unfold strip_antisocial_prefixes. case_bool_decide; [by repeat constructor|].
  destruct (strip_loop_sociable n) as [_ [pre E]]. unfold is_name in *. rewrite E in H. by apply Forall_app in H as [_ H].
Qed.

(** ** Octal fields *)

Lemma octal_digit ch : is_digit_of base_o ch → 48 ≤ ch ≤ 55 ∧ ch ≠ COMMA ∧ digit_val base_o ch = ch - 48.
Proof.
  unfold is_digit_of. change (digits base_o) with [48; 49; 50; 51; 52; 53; 54; 55]. rewrite !elem_of_cons.
  intros [->|[->|[->|[->|[->|[->|[->|[->|H]]]]]]]]; [done..|by apply not_elem_of_nil in H].
Qed.

Lemma digit_cnt_octal l : Forall (is_digit_of base_o) l → digit_cnt l = Z.of_nat (List.length l).
Proof.
  induction 1 as [|ch l Hch _ IH]; [done|]. cbn [digit_cnt List.length]. destruct (octal_digit ch Hch) as (_ & Hc & _).
  rewrite (proj2 (Z.eqb_neq _ _) Hc), IH. lia.
Qed.

Lemma denotes_octal_nonneg l : Forall (is_digit_of base_o) l → 0 ≤ denotes base_o l.
Proof.
  induction 1 as [|ch l Hch _ IH]; [done|]. cbn [denotes]. destruct (octal_digit ch Hch) as (Hr & Hc & ->).
  rewrite (proj2 (Z.eqb_neq _ _) Hc). pose proof (digit_cnt_nonneg l). change (radix base_o) with 8. nia.
Qed.

Lemma parse_octal_digits l rest ofs v :
  Forall (is_digit_of base_o) l → 0 ≤ v → 0 ≤ ofs → v * 8 ^ Z.of_nat (List.length l) + denotes base_o l ≤ ULONG_MAX →
  parse_octal_loop (l ++ rest) ofs v =
    parse_octal_loop rest (ofs + Z.of_nat (List.length l)) (v * 8 ^ Z.of_nat (List.length l) + denotes base_o l).
Proof.
  intros Hl. revert ofs v. induction Hl as [|ch l Hch Hl IH]; intros ofs v Hv Ho Hb.
  - cbn [List.length denotes app]. by rewrite Z.mul_1_r, !Z.add_0_r.
  - cbn [app parse_octal_loop List.length denotes] in *. destruct (octal_digit ch Hch) as (Hr & Hc & Hd).
    rewrite (proj2 (Z.eqb_neq _ _) Hc) in *. rewrite Hd in *. rewrite (digit_cnt_octal l Hl) in *.
    pose proof (denotes_octal_nonneg l Hl). change (radix base_o) with 8 in *.
    rewrite Nat2Z.inj_succ, Z.pow_succ_r in * by lia. set (n := 8 ^ Z.of_nat (List.length l)) in *.
    assert (1 ≤ n) by (unfold n; pose proof (Z.pow_pos_nonneg 8 (Z.of_nat (List.length l))); lia).
    assert (Hb8 : v * 8 + (ch - 48) ≤ ULONG_MAX) by nia.
    rewrite (proj2 (Z.leb_le 48 ch)), (proj2 (Z.leb_le ch 55)) by lia. cbn [andb].
    assert (Hq : (ULONG_MAX / 8 <? v) = false) by (apply Z.ltb_ge; apply Z.div_le_lower_bound; lia).
    rewrite Hq, u32_small by (unfold is_u32, ULONG_MAX in *; lia).
    rewrite IH by nia. f_equal; [lia|ring].
Qed.

Lemma digit_loop_length fuel v cnt buf buf' k :
  digit_loop fuel base_o false v cnt buf = Ok buf' → 0 ≤ v < 8 ^ Z.of_nat k → (List.length buf' ≤ List.length buf + k)%nat.
Proof.
  revert v cnt buf k. induction fuel as [|fuel IH]; intros v cnt buf k; cbn [digit_loop];
    (destruct (Z.ltb_spec 0 v); [|intros [= ->]; lia]); [done|].
  cbn [mbind result_bind andb]. destruct (deref (digits base_o !! Z.to_nat (v mod radix base_o))) as [d|]; [|done].
  cbn [mbind result_bind]. unfold put_char. case_bool_decide; [|done]. cbn [mbind result_bind]. intros E Hv.
  destruct k as [|k]; [simpl in Hv; lia|]. rewrite Nat2Z.inj_succ, Z.pow_succ_r in Hv by lia.
  apply (IH _ _ _ k) in E; [simpl in E; lia|]. change (radix base_o) with 8.
  split; [apply Z.div_pos; lia|apply Z.div_lt_upper_bound; lia].
Qed.

(** What "%0<w>o" prints of a number of at most [w] octal digits. *)
Lemma format_octal w x :
  (1 ≤ w ≤ 21)%nat → 0 ≤ x < 8 ^ Z.of_nat w →
  ∃ l, format_integer x false false base_o (Conversion ZERO (Z.of_nat w) (-1) INT) = Ok l
    ∧ List.length l = w ∧ Forall (is_digit_of base_o) l ∧ denotes base_o l = x.
Proof.
  intros Hw Hx. set (c := Conversion ZERO (Z.of_nat w) (-1) INT).
  assert (Hx64 : 0 ≤ x < 2 ^ 64).
  { split; [lia|]. apply Z.lt_le_trans with (8 ^ Z.of_nat w); [lia|]. change (2 ^ 64) with (2 * 8 ^ 21).
    pose proof (Z.pow_le_mono_r 8 (Z.of_nat w) 21). lia. }
  destruct (buffer_spec x base_o c) as (buf1 & buf2 & buf & E1 & E2 & E3 & Hd & Hl & Hc & _ & _); [by right; left|done|].
  change (has GROUP (flags c)) with false in *. change (has POUND (flags c)) with false in *. cbn [andb] in E3. injection E3 as <-.
  assert (Hw2 : (List.length buf2 ≤ w)%nat).
  { apply (digit_loop_length _ _ _ _ _ w) in E1; [|done]. simpl in E1.
    destruct (precision_loop_spec 64 1 buf1) as (k & E2' & Hk); [unfold BUF_SIZE in *; lia|unfold BUF_SIZE in *; lia|].
    change (precision_loop 64 1 buf1 = Ok buf2) in E2. rewrite E2' in E2. injection E2 as <-. 
    rewrite length_app, length_replicate in *. lia. }
  unfold format_integer. change (has GROUP (flags c)) with false. change (has POUND (flags c)) with false. cbn [andb].
  rewrite E1. cbn [mbind result_bind]. rewrite E2. cbn [mbind result_bind]. 
  change (Z.land (flags c) (Z.lor MINUS ZERO) =? 0) with false. change (has ZERO (flags c)) with true. change (has MINUS (flags c)) with false.
  change (width c) with (Z.of_nat w). cbn [sign_char Z.eqb app]. 
  rewrite i32_small by (unfold is_i32; lia). rewrite !Z.sub_0_r.
  set (pad := if _ <? 0 then _ else _). assert (Hp : pad = Z.of_nat w - Z.of_nat (List.length buf2)).
  { unfold pad. destruct (Z.ltb_spec (Z.of_nat w - Z.of_nat (List.length buf2)) 0); lia. }
  unfold output_dup. rewrite Hp, u32_small by (unfold is_u32; lia). rewrite app_nil_r. eexists. split; [done|]. split_and!.
  - rewrite length_app, length_replicate. lia.
  - apply Forall_app. split; [apply Forall_replicate; by left|]. eapply Forall_impl; [exact Hc|]. by intros ch [?|[? _]].
  - rewrite denotes_zeros; [done|by right; left].
Qed.

(** ** Members *)

Lemma length_set_field h f bs : (f.1 + List.length bs ≤ List.length h)%nat → List.length (set_field h f bs) = List.length h.
Proof. apply length_put_inside. Qed.

Lemma field_set_same h f bs :
  (f.1 + f.2 ≤ List.length h)%nat → List.length bs = f.2 → field (set_field h f bs) f = bs.
Proof.
  intros Hl Hb. unfold field, set_field, put_bytes. rewrite drop_app_ge by (rewrite length_take; lia).
  rewrite length_take, Nat.min_l, Nat.sub_diag by lia. rewrite drop_0, take_app_le, take_ge by lia. done.
Qed.

Lemma field_set_other h f g bs :
  (g.1 + List.length bs ≤ List.length h)%nat → (f.1 + f.2 ≤ g.1 ∨ g.1 + List.length bs ≤ f.1)%nat →
  field (set_field h g bs) f = field h f.
Proof.
  intros Hl Hd. unfold field, set_field, put_bytes. destruct Hd.
  - rewrite drop_app_le by (rewrite length_take; lia). rewrite take_app_le by (rewrite length_drop, length_take; lia).
    rewrite !take_drop_commute, take_take. do 2 f_equal. lia.
  - rewrite !drop_app_ge by (rewrite ?length_take; lia). rewrite drop_drop, length_take. do 2 f_equal. lia.
Qed.

Lemma byte_at_field h j : (j < List.length h)%nat → field h (j, 1%nat) = [byte_at h j].
Proof.
  intros Hj. unfold field, byte_at. cbn [fst snd]. destruct (lookup_lt_is_Some_2 h j Hj) as [b Hb].
  rewrite (drop_S h b j Hb). simpl. by rewrite (nth_lookup_Some _ _ _ _ Hb).
Qed.

(** The checksum does not depend on its own field. *)
Lemma chksum_loop_app i a b c : chksum_loop i (a ++ b) c = chksum_loop (i + Z.of_nat (List.length a)) b (chksum_loop i a c).
Proof.
  revert i c. induction a as [|x a IH]; intros i c; cbn [chksum_loop app List.length]; [by rewrite Z.add_0_r|].
  rewrite IH. f_equal. lia.
Qed.

Lemma chksum_loop_field i a a' c :
  148 ≤ i → i + Z.of_nat (List.length a) ≤ 156 → List.length a = List.length a' → chksum_loop i a c = chksum_loop i a' c.
Proof.
  revert i a' c. induction a as [|x a IH]; intros i [|y a'] c H1 H2 Hl; simpl in Hl; try done.
  cbn [chksum_loop List.length] in *. assert (E : in_chksum_field i = true) by (unfold in_chksum_field; apply andb_true_iff; lia).
  rewrite E. apply IH; lia.
Qed.

Lemma chksum_set_field h bs :
  List.length h = USTAR_HEADER_SIZE → List.length bs = 8%nat → calculate_chksum (set_field h CHKSUM bs) = calculate_chksum h.
Proof.
  intros Hh Hb. unfold calculate_chksum. rewrite !take_ge by (rewrite ?length_set_field; unfold USTAR_HEADER_SIZE in *; simpl; lia).
  unfold set_field, put_bytes. simpl fst. rewrite Hb. rewrite <- (take_drop 148 h) at 3. rewrite <- (take_drop 8 (drop 148 h)), drop_drop.
  change (148 + 8)%nat with 156%nat. rewrite !chksum_loop_app. f_equal.
  - rewrite Hb, !length_take, length_drop, Hh. done.
  - apply chksum_loop_field; rewrite ?length_take, ?length_drop, ?Hh, ?Hb; unfold USTAR_HEADER_SIZE; simpl; lia.
Qed.

Lemma chksum_bound i h c :
  Forall is_u8 h → 0 ≤ c → c + 256 * Z.of_nat (List.length h) < 2 ^ 32 →
  0 ≤ chksum_loop i h c ≤ c + 255 * Z.of_nat (List.length h).
Proof.
  intros Hh. revert i c. induction Hh as [|b h Hb _ IH]; intros i c Hc Hl; cbn [chksum_loop List.length] in *; [lia|].
  assert (Hs : 0 ≤ (if in_chksum_field i then 32 else b) ≤ 255) by (destruct (in_chksum_field i); unfold is_u8 in Hb; lia).
  rewrite u32_small by (unfold is_u32; lia). destruct (IH (i + 1) (c + if in_chksum_field i then 32 else b)); lia.
Qed.

(** ** Printed fields *)

Lemma printf_octal c fmt w x l :
  (∀ args, parse_conversion (c :: fmt) args = Ok ((Conversion ZERO w (-1) INT, [111; 0]), args)) → c ≠ 37 → c ≠ 0 →
  format_integer x false false base_o (Conversion ZERO w (-1) INT) = Ok l →
  printf no_strings (37 :: c :: fmt) [x] = Ok l.
Proof.
  intros Hp Hc Hc0 E. unfold printf, vprintf. cbn [vprintf_loop List.length]. unfold mbind, st_bind, result_bind, front, lift.
  cbn [head tail deref Z.eqb Pos.eqb negb]. rewrite (proj2 (Z.eqb_neq _ _) Hc), Hp. cbn [head deref].
  unfold convert. cbn [Z.eqb Pos.eqb orb type]. unfold mbind, st_bind, unsigned_arg, va_word, mret, st_ret, lift, base_of.
  cbn [Z.eqb Pos.eqb]. rewrite E. cbn [tail head deref Z.eqb Pos.eqb]. by rewrite app_nil_r.
Qed.

Definition octal (w : nat) (x : Z) (l : list Z) : Prop :=
  List.length l = w ∧ Forall (is_digit_of base_o) l ∧ denotes base_o l = x.

Lemma out_7o x : 0 ≤ x < 8 ^ 7 → ∃ l, out "%07o" [u32 x] = Ok l ∧ octal 7 x l.
Proof.
  intros Hx. destruct (format_octal 7 x) as (l & E & H); [lia|done|]. exists l. split; [|done].
  rewrite u32_small by (unfold is_u32; lia). by apply (printf_octal 48 [55; 111; 0] 7).
Qed.

Lemma out_11o x : 0 ≤ x < 2 ^ 32 → ∃ l, out "%011o" [u32 x] = Ok l ∧ octal 11 x l.
Proof.
  intros Hx. destruct (format_octal 11 x) as (l & E & H); [lia|lia|]. exists l. split; [|done].
  rewrite u32_small by done. by apply (printf_octal 48 [49; 49; 111; 0] 11).
Qed.

Lemma parse_octal_printed w x l rest :
  octal w x l → (0 < w)%nat → x ≤ ULONG_MAX → parse_octal_field (l ++ 0 :: rest) = Some x.
Proof.
  intros (<- & Hl & <-) Hw Hx. unfold parse_octal_field. rewrite parse_octal_digits by (done || lia).
  rewrite Z.mul_0_l, !Z.add_0_l. cbn [parse_octal_loop]. rewrite (proj2 (Z.ltb_lt 0 _)) by lia. done.
Qed.

Lemma octal_u8 w x l : octal w x l → Forall is_u8 l.
Proof.
  intros (_ & Hl & _). eapply Forall_impl; [exact Hl|]. intros ch Hch. destruct (octal_digit ch Hch) as [? _]. unfold is_u8. lia.
Qed.

(** A member that was printed or copied: the characters, then a null. *)
Lemma put_string_eq h f s :
  (List.length s < f.2)%nat → put_string h f s = set_field h f (s ++ [0]).
Proof. intros Hs. unfold put_string. by rewrite take_ge by lia. Qed.

Lemma set_field_u8 h f bs : Forall is_u8 h → Forall is_u8 bs → Forall is_u8 (set_field h f bs).
Proof. intros Hh Hb. unfold set_field, put_bytes. rewrite !Forall_app. split_and!; [by apply Forall_take|done|by apply Forall_drop]. Qed.

(** The header without its checksum, as the sequence of its members. *)
Definition header_fields (name mode size mtime : list Z) (type : Z) : list ((nat * nat) * list Z) :=
  [(NAME, name ++ [0]); (MODE, mode ++ [0]); (UID, literal "0000000"); (GID, literal "0000000");
   (SIZE, size ++ [0]); (MTIME, mtime ++ [0]); (TYPEFLAG, [type]); (MAGIC, literal "ustar"); (VERSION, [48; 48]);
   (GNAME, literal "root"); (UNAME, literal "root")].

Definition write_fields (h : list Z) (fs : list ((nat * nat) * list Z)) : list Z := foldl (λ h f, set_field h f.1 f.2) h fs.

Definition fits (f : (nat * nat) * list Z) : Prop := (f.1.1 + List.length f.2 ≤ USTAR_HEADER_SIZE)%nat.
Definition misses (f : nat * nat) (g : (nat * nat) * list Z) : Prop := (f.1 + f.2 ≤ g.1.1 ∨ g.1.1 + List.length g.2 ≤ f.1)%nat.

Lemma write_fields_length h fs : List.length h = USTAR_HEADER_SIZE → Forall fits fs → List.length (write_fields h fs) = USTAR_HEADER_SIZE.
Proof.
  intros Hh Hf. revert h Hh. induction Hf as [|f fs Hf _ IH]; intros h Hh; [done|]. cbn [write_fields foldl]. apply IH.
  rewrite length_set_field; [done|]. by rewrite Hh.
Qed.

Lemma write_fields_other h fs f :
  List.length h = USTAR_HEADER_SIZE → Forall fits fs → Forall (misses f) fs → field (write_fields h fs) f = field h f.
Proof.
  intros Hh Hf Hm. revert h Hh Hm. induction Hf as [|g fs Hg _ IH]; intros h Hh Hm; [done|].
  apply Forall_cons in Hm as [H1 H2]. cbn [write_fields foldl]. unfold write_fields in IH.
  rewrite IH; [|by rewrite length_set_field; rewrite ?Hh|done]. apply field_set_other; [by rewrite Hh|done].
Qed.

(** A member keeps what was written to it if the later ones miss it. *)
Lemma write_fields_same h fs gs f bs :
  List.length h = USTAR_HEADER_SIZE → Forall fits (fs ++ (f, bs) :: gs) → Forall (misses (f.1, List.length bs)) gs →
  field (write_fields h (fs ++ (f, bs) :: gs)) (f.1, List.length bs) = bs.
Proof.
  intros Hh Hf Hm. apply Forall_app in Hf as [Hf1 Hf2]. apply Forall_cons in Hf2 as [Hf2 Hf3].
  unfold write_fields. rewrite foldl_app. cbn [foldl]. pose proof (write_fields_length h fs Hh Hf1) as Hl. unfold write_fields in Hl.
  rewrite (write_fields_other _ gs); [|rewrite length_set_field; rewrite ?Hl; done|done|done].
  apply (field_set_same _ (f.1, List.length bs) bs); [rewrite Hl; exact Hf2|done].
Qed.

Lemma write_fields_u8 h fs : Forall is_u8 h → Forall (λ f, Forall is_u8 f.2) fs → Forall is_u8 (write_fields h fs).
Proof.
  intros Hh Hf. revert h Hh. induction Hf as [|f fs Hf _ IH]; intros h Hh; [done|]. cbn [write_fields foldl]. by apply IH, set_field_u8.
Qed.

(** ** The header that is made *)

Definition zeros : list Z := replicate USTAR_HEADER_SIZE 0.

Lemma zeros_length : List.length zeros = 512%nat.
Proof. done. Qed.

Definition is_type (t : Z) : Prop := t = USTAR_REGULAR ∨ t = USTAR_DIRECTORY.

Section header.
Context (name : list Z) (t size : Z) (mode sz mt ck : list Z).
Hypotheses (Hname : is_name name) (Hlen : (List.length name ≤ 99)%nat) (Ht : is_type t)
  (Hmode : List.length mode = 7%nat) (Hsz : octal 11 size sz) (Hmt : List.length mt = 11%nat) (Hsize : 0 ≤ size ≤ INT_MAX).

Let fs := header_fields name mode sz mt t.
Hypothesis Hck : octal 7 (calculate_chksum (write_fields zeros fs)) ck.

Definition whole_header : list Z := write_fields zeros (header_fields name mode sz mt t ++ [(CHKSUM, ck ++ [0])]).

Lemma whole_fits : Forall fits (header_fields name mode sz mt t ++ [(CHKSUM, ck ++ [0])]).
Proof.
  destruct Hsz as [Hs _], Hck as [Hc _]. unfold header_fields. cbn [app].
  repeat apply Forall_cons_2; try apply Forall_nil_2; unfold fits; cbn [fst snd]; rewrite ?length_app, ?Hmode, ?Hs, ?Hmt, ?Hc; simpl; unfold USTAR_HEADER_SIZE; lia.
Qed.

Lemma whole_length : List.length whole_header = USTAR_HEADER_SIZE.
Proof. apply write_fields_length; [done|apply whole_fits]. Qed.

Ltac missing :=
  destruct Hsz as [Hs _], Hck as [Hc _]; cbn [header_fields app take drop];
  repeat apply Forall_cons_2; try apply Forall_nil_2; unfold misses; cbn [fst snd]; rewrite ?length_app, ?Hmode, ?Hs, ?Hmt, ?Hc; simpl; lia.

Lemma whole_field k f bs :
  (header_fields name mode sz mt t ++ [(CHKSUM, ck ++ [0])]) !! k = Some (f, bs) →
  Forall (misses (f.1, List.length bs)) (drop (S k) (header_fields name mode sz mt t ++ [(CHKSUM, ck ++ [0])])) →
  field whole_header (f.1, List.length bs) = bs.
Proof.
  intros Hk Hm. pose proof whole_fits as Hf. unfold whole_header in *. set (l := _ ++ [_]) in *.
  rewrite <- (take_drop_middle l k _ Hk) in Hf |- *. by apply write_fields_same.
Qed.

Lemma whole_name : field whole_header (0%nat, List.length (name ++ [0])) = name ++ [0].
Proof. apply (whole_field 0 NAME); [done|]. rewrite length_app. simpl List.length. missing. Qed.

Lemma whole_magic : field whole_header MAGIC = literal "ustar".
Proof. apply (whole_field 7 MAGIC (literal "ustar")); [done|]. missing. Qed.

Lemma whole_version : field whole_header VERSION = [48; 48].
Proof. apply (whole_field 8 VERSION [48; 48]); [done|]. missing. Qed.

Lemma whole_type : byte_at whole_header 156 = t.
Proof.
  assert (E : field whole_header (156%nat, 1%nat) = [t]) by (apply (whole_field 6 TYPEFLAG [t]); [done|missing]).
  rewrite byte_at_field in E by (rewrite whole_length; unfold USTAR_HEADER_SIZE; lia). by injection E.
Qed.

Lemma whole_size : field whole_header SIZE = sz ++ [0].
Proof.
  pose proof (whole_field 4 SIZE (sz ++ [0]) eq_refl) as H. pose proof (proj1 Hsz) as Hs'. rewrite length_app, Hs' in H. apply H. missing.
Qed.

Lemma whole_chksum_field : field whole_header CHKSUM = ck ++ [0].
Proof.
  pose proof (whole_field 11 CHKSUM (ck ++ [0]) eq_refl) as H. destruct Hck as [Hc _]. rewrite length_app, Hc in H. by apply H.
Qed.

Lemma whole_chksum : calculate_chksum whole_header = calculate_chksum (write_fields zeros fs).
Proof.
  unfold whole_header, write_fields. rewrite foldl_app. cbn [foldl fst snd]. apply chksum_set_field.
  - pose proof whole_fits as Hf. apply Forall_app in Hf as [Hf _]. by apply (write_fields_length zeros fs).
  - destruct Hck as [Hc _]. rewrite length_app, Hc. done.
Qed.

Lemma whole_nulls : byte_at whole_header 99 = 0 ∧ byte_at whole_header 345 = 0.
Proof.
  pose proof whole_fits as Hf. pose proof whole_length as Hl. split.
  - assert (E : field whole_header (99%nat, 1%nat) = field (set_field zeros NAME (name ++ [0])) (99%nat, 1%nat)).
    { apply (write_fields_other (set_field zeros NAME (name ++ [0])) (drop 1 (header_fields name mode sz mt t ++ [(CHKSUM, ck ++ [0])]))).
      - apply length_set_field. rewrite length_app, zeros_length. simpl. lia.
      - by apply (Forall_drop _ 1).
      - missing. }
    rewrite !byte_at_field in E by (rewrite ?Hl, ?length_set_field; rewrite ?length_app, ?zeros_length; unfold USTAR_HEADER_SIZE; simpl; lia).
    injection E as ->. unfold set_field. rewrite byte_at_put by (rewrite length_app, zeros_length; simpl; lia).
    case_decide as Hd; [|by vm_compute]. 
    rewrite length_app in Hd. simpl in Hd. assert (E : List.length name = 99%nat) by lia. unfold byte_at. simpl fst. rewrite Nat.sub_0_r.
    rewrite app_nth2 by lia. by rewrite E.
  - assert (E : field whole_header (345%nat, 1%nat) = field zeros (345%nat, 1%nat)).
    { apply write_fields_other; [done|done|]. destruct Hsz as [Hs _], Hck as [Hc _]. unfold header_fields. cbn [app].
      repeat apply Forall_cons_2; try apply Forall_nil_2; unfold misses; cbn [fst snd]; rewrite ?length_app, ?Hmode, ?Hs, ?Hmt, ?Hc; simpl; lia. }
    rewrite !byte_at_field in E by (rewrite ?Hl, ?zeros_length; unfold USTAR_HEADER_SIZE; lia).
    injection E as ->. done.
Qed.

Lemma whole_parse :
  sociable name → name ≠ [] → name ≠ [DOT; DOT] → 0 ≤ calculate_chksum (write_fields zeros fs) ≤ ULONG_MAX →
  ustar_parse_header whole_header = Ok (Entry name t (if t =? USTAR_REGULAR then size else 0)).
Proof.
  intros Hsoc Hn1 Hn2 Hcs. pose proof whole_length as Hl. unfold ustar_parse_header.
  assert (Hz : is_all_zeros (take USTAR_HEADER_SIZE whole_header) = false).
  { apply not_true_is_false. unfold is_all_zeros. rewrite forallb_forall, take_ge by lia. intros Hall.
    assert (Hm : 117 ∈ field whole_header MAGIC) by (rewrite whole_magic; by left). unfold field in Hm.
    specialize (Hall 117). rewrite <- list_elem_of_In, <- (take_drop MAGIC.1 whole_header), <- (take_drop MAGIC.2 (drop MAGIC.1 _)) in Hall.
    rewrite !elem_of_app in Hall. specialize (Hall (or_intror (or_introl Hm))). done. }
  rewrite Hz, whole_magic, whole_version, whole_chksum_field. rewrite !bool_decide_true by done. cbn [negb].
  rewrite (parse_octal_printed 7 _ ck []) by (exact Hck || lia). rewrite whole_chksum. fold fs. rewrite Z.eqb_refl. cbn [negb].
  destruct whole_nulls as [-> H345]. change PREFIX.1 with 345%nat. rewrite H345. change TYPEFLAG.1 with 156%nat. rewrite whole_type. cbn [Z.eqb negb orb].
  assert (Htt : negb (t =? USTAR_REGULAR) && negb (t =? USTAR_DIRECTORY) = false) by (destruct Ht as [-> | ->]; done). rewrite Htt.
  rewrite whole_size, (parse_octal_printed 11 size sz []) by (exact Hsz || unfold ULONG_MAX, INT_MAX in *; lia).
  assert (Hi : (INT_MAX <? size) = false) by (apply Z.ltb_ge; lia). rewrite Hi.
  assert (Hc : c_string (drop NAME.1 whole_header) = Ok name).
  { simpl. rewrite drop_0. rewrite <- (take_drop (List.length (name ++ [0])) whole_header).
    pose proof whole_name as Hw. unfold field in Hw. cbn [fst snd] in Hw. rewrite drop_0 in Hw. rewrite Hw, <- app_assoc.
    by apply c_string_app. }
  destruct (t =? USTAR_REGULAR); rewrite Hc; cbn [mbind result_bind]; repeat f_equal;
    unfold strip_antisocial_prefixes; rewrite strip_loop_id by done; rewrite bool_decide_false by tauto; done.
Qed.
End header.

Lemma is_u8_bytes l : forallb (λ b, (0 <=? b) && (b <? 256)) l = true → Forall is_u8 l.
Proof.
  rewrite forallb_forall, Forall_forall. intros H x Hx. apply list_elem_of_In, H, andb_true_iff in Hx as [? ?].
  bools. unfold is_u8. lia.
Qed.

Lemma is_name_bytes l : forallb (λ b, (1 <=? b) && (b <? 256)) l = true → is_name l.
Proof.
  rewrite forallb_forall. unfold is_name. rewrite Forall_forall. intros H x Hx. apply list_elem_of_In, H, andb_true_iff in Hx as [? ?].
  bools. unfold is_u8. lia.
Qed.

Lemma write_header_fields name t mode sz mt :
  write_fields zeros (header_fields name mode sz mt t) =
    set_field (set_field (set_field (set_field (set_field (set_field (set_field (set_field (set_field (set_field (set_field zeros
      NAME (name ++ [0])) MODE (mode ++ [0])) UID (chars "0000000" ++ [0])) GID (chars "0000000" ++ [0])) SIZE (sz ++ [0]))
      MTIME (mt ++ [0])) TYPEFLAG [t]) MAGIC (chars "ustar" ++ [0])) VERSION [48; 48]) GNAME (chars "root" ++ [0])) UNAME (chars "root" ++ [0]).
Proof. unfold write_fields, header_fields, literal. cbn [foldl fst snd]. reflexivity. Qed.

Lemma whole_header_eq name t mode sz mt ck :
  whole_header name t mode sz mt ck = set_field (write_fields zeros (header_fields name mode sz mt t)) CHKSUM (ck ++ [0]).
Proof. unfold whole_header, write_fields. rewrite foldl_app. reflexivity. Qed.

Lemma zeros_u8 : Forall is_u8 zeros.
Proof. apply is_u8_bytes. vm_compute. reflexivity. Qed.

Lemma header_fields_u8 name t m s d mode sz mt :
  is_name name → is_type t → octal 7 m mode → octal 11 s sz → octal 11 d mt →
  Forall (λ f, Forall is_u8 f.2) (header_fields name mode sz mt t).
Proof.
  intros Hn Ht Om Os Ot. apply octal_u8 in Om, Os, Ot.
  assert (Hu : Forall is_u8 name) by (eapply Forall_impl; [exact Hn|by intros ? [? _]]).
  assert (H0 : Forall is_u8 [0]) by (apply is_u8_bytes; reflexivity).
  assert (Htu : Forall is_u8 [t]) by (destruct Ht as [-> | ->]; apply is_u8_bytes; reflexivity).
  do 11 (apply Forall_cons_2; [cbn [snd];
    first [exact Htu|apply is_u8_bytes; vm_compute; reflexivity|apply Forall_app; split; assumption]|]). apply Forall_nil_2.
Qed.

Lemma header_fields_fit name t mode sz mt :
  (List.length name ≤ 99)%nat → List.length mode = 7%nat → List.length sz = 11%nat → List.length mt = 11%nat →
  Forall fits (header_fields name mode sz mt t).
Proof.
  intros Hl Om Os Ot. repeat apply Forall_cons_2; [..|apply Forall_nil_2]; unfold fits; cbn [fst snd];
    rewrite ?length_app, ?Om, ?Os, ?Ot; simpl; unfold USTAR_HEADER_SIZE; lia.
Qed.

Lemma chksum_range h : List.length h = USTAR_HEADER_SIZE → Forall is_u8 h → 0 ≤ calculate_chksum h ≤ 255 * 512.
Proof.
  unfold calculate_chksum, USTAR_HEADER_SIZE. intros Hl Hu. rewrite take_ge by lia.
  pose proof (chksum_bound 0 _ 0 Hu) as Hb. rewrite Hl in Hb. lia.
Qed.

Definition mode_of (t : Z) : Z := if t =? USTAR_REGULAR then 420 else 493.

Section made.
Context (name : list Z) (t size : Z) (mode sz mt ck : list Z).
Let name' := strip_antisocial_prefixes name.
Let fs := header_fields name' mode sz mt t.
Hypotheses (Ht : is_type t) (Hl : (List.length name' ≤ 99)%nat)
  (Em : out "%07o" [u32 (mode_of t)] = Ok mode) (Es : out "%011o" [u32 size] = Ok sz) (Et : out "%011o" [u32 1136102400] = Ok mt)
  (Ec : out "%07o" [u32 (calculate_chksum (write_fields zeros fs))] = Ok ck)
  (Lm : List.length mode = 7%nat) (Ls : List.length sz = 11%nat) (Lt : List.length mt = 11%nat) (Lc : List.length ck = 7%nat).

Lemma ok_bind {A B} (a : A) (f : A → result B) : (Ok a ≫= f) = f a.
Proof. done. Qed.

Lemma print_field_run h f format x s :
  out format [u32 x] = Ok s → (List.length s < f.2)%nat → print_field h f format x = Ok (set_field h f (s ++ [0])).
Proof. intros E Hs. unfold print_field. rewrite E. cbn [mbind result_bind]. by rewrite put_string_eq. Qed.

Lemma made_header : ustar_make_header name t size = Ok (Some (whole_header name' t mode sz mt ck)).
Proof.
  unfold ustar_make_header. fold name'. fold (mode_of t).
  assert (Ha : ASSERT ((t =? USTAR_REGULAR) || (t =? USTAR_DIRECTORY)) = Ok tt) by (destruct Ht as [-> | ->]; done).
  rewrite Ha. rewrite ok_bind. rewrite bool_decide_false by lia.
  rewrite (print_field_run _ _ _ _ _ Em) by (rewrite Lm; simpl; lia). rewrite ok_bind.
  rewrite (print_field_run _ _ _ _ _ Es) by (rewrite Ls; simpl; lia). rewrite ok_bind.
  rewrite (print_field_run _ _ _ _ _ Et) by (rewrite Lt; simpl; lia). rewrite ok_bind.
  fold zeros. rewrite !put_string_eq by (simpl; lia). rewrite <- write_header_fields. fold fs.
  rewrite (print_field_run _ _ _ _ _ Ec) by (rewrite Lc; simpl; lia). rewrite ok_bind. by rewrite whole_header_eq.
Qed.
End made.

Lemma make_header_spec name t size :
  is_name name → is_type t → 0 ≤ size ≤ INT_MAX → (List.length (strip_antisocial_prefixes name) ≤ 99)%nat →
  ∃ h, ustar_make_header name t size = Ok (Some h) ∧ List.length h = USTAR_HEADER_SIZE ∧
    ustar_parse_header h = Ok (Entry (strip_antisocial_prefixes name) t (if t =? USTAR_REGULAR then size else 0)).
Proof.
  intros Hn Ht Hs Hl. destruct (strip_sociable name) as (Hsoc & Hne1 & Hne2). pose proof (strip_name name Hn) as Hn'.
  destruct (out_7o (mode_of t)) as (mode & Em & Om); [unfold mode_of; destruct (t =? USTAR_REGULAR); lia|].
  destruct (out_11o size) as (sz & Es & Os); [unfold INT_MAX in *; lia|].
  destruct (out_11o 1136102400) as (mt & Et & Ot); [lia|].
  pose proof (write_fields_u8 zeros _ zeros_u8 (header_fields_u8 _ t _ _ _ mode sz mt Hn' Ht Om Os Ot)) as Hu8.
  pose proof (header_fields_fit _ t mode sz mt Hl (proj1 Om) (proj1 Os) (proj1 Ot)) as Hfit.
  pose proof (chksum_range _ (write_fields_length zeros _ zeros_length Hfit) Hu8) as Hck.
  destruct (out_7o _ (conj (proj1 Hck) (Z.le_lt_trans _ _ (8 ^ 7) (proj2 Hck) eq_refl))) as (ck & Ec & Oc).
  eexists. split_and!.
  - exact (made_header name t size mode sz mt ck Ht Hl Em Es Et Ec (proj1 Om) (proj1 Os) (proj1 Ot) (proj1 Oc)).
  - exact (whole_length _ t size mode sz mt ck Hl (proj1 Om) Os (proj1 Ot) Oc).
  - apply (whole_parse _ t size mode sz mt ck Hn' Hl Ht (proj1 Om) Os (proj1 Ot) Hs Oc Hsoc Hne1 Hne2).
    split; [exact (proj1 Hck)|]. exact (Z.le_trans _ _ ULONG_MAX (proj2 Hck) ltac:(done)).
Qed.

(** ** Any header *)

Lemma c_string_terminated b k : (k < List.length b)%nat → byte_at b k = 0 → ∃ s, c_string b = Ok s ∧ (List.length s ≤ k)%nat.
Proof.
  revert k. induction b as [|c b IH]; intros k Hk Hz; simpl in Hk; [lia|]. cbn [c_string].
  destruct (Z.eqb_spec c 0) as [->|Hc]; [exists []; split; [done|simpl; lia]|].
  destruct k as [|k]; [done|]. destruct (IH k) as (s & E & Hs); [lia|done|]. exists (c :: s). rewrite E. split; [done|simpl; lia].
Qed.

Lemma parse_octal_loop_nonneg s ofs v x : 0 ≤ v → parse_octal_loop s ofs v = Some x → 0 ≤ x.
Proof.
  revert ofs v. induction s as [|c s IH]; intros ofs v Hv; cbn [parse_octal_loop]; [done|].
  destruct ((48 <=? c) && (c <=? 55)).
  - destruct (ULONG_MAX / 8 <? v); [done|]. apply IH, u32_range.
  - destruct ((c =? 32) || (c =? 0)); [|done]. destruct (0 <? ofs); [|done]. by intros [= <-].
Qed.

Lemma strip_length n k : (1 ≤ k)%nat → (List.length n ≤ k)%nat → (List.length (strip_antisocial_prefixes n) ≤ k)%nat.
Proof.
  intros Hk Hn. unfold strip_antisocial_prefixes. case_bool_decide; [simpl; lia|].
  destruct (strip_loop_sociable n) as [_ Hs]. apply suffix_length in Hs. lia.
Qed.

(** What a parsed entry promises. *)
Definition good_entry (r : parsed) : Prop :=
  match r with
  | Entry name t size =>
      sociable name ∧ name ≠ [] ∧ name ≠ [DOT; DOT] ∧ (List.length name ≤ 99)%nat ∧ is_type t ∧ 0 ≤ size ≤ INT_MAX
      ∧ (t = USTAR_DIRECTORY → size = 0)
  | _ => True
  end.

Lemma parse_header_spec h : List.length h = USTAR_HEADER_SIZE → ∃ r, ustar_parse_header h = Ok r ∧ good_entry r.
Proof.
  intros Hl. unfold ustar_parse_header.
  repeat match goal with
  | |- ∃ r, (if ?b then Ok _ else _) = _ ∧ _ => destruct b eqn:?; [by eexists|]
  | |- ∃ r, match parse_octal_field (field h CHKSUM) with _ => _ end = _ ∧ _ => destruct (parse_octal_field (field h CHKSUM)); [|by eexists]
  end.
  bools. destruct (c_string_terminated (drop NAME.1 h) 99) as (s & Es & Hs); [simpl; rewrite drop_0, Hl; unfold USTAR_HEADER_SIZE; lia|done|].
  assert (Ht : is_type (byte_at h TYPEFLAG.1)).
  { match goal with H : negb _ && negb _ = false |- _ => apply andb_false_iff in H as [H|H] end; bools; [by left|by right]. }
  destruct (strip_sociable s) as (H1 & H2 & H3). pose proof (strip_length s 99 ltac:(lia) Hs) as H4.
  destruct (Z.eqb_spec (byte_at h TYPEFLAG.1) USTAR_REGULAR) as [Er|Er].
  - destruct (parse_octal_field (field h SIZE)) as [size|] eqn:Ez; [|by eexists].
    destruct (Z.ltb_spec INT_MAX size); [by eexists|]. rewrite Es. eexists. split; [done|]. 
    apply parse_octal_loop_nonneg in Ez; [|done]. split_and!; try done. rewrite Er. done.
  - rewrite Es. eexists. split; [done|]. split_and!; done.
Qed.

(** ** Theorems *)

(** C17.  The header made for a file or directory is a valid one, and parsing it gives back the name
    without its leading slashes, "./" and "../", the type, and the size of a regular file (0 for
    a directory); every size of an int that is not negative fits.  A name that is longer
    than 99 characters without the prefixes is refused. *)
Theorem ustar_roundtrip name t size :
  is_name name → is_type t → 0 ≤ size ≤ INT_MAX →
  let name' := strip_antisocial_prefixes name in
  ((List.length name' ≤ 99)%nat → ∃ h, ustar_make_header name t size = Ok (Some h) ∧ List.length h = USTAR_HEADER_SIZE ∧
     ustar_parse_header h = Ok (Entry name' t (if t =? USTAR_REGULAR then size else 0))) ∧
  ((99 < List.length name')%nat → ustar_make_header name t size = Ok None).
Proof.
  intros Hn Ht Hs name'. split; [by apply make_header_spec|]. intros Hl. unfold ustar_make_header.
  assert (Ha : ASSERT ((t =? USTAR_REGULAR) || (t =? USTAR_DIRECTORY)) = Ok tt) by (destruct Ht as [-> | ->]; done).
  rewrite Ha. cbn [mbind result_bind]. fold name'. by rewrite bool_decide_true.
Qed.

Lemma ustar_roundtrip_witness :
  ∃ h, ustar_make_header (chars "/../bin/ls") USTAR_REGULAR 2147483647 = Ok (Some h)
    ∧ ustar_parse_header h = Ok (Entry (chars "bin/ls") USTAR_REGULAR 2147483647).
Proof.
  destruct (ustar_roundtrip (chars "/../bin/ls") USTAR_REGULAR 2147483647) as [H _];
    [by apply is_name_bytes; vm_compute|by left|done|].
  destruct H as (h & E & _ & P); [apply (bool_decide_unpack _); vm_compute; reflexivity|]. exact (ex_intro _ h (conj E P)).
Defined.

(** C19.  Whatever the 512 bytes of a header are, parsing it does not fault, and the entry it gives, if any,
    has a name that is not empty, not "..", and does not begin with a slash, "./" or "../"; it is
    a file or a directory, whose size is that of an int and not negative.  But only the
    beginning of the name is cleaned: with "../" further inside it still leads out of the directory. *)
Theorem ustar_parse_safe h :
  List.length h = USTAR_HEADER_SIZE →
  (∃ r, ustar_parse_header h = Ok r ∧ good_entry r) ∧
  strip_antisocial_prefixes (chars "a/../../etc/passwd") = chars "a/../../etc/passwd".
Proof. intros Hl. split; [by apply parse_header_spec|done]. Qed.

Lemma ustar_parse_safe_witness : ∃ r, ustar_parse_header (replicate 512 255) = Ok r ∧ good_entry r.
Proof. apply (ustar_parse_safe (replicate 512 255)). reflexivity. Defined.
