(* ===== verification/Random.v ===== *)
(** * lib/random.c: the pseudo-random number generator

    RC4: a permutation of the 256 bytes and two indices into it.

    Shown: the state stays a permutation, no access is out of bounds, a request for bytes is
    a piece of one stream however it is cut, and no two states have the same successor, so that the
    generator never falls into a shorter cycle than the one it is on. *)

From S2P Require Import Prelude Bytes HeapSort.

(** The static variables. *)
Record rng : Type := Rng {
  s : list Z;
  s_i : Z;
  s_j : Z;
  inited : bool;
}.

Abbreviation M := (ST rng).

(** The state of the kernel image: all zero. *)
Definition rng_zero : rng := Rng (replicate 256 0) 0 0 false.

(** [swap_byte (s + a, s + b)]. *)
Definition swap_byte (a b : Z) (s : list Z) : result (list Z) :=
  t ← deref (s !! Z.to_nat a);
  u ← deref (s !! Z.to_nat b);
  mret (<[Z.to_nat b := t]> (<[Z.to_nat a := u]> s)).

(** The second loop of [random_init], for the next [n] values of [i]. *)
Fixpoint key_loop (n : nat) (seedp : list Z) (i j : Z) (s : list Z) : result (list Z) :=
  match n with
  | O => mret s
  | S n =>
      x ← deref (s !! Z.to_nat i);
      k ← deref (seedp !! Z.to_nat (i mod 4));
      let j := u8 (j + (x + k)) in
      s ← swap_byte i j s;
      key_loop n seedp (i + 1) j s
  end.

Definition random_init (seed : Z) : M unit :=
  let seedp := word_bytes seed in
  s ← lift (key_loop 256 seedp 0 0 (u8 <$> seqZ 0 256));
  modify (λ _, Rng s 0 0 true).

(** One turn of the loop of [random_bytes]. *)
Definition random_byte (g : rng) : result (Z * rng) :=
  let i := u8 (s_i g + 1) in
  x ← deref (s g !! Z.to_nat i);
  let j := u8 (s_j g + x) in
  s' ← swap_byte i j (s g);
  x ← deref (s' !! Z.to_nat i);
  y ← deref (s' !! Z.to_nat j);
  byte ← deref (s' !! Z.to_nat (u8 (x + y)));
  mret (byte, Rng s' i j (inited g)).

Fixpoint bytes_loop (n : nat) : M (list Z) :=
  match n with
  | O => mret []
  | S n => byte ← random_byte; bytes ← bytes_loop n; mret (byte :: bytes)
  end.

Definition random_bytes (size : nat) : M (list Z) :=
  g ← gets id;
  (if inited g : bool then mret tt else random_init 0);;
  bytes_loop size.

Definition random_ulong : M Z := bytes ← random_bytes 4; mret (get32 bytes 0).

(** ** Type of the state *)

Definition permuted (s : list Z) : Prop := s ≡ₚ seqZ 0 256.

Record rng_ok (g : rng) : Prop := {
  ok_s : inited g = true → permuted (s g);
  ok_i : is_u8 (s_i g);
  ok_j : is_u8 (s_j g);
}.

Lemma permuted_length l : permuted l → length l = 256%nat.
Proof. intros H. unfold permuted in H. rewrite H. by rewrite length_seqZ. Qed.

Lemma permuted_lookup l i : permuted l → is_u8 i → ∃ x, l !! Z.to_nat i = Some x ∧ is_u8 x.
Proof.
  intros Hl Hi. pose proof (permuted_length _ Hl). unfold_ints.
  destruct (lookup_lt_is_Some_2 l (Z.to_nat i)) as [x Hx]; [lia|]. exists x. split; [done|].
  apply list_elem_of_lookup_2 in Hx. unfold permuted in Hl. rewrite Hl in Hx. apply elem_of_seqZ in Hx. lia.
Qed.

Lemma swap_byte_spec a b l :
  permuted l → is_u8 a → is_u8 b →
  ∃ l' x y, swap_byte a b l = Ok l' ∧ permuted l' ∧
    l !! Z.to_nat a = Some x ∧ l !! Z.to_nat b = Some y ∧
    l' !! Z.to_nat a = Some y ∧ l' !! Z.to_nat b = Some x ∧ swap_byte a b l' = Ok l.
Proof.
  intros Hl Ha Hb.
  destruct (permuted_lookup l a Hl Ha) as (x & Hx & _), (permuted_lookup l b Hl Hb) as (y & Hy & _).
  pose proof (lookup_lt_Some _ _ _ Hx). pose proof (lookup_lt_Some _ _ _ Hy).
  set (l' := <[Z.to_nat b := x]> (<[Z.to_nat a := y]> l)).
  assert (Hxa : l' !! Z.to_nat a = Some y).
  { unfold l'. destruct (decide (Z.to_nat a = Z.to_nat b)) as [E|Hne].
    - rewrite E, list_lookup_insert_eq by (rewrite length_insert; lia). congruence.
    - rewrite list_lookup_insert_ne by done. by rewrite list_lookup_insert_eq by lia. }
  assert (Hxb : l' !! Z.to_nat b = Some x).
  { unfold l'. by rewrite list_lookup_insert_eq by (rewrite length_insert; lia). }
  exists l', x, y. unfold swap_byte at 1. rewrite Hx, Hy. split_and!; [done| |done..|].
  - unfold permuted in *. rewrite <- Hl. destruct (decide (Z.to_nat b = Z.to_nat a)) as [E|Hne].
    + unfold l'. rewrite E in Hy |- *. assert (x = y) as <- by congruence.
      rewrite (list_insert_id l) by done. by rewrite list_insert_id.
    + pose proof (swap_Permutation (Z.to_nat b) (Z.to_nat a) l Hne) as Hp. unfold swap in Hp.
      by rewrite Hx, Hy in Hp.
  - unfold swap_byte. rewrite Hxa, Hxb. cbn. f_equal. apply list_eq. intros k.
    destruct (decide (k = Z.to_nat b)) as [->|]; [by rewrite list_lookup_insert_eq by (rewrite !length_insert; unfold l'; rewrite !length_insert; lia)|].
    rewrite list_lookup_insert_ne by done. destruct (decide (k = Z.to_nat a)) as [->|].
    + by rewrite list_lookup_insert_eq by (unfold l'; rewrite !length_insert; lia).
    + rewrite list_lookup_insert_ne by done. unfold l'. by rewrite !list_lookup_insert_ne.
Qed.

Lemma key_loop_ok n seedp i j l :
  permuted l → is_u8 j → 0 ≤ i → i + Z.of_nat n ≤ 256 → length seedp = 4%nat →
  ∃ l', key_loop n seedp i j l = Ok l' ∧ permuted l'.
Proof.
  revert i j l. induction n as [|n IH]; intros i j l Hl Hj Hi Hn Hs; [by exists l|].
  destruct (permuted_lookup l i Hl) as (x & Hx & _); [unfold_ints; lia|].
  destruct (lookup_lt_is_Some_2 seedp (Z.to_nat (i mod 4))) as [k Hk].
  { pose proof (Z.mod_pos_bound i 4 eq_refl). lia. }
  cbn [key_loop]. rewrite Hx. cbn. rewrite Hk. cbn.
  destruct (swap_byte_spec i (u8 (j + (x + k))) l Hl) as (l' & _ & _ & E & Hl' & _); [unfold_ints; lia|apply u8_range|].
  rewrite E. cbn. apply IH; [done|apply u8_range|lia|lia|done].
Qed.

Lemma start_permuted : permuted (u8 <$> seqZ 0 256).
Proof.
  unfold permuted. rewrite (list_fmap_ext _ id); [by rewrite list_fmap_id|].
  intros k x Hx. apply lookup_seqZ in Hx as [-> ?]. apply u8_small. unfold id. unfold_ints. lia.
Qed.

Lemma random_init_ok seed g : ∃ g', random_init seed g = Ok (tt, g') ∧ rng_ok g' ∧ inited g' = true.
Proof.
  destruct (key_loop_ok 256 (word_bytes seed) 0 0 (u8 <$> seqZ 0 256)) as (l & E & Hl);
    [apply start_permuted|unfold_ints; lia|lia|lia|done|].
  exists (Rng l 0 0 true). unfold random_init. cbn [mbind st_bind]. unfold lift. rewrite E.
  split_and!; [done| |done]. split; cbn; [done|unfold_ints; lia..].
Qed.

(** One byte: the state stays a permutation, and the state before can be told from that after. *)
Lemma random_byte_ok g :
  rng_ok g → inited g = true →
  ∃ b g', random_byte g = Ok (b, g') ∧ is_u8 b ∧ rng_ok g' ∧ inited g' = true ∧
    s_i g' = u8 (s_i g + 1) ∧ swap_byte (s_i g') (s_j g') (s g') = Ok (s g) ∧
    ∃ x, s g' !! Z.to_nat (s_j g') = Some x ∧ is_u8 x ∧ s_j g' = u8 (s_j g + x).
Proof.
  intros [Hs Hi Hj] Hin. specialize (Hs Hin). unfold random_byte.
  set (i := u8 (s_i g + 1)). assert (is_u8 i) as Hi' by apply u8_range.
  destruct (permuted_lookup _ i Hs Hi') as (x & Hx & Hx8). rewrite Hx. cbn.
  set (j := u8 (s_j g + x)). assert (is_u8 j) as Hj' by apply u8_range.
  destruct (swap_byte_spec i j _ Hs Hi' Hj') as (l & x' & y & E & Hl & E1 & E2 & E3 & E4 & E5).
  rewrite Hx in E1. injection E1 as <-. rewrite E. cbn. rewrite E3. cbn. rewrite E4. cbn.
  destruct (permuted_lookup _ (u8 (y + x)) Hl (u8_range _)) as (b & Hb & Hb8). rewrite Hb. cbn.
  eexists b, _. split; [done|]. cbn. split_and!; [done|by split|done|done|done|by exists x].
Qed.

Lemma random_byte_inj g1 g2 b1 b2 g :
  rng_ok g1 → rng_ok g2 → inited g1 = true → inited g2 = true →
  random_byte g1 = Ok (b1, g) → random_byte g2 = Ok (b2, g) → g1 = g2.
Proof.
  intros H1 H2 Hi1 Hi2 E1 E2.
  destruct (random_byte_ok g1 H1 Hi1) as (? & g1' & E1' & _ & _ & _ & A1 & B1 & x1 & C1 & _ & D1).
  destruct (random_byte_ok g2 H2 Hi2) as (? & g2' & E2' & _ & _ & _ & A2 & B2 & x2 & C2 & _ & D2).
  rewrite E1 in E1'. rewrite E2 in E2'. simplify_eq.
  destruct g1 as [s1 i1 j1 n1], g2 as [s2 i2 j2 n2]; cbn in *. subst. simplify_eq.
  destruct H1 as [_ Hi1 Hj1], H2 as [_ Hi2 Hj2]; cbn in *.
  assert (i1 = i2 ∧ j1 = j2) as [-> ->]; [|congruence].
  rewrite A1 in A2. rewrite D1 in D2. unfold u8, is_u8 in *. split; Z.div_mod_to_equations; lia.
Qed.

Lemma bytes_loop_ok n g :
  rng_ok g → inited g = true →
  ∃ bs g', bytes_loop n g = Ok (bs, g') ∧ length bs = n ∧ Forall is_u8 bs ∧ rng_ok g' ∧ inited g' = true.
Proof.
  revert g. induction n as [|n IH]; intros g Hg Hin; [by eexists [], g|].
  destruct (random_byte_ok g Hg Hin) as (b & g1 & E & Hb & Hg1 & Hin1 & _).
  destruct (IH g1 Hg1 Hin1) as (bs & g' & E' & Hl & Hbs & Hg' & Hin').
  exists (b :: bs), g'. cbn. unfold mbind, st_bind. rewrite E, E'. split_and!; [done|cbn; lia|by constructor|done..].
Qed.

Lemma bytes_loop_app n m g :
  bytes_loop (n + m) g = (xs ← bytes_loop n; ys ← bytes_loop m; mret (xs ++ ys)) g.
Proof.
  revert g. induction n as [|n IH]; intros g; cbn.
  - unfold mbind, st_bind, mret, st_ret. by destruct (bytes_loop m g) as [[]|].
  - unfold mbind, st_bind, mret, st_ret in *. destruct (random_byte g) as [[b g1]|]; [|done].
    rewrite IH. destruct (bytes_loop n g1) as [[xs g2]|]; [|done]. by destruct (bytes_loop m g2) as [[]|].
Qed.

Lemma bytes_loop_inj n g1 g2 b1 b2 g :
  rng_ok g1 → rng_ok g2 → inited g1 = true → inited g2 = true →
  bytes_loop n g1 = Ok (b1, g) → bytes_loop n g2 = Ok (b2, g) → g1 = g2.
Proof.
  revert g1 g2 b1 b2. induction n as [|n IH]; intros g1 g2 b1 b2 H1 H2 Hi1 Hi2 E1 E2.
  { cbn in *. unfold mret, st_ret in *. congruence. }
  destruct (random_byte_ok g1 H1 Hi1) as (x1 & g1' & F1 & _ & Hg1 & Hin1 & _).
  destruct (random_byte_ok g2 H2 Hi2) as (x2 & g2' & F2 & _ & Hg2 & Hin2 & _).
  cbn in E1, E2. unfold mbind, st_bind, mret, st_ret in *. rewrite F1 in E1. rewrite F2 in E2.
  destruct (bytes_loop n g1') as [[y1 g1'']|] eqn:L1; [|done].
  destruct (bytes_loop n g2') as [[y2 g2'']|] eqn:L2; [|done]. simplify_eq.
  assert (g1' = g2') as <- by by eapply IH. by eapply random_byte_inj.
Qed.

(** The key of the published test vector, and its key stream. *)
Example rc4_wiki :
  (random_init 0x696b6957;; random_bytes 6) rng_zero ≫= (λ '(bs, _), Ok bs) =
  Ok [0x60; 0x44; 0xdb; 0x6d; 0x41; 0xb7].
Proof. vm_compute. reflexivity. Qed.

(** C36.  Whatever the seed, [random_init] makes a state of the generator: a permutation of
    the 256 bytes.  From such a state, or from the zero state of the image, [random_bytes]
    reads and writes only inside the array and delivers as many bytes as asked, leaves such a state, and
    the bytes of two requests are those of one request for both.  States are not lost: two that
    lead to the same state after the same number of bytes are the same. *)
Theorem random_bytes_ok g n :
  rng_ok g →
  (∀ seed, ∃ g0, random_init seed g = Ok (tt, g0) ∧ rng_ok g0 ∧ inited g0 = true) ∧
  (∃ bs g', random_bytes n g = Ok (bs, g') ∧ length bs = n ∧ Forall is_u8 bs ∧ rng_ok g' ∧ inited g' = true ∧
    (∀ m, ∃ cs g'', random_bytes m g' = Ok (cs, g'') ∧ random_bytes (n + m) g = Ok (bs ++ cs, g'')) ∧
    (∀ h ds, inited g = true → rng_ok h → inited h = true → random_bytes n h = Ok (ds, g') → h = g)).
Proof.
  intros Hg. split; [intros; apply random_init_ok|].
  assert (Hs : ∃ g0, rng_ok g0 ∧ inited g0 = true ∧ (inited g = true → g0 = g) ∧
    ∀ k, random_bytes k g = bytes_loop k g0).
  { destruct (inited g) eqn:Hin.
    - exists g. split_and!; [done..|]. intros k. unfold random_bytes, mbind, st_bind, gets, id. by rewrite Hin.
    - destruct (random_init_ok 0 g) as (g0 & E & Hg0 & Hin0). exists g0. split_and!; [done..|].
      intros k. unfold random_bytes, mbind, st_bind, gets, id. by rewrite Hin, E. }
  assert (Hin' : ∀ k h, inited h = true → random_bytes k h = bytes_loop k h).
  { intros k h Hh. unfold random_bytes, mbind, st_bind, gets, id. by rewrite Hh. }
  destruct Hs as (g0 & Hg0 & Hin0 & Heq & Hb).
  destruct (bytes_loop_ok n g0 Hg0 Hin0) as (bs & g' & E & Hl & H8 & Hg' & Hg'in).
  exists bs, g'. rewrite Hb. split_and!; [done..| |].
  - intros m. destruct (bytes_loop_ok m g' Hg' Hg'in) as (cs & g'' & E' & _).
    exists cs, g''. split; [by rewrite Hin'|].
    rewrite Hb, bytes_loop_app. unfold mbind, st_bind. by rewrite E, E'.
  - intros h ds Hin Hh Hhin. rewrite Hin' by done. intros E'. rewrite <- (Heq Hin). by eapply bytes_loop_inj.
Qed.

Lemma random_bytes_ok_witness :
  rng_ok rng_zero ∧ ∃ bs g', random_bytes 3 rng_zero = Ok (bs, g') ∧ length bs = 3%nat.
Proof.
  assert (H : rng_ok rng_zero) by (split; cbn; [done|unfold_ints; lia..]).
  split; [exact H|]. destruct (random_bytes_ok rng_zero 3 H) as [_ (bs & g' & E & Hl & _)]. exists bs, g'. exact (conj E Hl).
Defined.
