(* ===== verification/IntQ.v ===== *)
(** * devices/intq.c: the queue between interrupt handlers and threads

    A ring of 64 bytes with a lock, and the two threads that wait for room and for data.  Its
    functions run with interrupts off, so a thread in them is interrupted only where it goes
    to sleep: on the lock, or in [wait].  A thread that sleeps is in [sleeping] with the call it
    is in and the place to go on from; a step is the part of a call between two such places.
    The thread that [sema_up] wakes is the one of the highest priority; priorities are those of
    [Thread], and here any thread that waits may be chosen ([pick]).

    Shown: the bytes come out in the order they went in, nobody sleeps without need, and which
    assertions can fail, among them that of [wait] when two threads read the keyboard. *)

From S2P Require Import Prelude.

Definition INTQ_BUFSIZE : Z := 64.

(** [struct intq], with the fields of its lock. *)
Record intq : Type := Intq {
  value : Z;                 (* lock.semaphore.value *)
  lock_waiters : list Z;     (* lock.semaphore.waiters *)
  holder : option Z;         (* lock.holder *)
  not_full : option Z;
  not_empty : option Z;
  buf : list Z;
  head : Z;
  tail : Z;
}.

Inductive call : Type := Getc | Putc (byte : Z).

(** Where a thread that sleeps goes on, and whether it has been woken. *)
Inductive place : Type := OnLock | LockReady | InWait | WaitReady.

Inductive waiter : Type := Not_full | Not_empty.

#[export] Instance place_eq_dec : EqDecision place.
Proof. solve_decision. Defined.

#[export] Instance waiter_eq_dec : EqDecision waiter.
Proof. solve_decision. Defined.

Record system : Type := System {
  q : intq;
  sleeping : gmap Z (call * place);
}.

(** The state of the processor: the interrupt level, and who runs. *)
Record cpu : Type := Cpu { intr_off : bool; intr_context : bool; thread_current : Z }.

Abbreviation M := (ST system).

Definition set_ring b h t q := Intq (value q) (lock_waiters q) (holder q) (not_full q) (not_empty q) b h t.
Definition set_lock v ws h q := Intq v ws h (not_full q) (not_empty q) (buf q) (head q) (tail q).
Definition set_waiter w t q :=
  match w with
  | Not_full => Intq (value q) (lock_waiters q) (holder q) t (not_empty q) (buf q) (head q) (tail q)
  | Not_empty => Intq (value q) (lock_waiters q) (holder q) (not_full q) t (buf q) (head q) (tail q)
  end.
Definition get_waiter w q := match w with Not_full => not_full q | Not_empty => not_empty q end.

Definition upd (f : intq → intq) : M unit := modify (λ s, System (f (q s)) (sleeping s)).
Definition sleep (t : Z) (c : call) (p : place) : M unit := modify (λ s, System (q s) (<[t := (c, p)]> (sleeping s))).
Definition awake (t : Z) : M unit := modify (λ s, System (q s) (delete t (sleeping s))).

(** [buf] is what the memory of the queue holds, which [intq_init] leaves as it is. *)
Definition intq_init (buf : list Z) : intq := Intq 1 [] None None None buf 0 0.

Definition next (pos : Z) : Z := Z.rem (pos + 1) INTQ_BUFSIZE.

Definition empty (q : intq) : bool := head q =? tail q.
Definition full (q : intq) : bool := next (head q) =? tail q.

Definition intq_empty (c : cpu) : M bool := assert (intr_off c);; gets (λ s, empty (q s)).
Definition intq_full (c : cpu) : M bool := assert (intr_off c);; gets (λ s, full (q s)).

(** ** The scheduler and the lock

    The calls that the queue makes to thread.c and synch.c, reduced to what it can see of them:
    who sleeps, who holds the lock.  [Thread] and [Synch] have the functions in full, with
    priorities and donations. *)

Definition thread_unblock (t : Z) : M unit :=
  s ← gets id;
  match sleeping s !! t with
  | Some (op, OnLock) => sleep t op LockReady
  | Some (op, InWait) => sleep t op WaitReady
  | _ => fail AssertFailed
  end.

(** The value is false when the thread goes to sleep and comes back to the loop. *)
Definition sema_down (c : cpu) (op : call) : M bool :=
  assert (negb (intr_context c));;
  s ← gets id;
  if value (q s) =? 0 then
    upd (λ q, set_lock (value q) (lock_waiters q ++ [thread_current c]) (holder q) q);;
    sleep (thread_current c) op OnLock;;
    mret false
  else
    upd (λ q, set_lock (value q - 1) (lock_waiters q) (holder q) q);;
    mret true.

Definition sema_up (pick : nat) : M unit :=
  s ← gets id;
  (match lock_waiters (q s) with
   | [] => mret tt
   | ws =>
       t ← lift (deref (ws !! pick));
       upd (λ q, set_lock (value q) (delete pick ws) (holder q) q);;
       thread_unblock t
   end);;
  upd (λ q, set_lock (value q + 1) (lock_waiters q) (holder q) q).

(** What [lock_acquire] does from the loop of [sema_down] on. *)
Definition lock_take (c : cpu) (op : call) : M bool :=
  ok ← sema_down c op;
  if ok : bool then
    upd (λ q, set_lock (value q) (lock_waiters q) (Some (thread_current c)) q);;
    mret true
  else mret false.

Definition lock_acquire (c : cpu) (op : call) : M bool :=
  assert (negb (intr_context c));;
  s ← gets id;
  assert (negb (bool_decide (holder (q s) = Some (thread_current c))));;
  lock_take c op.

Definition lock_release (c : cpu) (pick : nat) : M unit :=
  s ← gets id;
  assert (bool_decide (holder (q s) = Some (thread_current c)));;
  upd (λ q, set_lock (value q) (lock_waiters q) None q);;
  sema_up pick.

(** ** Waiting and signalling *)

Definition wait (c : cpu) (op : call) (w : waiter) : M unit :=
  assert (negb (intr_context c));;
  assert (intr_off c);;
  e ← intq_empty c;
  f ← intq_full c;
  assert (match w with Not_empty => e | Not_full => f end);;
  upd (set_waiter w (Some (thread_current c)));;
  sleep (thread_current c) op InWait.

Definition signal (c : cpu) (w : waiter) : M unit :=
  assert (intr_off c);;
  e ← intq_empty c;
  f ← intq_full c;
  assert (match w with Not_empty => negb e | Not_full => negb f end);;
  s ← gets id;
  match get_waiter w (q s) with
  | Some t => thread_unblock t;; upd (set_waiter w None)
  | None => mret tt
  end.

(** ** The operations

    Each up to the point where it returns a byte or the thread goes to sleep ([None]). *)

Definition waiter_of (op : call) : waiter := match op with Getc => Not_empty | Putc _ => Not_full end.

(** The body of the two loops, from after [lock_acquire]. *)
Definition wait_body (c : cpu) (op : call) (acquired : bool) : M (option Z) :=
  if acquired then wait c op (waiter_of op);; mret None else mret None.

Definition getc_loop (c : cpu) : M (option Z) :=
  e ← intq_empty c;
  if e : bool then
    assert (negb (intr_context c));;
    ok ← lock_acquire c Getc;
    wait_body c Getc ok
  else
    s ← gets id;
    byte ← lift (deref (buf (q s) !! Z.to_nat (tail (q s))));
    upd (λ q, set_ring (buf q) (head q) (next (tail q)) q);;
    signal c Not_full;;
    mret (Some byte).

Definition intq_getc (c : cpu) : M (option Z) := assert (intr_off c);; getc_loop c.

Definition putc_loop (c : cpu) (byte : Z) : M (option Z) :=
  f ← intq_full c;
  if f : bool then
    assert (negb (intr_context c));;
    ok ← lock_acquire c (Putc byte);
    wait_body c (Putc byte) ok
  else
    s ← gets id;
    (if bool_decide (Z.to_nat (head (q s)) < length (buf (q s)))%nat then
       upd (λ q, set_ring (<[Z.to_nat (head q) := byte]> (buf q)) (head q) (tail q) q)
     else fail MemoryFault);;
    upd (λ q, set_ring (buf q) (next (head q)) (tail q) q);;
    signal c Not_empty;;
    mret (Some byte).

Definition intq_putc (c : cpu) (byte : Z) : M (option Z) := assert (intr_off c);; putc_loop c byte.

Definition loop (c : cpu) (op : call) : M (option Z) :=
  match op with Getc => getc_loop c | Putc byte => putc_loop c byte end.

Definition start (c : cpu) (op : call) : M (option Z) :=
  match op with Getc => intq_getc c | Putc byte => intq_putc c byte end.

(** A thread that was woken goes on: with the lock it waited for, or after [wait]. *)
Definition resume (c : cpu) (op : call) (p : place) (pick : nat) : M (option Z) :=
  awake (thread_current c);;
  match p with
  | LockReady => ok ← lock_take c op; wait_body c op ok
  | WaitReady => lock_release c pick;; loop c op
  | OnLock | InWait => mret None
  end.

(** ** Steps *)

Inductive io : Type := In (byte : Z) | Out (byte : Z).
Inductive actor : Type := Thread (t : Z) | Handler (op : call).

Definition io_of (op : call) (r : option Z) : list io :=
  match op, r with
  | _, None => []
  | Getc, Some byte => [Out byte]
  | Putc _, Some byte => [In byte]
  end.

Definition outcome (op : call) (r : result (option Z * system)) : result (list io * system) :=
  '(b, s) ← r; mret (io_of op b, s).

(** Threads run with interrupts off; a handler runs on the stack of some thread. *)
Definition thread_cpu (t : Z) : cpu := Cpu true false t.
Definition handler_cpu (t : Z) : cpu := Cpu true true t.

Definition runnable (p : place) : bool := match p with LockReady | WaitReady => true | _ => false end.

(** [pick] is the position of a thread that waits, if there is one. *)
Definition pick_ok (pick : nat) (q : intq) : Prop := lock_waiters q = [] ∨ (pick < length (lock_waiters q))%nat.

Inductive step (s : system) : actor → result (list io * system) → Prop :=
  | step_call t op :
      sleeping s !! t = None → step s (Thread t) (outcome op (start (thread_cpu t) op s))
  | step_resume t op p pick :
      sleeping s !! t = Some (op, p) → runnable p = true → pick_ok pick (q s) →
      step s (Thread t) (outcome op (resume (thread_cpu t) op p pick s))
  | step_handler t op :
      step s (Handler op) (outcome op (start (handler_cpu t) op s)).

(** The states that runs of the actors in [P] reach, with the bytes that went in and out. *)
Inductive reachable (P : system → actor → Prop) (mem : list Z) : list io → system → Prop :=
  | reachable_init : reachable P mem [] (System (intq_init mem) ∅)
  | reachable_step tr s a l s' :
      reachable P mem tr s → P s a → step s a (Ok (l, s')) → reachable P mem (tr ++ l) s'.

Definition ins (tr : list io) : list Z := omap (λ e, match e with In b => Some b | Out _ => None end) tr.
Definition outs (tr : list io) : list Z := omap (λ e, match e with Out b => Some b | In _ => None end) tr.

(** ** Invariant *)

(** The bytes in the queue, the oldest first. *)
Definition contents (q : intq) : list Z :=
  (λ i, buf q !!! Z.to_nat ((tail q + i) mod INTQ_BUFSIZE)) <$> seqZ 0 ((head q - tail q) mod INTQ_BUFSIZE).

Definition must_wait (op : call) (q : intq) : bool := match op with Getc => empty q | Putc _ => full q end.

Record ring_ok (q : intq) : Prop := {
  ring_buf : length (buf q) = Z.to_nat INTQ_BUFSIZE;
  ring_head : 0 ≤ head q < INTQ_BUFSIZE;
  ring_tail : 0 ≤ tail q < INTQ_BUFSIZE;
}.

Definition holds (p : place) : Prop := p = InWait ∨ p = WaitReady.

(** What holds of the call and place of thread [t], which sleeps. *)
Definition asleep (s : system) (t : Z) (P : call → place → Prop) : Prop :=
  match sleeping s !! t with Some (op, p) => P op p | None => False end.

(** The lock and the waiting threads agree with the threads that sleep. *)
Record core (s : system) : Prop := {
  core_ring : ring_ok (q s);
  core_value : value (q s) = match holder (q s) with Some _ => 0 | None => 1 end;
  core_holder t : holder (q s) = Some t ↔ asleep s t (λ _, holds);
  core_waiters t : t ∈ lock_waiters (q s) ↔ asleep s t (λ _ p, p = OnLock);
  core_nodup : NoDup (lock_waiters (q s));
  core_waiter w t : get_waiter w (q s) = Some t ↔ asleep s t (λ op p, waiter_of op = w ∧ p = InWait);
}.

(** A thread sleeps in [wait] only while it has to. *)
Record inv (s : system) : Prop := {
  inv_core : core s;
  inv_cond t op : sleeping s !! t = Some (op, InWait) → must_wait op (q s) = true;
}.

(** Some thread that sleeps will run before those on the lock. *)
Definition progress (s : system) : Prop :=
  lock_waiters (q s) ≠ [] → ∃ t op p, sleeping s !! t = Some (op, p) ∧ p ≠ OnLock.

(** *** The ring *)

Lemma next_mod pos : 0 ≤ pos < INTQ_BUFSIZE → next pos = (pos + 1) mod INTQ_BUFSIZE.
Proof. intros H. unfold next, INTQ_BUFSIZE in *. rewrite Z.rem_mod_nonneg; lia. Qed.

Lemma next_range pos : 0 ≤ pos < INTQ_BUFSIZE → 0 ≤ next pos < INTQ_BUFSIZE.
Proof. intros H. rewrite next_mod by done. apply Z.mod_pos_bound. done. Qed.

Lemma length_contents q : Z.of_nat (length (contents q)) = (head q - tail q) mod INTQ_BUFSIZE.
Proof.
  unfold contents. rewrite length_fmap, length_seqZ.
  pose proof (Z.mod_pos_bound (head q - tail q) INTQ_BUFSIZE eq_refl). lia.
Qed.

Lemma diff_next h t :
  0 ≤ h < INTQ_BUFSIZE → 0 ≤ t < INTQ_BUFSIZE → (next h =? t) = false →
  (next h - t) mod INTQ_BUFSIZE = (h - t) mod INTQ_BUFSIZE + 1.
Proof.
  intros Hh Ht Hf. rewrite Z.eqb_neq, next_mod in Hf by done. rewrite next_mod by done.
  unfold INTQ_BUFSIZE in *. Z.div_mod_to_equations. lia.
Qed.

Lemma diff_tail h t :
  0 ≤ h < INTQ_BUFSIZE → 0 ≤ t < INTQ_BUFSIZE → (h =? t) = false →
  (h - t) mod INTQ_BUFSIZE = (h - next t) mod INTQ_BUFSIZE + 1.
Proof.
  intros Hh Ht Hf. rewrite Z.eqb_neq in Hf. rewrite next_mod by done.
  unfold INTQ_BUFSIZE in *. Z.div_mod_to_equations. lia.
Qed.

Lemma contents_put q0 b :
  ring_ok q0 → full q0 = false →
  let q' := set_ring (<[Z.to_nat (head q0) := b]> (buf q0)) (next (head q0)) (tail q0) q0 in
  contents q' = contents q0 ++ [b] ∧ ring_ok q' ∧ empty q' = false.
Proof.
  intros [Hb Hh Ht] Hf q'. pose proof (diff_next _ _ Hh Ht Hf) as Hd.
  split_and!.
  - unfold contents, q'; cbn [buf head tail set_ring]. rewrite Hd.
    pose proof (Z.mod_pos_bound (head q0 - tail q0) INTQ_BUFSIZE eq_refl) as [H0 H1].
    rewrite seqZ_app by lia. rewrite fmap_app, Z.add_0_l. f_equal.
    + apply list_fmap_ext. intros k i Hi. apply lookup_seqZ in Hi as [-> Hk].
      rewrite list_lookup_total_insert_ne; [done|].
      unfold INTQ_BUFSIZE in *. Z.div_mod_to_equations. lia.
    + rewrite seqZ_cons by lia. rewrite seqZ_nil by lia. cbn -[Z.modulo]. f_equal.
      replace (Z.to_nat ((tail q0 + (head q0 - tail q0) mod INTQ_BUFSIZE) mod INTQ_BUFSIZE)) with (Z.to_nat (head q0)).
      * apply list_lookup_total_insert_eq. lia.
      * unfold INTQ_BUFSIZE in *. Z.div_mod_to_equations. lia.
  - unfold q'. split; cbn [buf head tail set_ring]; [by rewrite length_insert|by apply next_range|done].
  - unfold empty, q'; cbn [head tail set_ring]. by rewrite <- Hf.
Qed.

Lemma contents_take q :
  ring_ok q → empty q = false →
  let q' := set_ring (buf q) (head q) (next (tail q)) q in
  ∃ b, buf q !! Z.to_nat (tail q) = Some b ∧ contents q = b :: contents q' ∧ ring_ok q' ∧ full q' = false.
Proof.
  intros [Hb Hh Ht] He q'. pose proof (diff_tail _ _ Hh Ht He) as Hd.
  destruct (lookup_lt_is_Some_2 (buf q) (Z.to_nat (tail q))) as [b Hl]; [lia|].
  exists b. split_and!; [done| | |].
  - unfold contents, q'; cbn [buf head tail set_ring]. rewrite Hd.
    pose proof (Z.mod_pos_bound (head q - next (tail q)) INTQ_BUFSIZE eq_refl) as [H0 H1].
    rewrite seqZ_cons, Z.add_1_r, Z.pred_succ by lia. cbn -[Z.modulo].
    rewrite Z.add_0_r, (Z.mod_small (tail q)) by done. f_equal.
    + by apply list_lookup_total_correct.
    + change (Z.succ 0) with (1 + 0). rewrite <- fmap_add_seqZ, <- list_fmap_compose. apply list_fmap_ext.
      intros k i Hi. cbn -[Z.modulo]. do 2 f_equal. rewrite next_mod by done.
      unfold INTQ_BUFSIZE. rewrite Zplus_mod_idemp_l. f_equal. lia.
  - unfold q'. split; cbn [buf head tail set_ring]; [done|done|by apply next_range].
  - unfold full, q'; cbn [head tail set_ring]. unfold empty in He. rewrite Z.eqb_neq in He. rewrite !next_mod by done.
    unfold INTQ_BUFSIZE in *. apply Z.eqb_neq. Z.div_mod_to_equations. lia.
Qed.

Lemma empty_not_full q : ring_ok q → empty q = true → full q = false.
Proof.
  intros [_ Hh Ht]. unfold empty, full. rewrite Z.eqb_eq, Z.eqb_neq. intros <-.
  rewrite next_mod by done. unfold INTQ_BUFSIZE in *. Z.div_mod_to_equations. lia.
Qed.

(** *** The operations keep it *)

Definition same_ring (q q' : intq) : Prop := buf q' = buf q ∧ head q' = head q ∧ tail q' = tail q.

Lemma same_ring_facts q q' :
  same_ring q q' → (ring_ok q → ring_ok q') ∧ contents q' = contents q ∧ empty q' = empty q ∧ full q' = full q ∧
    (∀ op, must_wait op q' = must_wait op q).
Proof.
  intros (Hb & Hh & Ht). unfold contents, empty, full, must_wait, empty, full. rewrite Hb, Hh, Ht.
  split_and!; [|done..]. intros [??]. split; congruence.
Qed.

Local Ltac run := unfold mbind, st_bind, mret, st_ret, assert, lift, ASSERT, gets, modify, id; cbn.

Lemma must_wait_w op q : must_wait op q = match waiter_of op with Not_empty => empty q | Not_full => full q end.
Proof. by destruct op. Qed.

Lemma asleep_insert s q' t op p u P :
  asleep (System q' (<[t := (op, p)]> (sleeping s))) u P ↔ if decide (u = t) then P op p else asleep s u P.
Proof.
  unfold asleep; cbn. case_decide; [subst; by rewrite lookup_insert_eq|by rewrite lookup_insert_ne].
Qed.

Lemma asleep_delete s q' t u P :
  asleep (System q' (delete t (sleeping s))) u P ↔ u ≠ t ∧ asleep s u P.
Proof.
  unfold asleep; cbn. destruct (decide (u = t)) as [->|].
  - rewrite lookup_delete_eq. naive_solver.
  - rewrite lookup_delete_ne by done. naive_solver.
Qed.

Lemma get_set_waiter w w' t q0 : get_waiter w (set_waiter w' t q0) = if decide (w = w') then t else get_waiter w q0.
Proof. by destruct w, w'. Qed.

Lemma set_waiter_lock w t q0 :
  value (set_waiter w t q0) = value q0 ∧ holder (set_waiter w t q0) = holder q0 ∧
  lock_waiters (set_waiter w t q0) = lock_waiters q0 ∧ same_ring q0 (set_waiter w t q0).
Proof. by destruct w. Qed.

(** A piece of a call of thread [t] puts [t] to sleep, or wakes threads from [wait]. *)
Definition frame (t : Z) (s s' : system) : Prop := ∀ u op p,
  sleeping s' !! u = Some (op, p) →
  sleeping s !! u = Some (op, p) ∨ (u = t ∧ (p = OnLock ∨ p = InWait)) ∨
  (p = WaitReady ∧ sleeping s !! u = Some (op, InWait)).

Lemma frame_insert t s q' op p :
  p = OnLock ∨ p = InWait → frame t s (System q' (<[t := (op, p)]> (sleeping s))).
Proof. intros Hp u op' p'. cbn. rewrite lookup_insert_Some. intros [[<- [= <- <-]]|[_ ?]]; auto. Qed.

(** [signal] wakes the thread that waits for what has become true. *)
Lemma signal_spec c w s :
  intr_off c = true → core s →
  match w with Not_empty => empty (q s) | Not_full => full (q s) end = false →
  (∀ t op, sleeping s !! t = Some (op, InWait) → waiter_of op ≠ w → must_wait op (q s) = true) →
  ∃ s', signal c w s = Ok (tt, s') ∧ inv s' ∧ same_ring (q s) (q s') ∧ (progress s → progress s') ∧
    (∀ u, frame u s s').
Proof.
  intros Hoff Hc Hw Hcond. pose proof Hc as [Hring Hv Hh Hws Hnd Hwt].
  unfold signal, intq_empty, intq_full. run. rewrite !Hoff. run.
  replace (match w with Not_empty => _ | Not_full => _ end) with true by (destruct w; by rewrite Hw).
  run. destruct (get_waiter w (q s)) as [t|] eqn:Ht.
  - pose proof (proj1 (Hwt w t) Ht) as Hs. unfold asleep in Hs.
    destruct (sleeping s !! t) as [[op p]|] eqn:Hst; [|done]. destruct Hs as [Hop ->].
    unfold thread_unblock. run. rewrite Hst. run. eexists. split; [done|].
    pose proof (set_waiter_lock w None (q s)) as (E1 & E2 & E3 & E4).
    pose proof (same_ring_facts _ _ E4) as (F1 & _ & _ & _ & F5).
    assert (Hat : ∀ P, asleep s t P ↔ P op InWait) by (intros P; unfold asleep; by rewrite Hst).
    split_and!; [|done| |].
    + split; [split|]; cbn.
      * auto.
      * by rewrite E1, E2.
      * intros u. rewrite E2, Hh, asleep_insert. case_decide; [subst u|done]. rewrite Hat. unfold holds. intuition congruence.
      * intros u. rewrite E3, Hws, asleep_insert. case_decide; [subst u|done]. rewrite Hat. intuition congruence.
      * by rewrite E3.
      * intros w' u. rewrite get_set_waiter, asleep_insert. repeat case_decide; subst.
        -- intuition congruence.
        -- rewrite <- Hwt, Ht. naive_solver.
        -- rewrite Hwt, Hat. intuition congruence.
        -- apply Hwt.
      * intros u op'. rewrite lookup_insert_Some, F5. intros [[? ?]|[Hne Hu]]; [congruence|].
        apply (Hcond u); [done|]. intros <-.
        assert (get_waiter (waiter_of op') (q s) = Some u) as Hx; [|congruence].
        apply Hwt. unfold asleep. by rewrite Hu.
    + intros Hp Hne. destruct Hp as (u & op' & p & Hu & Hp); [by rewrite <- E3|]. cbn.
      destruct (decide (u = t)) as [->|]; [exists t, op, WaitReady; by rewrite lookup_insert_eq|].
      exists u, op', p. by rewrite lookup_insert_ne.
    + intros ? u op' p'. cbn. rewrite lookup_insert_Some. intros [[<- [= <- <-]]|[_ ?]]; auto.
  - run. exists s. split_and!; [done| |done|done|by intros ????; left]. split; [by split|].
    intros t op Hs. apply (Hcond t op Hs). intros <-.
    assert (get_waiter (waiter_of op) (q s) = Some t) as Hx; [|congruence].
    apply Hwt. unfold asleep. by rewrite Hs.
Qed.

(** Neither the lock nor [wait] lets a thread sleep without need; [wait] fails an assertion when
    what it waits for is there already. *)
Lemma wait_spec c op s :
  intr_off c = true → intr_context c = false → inv s → sleeping s !! thread_current c = None →
  let m := ok ← lock_take c op; wait_body c op ok in
  (holder (q s) = None ∧ must_wait op (q s) = false ∧ m s = Err AssertFailed) ∨
  ∃ s', m s = Ok (None, s') ∧ inv s' ∧ progress s' ∧ same_ring (q s) (q s') ∧ frame (thread_current c) s s'.
Proof.
  intros Hoff Hctx [[Hring Hv Hh Hws Hnd Hwt] Hcond] Hcur m.
  assert (Hno : ∀ P, ¬ asleep s (thread_current c) P) by (intros P HP; unfold asleep in HP; by rewrite Hcur in HP).
  unfold m, lock_take, sema_down. run. rewrite Hctx. run. rewrite Hv.
  destruct (holder (q s)) as [h|] eqn:Hhold.
  - right. run. eexists. split; [done|]. split_and!; [|intros _; cbn|done|apply frame_insert; auto].
    + split; [split|]; cbn.
      * destruct Hring; by split.
      * by rewrite Hhold.
      * intros u. rewrite Hhold, Hh, asleep_insert. case_decide; [subst u|done].
        split; [by intros []%Hno|by intros [|]].
      * intros u. rewrite elem_of_app, list_elem_of_singleton, Hws, asleep_insert.
        case_decide; [subst u; intuition|intuition congruence].
      * apply NoDup_app. split_and!; [done| |apply NoDup_singleton].
        intros u ?%Hws ->%list_elem_of_singleton. by eapply Hno.
      * intros w u. rewrite (Hwt w u), asleep_insert. case_decide; [subst u|done].
        split; [by intros []%Hno|by intros []].
      * intros u op'. rewrite lookup_insert_Some. intros [[? ?]|[_ Hu]]; [congruence|]. by apply (Hcond u).
    + pose proof (proj1 (Hh h) eq_refl) as Hs. unfold asleep in Hs.
      destruct (sleeping s !! h) as [[op' p]|] eqn:Hsh; [|done].
      exists h, op', p. rewrite lookup_insert_ne by congruence. split; [done|]. by destruct Hs; subst.
  - run. unfold wait, intq_empty, intq_full. run. rewrite Hctx, Hoff. run. rewrite ?Hoff.
    change (empty (set_lock _ _ _ _)) with (empty (q s)). change (full (set_lock _ _ _ _)) with (full (q s)).
    rewrite <- must_wait_w. destruct (must_wait op (q s)) eqn:Hm; [right|by left]. run.
    eexists. split; [done|].
    match goal with |- context [set_waiter ?w ?t ?x] =>
      destruct (set_waiter_lock w t x) as (E1 & E2 & E3 & E4); set (q1 := set_waiter w t x) in *
    end.
    cbn in E1, E2, E3. rewrite Hv in E1.
    assert (E : same_ring (q s) q1) by done. pose proof (same_ring_facts _ _ E) as (F1 & _ & _ & _ & F5).
    assert (Hnone : ∀ w, get_waiter w (q s) = None).
    { intros w. destruct (get_waiter w (q s)) as [u|] eqn:Hu; [|done]. apply Hwt in Hu.
      assert (None = Some u) as Hx; [apply Hh|done]. unfold asleep in *.
      destruct (sleeping s !! u) as [[]|]; [|done]. left. naive_solver. }
    split_and!; [|intros _; cbn|done|apply frame_insert; auto].
    + split; [split|]; cbn.
      * auto.
      * by rewrite E1, E2.
      * intros u. rewrite E2, asleep_insert. case_decide; [subst u; unfold holds; intuition|].
        rewrite <- Hh. split; congruence.
      * intros u. rewrite E3, Hws, asleep_insert. case_decide; [subst u|done].
        split; [by intros []%Hno|done].
      * by rewrite E3.
      * intros w u. unfold q1. rewrite get_set_waiter, asleep_insert. case_decide.
        -- subst w. case_decide; [subst u; intuition|]. rewrite <- Hwt, Hnone. split; congruence.
        -- change (get_waiter w (set_lock _ _ _ _)) with (get_waiter w (q s)).
           case_decide; [subst u|by rewrite Hwt]. rewrite Hnone. split; [done|]. intros [<- _]. congruence.
      * intros u op'. rewrite lookup_insert_Some, F5. intros [[? [= <-]]|[_ Hu]]; [done|]. by apply (Hcond u).
    + exists (thread_current c), op, InWait. by rewrite lookup_insert_eq.
Qed.

(** What a piece of a call does to the contents. *)
Definition moves (l : list io) (c c' : list Z) : Prop := outs l ++ c' = c ++ ins l.

(** The outcome of a piece of a call of thread [t] that does not fail. *)
Definition fine (t : Z) (op : call) (s : system) (r : result (option Z * system)) : Prop :=
  ∃ b s', r = Ok (b, s') ∧ inv s' ∧ progress s' ∧ moves (io_of op b) (contents (q s)) (contents (q s')) ∧ frame t s s'.

Lemma moves_same c : moves [] c c.
Proof. unfold moves; cbn. by rewrite app_nil_r. Qed.

Lemma loop_spec c op s :
  intr_off c = true → inv s → progress s →
  (intr_context c = false → sleeping s !! thread_current c = None) →
  if must_wait op (q s) && intr_context c then loop c op s = Err AssertFailed
  else ∀ t, (intr_context c = false → t = thread_current c) → fine t op s (loop c op s).
Proof.
  intros Hoff Hi Hp Hcur. pose proof Hi as [Hc Hcond]. pose proof Hc as [Hring Hv Hh Hws Hnd Hwt].
  assert (Hl : loop c op s = match op with Getc => getc_loop c s | Putc b => putc_loop c b s end) by by destruct op.
  destruct (must_wait op (q s)) eqn:Hm.
  - destruct (intr_context c) eqn:Hctx; cbn [andb].
    + rewrite Hl. destruct op; cbn in Hm; unfold getc_loop, putc_loop, intq_empty, intq_full; run;
        rewrite Hoff; run; by rewrite Hm, Hctx.
    + specialize (Hcur eq_refl). intros t Et. specialize (Et eq_refl) as ->.
      assert (Hne : bool_decide (holder (q s) = Some (thread_current c)) = false).
      { apply bool_decide_eq_false. intros Hx%Hh. unfold asleep in Hx. by rewrite Hcur in Hx. }
      assert (Hlw : loop c op s = (ok ← lock_take c op; wait_body c op ok) s).
      { rewrite Hl. destruct op; cbn in Hm; unfold getc_loop, putc_loop, intq_empty, intq_full, lock_acquire; run;
          rewrite Hoff; run; rewrite Hm, Hctx; run; rewrite ?Hctx; run; by rewrite Hne. }
      destruct (wait_spec c op s Hoff Hctx Hi Hcur) as [(_ & ? & _)|(s' & E & Hi' & Hp' & Hr & Hf)]; [congruence|].
      exists None, s'. rewrite Hlw. split_and!; [done..| |done].
      replace (io_of op None) with (@nil io) by by destruct op.
      pose proof (same_ring_facts _ _ Hr) as (_ & -> & _). apply moves_same.
  - cbn [andb]. intros t0 _. rewrite Hl. clear Hl. destruct op as [|b]; cbn in Hm.
    + destruct (contents_take _ Hring Hm) as (b & Hb & Hcont & Hring' & Hfull).
      unfold getc_loop, intq_empty. run. rewrite Hoff. run. rewrite Hm. run. rewrite Hb. run.
      match goal with |- context [signal c Not_full ?x] => set (s1 := x) end.
      destruct (signal_spec c Not_full s1) as (s' & E & Hi' & Hr & Hp' & Hf); [done|by split|done| |].
      { intros t op Hs Hne. destruct op; [|done]. exfalso.
        pose proof (Hcond t Getc Hs) as Hx. cbn in Hx. congruence. }
      rewrite E. exists (Some b), s'. split_and!; [done|done|by apply Hp'| |apply Hf].
      pose proof (same_ring_facts _ _ Hr) as (_ & -> & _). unfold moves; cbn. by rewrite app_nil_r, Hcont.
    + destruct (contents_put _ b Hring Hm) as (Hcont & Hring' & Hemp).
      unfold putc_loop, intq_full. run. rewrite Hoff. run. rewrite Hm. run.
      rewrite bool_decide_eq_true_2 by (destruct Hring; unfold INTQ_BUFSIZE in *; lia). run.
      match goal with |- context [signal c Not_empty ?x] => set (s1 := x) end.
      destruct (signal_spec c Not_empty s1) as (s' & E & Hi' & Hr & Hp' & Hf); [done|by split|done| |].
      { intros t op Hs Hne. destruct op as [|b']; [done|]. exfalso.
        pose proof (Hcond t (Putc b') Hs) as Hx. cbn in Hx. congruence. }
      rewrite E. exists (Some b), s'. split_and!; [done|done|by apply Hp'| |apply Hf].
      pose proof (same_ring_facts _ _ Hr) as (_ & -> & _). unfold moves; cbn. by rewrite <- Hcont.
Qed.

(** A thread that comes back from [wait] gives up the lock, and wakes one that waits for it. *)
Lemma release_spec c op s pick :
  inv s → sleeping s !! thread_current c = Some (op, WaitReady) → pick_ok pick (q s) →
  ∃ s', lock_release c pick (System (q s) (delete (thread_current c) (sleeping s))) = Ok (tt, s') ∧
    inv s' ∧ progress s' ∧ sleeping s' !! thread_current c = None ∧ same_ring (q s) (q s') ∧
    (lock_waiters (q s) = [] → sleeping s' = delete (thread_current c) (sleeping s)).
Proof.
  intros [[Hring Hv Hh Hws Hnd Hwt] Hcond] Hcur Hpick.
  assert (Hat : ∀ P, asleep s (thread_current c) P ↔ P op WaitReady) by (intros P; unfold asleep; by rewrite Hcur).
  assert (Hhold : holder (q s) = Some (thread_current c)) by (apply Hh, Hat; by right).
  rewrite Hhold in Hv.
  assert (Hh' : ∀ u, u ≠ thread_current c → ¬ asleep s u (λ _, holds)).
  { intros u Hne Hx%Hh. congruence. }
  unfold lock_release, sema_up. run. rewrite bool_decide_eq_true_2 by done. run.
  destruct (lock_waiters (q s)) as [|w0 ws] eqn:Hlw.
  - run. rewrite Hv. eexists. split; [done|]. split_and!; cbn; [|by intros []|by rewrite lookup_delete_eq|done|done].
    split; [split|]; cbn.
    + destruct Hring; by split.
    + done.
    + intros u. rewrite asleep_delete. split; [done|]. intros [Hne Hx]. by destruct (Hh' u Hne).
    + intros u. rewrite asleep_delete, (Hws u). split; [|by intros []].
      intros Hx. split; [|done]. intros ->. by apply Hat in Hx.
    + done.
    + intros w u. rewrite asleep_delete. change (get_waiter w _) with (get_waiter w (q s)). rewrite Hwt.
      split; [|by intros []]. intros Hx. split; [|done]. intros ->. by apply Hat in Hx as [_ ?].
    + intros u op'. rewrite lookup_delete_Some. intros [_ Hu]. by apply (Hcond u).
  - destruct Hpick as [|Hpick]; [congruence|]. rewrite <- Hlw in Hws, Hnd |- *.
    destruct (lookup_lt_is_Some_2 _ _ Hpick) as [t Ht]. rewrite Ht. run.
    pose proof (proj1 (Hws t) (list_elem_of_lookup_2 _ _ _ Ht)) as Hs. unfold asleep in Hs.
    destruct (sleeping s !! t) as [[op' p]|] eqn:Hst; [|done]. subst p.
    assert (Htc : t ≠ thread_current c) by (intros ->; congruence).
    assert (Hatt : ∀ P, asleep s t P ↔ P op' OnLock) by (intros P; unfold asleep; by rewrite Hst).
    unfold thread_unblock. run. rewrite lookup_delete_ne, Hst by done. run. rewrite Hv.
    eexists. split; [done|].
    set (s0 := System (q s) (delete (thread_current c) (sleeping s))).
    pose proof (delete_Permutation _ _ _ Ht) as Hperm.
    assert (Hin : ∀ u, u ∈ lock_waiters (q s) ↔ u = t ∨ u ∈ delete pick (lock_waiters (q s))).
    { intros u. rewrite Hperm at 1. by rewrite elem_of_cons. }
    assert (Hnd' : ¬ (t ∈ delete pick (lock_waiters (q s))) ∧ NoDup (delete pick (lock_waiters (q s)))).
    { rewrite Hperm in Hnd at 1. by apply NoDup_cons in Hnd. }
    split_and!; cbn.
    + split; [split|]; cbn; change (delete (thread_current c) (sleeping s)) with (sleeping s0).
      * destruct Hring; by split.
      * done.
      * intros u. rewrite asleep_insert. split; [done|]. case_decide; [by intros []|].
        unfold s0. rewrite asleep_delete. intros [Hne Hx]. by destruct (Hh' u Hne).
      * intros u. rewrite asleep_insert. case_decide.
        -- subst u. split; [by intros ?%Hnd'|done].
        -- specialize (Hin u). specialize (Hws u). unfold s0. rewrite asleep_delete. split; [|naive_solver].
           intros Hx. split; [|naive_solver]. intros ->. assert (Hy : thread_current c ∈ lock_waiters (q s)) by naive_solver.
           by apply Hws, Hat in Hy.
      * by destruct Hnd'.
      * intros w u. change (get_waiter w _) with (get_waiter w (q s)). rewrite Hwt, asleep_insert. case_decide.
        -- subst u. rewrite Hatt. naive_solver.
        -- unfold s0. rewrite asleep_delete. split; [|by intros []].
           intros Hx. split; [|done]. intros ->. by apply Hat in Hx as [_ ?].
      * intros u op2. unfold s0; cbn. rewrite lookup_insert_Some, lookup_delete_Some.
        intros [[? ?]|[? [? Hu]]]; [congruence|]. by apply (Hcond u).
    + intros _. exists t, op', LockReady. cbn. by rewrite lookup_insert_eq.
    + by rewrite lookup_insert_ne, lookup_delete_eq.
    + done.
    + intros Hnil. by rewrite Hnil in Ht.
Qed.

(** A thread that was woken from the lock runs again. *)
Lemma awake_ready s t op :
  inv s → sleeping s !! t = Some (op, LockReady) → inv (System (q s) (delete t (sleeping s))).
Proof.
  intros [[Hring Hv Hh Hws Hnd Hwt] Hcond] Hs.
  assert (Hat : ∀ P, asleep s t P ↔ P op LockReady) by (intros P; unfold asleep; by rewrite Hs).
  assert (Hd : ∀ u P, ¬ P op LockReady → asleep s u P ↔ u ≠ t ∧ asleep s u P).
  { intros u P HP. split; [|by intros []]. intros Hx. split; [|done]. intros ->. by apply HP, Hat. }
  split; [split|]; cbn; [done|done| | |done| |].
  - intros u. rewrite asleep_delete, <- Hd; [apply Hh|by intros []].
  - intros u. rewrite asleep_delete, <- Hd; [apply Hws|done].
  - intros w u. rewrite asleep_delete, <- Hd; [apply Hwt|by intros []].
  - intros u op'. rewrite lookup_delete_Some. intros [_ Hu]. by apply (Hcond u).
Qed.

(** What fails: a handler that does not look before it calls, and a thread that gets the lock
    after what it wants to wait for has happened. *)
Definition failing (s : system) (a : actor) : Prop :=
  match a with
  | Handler op => must_wait op (q s) = true
  | Thread t => ∃ op, sleeping s !! t = Some (op, LockReady) ∧ holder (q s) = None ∧ must_wait op (q s) = false
  end.

Lemma start_spec c op s : intr_off c = true → start c op s = loop c op s.
Proof. intros H. destruct op; unfold start, intq_getc, intq_putc; run; by rewrite H. Qed.

Lemma step_spec s a r :
  inv s → progress s → step s a r →
  (r = Err AssertFailed ∧ failing s a) ∨
  ∃ l s', r = Ok (l, s') ∧ inv s' ∧ progress s' ∧ moves l (contents (q s)) (contents (q s')).
Proof.
  intros Hi Hp Hstep.
  assert (Hfine : ∀ t op s0 m, contents (q s0) = contents (q s) → fine t op s0 (m s) →
    ∃ l s', outcome op (m s) = Ok (l, s') ∧ inv s' ∧ progress s' ∧ moves l (contents (q s)) (contents (q s'))).
  { intros t op s0 m <- (b & s' & -> & Hi' & Hp' & Hm & _). by eexists _, s'. }
  destruct Hstep as [t op Ht|t op p pick Ht Hrun Hpick|t op].
  - right. apply (Hfine t op s); [done|]. rewrite start_spec by done.
    pose proof (loop_spec (thread_cpu t) op s eq_refl Hi Hp (λ _, Ht)) as H. rewrite andb_false_r in H. by apply H.
  - destruct p; try done; unfold resume; run.
    + pose proof (awake_ready _ _ _ Hi Ht) as Hi0.
      destruct (wait_spec (thread_cpu t) op (System (q s) (delete t (sleeping s))) eq_refl eq_refl Hi0)
        as [(Hh & Hm & E)|(s' & E & Hi' & Hp' & Hr & _)]; [apply lookup_delete_eq|left|right];
        unfold mbind, st_bind in E; rewrite E; [by eauto|].
      exists [], s'. split_and!; [by destruct op|done..|].
      pose proof (same_ring_facts _ _ Hr) as (_ & Hcont & _). rewrite Hcont. apply moves_same.
    + right. destruct (release_spec (thread_cpu t) op s pick Hi Ht Hpick) as (s1 & E & Hi1 & Hp1 & Hs1 & Hr & _).
      cbn in E. rewrite E. pose proof (same_ring_facts _ _ Hr) as (_ & Hcont & _ & _ & _).
      pose proof (loop_spec (thread_cpu t) op s1 eq_refl Hi1 Hp1 (λ _, Hs1)) as H. rewrite andb_false_r in H.
      apply (Hfine t op s1 (λ _, loop (thread_cpu t) op s1)); [done|]. by apply H.
  - rewrite start_spec by done.
    pose proof (loop_spec (handler_cpu t) op s eq_refl Hi Hp) as H. cbn [intr_context handler_cpu] in H.
    rewrite andb_true_r in H. destruct (must_wait op (q s)) eqn:Hm.
    + left. rewrite H by done. by split.
    + right. apply (Hfine t op s (loop (handler_cpu t) op)); [done|]. by apply H.
Qed.

Lemma init_inv mem : length mem = Z.to_nat INTQ_BUFSIZE → inv (System (intq_init mem) ∅) ∧ progress (System (intq_init mem) ∅).
Proof.
  intros Hm. split; [|by intros []].
  assert (Hno : ∀ t P, asleep (System (intq_init mem) ∅) t P ↔ False).
  { intros t P. unfold asleep. cbn. by rewrite lookup_empty. }
  split; [split|]; cbn; [by split|done| | |constructor| |done].
  - intros t. by rewrite Hno.
  - intros t. by rewrite Hno, elem_of_nil.
  - intros w t. rewrite Hno. by destruct w.
Qed.

Lemma reachable_inv P mem tr s :
  length mem = Z.to_nat INTQ_BUFSIZE → reachable P mem tr s →
  inv s ∧ progress s ∧ outs tr ++ contents (q s) = ins tr.
Proof.
  intros Hm. induction 1 as [|tr s a l s' Hr IH HP Hstep].
  - destruct (init_inv mem Hm). split_and!; [done..|]. done.
  - destruct IH as (Hi & Hp & Hio).
    destruct (step_spec s a _ Hi Hp Hstep) as [[? _]|(l' & s1 & [= <- <-] & Hi' & Hp' & Hmv)]; [done|].
    split_and!; [done..|]. unfold outs, ins in *. rewrite !omap_app, <- Hio, <- !app_assoc. f_equal. exact Hmv.
Qed.

Lemma must_wait_contents op q0 :
  ring_ok q0 →
  must_wait op q0 = true ↔ Z.of_nat (length (contents q0)) = match op with Getc => 0 | Putc _ => INTQ_BUFSIZE - 1 end.
Proof.
  intros [_ Hh Ht]. rewrite length_contents. destruct op; cbn; unfold empty, full; rewrite Z.eqb_eq.
  - unfold INTQ_BUFSIZE in *. Z.div_mod_to_equations. lia.
  - rewrite next_mod by done. unfold INTQ_BUFSIZE in *. Z.div_mod_to_equations. lia.
Qed.

(** *** One thread *)

(** One thread and handlers that look before they call, as those of the keyboard and the serial
    port do. *)
Definition one_thread (t : Z) (s : system) (a : actor) : Prop :=
  match a with Thread u => u = t | Handler op => must_wait op (q s) = false end.

Definition alone (t : Z) (s : system) : Prop :=
  ∀ u op p, sleeping s !! u = Some (op, p) → u = t ∧ holds p.

Lemma alone_frame t s s' : inv s' → progress s' → alone t s → frame t s s' → alone t s'.
Proof.
  intros [Hc _] Hp Ha Hf.
  assert (Hno : ∀ u op, sleeping s' !! u = Some (op, OnLock) → u = t → False).
  { intros u op Hu ->. destruct Hp as (v & op' & p & Hv & Hne).
    - assert (t ∈ lock_waiters (q s')) as Hin; [apply (core_waiters _ Hc); unfold asleep; by rewrite Hu|].
      intros E. rewrite E in Hin. by apply elem_of_nil in Hin.
    - apply Hne. destruct (Hf v op' p Hv) as [Hs|[[-> _]|[-> Hs]]].
      + apply Ha in Hs as [-> _]. congruence.
      + congruence.
      + apply Ha in Hs as [-> _]. congruence. }
  intros u op p Hu. destruct (Hf u op p Hu) as [Hs|[[-> [->| ->]]|[-> Hs]]].
  - by eapply Ha.
  - by destruct (Hno _ _ Hu).
  - split; [done|]. by left.
  - split; [by eapply Ha|]. by right.
Qed.

Lemma alone_step t s a l s' :
  inv s → progress s → alone t s → one_thread t s a → step s a (Ok (l, s')) → alone t s'.
Proof.
  intros Hi Hp Ha Hone Hstep.
  assert (Hws : lock_waiters (q s) = []).
  { destruct (lock_waiters (q s)) as [|u ws] eqn:E; [done|]. exfalso.
    assert (u ∈ lock_waiters (q s)) as Hu by (rewrite E; by left). apply Hi in Hu. unfold asleep in Hu.
    destruct (sleeping s !! u) as [[op p]|] eqn:Hsu; [|done]. subst p. by destruct (Ha _ _ _ Hsu) as [_ [|]]. }
  assert (Hfine : ∀ op s0 (r : result (option Z * system)), alone t s0 → fine t op s0 r →
    outcome op r = Ok (l, s') → alone t s').
  { intros op s0 r Ha0 (b & s1 & -> & Hi' & Hp' & _ & Hf) [= _ <-]. by eapply alone_frame. }
  inversion Hstep as [u op Hu Ea E|u op p pick Hu Hrun Hpick Ea E|u op Ea E].
  - subst a. cbn in Hone. subst u. apply (Hfine op s (start (thread_cpu t) op s)); [done| |done]. rewrite start_spec by done.
    pose proof (loop_spec (thread_cpu t) op s eq_refl Hi Hp (λ _, Hu)) as H. rewrite andb_false_r in H. by apply H.
  - subst a. cbn in Hone. subst u. destruct (Ha _ _ _ Hu) as [_ [->| ->]]; [done|].
    destruct (release_spec (thread_cpu t) op s pick Hi Hu Hpick) as (s1 & E1 & Hi1 & Hp1 & Hs1 & Hr & Hsl).
    unfold resume in E. cbn in E1. revert E. run. rewrite E1. apply (Hfine op s1).
    + intros u op' p'. rewrite Hsl by done. cbn. rewrite lookup_delete_Some. intros [_ ?]. by eapply Ha.
    + pose proof (loop_spec (thread_cpu t) op s1 eq_refl Hi1 Hp1 (λ _, Hs1)) as H. rewrite andb_false_r in H. by apply H.
  - subst a. apply (Hfine op s (start (handler_cpu u) op s)); [done| |done]. rewrite start_spec by done.
    pose proof (loop_spec (handler_cpu u) op s eq_refl Hi Hp) as H. cbn in Hone. rewrite Hone in H. by apply H.
Qed.

Lemma alone_reachable t mem tr s :
  length mem = Z.to_nat INTQ_BUFSIZE → reachable (one_thread t) mem tr s → alone t s.
Proof.
  intros Hm Hr. induction Hr as [|tr s a l s' Hr IH HP Hstep].
  - intros u op p. cbn. by rewrite lookup_empty.
  - destruct (reachable_inv _ _ _ _ Hm Hr) as (Hi & Hp & _). by eapply alone_step.
Qed.

(** *** Schedules *)

Inductive item : Type := Call (t : Z) (op : call) | Resume (t : Z) (pick : nat) | Interrupt (op : call).

Definition actor_of (i : item) : actor :=
  match i with Call t _ | Resume t _ => Thread t | Interrupt op => Handler op end.

Definition pick_okb (pick : nat) (q : intq) : bool :=
  bool_decide (lock_waiters q = [] ∨ (pick < length (lock_waiters q))%nat).

(** The step an item stands for, if it can be taken; interrupts come while thread 0 runs. *)
Definition do_item (s : system) (i : item) : option (result (list io * system)) :=
  match i with
  | Call t op =>
      match sleeping s !! t with None => Some (outcome op (start (thread_cpu t) op s)) | Some _ => None end
  | Resume t pick =>
      match sleeping s !! t with
      | Some (op, p) =>
          if runnable p && pick_okb pick (q s) then Some (outcome op (resume (thread_cpu t) op p pick s)) else None
      | None => None
      end
  | Interrupt op => Some (outcome op (start (handler_cpu 0) op s))
  end.

Fixpoint run_items (sched : list item) (tr : list io) (s : system) : option (list io * system) :=
  match sched with
  | [] => Some (tr, s)
  | i :: sched => match do_item s i with Some (Ok (l, s)) => run_items sched (tr ++ l) s | _ => None end
  end.

Lemma do_item_step s i r : do_item s i = Some r → step s (actor_of i) r.
Proof.
  destruct i as [t op|t pick|op]; cbn.
  - destruct (sleeping s !! t) eqn:E; [done|]. intros [= <-]. by constructor.
  - destruct (sleeping s !! t) as [[op p]|] eqn:E; [|done].
    destruct (runnable p) eqn:Hr; [|done]. unfold pick_okb. case_bool_decide; [|done].
    intros [= <-]. by econstructor.
  - intros [= <-]. constructor.
Qed.

Lemma run_items_reachable P mem sched tr s tr' s' :
  (∀ i s, i ∈ sched → P s (actor_of i)) →
  reachable P mem tr s → run_items sched tr s = Some (tr', s') → reachable P mem tr' s'.
Proof.
  revert tr s. induction sched as [|i sched IH]; intros tr s HP Hr H; cbn in H; [by simplify_eq|].
  destruct (do_item s i) as [[[l s1]|]|] eqn:E; try done.
  apply (IH (tr ++ l) s1); [|eapply reachable_step; [done|apply HP; by left|by apply do_item_step]|done].
  intros j s0 Hj. apply HP. by right.
Qed.

Definition zeros : list Z := replicate (Z.to_nat INTQ_BUFSIZE) 0.
Definition fresh : system := System (intq_init zeros) ∅.

Definition two_readers : list item :=
  [Call 1 Getc; Call 2 Getc; Interrupt (Putc 97); Interrupt (Putc 98); Resume 1 0].
Definition reader_and_writer : list item :=
  Call 1 Getc :: ((λ b, Call 2 (Putc b)) <$> seqZ 0 64) ++ [Resume 1 0].

(** The state after a schedule. *)
Definition after (sched : list item) : list io * system := default ([], fresh) (run_items sched [] fresh).

Lemma after_reachable (P : system → actor → Prop) sched :
  (∀ i s, i ∈ sched → P s (actor_of i)) → is_Some (run_items sched [] fresh) →
  reachable P zeros (after sched).1 (after sched).2.
Proof.
  intros HP [[tr s] E]. unfold after. rewrite E. cbn.
  eapply run_items_reachable; [done|apply reachable_init|done].
Qed.

(** C35.  Every interleaving of threads and handlers keeps the queue in order: the bytes
    read so far, then those in the ring, are the bytes put so far, and at most 63 are in the
    ring.  A thread waits in [wait] only while the ring is empty, or full for a writer; a thread
    waits for the lock only while another thread has it, or is about to go on.  The next
    step of any actor succeeds, or fails an assertion in one of two cases: a handler reads
    an empty or writes a full ring, or a thread gets the free lock when what it is going to wait for
    has already happened. *)
Theorem intq_fifo P mem tr s :
  length mem = Z.to_nat INTQ_BUFSIZE → reachable P mem tr s →
  outs tr ++ contents (q s) = ins tr ∧
  Z.of_nat (length (contents (q s))) ≤ INTQ_BUFSIZE - 1 ∧
  (∀ t op, sleeping s !! t = Some (op, InWait) →
    Z.of_nat (length (contents (q s))) = match op with Getc => 0 | Putc _ => INTQ_BUFSIZE - 1 end) ∧
  (∀ t op, sleeping s !! t = Some (op, OnLock) → ∃ u op' p, sleeping s !! u = Some (op', p) ∧ p ≠ OnLock) ∧
  (∀ a r, step s a r → (∃ l s', r = Ok (l, s')) ∨ r = Err AssertFailed ∧ failing s a).
Proof.
  intros Hm Hr. destruct (reachable_inv _ _ _ _ Hm Hr) as (Hi & Hp & Hio).
  pose proof (core_ring _ (inv_core _ Hi)) as Hring. split_and!; [done| | | |].
  - rewrite length_contents. pose proof (Z.mod_pos_bound (head (q s) - tail (q s)) INTQ_BUFSIZE eq_refl). lia.
  - intros t op Hs. apply must_wait_contents; [done|]. by apply (inv_cond _ Hi t).
  - intros t op Hs. apply Hp. assert (t ∈ lock_waiters (q s)) as Hin.
    { apply (core_waiters _ (inv_core _ Hi)). unfold asleep. by rewrite Hs. }
    intros E. rewrite E in Hin. by apply elem_of_nil in Hin.
  - intros a r Hstep. destruct (step_spec s a r Hi Hp Hstep) as [[-> ?]|(l & s' & -> & _)]; [by right|left; by eauto].
Qed.

Lemma intq_fifo_witness :
  outs (after two_readers).1 ++ contents (q (after two_readers).2) = [97; 98] ∧
  (length zeros = Z.to_nat INTQ_BUFSIZE ∧ reachable (λ _ _, True) zeros (after two_readers).1 (after two_readers).2).
Proof.
  assert (H : reachable (λ _ _, True) zeros (after two_readers).1 (after two_readers).2).
  { apply after_reachable; [done|]. eexists. vm_compute. reflexivity. }
  split; [|split; [reflexivity|exact H]].
  destruct (intq_fifo (λ _ _, True) zeros _ _ eq_refl H) as [-> _]. vm_compute. reflexivity.
Defined.

(** C37.  One thread with handlers that look before they call never fails an assertion.  Two
    threads can: when two of them wait for the keyboard and two keys come before the first runs
    again, the second gets the lock with a byte in the ring, and the assertion of [wait] that the
    ring is empty stops the kernel; likewise for a reader and a writer, without any handler,
    since they share the lock. *)
Theorem intq_failures :
  (∀ t mem tr s a r, length mem = Z.to_nat INTQ_BUFSIZE → reachable (one_thread t) mem tr s →
    one_thread t s a → step s a r → ∃ l s', r = Ok (l, s')) ∧
  (∃ s, reachable (λ _ _, True) zeros [In 97; In 98; Out 97] s ∧
    sleeping s !! 2 = Some (Getc, LockReady) ∧ contents (q s) = [98] ∧ step s (Thread 2) (Err AssertFailed)) ∧
  (∃ tr s, reachable (λ _ a, ∃ t, a = Thread t) zeros tr s ∧ outs tr = [0] ∧
    sleeping s !! 2 = Some (Putc 63, LockReady) ∧ contents (q s) = seqZ 1 62 ∧ step s (Thread 2) (Err AssertFailed)).
Proof.
  split_and!.
  - intros t mem tr s a r Hm Hr Hone Hstep. destruct (reachable_inv _ _ _ _ Hm Hr) as (Hi & Hp & _).
    destruct (step_spec s a r Hi Hp Hstep) as [[-> Hf]|(l & s' & -> & _)]; [exfalso|by eauto].
    destruct a as [u|op]; cbn in *; [subst u|congruence]. destruct Hf as (op & Hs & _).
    by destruct (alone_reachable _ _ _ _ Hm Hr _ _ _ Hs) as [_ [|]].
  - exists (after two_readers).2. split_and!.
    + assert (E : (after two_readers).1 = [In 97; In 98; Out 97]) by (vm_compute; reflexivity). rewrite <- E.
      apply after_reachable; [done|]. eexists. vm_compute. reflexivity.
    + vm_compute. reflexivity.
    + vm_compute. reflexivity.
    + apply (do_item_step _ (Resume 2 0)). vm_compute. reflexivity.
  - exists (after reader_and_writer).1, (after reader_and_writer).2. split_and!.
    + apply after_reachable; [|eexists; vm_compute; reflexivity].
      intros i s Hi. destruct i as [t op|t pick|op]; [by exists t..|exfalso].
      revert Hi. unfold reader_and_writer. rewrite elem_of_cons, elem_of_app, list_elem_of_singleton, list_elem_of_fmap.
      intros [?|[(? & ? & ?)|?]]; done.
    + vm_compute. reflexivity.
    + vm_compute. reflexivity.
    + vm_compute. reflexivity.
    + apply (do_item_step _ (Resume 2 0)). vm_compute. reflexivity.
Qed.
